(* ===== verification/_CoqProject ===== *)
-Q . S2P
Prelude.v
CommonData.v
RLP.v
Crypto.v
BlockHeader.v
TxsParser.v
Block.v
PBFTMsg.v
MsgCache.v
TimeManager.v
BlockSize.v
ReqCache.v
BlockChain.v
NonceCheck.v
TxPool.v
EngineBase.v
Engine.v
EngineSample.v
Sealer.v
EngineProps.v
EngineRun.v
TxDAG.v
ABI.v
DagTransfer.v
Transaction.v
Receipt.v
BlockVerifier.v
SyncQueue.v
SyncMaster.v
SyncConsensus.v
RaftMsg.v
Raft.v
RaftNet.v
RaftProps.v
RaftCommit.v
RaftTimers.v
Table.v
TableProps.v
TableFactory.v
TableHash.v
TableSpec.v
StorageState.v
