(* ===== verification/Prelude.v ===== *)
(** * Verification of the PBFT node of FISCO-BCOS

    The program is a permissioned block-chain node.  A sealer packs transactions from
    the pool into a block, the PBFT engine of the leader proposes it, the engines
    exchange sign and commit requests until a quorum stands behind one block, and the
    chain appends it; a view change replaces a leader that does not deliver.  This
    development models that path, from the bytes on the wire over the execution of a
    block by several threads to the committed chain, and proves what makes it correct.

    ** Parts and files

    - [Prelude]: results of code that may throw ([result]), machine integers ([wrapU],
      [wrapS]), the iteration order of unordered containers ([UnorderedIter]), tactics
      and shared lemmas.
    - [CommonData] (libdevcore/CommonData, FixedHash): hexadecimal, big-endian integers,
      hashes as integers.
    - [RLP] (libdevcore/RLP): the reader with its index memo, and the stream.
    - [Crypto] (libdevcrypto, the interface only): a class with what is assumed of
      hashing and signatures, and an instance to evaluate examples with.
    - [BlockHeader], [TxsParser], [Block] (libethcore): headers with their memoised
      hash, the offset-table encoding of transactions, blocks with their memoised
      encodings and Merkle roots.
    - [PBFTMsg] (libconsensus/pbft/Common.h): the messages, their signatures and wire
      forms, and the packet.
    - [MsgCache] (PBFTMsgCache.h), [TimeManager] (TimeManager.h), [ReqCache]
      (PBFTReqCache): the broadcast filter, the timers, and the caches of requests that
      quorums are counted from.
    - [BlockChain] (libblockchain/BlockChainImp): the tables, the block cache, reads and
      commits.  The class [BlockChainInterface] is what the other parts call, and
      [BlockChainSpec] what they rely on; [BlockChain] gives the instance.
    - [NonceCheck], [TxPool] (libtxpool): replay protection, which reads the chain
      through the class [NonceSource] with laws [NonceSpec], and the pool.
    - [EngineBase], [Engine] (libconsensus/ConsensusEngineBase, pbft/PBFTEngine): the
      engine.  The members [m_x] are the fields [eb_x] and [pe_x]; a handler is a
      function on the engine that follows the code's early returns; the calls it makes
      on other modules are recorded as [event]s; the answers of other modules while it
      runs are an [Env].  [input] and [engine_step] are the entry points, each run under
      the engine's mutex, in any order.
    - [BlockSize], [Sealer] (libconsensus/Sealer, pbft/PBFTSealer): the dynamic block
      size, and the sealer's thread on the engine, its chain and the pool.
    - [Transaction], [Receipt] (libethcore/Transaction, TransactionReceipt, LogEntry):
      transactions and receipts as objects with their formats, memos and, for logs, the
      bloom filter.  The rest of the development sees of them what blocks, pool and
      chain use ([Block], [TxPool]).
    - [ABI] (libethcore/ABI, libprecompiled/Common.cpp): the encoding of calls.
    - [TxDAG] (libblockverifier/DAG, TxDAG): the graph of the transactions of a block and
      the threads that execute it, as a transition system whose steps are the accesses
      to shared data; executing a transaction is one step.
    - [DagTransfer] (libprecompiled/extension/DagTransferPrecompiled): the transfer
      contract and its parallel tags.
    - [BlockVerifier] (libblockverifier/BlockVerifier, ExecutiveContext): serial and
      parallel execution of a block around an interpreter that is a parameter.
    - [EngineSample], [EngineProps], [EngineRun]: a concrete node; properties of single
      operations; properties of every run.
    - [SyncQueue], [SyncMaster] (libsync: RspBlockReq, DownloadingBlockQueue,
      SyncMsgPacket, SyncMsgEngine, SyncStatus, SyncMaster): how a node that is behind
      gets blocks from its peers.  [SyncMaster] is parametric in the chain, of which it
      uses [BlockChainInterface] and [BlockSource] and in its theorems the laws of
      [BlockChainGrowth], in the consensus check and in the verifier; the order of equal
      elements of a priority queue is the class [HeapOrder].
    - [SyncConsensus]: synchronisation with the engine's check, the serial verifier and
      the chain in place of these parameters.
    - [RaftMsg], [Raft] (libconsensus/raft): the other consensus engine, its messages,
      and the thread that runs it.  The members are the fields [rf_x], in groups [rl_x],
      [rt_x] and [pd_x]; an operation is an [act], a state transformer that may throw;
      the loops of leader, candidate and follower are the program counter [raft_pc], and
      [raft_step] is one turn of a loop, one received message, or a step of the sealer.
      [RaftNet] joins nodes by a network; [RaftProps], [RaftCommit] and [RaftTimers] hold
      for every run of a node.

    - [Table] (libstorage/Table, MemoryTable2): the tables that contracts and system
      contracts write, an overlay of the rows of the storage with the changes of a block.
      [TableFactory] (MemoryTableFactory2): the open tables, their authorities, and the
      log of changes with its savepoints.  [TableProps] shows how a log is undone,
      [TableSpec] what a table promises to its clients, and [TableHash] models the digest
      that many threads write, and the root of the state.
      [StorageState] (libstoragestate/StorageState): the accounts, each kept in a table.
      An operation is a [state], which transforms the factory and may throw; how numbers
      are written is the class [U256Text], of which the laws are those of the library.

    ** What the theorems show

    - Agreement.  A node commits itself to one proposal for each height, across views
      and a restart ([EngineRun.one_proposal_per_height]); a block is committed only on
      a quorum of sign and commit requests and carries a quorum of signatures
      ([EngineProps.checkAndSave_quorum]); two blocks with quorums have more than f
      common signers ([EngineProps.fork_accountability],
      [EngineBase.resetConfig_quorum]); [EngineRun.engine_invariant] holds along all
      runs.
    - Synchronisation.  A node asks for exactly the next missing blocks
      ([SyncMaster.requests_cover]), a peer sends each of them once
      ([SyncMaster.requests_answered]), they arrive ([SyncQueue.blocks_delivered]), and
      those that continue the chain are committed ([SyncMaster.download_catches_up]),
      while what is committed was signed by a quorum
      ([SyncConsensus.synced_blocks_signed]).
    - Raft.  A node leads only after an election with the votes its configuration asks
      for ([RaftProps.raft_elected_by_majority]), and decides on a block only with the
      acknowledgements, with the exceptions the code makes
      ([RaftCommit.raft_commit_acknowledged]); its timeouts stay within bounds
      ([RaftTimers.raft_timeouts]).  These exceptions are enough for two honest leaders of
      one term to fork the chain ([RaftNet.raft_two_leaders_fork]).
    - State.  To its clients a table is a map from keys to rows with savepoints
      ([TableSpec.table_refines_map]); a rollback restores all tables
      ([TableFactory.rollback_restores]); sizes are exact ([TableHash.entries_sized]), so
      that the parallel writers of the digest stay in their buffer and the root does not
      depend on the schedule ([TableHash.state_root_determined]), with one exception
      ([TableHash.tied_rows_two_digests]).
    - Accounts.  Storage and code are read back as written
      ([StorageState.storage_read_back], [StorageState.code_read_back]), transfers move
      exactly the amount ([StorageState.transfer_moves_money]), and a transaction that is
      undone leaves no trace in the accounts that were open
      ([StorageState.state_rollback]); but one that it created stays open without rows
      ([StorageState.undone_account_loses_money]).
    - Counting.  [ReqCache] relates each count and each purge to the cached requests,
      whatever the iteration order of the containers.
    - The chain.  However commits of two threads interleave with reads, the chain is
      complete, linked and append-only ([BlockChain.chain_linked_append_only]); commit is
      specified on every branch.
    - Transactions.  The nonce cache is exactly the nonces of the last blocks
      ([NonceCheck.nonce_check_exact]) and no transaction is accepted twice
      ([NonceCheck.no_replay]); the pool's structures agree after any sequence of calls
      ([TxPool.txpool_invariant]); fetching for a block is specified
      ([TxPool.topTransactions_spec]).
    - Execution.  Threads never execute a transaction twice or before one it conflicts
      with ([TxDAG.parallel_order]), they finish ([TxDAG.parallel_terminates]), and what
      they return is the serial result when unrelated transactions commute
      ([BlockVerifier.parallel_refines_serial]); the calls of the transfer contract do
      ([BlockVerifier.transfers_parallel]), and it keeps the total of the balances
      ([DagTransfer.dag_conservation]).
    - Proposing.  The block the sealer hands over passes every check a receiver and the
      chain make of it ([Sealer.sealed_block_valid]), and never repeats a transaction
      ([Sealer.doWork_sealing]).
    - Progress.  Leaders rotate ([EngineProps.leader_rotates]), timeouts grow to a bound
      ([TimeManager.backoff_monotone]), and the block size recovers after timeouts
      ([BlockSize.block_size_recovers]).
    - Encodings.  Round trips of blocks, headers, transactions, receipts, calls, messages
      and packets, with the exact
      condition where one fails ([PBFTMsg.msg_roundtrip_32bit]), and transparency of the
      memos of [RLP] and [BlockHeader].

    Some properties state a weakness of the code exactly, among them
    [EngineProps.checkBlock_one_signer], [EngineProps.prepare_lock_bypass],
    [EngineProps.sign_replayed_as_commit], [DagTransfer.balance_unordered],
    [TxDAG.empty_criticals_unordered], [ABI.int256_misread], [ABI.short_call_data],
    [BlockVerifier.bad_arguments_fail_block], [BlockVerifier.storage_exception_hangs],
    [ReqCache.rejected_commit_in_sigList], [PBFTMsg.msg_binds_low_32_bits],
    [TxsParser.txs_resize_unbounded], [TxPool.foreign_transaction_blocks_nonce],
    [TxPool.removeInvalid_keeps_filter], [SyncQueue.cutShard_throws],
    [SyncQueue.overfull_never_cleared], [SyncQueue.packets_truncate],
    [RaftNet.raft_two_leaders_fork], [RaftCommit.zero_acknowledgement_commits],
    [TableHash.tied_rows_two_digests] and [StorageState.undone_account_loses_money].

    ** Conventions and bounds

    Integers are [Z], wrapped to their width wherever the code can overflow; hashes and
    node ids are the integers they denote; maps and sets are stdpp's, and a vector is a
    list.  A [float] or [double] is an integer with its rounding ([TimeManager.roundTo]).
    Recursion that is not structural carries fuel: the RLP and Merkle loops take the
    length of their input, which is enough because each round consumes at least one
    element ([Block.merkle_root_fuel]).  Theorems about sizes ask for values below
    2^50 or 2^63 where the code's arithmetic needs it.

    ** Not modelled

    The interpreter that runs a transaction, an argument of [BlockVerifier] and, as
    [executeBlock], of the engine; cryptographic primitives; storage back ends, whose rows
    are the parameter [db] of the tables and whose refusal of a commit is the flag
    [en_dbOk]; the writing of a block's tables to the storage and the accounts kept in
    a Merkle tree (libmptstate); the network and P2P layers; the gossip of
    transactions in libsync; proposals sent as partial blocks (off by default); the
    rotating and VRF variants of PBFT; RPC, event filters and initialisation, which are
    front ends and set-up; the formats of blocks before version RC2 and the digest of
    tables before 2.2.0; waits on condition variables and the scheduling of threads,
    except where the interleaving is itself the subject ([BlockChain], [TxPool],
    [Engine], [TxDAG], [TableHash]). *)
From Stdlib Require Export ZArith Lia.
From stdpp Require Export base gmap strings list fin_maps numbers relations.
From coqutil Require Export Byte.

Global Open Scope Z_scope.

(** ** Results of code that may throw *)

(** A C++ function that may throw an exception of the family [E] returns a
    [result E A]; [Throw e] is the exception leaving the function. *)
Inductive result (E A : Type) : Type :=
| Ok (a : A)
| Throw (e : E).
Arguments Ok {E A} a.
Arguments Throw {E A} e.

Global Instance result_ret {E} : MRet (result E) := λ A a, Ok a.
Global Instance result_bind {E} : MBind (result E) := λ A B k r,
  match r with Ok a => k a | Throw e => Throw e end.
Global Instance result_fmap {E} : FMap (result E) := λ A B f r,
  match r with Ok a => Ok (f a) | Throw e => Throw e end.

(** [throw_if c e]: the idiom [if (c) BOOST_THROW_EXCEPTION(e)]. *)
Definition throw_if {E} (c : bool) (e : E) : result E unit :=
  if c then Throw e else Ok tt.

Definition is_Ok {E A} (r : result E A) : bool :=
  match r with Ok _ => true | Throw _ => false end.

(** The value of a result, or a default. *)
Definition result_get {E A} (d : A) (x : result E A) : A :=
  match x with Ok a => a | Throw _ => d end.
Lemma result_get_Ok {E A} (d : A) (x : result E A) : is_Ok x = true → x = Ok (result_get d x).
Proof. by destruct x. Qed.
Lemma result_get_pair {E A B} (d : A * B) (b : B) (x : result E (A * B)) :
  snd <$> match x with Ok v => Some v | Throw _ => None end = Some b → x = Ok ((result_get d x).1, b).
Proof. destruct x as [[a b']|]; [|done]. by intros [= ->]. Qed.

Lemma bind_Ok {E A B} (r : result E A) (k : A → result E B) b :
  (r ≫= k) = Ok b ↔ ∃ a, r = Ok a ∧ k a = Ok b.
Proof. destruct r; simpl; split; [eauto | by intros (? & [= ->] & ?) | done | by intros (? & ? & ?)]. Qed.

Lemma throw_if_Ok {E} c (e : E) u : throw_if c e = Ok u ↔ c = false.
Proof. destruct u, c; simpl; naive_solver. Qed.

(** ** Fixed-width integers *)

(** The value an unsigned (resp. two's complement) [w]-bit variable holds
    after being assigned the mathematical integer [z]. *)
Definition wrapU (w z : Z) : Z := z mod 2 ^ w.
Definition wrapS (w z : Z) : Z := (z + 2 ^ (w - 1)) mod 2 ^ w - 2 ^ (w - 1).

Lemma wrapU_range w z : 0 ≤ w → 0 ≤ wrapU w z < 2 ^ w.
Proof. intros. apply Z.mod_pos_bound. lia. Qed.

Lemma wrapU_id w z : 0 ≤ z < 2 ^ w → wrapU w z = z.
Proof. intros. by apply Z.mod_small. Qed.

Lemma wrapU_idemp w z : 0 ≤ w → wrapU w (wrapU w z) = wrapU w z.
Proof. intros. apply wrapU_id, wrapU_range; lia. Qed.

Lemma wrapS_range w z : 0 < w → - 2 ^ (w - 1) ≤ wrapS w z < 2 ^ (w - 1).
Proof.
  intros. unfold wrapS.
  assert (2 ^ w = 2 * 2 ^ (w - 1)) by (rewrite <- Z.pow_succ_r by lia; f_equal; lia).
  pose proof (Z.mod_pos_bound (z + 2 ^ (w - 1)) (2 ^ w)).
  assert (0 < 2 ^ (w - 1)) by (apply Z.pow_pos_nonneg; lia). lia.
Qed.

Lemma wrapS_id w z : 0 < w → - 2 ^ (w - 1) ≤ z < 2 ^ (w - 1) → wrapS w z = z.
Proof.
  intros. unfold wrapS.
  assert (2 ^ w = 2 * 2 ^ (w - 1)) by (rewrite <- Z.pow_succ_r by lia; f_equal; lia).
  rewrite Z.mod_small; lia.
Qed.

(** Wrapping at every step of a Horner evaluation is wrapping once at its end. *)
Lemma wrapU_step w r b : 0 ≤ w → wrapU w (wrapU w r * 256 + b) = wrapU w (r * 256 + b).
Proof.
  intros. unfold wrapU.
  rewrite Z.add_mod, Z.mul_mod_idemp_l, <- Z.add_mod by lia. done.
Qed.

Lemma wrapS_step w r b : 0 < w → wrapS w (wrapS w r * 256 + b) = wrapS w (r * 256 + b).
Proof.
  intros. unfold wrapS. f_equal.
  rewrite (Z.mod_eq (r + 2 ^ (w - 1))) by lia.
  set (q := (r + 2 ^ (w - 1)) / 2 ^ w).
  replace ((r + 2 ^ (w - 1) - 2 ^ w * q - 2 ^ (w - 1)) * 256 + b + 2 ^ (w - 1))
    with (r * 256 + b + 2 ^ (w - 1) + (- (q * 256)) * 2 ^ w) by ring.
  by rewrite Z_mod_plus_full.
Qed.

(** ** Sizes *)

(** [std::vector::size] as an integer. *)
Definition zlen {A} (l : list A) : Z := Z.of_nat (length l).

Lemma zlen_nonneg {A} (l : list A) : 0 ≤ zlen l.
Proof. unfold zlen. lia. Qed.
Lemma zlen_app {A} (l k : list A) : zlen (l ++ k) = zlen l + zlen k.
Proof. unfold zlen. rewrite length_app. lia. Qed.
Lemma zlen_cons {A} (x : A) l : zlen (x :: l) = 1 + zlen l.
Proof. unfold zlen. simpl. lia. Qed.
Lemma zlen_nil {A} : zlen (@nil A) = 0.
Proof. done. Qed.
Lemma zlen_to_nat {A} (l : list A) : Z.to_nat (zlen l) = length l.
Proof. unfold zlen. lia. Qed.

Create HintDb size.
Create Rewrite HintDb size.
#[export] Hint Rewrite @zlen_app @zlen_cons @zlen_nil : size.
#[export] Hint Resolve zlen_nonneg : size.

Ltac zsize :=
  autorewrite with size in *;
  repeat match goal with
    | |- context [zlen ?l] => lazymatch goal with
        | H : 0 ≤ zlen l |- _ => fail
        | _ => pose proof (zlen_nonneg l) end
    | _ : context [zlen ?l] |- _ => lazymatch goal with
        | H : 0 ≤ zlen l |- _ => fail
        | _ => pose proof (zlen_nonneg l) end
    end;
  try lia.

(** ** Iteration over [std::unordered_map] *)

(** The order in which a range-for visits an unordered container is
    unspecified; the standard promises only that every element is visited
    exactly once.  Definitions that iterate take the order from this class, and
    their theorems hold for every instance. *)
Class UnorderedIter := {
  uiter : ∀ {K V} `{Countable K}, gmap K V → list (K * V);
  uiter_perm : ∀ {K V} `{Countable K} (m : gmap K V), uiter m ≡ₚ map_to_list m;
}.

(** The order of stdpp's own enumeration, one of the admissible ones. *)
Definition canonicalIter : UnorderedIter :=
  {| uiter := λ K V _ _ m, map_to_list m; uiter_perm := λ K V _ _ m, Permutation_refl _ |}.

Section iter.
Context `{UnorderedIter} {K V : Type} `{Countable K}.
Implicit Types m : gmap K V.

Lemma elem_of_uiter m k v : (k, v) ∈ uiter m ↔ m !! k = Some v.
Proof. by rewrite uiter_perm, elem_of_map_to_list. Qed.

Lemma length_uiter m : length (uiter m) = size m.
Proof. by rewrite uiter_perm, length_map_to_list. Qed.

Lemma NoDup_fst_uiter m : NoDup (uiter m).*1.
Proof. rewrite uiter_perm. apply NoDup_fst_map_to_list. Qed.

Lemma uiter_empty : uiter (∅ : gmap K V) = [].
Proof.
  apply Permutation_nil. symmetry. rewrite uiter_perm. by rewrite map_to_list_empty.
Qed.
End iter.

(** ** Proof automation *)

(** Reflection of the boolean tests of the code into the propositions they
    decide, then case analysis on the remaining conditionals. *)
Create Rewrite HintDb bools.
#[export] Hint Rewrite Bool.andb_true_iff Bool.orb_true_iff Bool.negb_true_iff
  Bool.andb_false_iff Bool.orb_false_iff Bool.negb_false_iff
  Z.eqb_eq Z.eqb_neq Z.leb_le Z.leb_gt Z.ltb_lt Z.ltb_ge
  bool_decide_eq_true bool_decide_eq_false : bools.

Ltac breflect := autorewrite with bools in *.

Ltac break_if :=
  match goal with
  | |- context [if ?b then _ else _] => destruct b eqn:?
  | _ : context [if ?b then _ else _] |- _ => destruct b eqn:?
  end.

Ltac break_match :=
  match goal with
  | |- context [match ?x with _ => _ end] => destruct x eqn:?
  | _ : context [match ?x with _ => _ end] |- _ => destruct x eqn:?
  end.
