(* ===== verification/CommonData.v ===== *)
(** * Bytes, integers and hexadecimal (libdevcore/CommonData.h, CommonData.cpp,
    FixedHash.h)

    The conversions every serializer of the node rests on: big-endian integers,
    hexadecimal text and the fixed-size hashes, which the development carries as
    the integer that [FixedHash::operator Arith] converts them to. *)
From S2P Require Import Prelude.
From Stdlib Require Import Ascii.
From Stdlib Require String.
Local Open Scope Z_scope.

(** [dev::bytes] and [bytesConstRef]. *)
Abbreviation bytes := (list Init.Byte.byte).
#[global] Instance byte_eq_dec : EqDecision Init.Byte.byte := Byte.byte_eq_dec.

(** The exceptions of libdevcore/Exceptions.h that this development meets. *)
Inductive dev_exn :=
| BadCast | BadRLP | OversizeRLP | UndersizeRLP | RLPException | BadHexCharacter.
#[global] Instance dev_exn_eq_dec : EqDecision dev_exn.
Proof. solve_decision. Defined.

(** ** Integers *)

(** The integer types the templates are instantiated with. *)
Inductive intT :=
| T_uint8 | T_uint16 | T_uint32 | T_uint64 | T_int64 | T_u160 | T_u256 | T_bigint.

(** Conversion of an integer to the type. *)
Definition castT (T : intT) (z : Z) : Z :=
  match T with
  | T_uint8 => wrapU 8 z
  | T_uint16 => wrapU 16 z
  | T_uint32 => wrapU 32 z
  | T_uint64 => wrapU 64 z
  | T_int64 => wrapS 64 z
  | T_u160 => wrapU 160 z
  | T_u256 => wrapU 256 z
  | T_bigint => z
  end.

(** [toBigEndian]: the bytes are written from the last one backwards. *)
Fixpoint toBigEndian (n : nat) (val : Z) : bytes :=
  match n with
  | O => []
  | S n' => toBigEndian n' (Z.shiftr val 8) ++ [byte.of_Z (Z.land val 255)]
  end.

(** [fromBigEndian<T>]. *)
Definition fromBigEndian (T : intT) (bs : bytes) : Z :=
  foldl (λ ret b, castT T (Z.lor (Z.shiftl ret 8) (byte.unsigned b))) (castT T 0) bs.

(** [bytesRequired]; the fuel bounds the number of bytes of the argument. *)
Fixpoint bytesRequired_loop (fuel : nat) (i : Z) : Z :=
  match fuel with
  | O => 0
  | S fuel' => if i =? 0 then 0 else 1 + bytesRequired_loop fuel' (Z.shiftr i 8)
  end.
Definition bytesRequired (i : Z) : Z := bytesRequired_loop (S (Z.to_nat (Z.log2 i))) i.

(** [toCompactBigEndian]. *)
Definition toCompactBigEndian (val : Z) (min : Z) : bytes :=
  toBigEndian (Z.to_nat (Z.max min (bytesRequired val))) val.

(** ** Hexadecimal text *)

Definition hexdigits : list ascii := String.list_ascii_of_string "0123456789abcdef".
Definition hexdigit (n : Z) : ascii := nth (Z.to_nat n) hexdigits "0"%char.

(** [toHex(_it, _end, _prefix)]. *)
Definition toHexP (prefix : string) (bs : bytes) : string :=
  String.string_of_list_ascii (String.list_ascii_of_string prefix ++
    bs ≫= λ b, [hexdigit (Z.land (Z.shiftr (byte.unsigned b) 4) 15);
                hexdigit (Z.land (byte.unsigned b) 15)]).
Definition toHex (bs : bytes) : string := toHexP "" bs.
Definition toHexPrefixed (bs : bytes) : string := toHexP "0x" bs.

Definition char_code (c : ascii) : Z := Z.of_N (N_of_ascii c).

(** [fromHexChar], with -1 for a character that is no digit. *)
Definition fromHexChar (c : ascii) : Z :=
  let i := char_code c in
  if (48 <=? i) && (i <=? 57) then i - 48
  else if (97 <=? i) && (i <=? 102) then i - 97 + 10
  else if (65 <=? i) && (i <=? 70) then i - 65 + 10
  else -1.

Definition has_0x (s : list ascii) : bool :=
  match s with
  | c0 :: c1 :: _ => Ascii.eqb c0 "0" && Ascii.eqb c1 "x"
  | _ => false
  end.

(** [isHex]. *)
Definition isHex (s : string) : bool :=
  let l := String.list_ascii_of_string s in
  forallb (λ c, negb (fromHexChar c =? -1)) (if has_0x l then drop 2 l else l).

(** [isHash<T>] with [T::size = n]. *)
Definition isHash (n : Z) (hash : string) : bool :=
  let l := String.list_ascii_of_string hash in
  ((zlen l =? n * 2) || ((zlen l =? n * 2 + 2) && has_0x l)) && isHex hash.

(** The pair loop of [fromHex]; [err] is what the function does on a bad digit. *)
Fixpoint fromHex_pairs (err : result dev_exn bytes) (ret : bytes) (s : list ascii)
  : result dev_exn bytes :=
  match s with
  | h :: l :: s' =>
      if negb (fromHexChar h =? -1) && negb (fromHexChar l =? -1)
      then fromHex_pairs err (ret ++ [byte.of_Z (fromHexChar h * 16 + fromHexChar l)]) s'
      else err
  | _ => Ok ret
  end.

(** [fromHex(_s, _throw)]: a leading 0x is skipped, an odd digit stands alone. *)
Definition fromHex (s : string) (throw : bool) : result dev_exn bytes :=
  let l := String.list_ascii_of_string s in
  let err := if throw then Throw BadHexCharacter else Ok [] in
  let body := if has_0x l then drop 2 l else l in
  if Z.odd (zlen l) then
    match body with
    | c :: rest =>
        if negb (fromHexChar c =? -1)
        then fromHex_pairs err [byte.of_Z (fromHexChar c)] rest
        else err
    | [] => err
    end
  else fromHex_pairs err [] body.

(** [asNibbles]. *)
Definition asNibbles (s : bytes) : bytes :=
  s ≫= λ b, [byte.of_Z (byte.unsigned b / 16); byte.of_Z (byte.unsigned b mod 16)].

(** ** Fixed-size hashes *)

(** [FixedHash<N>::asBytes] of the hash whose arithmetic value is [h]. *)
Definition hashBytes (n : nat) (h : Z) : bytes := toBigEndian n h.

(** [FixedHash::operator<]: the first differing byte decides. *)
Fixpoint bytes_ltb (a b : bytes) : bool :=
  match a, b with
  | x :: a', y :: b' =>
      if byte.unsigned x <? byte.unsigned y then true
      else if byte.unsigned y <? byte.unsigned x then false
      else bytes_ltb a' b'
  | _, _ => false
  end.

(** ** Lemmas *)

Lemma byte_range b : 0 ≤ byte.unsigned b < 256.
Proof. pose proof (byte.unsigned_range b). lia. Qed.

Lemma unsigned_of_Z z : byte.unsigned (byte.of_Z z) = z mod 256.
Proof. by rewrite byte.unsigned_of_Z. Qed.

Lemma lor_byte r b : 0 ≤ b < 256 → Z.lor (Z.shiftl r 8) b = r * 256 + b.
Proof.
  intros Hb. rewrite Z.shiftl_mul_pow2 by lia. change (2 ^ 8) with 256.
  rewrite <- Z.add_lor_land.
  assert (Z.land (r * 256) b = 0) as ->; [| lia].
  apply Z.bits_inj'. intros n Hn. rewrite Z.land_spec, Z.bits_0.
  change 256 with (2 ^ 8). destruct (decide (n < 8)).
  - by rewrite Z.mul_pow2_bits_low.
  - rewrite (Z.bits_above_log2 b), andb_false_r; [done | lia |].
    destruct (decide (b = 0)) as [-> |]; [simpl; lia |].
    apply Z.log2_lt_pow2; [lia |]. apply Z.lt_le_trans with (2 ^ 8); [lia |].
    apply Z.pow_le_mono_r; lia.
Qed.

Lemma land_255 z : Z.land z 255 = z mod 256.
Proof. change 255 with (Z.ones 8). by rewrite Z.land_ones by lia. Qed.

Lemma shiftr_8 z : Z.shiftr z 8 = z / 256.
Proof. by rewrite Z.shiftr_div_pow2 by lia. Qed.

(** The exact value of a big-endian byte string. *)
Definition be_val (bs : bytes) : Z := foldl (λ r b, r * 256 + byte.unsigned b) 0 bs.

Lemma be_val_from r bs :
  foldl (λ r b, r * 256 + byte.unsigned b) r bs = r * 256 ^ zlen bs + be_val bs.
Proof.
  unfold be_val. revert r. induction bs as [|b bs IH]; intros r; cbn [foldl].
  - rewrite zlen_nil. lia.
  - rewrite IH, (IH (0 * 256 + byte.unsigned b)), zlen_cons, Z.pow_add_r by zsize. nia.
Qed.

Lemma be_val_cons b bs : be_val (b :: bs) = byte.unsigned b * 256 ^ zlen bs + be_val bs.
Proof. unfold be_val at 1. cbn [foldl]. by rewrite be_val_from. Qed.

Lemma be_val_app a b : be_val (a ++ b) = be_val a * 256 ^ zlen b + be_val b.
Proof. unfold be_val at 1. rewrite foldl_app. by rewrite be_val_from. Qed.

Lemma be_val_snoc a b : be_val (a ++ [b]) = be_val a * 256 + byte.unsigned b.
Proof. unfold be_val. by rewrite foldl_app. Qed.

Lemma be_val_range bs : 0 ≤ be_val bs < 256 ^ zlen bs.
Proof.
  induction bs as [|b bs IH] using rev_ind; [done |].
  rewrite be_val_snoc, zlen_app, Z.pow_add_r by zsize.
  pose proof (byte_range b). change (256 ^ zlen [b]) with 256. nia.
Qed.

Lemma castT_step T r b : castT T (castT T r * 256 + b) = castT T (r * 256 + b).
Proof. destruct T; simpl; try (by apply wrapU_step); try (by apply wrapS_step); done. Qed.

Lemma fromBigEndian_val T bs : fromBigEndian T bs = castT T (be_val bs).
Proof.
  unfold fromBigEndian. induction bs as [|b bs IH] using rev_ind; [done |].
  rewrite foldl_app. simpl. rewrite IH, be_val_snoc.
  rewrite lor_byte by apply byte_range. apply castT_step.
Qed.

Lemma length_toBigEndian n z : length (toBigEndian n z) = n.
Proof. revert z. induction n; intros; simpl; [done |]. rewrite length_app, IHn. simpl. lia. Qed.

Lemma zlen_toBigEndian n z : zlen (toBigEndian n z) = Z.of_nat n.
Proof. unfold zlen. by rewrite length_toBigEndian. Qed.
#[export] Hint Rewrite zlen_toBigEndian : size.

Lemma be_val_toBigEndian n z : be_val (toBigEndian n z) = z mod 256 ^ Z.of_nat n.
Proof.
  revert z. induction n as [|n IH]; intros z; cbn [toBigEndian].
  - change (256 ^ Z.of_nat 0) with 1. by rewrite Z.mod_1_r.
  - rewrite be_val_snoc, IH, unsigned_of_Z, land_255, shiftr_8, Z.mod_mod by lia.
    rewrite Nat2Z.inj_succ, Z.pow_succ_r, Z.rem_mul_r by lia. lia.
Qed.

Lemma toBigEndian_be_val bs : toBigEndian (length bs) (be_val bs) = bs.
Proof.
  induction bs as [|b bs IH] using rev_ind; [done |].
  rewrite length_app, Nat.add_comm. cbn [length Nat.add toBigEndian]. pose proof (byte_range b).
  rewrite be_val_snoc, shiftr_8, land_255, Z.div_add_l, (Z.div_small (byte.unsigned b)) by lia.
  rewrite Z.add_0_r, IH. f_equal. f_equal. apply byte.unsigned_inj.
  rewrite unsigned_of_Z, Z.mod_mod, Z.add_comm, Z_mod_plus_full by lia. apply Z.mod_small. lia.
Qed.

Lemma toBigEndian_inj n a b :
  0 ≤ a < 256 ^ Z.of_nat n → 0 ≤ b < 256 ^ Z.of_nat n →
  toBigEndian n a = toBigEndian n b → a = b.
Proof.
  intros Ha Hb Heq. apply (f_equal be_val) in Heq.
  rewrite !be_val_toBigEndian, !Z.mod_small in Heq; auto.
Qed.

Lemma bytesRequired_loop_spec fuel z :
  0 ≤ z < 2 ^ Z.of_nat fuel →
  let br := bytesRequired_loop fuel z in
  (z = 0 ∧ br = 0) ∨ (0 < br ∧ 256 ^ (br - 1) ≤ z < 256 ^ br).
Proof.
  revert z. induction fuel as [|fuel IH]; intros z Hz; cbn [bytesRequired_loop].
  { simpl in Hz. left. lia. }
  destruct (Z.eqb_spec z 0) as [-> |]; [by left |]. right. rewrite shiftr_8.
  assert (Hq : 0 ≤ z / 256 < 2 ^ Z.of_nat fuel).
  { split; [apply Z.div_pos; lia |]. apply Z.div_lt_upper_bound; [lia |].
    rewrite Nat2Z.inj_succ, Z.pow_succ_r in Hz by lia. lia. }
  pose proof (Z.div_mod z 256 ltac:(lia)). pose proof (Z.mod_pos_bound z 256 ltac:(lia)).
  destruct (IH _ Hq) as [[Hz0 ->] | [Hbr Hrange]].
  - split; [lia |]. change (256 ^ (1 + 0 - 1)) with 1. change (256 ^ (1 + 0)) with 256. lia.
  - set (br := bytesRequired_loop fuel (z / 256)) in *. split; [lia |].
    replace (1 + br - 1) with (Z.succ (br - 1)) by lia. rewrite Z.add_comm.
    change (br + 1) with (Z.succ br). rewrite !Z.pow_succ_r by lia. lia.
Qed.

Lemma bytesRequired_0 : bytesRequired 0 = 0.
Proof. done. Qed.

(** The number of bytes is exact: one less would not hold the value. *)
Lemma bytesRequired_spec z :
  0 < z → 0 < bytesRequired z ∧ 256 ^ (bytesRequired z - 1) ≤ z < 256 ^ bytesRequired z.
Proof.
  intros Hz. unfold bytesRequired.
  destruct (bytesRequired_loop_spec (S (Z.to_nat (Z.log2 z))) z) as [[? _] | H]; [| lia | done].
  split; [lia |]. rewrite Nat2Z.inj_succ, Z2Nat.id by apply Z.log2_nonneg.
  by apply Z.log2_spec.
Qed.

Lemma bytesRequired_nonneg z : 0 ≤ z → 0 ≤ bytesRequired z.
Proof.
  intros. destruct (decide (z = 0)) as [-> |]; [done |].
  pose proof (bytesRequired_spec z). lia.
Qed.

Lemma bytesRequired_le z n : 0 ≤ n → 0 ≤ z < 256 ^ n → bytesRequired z ≤ n.
Proof.
  intros Hn Hz. destruct (decide (z = 0)) as [-> |]; [done |].
  destruct (bytesRequired_spec z) as [Hbr Hrange]; [lia |].
  apply Z.nlt_ge. intros Hlt.
  assert (256 ^ n ≤ 256 ^ (bytesRequired z - 1)) by (apply Z.pow_le_mono_r; lia). lia.
Qed.

Lemma zlen_compact z : 0 ≤ z → zlen (toCompactBigEndian z 0) = bytesRequired z.
Proof.
  intros. pose proof (bytesRequired_nonneg z). unfold toCompactBigEndian.
  rewrite zlen_toBigEndian. lia.
Qed.

Lemma be_val_compact z : 0 ≤ z → be_val (toCompactBigEndian z 0) = z.
Proof.
  intros Hz. unfold toCompactBigEndian. rewrite be_val_toBigEndian.
  destruct (decide (z = 0)) as [-> |]; [done |].
  destruct (bytesRequired_spec z) as [Hbr Hrange]; [lia |].
  rewrite Z2Nat.id, Z.max_r, Z.mod_small; lia.
Qed.

(** The compact form of a positive integer starts with a non-zero byte. *)
Lemma compact_head z :
  0 < z → ∃ b bs, toCompactBigEndian z 0 = b :: bs ∧ 0 < byte.unsigned b.
Proof.
  intros Hz. destruct (bytesRequired_spec z) as [Hbr Hrange]; [lia |].
  pose proof (zlen_compact z ltac:(lia)) as Hlen. pose proof (be_val_compact z ltac:(lia)) as Hval.
  destruct (toCompactBigEndian z 0) as [|b bs]; [by rewrite zlen_nil in Hlen; lia |].
  exists b, bs. split; [done |]. pose proof (byte_range b). pose proof (be_val_range bs).
  apply Z.nle_gt. intros Hb. assert (byte.unsigned b = 0) as Hb0 by lia.
  rewrite be_val_cons, Hb0 in Hval. rewrite zlen_cons in Hlen.
  replace (bytesRequired z - 1) with (zlen bs) in Hrange by lia. lia.
Qed.

(** ** Hexadecimal round trip *)

(** The two digits of a byte, read back. *)
Lemma hexdigits_byte b :
  let h := fromHexChar (hexdigit (Z.land (Z.shiftr (byte.unsigned b) 4) 15)) in
  let l := fromHexChar (hexdigit (Z.land (byte.unsigned b) 15)) in
  (h =? -1) = false ∧ (l =? -1) = false ∧ byte.of_Z (h * 16 + l) = b.
Proof. destruct b; vm_compute; done. Qed.

Lemma hexdigit_not_x b :
  Ascii.eqb (hexdigit (Z.land (byte.unsigned b) 15)) "x" = false.
Proof. destruct b; reflexivity. Qed.

Lemma toHex_chars bs :
  String.list_ascii_of_string (toHex bs) =
    bs ≫= λ b, [hexdigit (Z.land (Z.shiftr (byte.unsigned b) 4) 15);
                hexdigit (Z.land (byte.unsigned b) 15)].
Proof. unfold toHex, toHexP. by rewrite String.list_ascii_of_string_of_list_ascii. Qed.

Lemma length_toHex_chars bs :
  zlen (String.list_ascii_of_string (toHex bs)) = 2 * zlen bs.
Proof.
  rewrite toHex_chars. induction bs as [|b bs IH]; [done |].
  cbn [mbind list_bind app] in *. zsize.
Qed.

Lemma fromHex_pairs_toHex err ret bs :
  fromHex_pairs err ret (String.list_ascii_of_string (toHex bs)) = Ok (ret ++ bs).
Proof.
  rewrite toHex_chars. revert ret. induction bs as [|b bs IH]; intros ret.
  - simpl. by rewrite app_nil_r.
  - cbn [mbind list_bind app fromHex_pairs].
    destruct (hexdigits_byte b) as (-> & -> & ->). cbn [negb andb].
    rewrite IH. by rewrite <- app_assoc.
Qed.

Lemma has_0x_toHex bs : has_0x (String.list_ascii_of_string (toHex bs)) = false.
Proof.
  rewrite toHex_chars. destruct bs as [|b bs]; [done |].
  cbn [mbind list_bind app has_0x]. by rewrite hexdigit_not_x, andb_false_r.
Qed.

Lemma fromHex_toHex_Ok bs throw : fromHex (toHex bs) throw = Ok bs.
Proof.
  unfold fromHex. rewrite length_toHex_chars, has_0x_toHex.
  rewrite Z.odd_mul. change (Z.odd 2) with false. simpl. by rewrite fromHex_pairs_toHex.
Qed.

(** Distinct byte strings have distinct hexadecimal texts, so that a cache keyed
    by [toHex(sig)] is keyed by the signature. *)
Global Instance toHex_inj : Inj (=) (=) toHex.
Proof.
  intros a b Heq. pose proof (fromHex_toHex_Ok a false) as Ha.
  rewrite Heq, fromHex_toHex_Ok in Ha. congruence.
Qed.

(** ** Order of hashes *)

Lemma bytes_ltb_be_val a b :
  length a = length b → bytes_ltb a b = true ↔ be_val a < be_val b.
Proof.
  revert b. induction a as [|x a IH]; intros [|y b] Hlen; simplify_eq/=.
  - unfold be_val. simpl. lia.
  - rewrite !be_val_cons.
    pose proof (be_val_range a). pose proof (be_val_range b).
    assert (zlen a = zlen b) as Hab by (unfold zlen; lia). rewrite Hab in *.
    destruct (Z.ltb_spec (byte.unsigned x) (byte.unsigned y)).
    { split; [intros _; nia | done]. }
    destruct (Z.ltb_spec (byte.unsigned y) (byte.unsigned x)).
    { split; [done | intros; nia]. }
    assert (byte.unsigned x = byte.unsigned y) as -> by lia. rewrite IH by done. lia.
Qed.
