(* ===== verification/RLP.v ===== *)
(** * Recursive length prefix encoding (libdevcore/RLP.h, RLP.cpp)

    [RLPStream] with its stack of open lists, the [RLP] reader with its memoised
    [operator[]], and the conversions the messages of the node use.  The lemmas
    of the second half say what the reader returns on what the stream wrote. *)
From S2P Require Import Prelude CommonData.
Local Open Scope Z_scope.

(** ** Constants *)

Definition c_rlpMaxLengthBytes : Z := 8.
Definition c_rlpDataImmLenStart : Z := 0x80.
Definition c_rlpListStart : Z := 0xc0.
Definition c_rlpDataImmLenCount : Z := c_rlpListStart - c_rlpDataImmLenStart - c_rlpMaxLengthBytes.
Definition c_rlpDataIndLenZero : Z := c_rlpDataImmLenStart + c_rlpDataImmLenCount - 1.
Definition c_rlpListImmLenCount : Z := 256 - c_rlpListStart - c_rlpMaxLengthBytes.
Definition c_rlpListIndLenZero : Z := c_rlpListStart + c_rlpListImmLenCount - 1.

(** [intTraits<T>::maxSize]. *)
Definition maxSize (T : intT) : Z :=
  match T with
  | T_uint8 => 1 | T_uint16 => 2 | T_uint32 => 4 | T_uint64 => 8 | T_int64 => 8
  | T_u160 => 20 | T_u256 => 32 | T_bigint => 2 ^ 32 - 1
  end.

(** The conversion flags of [RLP]. *)
Definition AllowNonCanon : Z := 1.
Definition ThrowOnFail : Z := 4.
Definition FailIfTooBig : Z := 8.
Definition FailIfTooSmall : Z := 16.
Definition Strict : Z := Z.lor ThrowOnFail FailIfTooBig.
Definition VeryStrict : Z := Z.lor (Z.lor ThrowOnFail FailIfTooBig) FailIfTooSmall.
Definition LaissezFaire : Z := AllowNonCanon.
Definition flag (s f : Z) : bool := negb (Z.land s f =? 0).

(** ** The writer *)

(** [m_listStack] holds (items still expected, offset of the payload), the
    innermost open list first. *)
Record RLPStream := mkStream { m_out : bytes; m_listStack : list (Z * Z) }.

Definition emptyStream : RLPStream := mkStream [] [].

Definition push (b : Z) (s : RLPStream) : RLPStream :=
  mkStream (m_out s ++ [byte.of_Z b]) (m_listStack s).

(** [pushInt(_i, _br)]: the room is zero-filled and written from its end. *)
Definition pushInt (i br : Z) (s : RLPStream) : RLPStream :=
  mkStream (m_out s ++ toBigEndian (Z.to_nat br) i) (m_listStack s).

(** [pushCount]. *)
Definition pushCount (count base : Z) (s : RLPStream) : result dev_exn RLPStream :=
  let br := bytesRequired count in
  _ ← throw_if (0xff <? br + base) RLPException;
  Ok (pushInt count br (push (br + base) s)).

(** The loop of [noteAppended]: a list whose last item arrived gets its header
    inserted before its payload, and counts as one item of the enclosing list. *)
Fixpoint noteAppended_loop (out : bytes) (stack : list (Z * Z)) (itemCount : Z)
  : result dev_exn RLPStream :=
  match stack with
  | [] => Ok (mkStream out [])
  | (first, p) :: stack' =>
      if first <? itemCount then Throw RLPException
      else if negb (first - itemCount =? 0)
      then Ok (mkStream out ((first - itemCount, p) :: stack'))
      else
        let s := zlen out - p in
        let brs := bytesRequired s in
        let pre := take (Z.to_nat p) out in
        let post := drop (Z.to_nat p) out in
        if s <? c_rlpListImmLenCount
        then noteAppended_loop (pre ++ [byte.of_Z (c_rlpListStart + s)] ++ post) stack' 1
        else if c_rlpListIndLenZero + brs <=? 0xff
        then noteAppended_loop
               (pre ++ [byte.of_Z (c_rlpListIndLenZero + brs)]
                    ++ toBigEndian (Z.to_nat brs) s ++ post) stack' 1
        else Throw RLPException
  end.

Definition noteAppended (itemCount : Z) (s : RLPStream) : result dev_exn RLPStream :=
  if itemCount =? 0 then Ok s else noteAppended_loop (m_out s) (m_listStack s) itemCount.

(** [appendRaw]. *)
Definition appendRaw (d : bytes) (itemCount : Z) (s : RLPStream) : result dev_exn RLPStream :=
  noteAppended itemCount (mkStream (m_out s ++ d) (m_listStack s)).

(** [appendList(bytesConstRef)]. *)
Definition appendListRaw (d : bytes) (s : RLPStream) : result dev_exn RLPStream :=
  s ← (if zlen d <? c_rlpListImmLenCount
       then Ok (push (zlen d + c_rlpListStart) s)
       else pushCount (zlen d) c_rlpListIndLenZero s);
  appendRaw d 1 s.

(** [appendList(size_t)]. *)
Definition appendList (items : Z) (s : RLPStream) : result dev_exn RLPStream :=
  if items =? 0 then appendListRaw [] s
  else Ok (mkStream (m_out s) ((items, zlen (m_out s)) :: m_listStack s)).

Fixpoint skip_zeros (d : bytes) : bytes :=
  match d with
  | b :: d' => if byte.unsigned b =? 0 then skip_zeros d' else d
  | [] => []
  end.

(** [append(bytesConstRef, _compact)]. *)
Definition appendBytes (d : bytes) (compact : bool) (s : RLPStream) : result dev_exn RLPStream :=
  let d := if compact then skip_zeros d else d in
  let short := match d with [b] => byte.unsigned b <? c_rlpDataImmLenStart | _ => false end in
  s ← (if short then Ok (mkStream (m_out s ++ d) (m_listStack s))
       else
         s ← (if zlen d <? c_rlpDataImmLenCount
              then Ok (push (zlen d + c_rlpDataImmLenStart) s)
              else pushCount (zlen d) c_rlpDataIndLenZero s);
         appendRaw d 0 s);
  noteAppended 1 s.

(** [append(bigint)]. *)
Definition appendBigint (i : Z) (s : RLPStream) : result dev_exn RLPStream :=
  s ← (if i =? 0 then Ok (push c_rlpDataImmLenStart s)
       else if i <? c_rlpDataImmLenStart then Ok (push i s)
       else
         let br := bytesRequired i in
         s ← (if br <? c_rlpDataImmLenCount
              then Ok (push (br + c_rlpDataImmLenStart) s)
              else
                let brbr := bytesRequired br in
                _ ← throw_if (0xff <? c_rlpDataIndLenZero + brbr) RLPException;
                Ok (pushInt br brbr (push (c_rlpDataIndLenZero + brbr) s)));
         Ok (pushInt i br s));
  noteAppended 1 s.

(** [append(unsigned)]: the overload that a C++ integer argument of any
    built-in type resolves to (an integral conversion is preferred to the
    user-defined conversion to [bigint]); the argument is reduced to 32 bits. *)
Definition appendUnsigned (i : Z) (s : RLPStream) : result dev_exn RLPStream :=
  appendBigint (wrapU 32 i) s.

(** [append(FixedHash<N>)], the argument being the value of the hash. *)
Definition appendHash (n : nat) (h : Z) (s : RLPStream) : result dev_exn RLPStream :=
  appendBytes (hashBytes n h) false s.

(** [appendVector], over an element appender. *)
Definition appendVector {A} (app : A → RLPStream → result dev_exn RLPStream)
    (v : list A) (s : RLPStream) : result dev_exn RLPStream :=
  s ← appendList (zlen v) s;
  foldl (λ acc a, acc ≫= app a) (Ok s) v.

(** [out] and [swapOut]: both refuse a stream with an open list. *)
Definition streamOut (s : RLPStream) : result dev_exn bytes :=
  match m_listStack s with [] => Ok (m_out s) | _ => Throw RLPException end.

(** ** The reader *)

Definition nthb (d : bytes) (i : Z) : Z :=
  match d !! Z.to_nat i with Some b => byte.unsigned b | None => 0 end.

Definition isNull (d : bytes) : bool := zlen d =? 0.
Definition isEmpty (d : bytes) : bool :=
  negb (isNull d) && ((nthb d 0 =? c_rlpDataImmLenStart) || (nthb d 0 =? c_rlpListStart)).
Definition isData (d : bytes) : bool := negb (isNull d) && (nthb d 0 <? c_rlpListStart).
Definition isList (d : bytes) : bool := negb (isNull d) && (c_rlpListStart <=? nthb d 0).
Definition isSingleByte (d : bytes) : bool :=
  negb (isNull d) && (nthb d 0 <? c_rlpDataImmLenStart).

(** [requireGood]. *)
Definition requireGood (d : bytes) : result dev_exn unit :=
  _ ← throw_if (isNull d) BadRLP;
  if negb (nthb d 0 =? c_rlpDataImmLenStart + 1) then Ok tt
  else
    _ ← throw_if (zlen d <? 2) BadRLP;
    throw_if (nthb d 1 <? c_rlpDataImmLenStart) BadRLP.

(** [isInt]. *)
Definition isInt (d : bytes) : result dev_exn bool :=
  if isNull d then Ok false
  else
    _ ← requireGood d;
    let n := nthb d 0 in
    if n <? c_rlpDataImmLenStart then Ok (negb (n =? 0))
    else if n =? c_rlpDataImmLenStart then Ok true
    else if n <=? c_rlpDataIndLenZero then
      _ ← throw_if (zlen d <=? 1) BadRLP;
      Ok (negb (nthb d 1 =? 0))
    else if n <? c_rlpListStart then
      _ ← throw_if (zlen d <=? 1 + n - c_rlpDataIndLenZero) BadRLP;
      Ok (negb (nthb d (1 + n - c_rlpDataIndLenZero) =? 0))
    else Ok false.

(** The length bytes of the long forms, [lengthSize] of them. *)
Definition longLength (d : bytes) (lengthSize min : Z) : result dev_exn Z :=
  _ ← throw_if (zlen d <=? lengthSize) BadRLP;
  _ ← throw_if (nthb d 1 =? 0) BadRLP;
  _ ← throw_if (8 <? lengthSize) UndersizeRLP;
  let ret := fromBigEndian T_uint64 (take (Z.to_nat lengthSize) (drop 1 d)) in
  _ ← throw_if (ret <? min) BadRLP;
  _ ← throw_if (2 ^ 64 - 1 - 0x100 <=? ret) UndersizeRLP;
  Ok ret.

(** [length]. *)
Definition rlpLength (d : bytes) : result dev_exn Z :=
  if isNull d then Ok 0
  else
    _ ← requireGood d;
    let n := nthb d 0 in
    if n <? c_rlpDataImmLenStart then Ok 1
    else if n <=? c_rlpDataIndLenZero then Ok (n - c_rlpDataImmLenStart)
    else if n <? c_rlpListStart then
      longLength d (n - c_rlpDataIndLenZero)
        (c_rlpListStart - c_rlpDataImmLenStart - c_rlpMaxLengthBytes)
    else if n <=? c_rlpListIndLenZero then Ok (n - c_rlpListStart)
    else longLength d (n - c_rlpListIndLenZero) (0x100 - c_rlpListStart - c_rlpMaxLengthBytes).

(** [lengthSize] and [payloadOffset]. *)
Definition lengthSize (d : bytes) : Z :=
  if isData d && (c_rlpDataIndLenZero <? nthb d 0) then nthb d 0 - c_rlpDataIndLenZero
  else if isList d && (c_rlpListIndLenZero <? nthb d 0) then nthb d 0 - c_rlpListIndLenZero
  else 0.
Definition payloadOffset (d : bytes) : Z := if isSingleByte d then 0 else 1 + lengthSize d.

(** [vector_ref::cropped]. *)
Definition cropped (d : bytes) (b c : Z) : bytes :=
  if (b <=? zlen d) && (c <=? zlen d) && (b + c <=? zlen d)
  then take (Z.to_nat c) (drop (Z.to_nat b) d) else [].
Definition croppedFrom (d : bytes) (b : Z) : bytes :=
  if b <=? zlen d then drop (Z.to_nat b) d else [].

(** [payload]. *)
Definition payload (d : bytes) : result dev_exn bytes :=
  l ← rlpLength d;
  _ ← throw_if (zlen d <? l) BadRLP;
  Ok (cropped d (payloadOffset d) l).

(** [actualSize]. *)
Definition actualSize (d : bytes) : result dev_exn Z :=
  if isNull d then Ok 0
  else if isSingleByte d then Ok 1
  else if isData d || isList d then l ← rlpLength d; Ok (payloadOffset d + l)
  else Ok 0.

(** The object: its bytes and the memo of [operator[]]. *)
Record RLP := mkRLP {
  m_data : bytes; m_lastIndex : Z; m_lastEnd : Z; m_lastItem : bytes }.
Definition freshRLP (d : bytes) : RLP := mkRLP d (2 ^ 64 - 1) 0 [].

(** [RLP(bytesConstRef, Strictness)]. *)
Definition newRLP (d : bytes) (s : Z) : result dev_exn RLP :=
  d' ← (if flag s FailIfTooBig then
          a ← actualSize d;
          if a <? zlen d then (if flag s ThrowOnFail then Throw OversizeRLP else Ok []) else Ok d
        else Ok d);
  d'' ← (if flag s FailIfTooSmall then
           a ← actualSize d';
           if zlen d <? a then (if flag s ThrowOnFail then Throw UndersizeRLP else Ok []) else Ok d'
         else Ok d');
  Ok (freshRLP d'').

(** [sizeAsEncoded]. *)
Definition sizeAsEncoded (d : bytes) : result dev_exn Z :=
  r ← newRLP d (Z.lor ThrowOnFail FailIfTooSmall);
  actualSize (m_data r).

(** The loop of [operator[]]; [fuel] is the number of increments left. An
    exception leaves the memo as the assignments before it made it. *)
Fixpoint index_loop (fuel : nat) (r : RLP) (i : Z) : RLP * result dev_exn unit :=
  match fuel with
  | O => (r, Ok tt)
  | S fuel' =>
      if negb (zlen (m_lastItem r) =? 0) then
        match payload (m_data r) with
        | Throw e => (r, Throw e)
        | Ok p =>
            let rest := croppedFrom p (m_lastEnd r) in
            match sizeAsEncoded rest with
            | Throw e => (mkRLP (m_data r) (m_lastIndex r) (m_lastEnd r) rest, Throw e)
            | Ok sz =>
                let item := cropped rest 0 sz in
                index_loop fuel'
                  (mkRLP (m_data r) (m_lastIndex r + 1) (m_lastEnd r + zlen item) item) i
            end
        end
      else (r, Ok tt)
  end.

(** [operator[]]: the updated object and the item. *)
Definition rlpIndex (r : RLP) (i : Z) : RLP * result dev_exn RLP :=
  let '(r, ok) :=
    if i <? m_lastIndex r then
      match payload (m_data r) with
      | Throw e => (r, Throw e)
      | Ok p =>
          match sizeAsEncoded p with
          | Throw e => (r, Throw e)
          | Ok sz => (mkRLP (m_data r) 0 sz (cropped p 0 sz), Ok tt)
          end
      end
    else (r, Ok tt) in
  match ok with
  | Throw e => (r, Throw e)
  | Ok _ =>
      let '(r, ok) := index_loop (Z.to_nat (i - m_lastIndex r)) r i in
      match ok with
      | Throw e => (r, Throw e)
      | Ok _ => (r, newRLP (m_lastItem r) (Z.lor ThrowOnFail FailIfTooSmall))
      end
  end.

(** The items of a payload, as [RLP::iterator] walks them; each is re-read with
    [VeryStrict]. The fuel is the number of bytes: no item is empty. *)
Fixpoint iter_items (fuel : nat) (p : bytes) : result dev_exn (list bytes) :=
  match fuel with
  | O => Ok []
  | S fuel' =>
      if zlen p =? 0 then Ok []
      else
        sz ← sizeAsEncoded p;
        let item := cropped p 0 sz in
        r ← newRLP item VeryStrict;
        rest ← iter_items fuel' (croppedFrom p sz);
        Ok (m_data r :: rest)
  end.

(** [items] and [itemCount]. *)
Fixpoint count_items (fuel : nat) (p : bytes) : result dev_exn Z :=
  match fuel with
  | O => Ok 0
  | S fuel' =>
      if zlen p =? 0 then Ok 0
      else sz ← sizeAsEncoded p; n ← count_items fuel' (croppedFrom p sz); Ok (1 + n)
  end.
Definition itemCount (d : bytes) : result dev_exn Z :=
  if isList d then p ← payload d; count_items (length p) p else Ok 0.

(** [toBytes]. *)
Definition toBytes (d : bytes) (flags : Z) : result dev_exn bytes :=
  if negb (isData d) then (if flag flags ThrowOnFail then Throw BadCast else Ok [])
  else p ← payload d; l ← rlpLength d; Ok (take (Z.to_nat l) p).

(** [toInt<T>]. *)
Definition toInt (T : intT) (d : bytes) (flags : Z) : result dev_exn Z :=
  _ ← requireGood d;
  int ← isInt d;
  if (negb int && negb (flag flags AllowNonCanon)) || isList d || isNull d then
    (if flag flags ThrowOnFail then Throw BadCast else Ok 0)
  else
    p ← payload d;
    if (maxSize T <? zlen p) && flag flags FailIfTooBig then
      (if flag flags ThrowOnFail then Throw BadCast else Ok 0)
    else Ok (fromBigEndian T p).

(** [toPositiveInt64]. *)
Definition toPositiveInt64 (d : bytes) (flags : Z) : result dev_exn Z :=
  i ← toInt T_int64 d flags;
  _ ← throw_if (flag flags ThrowOnFail && (i <? 0)) BadCast;
  Ok i.

(** [toHash<FixedHash<n>>]: the bytes are right-aligned. *)
Definition toHash (n : nat) (d : bytes) (flags : Z) : result dev_exn Z :=
  _ ← requireGood d;
  p ← payload d;
  let l := zlen p in
  let n' := Z.of_nat n in
  if negb (isData d) || ((n' <? l) && flag flags FailIfTooBig)
     || ((l <? n') && flag flags FailIfTooSmall) then
    (if flag flags ThrowOnFail then Throw BadCast else Ok 0)
  else Ok (be_val (take (Z.to_nat (Z.min n' l)) p)).

(** [toVector<T>] over an element conversion. *)
Definition toVector {A} (conv : bytes → Z → result dev_exn A) (d : bytes) (flags : Z)
  : result dev_exn (list A) :=
  if isList d then
    p ← payload d;
    its ← iter_items (length p) p;
    foldr (λ it acc, a ← conv it flags; l ← acc; Ok (a :: l)) (Ok []) its
  else if flag flags ThrowOnFail then Throw BadCast else Ok [].

(** ** What the reader makes of what the stream writes *)

(** The canonical encodings: a header for [len] payload bytes from [base], a
    byte string and a list of already encoded items. *)
Definition rlpHeader (base len : Z) : bytes :=
  if len <? 56 then [byte.of_Z (base + len)]
  else byte.of_Z (base + 55 + bytesRequired len) :: toCompactBigEndian len 0.
Definition isShort (b : bytes) : bool :=
  match b with [x] => byte.unsigned x <? 0x80 | _ => false end.
Definition rlpData (b : bytes) : bytes :=
  if isShort b then b else rlpHeader 0x80 (zlen b) ++ b.
Definition rlpList (items : list bytes) : bytes :=
  rlpHeader 0xc0 (zlen (mjoin items)) ++ mjoin items.

(** What [std::vector<byte>] can hold. *)
Definition rlp_fits (b : bytes) : Prop := zlen b < 2 ^ 63.

(** A byte sequence that the reader delimits exactly, whatever follows it. *)
Definition good_item (x : bytes) : Prop :=
  x ≠ [] ∧ ∀ rest, actualSize (x ++ rest) = Ok (zlen x).

(** The stateless definition of the [n]-th item of a payload. *)
Fixpoint itemAt (p : bytes) (n : nat) : result dev_exn bytes :=
  sz ← sizeAsEncoded p;
  match n with
  | O => Ok (cropped p 0 sz)
  | S n' => if zlen (cropped p 0 sz) =? 0 then Ok [] else itemAt (croppedFrom p sz) n'
  end.

(** The end offset and the item, computed forward as the memo is. *)
Fixpoint walk (p : bytes) (n : nat) : result dev_exn (Z * bytes) :=
  match n with
  | O => sz ← sizeAsEncoded p; Ok (sz, cropped p 0 sz)
  | S n' =>
      '(e, it) ← walk p n';
      if zlen it =? 0 then Ok (e, it)
      else
        sz ← sizeAsEncoded (croppedFrom p e);
        let item := cropped (croppedFrom p e) 0 sz in
        Ok (e + zlen item, item)
  end.

(** The memo invariant: untouched, or the walk's result at the memoised index. *)
Definition memo_ok (r : RLP) : Prop :=
  m_lastIndex r = 2 ^ 64 - 1
  ∨ ∃ p, payload (m_data r) = Ok p ∧ 0 ≤ m_lastIndex r
         ∧ walk p (Z.to_nat (m_lastIndex r)) = Ok (m_lastEnd r, m_lastItem r).

(** The objects reachable from a fresh one by accesses that succeeded. *)
Definition indexed (d : bytes) : RLP → Prop :=
  rtc (λ r r', ∃ i x, 0 ≤ i < 2 ^ 64 - 1 ∧ rlpIndex r i = (r', Ok x)) (freshRLP d).

(** An appender that adds the item [enc a]. *)
Definition appends {A} (app : A → RLPStream → result dev_exn RLPStream) (enc : A → bytes) (a : A) :=
  ∀ s, app a s = noteAppended_loop (m_out s ++ enc a) (m_listStack s) 1.

(** Field access through the shared memo, as the [populate] functions do it:
    [rlp[i]] followed by a conversion. *)
Definition reader (E A : Type) : Type := RLP → RLP * result E A.
Definition fieldE {E A} (lift : dev_exn → E) (i : Z) (conv : bytes → result E A) : reader E A := λ r,
  let '(r', x) := rlpIndex r i in
  (r', match x with Ok it => conv (m_data it) | Throw e => Throw (lift e) end).
Abbreviation field := (fieldE (λ e : dev_exn, e)).
Global Instance reader_ret {E} : MRet (reader E) := λ A a r, (r, Ok a).
Global Instance reader_bind {E} : MBind (reader E) := λ A B k m r,
  let '(r', x) := m r in match x with Ok a => k a r' | Throw e => (r', Throw e) end.
(** A computation that does not read. *)
Definition pure_result {E A} (x : result E A) : reader E A := λ r, (r, x).

(** What such a sequence returns on an object whose payload is the items [l]. *)
Definition reads {E A} (l : list bytes) (m : reader E A) (x : result E A) : Prop :=
  ∀ r, memo_ok r → payload (m_data r) = Ok (mjoin l) →
       ∃ r', m r = (r', x) ∧ (is_Ok x = true → memo_ok r' ∧ m_data r' = m_data r).

Ltac rlp_consts :=
  unfold c_rlpListIndLenZero, c_rlpListImmLenCount, c_rlpDataIndLenZero, c_rlpDataImmLenCount,
    c_rlpListStart, c_rlpDataImmLenStart, c_rlpMaxLengthBytes in *.

Lemma zlen_eq0 {A} (l : list A) : zlen l = 0 ↔ l = [].
Proof. unfold zlen. destruct l; simpl; split; [done.. | lia | done]. Qed.

Lemma isNull_cons b d : isNull (b :: d) = false.
Proof. unfold isNull. rewrite zlen_cons. pose proof (zlen_nonneg d). lia. Qed.
Lemma nthb_0 b d : nthb (b :: d) 0 = byte.unsigned b.
Proof. done. Qed.
Lemma nthb_1 a b d : nthb (a :: b :: d) 1 = byte.unsigned b.
Proof. done. Qed.
#[export] Hint Rewrite isNull_cons nthb_0 nthb_1 : size.

Lemma small_byte z : 0 ≤ z < 256 → byte.unsigned (byte.of_Z z) = z.
Proof. intros. rewrite unsigned_of_Z. by apply Z.mod_small. Qed.

Lemma bytesRequired_8 len : 0 < len < 2 ^ 63 → 1 ≤ bytesRequired len ≤ 8.
Proof.
  intros. destruct (bytesRequired_spec len); [lia |]. split; [lia |].
  apply bytesRequired_le; [lia |]. change (256 ^ 8) with (2 ^ 64). lia.
Qed.

Lemma throw_if_false {E A} (e : E) (k : unit → result E A) : (throw_if false e ≫= k) = k tt.
Proof. done. Qed.

Lemma longLength_header h len p :
  56 ≤ len < 2 ^ 63 →
  longLength (h :: toCompactBigEndian len 0 ++ p) (bytesRequired len) 56 = Ok len.
Proof.
  intros Hlen. pose proof (bytesRequired_8 len ltac:(lia)) as Hbr.
  destruct (compact_head len ltac:(lia)) as (b & bs & Hc & Hb).
  pose proof (zlen_compact len ltac:(lia)) as Hz. pose proof (zlen_nonneg p).
  unfold longLength.
  assert (zlen (h :: toCompactBigEndian len 0 ++ p) = 1 + bytesRequired len + zlen p) as ->
    by (autorewrite with size; lia).
  assert (nthb (h :: toCompactBigEndian len 0 ++ p) 1 = byte.unsigned b) as -> by by rewrite Hc.
  rewrite skipn_cons, drop_0, take_app_length' by (unfold zlen in Hz; lia).
  rewrite fromBigEndian_val, be_val_compact by lia. cbn [castT].
  rewrite wrapU_id by (change (2 ^ 64) with (2 * 2 ^ 63); lia).
  repeat match goal with |- context [throw_if ?c _] =>
    replace c with false by (symmetry; change (2 ^ 64) with (2 * 2 ^ 63); lia);
    rewrite throw_if_false end. done.
Qed.

(** The reader's view of a header of either kind in front of any bytes. *)
Lemma rlpLength_header base len p :
  base = 0x80 ∨ base = 0xc0 → 0 ≤ len < 2 ^ 63 →
  (base = 0x80 → len = 1 → ∃ b p', p = b :: p' ∧ 0x80 ≤ byte.unsigned b) →
  rlpLength (rlpHeader base len ++ p) = Ok len
  ∧ payloadOffset (rlpHeader base len ++ p) = zlen (rlpHeader base len)
  ∧ isSingleByte (rlpHeader base len ++ p) = false
  ∧ isData (rlpHeader base len ++ p) = (base =? 0x80)
  ∧ isList (rlpHeader base len ++ p) = (base =? 0xc0).
Proof.
  intros Hbase Hlen H1. unfold rlpHeader. destruct (Z.ltb_spec len 56).
  - cbn [app]. unfold rlpLength, payloadOffset, lengthSize, isSingleByte, isData, isList, requireGood.
    rlp_consts. autorewrite with size. rewrite small_byte by (destruct Hbase; lia). cbn [negb andb].
    all: destruct (Z.eqb_spec (base + len) (128 + 1)) as [Heq | Hne].
    all: try (destruct H1 as (b & p' & -> & Hb); [lia.. |]; autorewrite with size;
      pose proof (zlen_nonneg p')).
    all: unfold throw_if; destruct Hbase as [-> | ->]; cbn [mbind result_bind negb].
    all: repeat (first [break_if; breflect; try lia | progress cbn [mbind result_bind negb]]).
    all: repeat split; try (f_equal; lia); lia.
  - pose proof (bytesRequired_8 len ltac:(lia)) as Hbr.
    pose proof (longLength_header (byte.of_Z (base + 55 + bytesRequired len)) len p ltac:(lia)) as HL.
    pose proof (zlen_compact len ltac:(lia)) as Hz.
    cbn [app]. unfold rlpLength, payloadOffset, lengthSize, isSingleByte, isData, isList, requireGood.
    rlp_consts. autorewrite with size. rewrite small_byte by (destruct Hbase; lia).
    cbn [negb andb throw_if mbind result_bind].
    replace (base + 55 + bytesRequired len =? 128 + 1) with false by (symmetry; destruct Hbase; lia).
    cbn [negb andb throw_if mbind result_bind].
    destruct Hbase as [-> | ->]; repeat (break_if; breflect; try lia);
      repeat split; try lia; rewrite <- HL; f_equal; lia.
Qed.

Lemma cropped_prefix a b : cropped (a ++ b) 0 (zlen a) = a.
Proof.
  unfold cropped. zsize. replace (_ && _ && _) with true by (symmetry; lia).
  by rewrite drop_0, zlen_to_nat, take_app_length.
Qed.
Lemma cropped_suffix a b : cropped (a ++ b) (zlen a) (zlen b) = b.
Proof.
  unfold cropped. zsize. replace (_ && _ && _) with true by (symmetry; lia).
  by rewrite !zlen_to_nat, drop_app_length, take_ge.
Qed.
Lemma croppedFrom_drop d b : 0 ≤ b → croppedFrom d b = drop (Z.to_nat b) d.
Proof.
  intros. unfold croppedFrom. break_if; breflect; [done |].
  symmetry. apply drop_ge. unfold zlen in *. lia.
Qed.
Lemma croppedFrom_suffix a b : croppedFrom (a ++ b) (zlen a) = b.
Proof. rewrite croppedFrom_drop by zsize. by rewrite zlen_to_nat, drop_app_length. Qed.

Lemma rlpHeader_nonnil base len p : rlpHeader base len ++ p ≠ [].
Proof. unfold rlpHeader. by destruct (len <? 56). Qed.
Lemma rlpHeader_isNull base len p : isNull (rlpHeader base len ++ p) = false.
Proof. unfold rlpHeader. destruct (len <? 56); apply isNull_cons. Qed.

Lemma good_header base p :
  base = 0x80 ∨ base = 0xc0 → rlp_fits p →
  (base = 0x80 → zlen p = 1 → ∃ b p', p = b :: p' ∧ 0x80 ≤ byte.unsigned b) →
  good_item (rlpHeader base (zlen p) ++ p) ∧ payload (rlpHeader base (zlen p) ++ p) = Ok p.
Proof.
  intros Hbase Hfit H1. unfold rlp_fits in *. pose proof (zlen_nonneg p). split; [split |].
  - apply rlpHeader_nonnil.
  - intros rest. rewrite <- app_assoc.
    destruct (rlpLength_header base (zlen p) (p ++ rest)) as (Hl & Ho & Hs & Hd & Hli);
      [done | lia | |].
    { intros Hb Hp. destruct (H1 Hb Hp) as (b & p' & -> & ?). by exists b, (p' ++ rest). }
    unfold actualSize. rewrite rlpHeader_isNull, Hl, Ho, Hs, Hd, Hli. cbn [mbind result_bind].
    replace ((base =? 0x80) || (base =? 0xc0)) with true by (symmetry; lia).
    f_equal. zsize.
  - destruct (rlpLength_header base (zlen p) p) as (Hl & Ho & _); [done | lia | done |].
    unfold payload. rewrite Hl, Ho. cbn [mbind result_bind].
    replace (zlen _ <? zlen p) with false by (symmetry; zsize).
    rewrite throw_if_false. by rewrite cropped_suffix.
Qed.

Lemma isShort_false b :
  isShort b = false → zlen b = 1 → ∃ x p', b = x :: p' ∧ 0x80 ≤ byte.unsigned x.
Proof.
  destruct b as [|x [|y b]]; cbn [isShort]; intros Hs Hl; zsize.
  breflect. by exists x, [].
Qed.

Lemma isShort_inv b : isShort b = true → ∃ x, b = [x] ∧ byte.unsigned x < 0x80.
Proof. destruct b as [|x [|y b]]; cbn [isShort]; intros; breflect; [done | eauto | done]. Qed.

Lemma rlpData_good b : rlp_fits b → good_item (rlpData b) ∧ payload (rlpData b) = Ok b.
Proof.
  intros Hfit. unfold rlpData. destruct (isShort b) eqn:Hs.
  - apply isShort_inv in Hs as (x & -> & Hx). split; [split; [done |] |].
    + intros rest. unfold actualSize, isSingleByte. cbn [app]. autorewrite with size.
      rlp_consts. by replace (_ <? _) with true by (symmetry; lia).
    + unfold payload, rlpLength, payloadOffset, requireGood, isSingleByte. autorewrite with size.
      rlp_consts. replace (byte.unsigned x =? 128 + 1) with false by (symmetry; lia).
      by replace (_ <? _) with true by (symmetry; lia).
  - apply good_header; [by left | done | by intros; apply isShort_false].
Qed.

Lemma rlpData_isData b : rlp_fits b → isData (rlpData b) = true ∧ isList (rlpData b) = false.
Proof.
  intros Hfit. unfold rlpData. destruct (isShort b) eqn:Hs.
  - apply isShort_inv in Hs as (x & -> & Hx). unfold isData, isList. autorewrite with size.
    rlp_consts. cbn [negb andb]. lia.
  - unfold rlp_fits in *.
    destruct (rlpLength_header 0x80 (zlen b) b) as (_ & _ & _ & -> & ->);
      [by left | zsize | intros _; by apply isShort_false | done].
Qed.

Lemma rlpList_good l :
  rlp_fits (mjoin l) → good_item (rlpList l) ∧ payload (rlpList l) = Ok (mjoin l).
Proof. intros. apply good_header; [by right | done | lia]. Qed.

Lemma rlpList_isList l : rlp_fits (mjoin l) → isList (rlpList l) = true ∧ isData (rlpList l) = false.
Proof.
  unfold rlp_fits, rlpList. intros. pose proof (zlen_nonneg (mjoin l)).
  by destruct (rlpLength_header 0xc0 (zlen (mjoin l)) (mjoin l)) as (_ & _ & _ & -> & ->);
    [right | lia | lia |].
Qed.

(** The construction with [ThrowOnFail | FailIfTooSmall]. *)
Lemma newRLP_tooSmall d :
  newRLP d (Z.lor ThrowOnFail FailIfTooSmall)
  = (a ← actualSize d; if zlen d <? a then Throw UndersizeRLP else Ok (freshRLP d)).
Proof.
  unfold newRLP. change (flag _ FailIfTooBig) with false. change (flag _ FailIfTooSmall) with true.
  change (flag _ ThrowOnFail) with true. cbn [mbind result_bind].
  destruct (actualSize d) as [a |]; cbn [mbind result_bind]; [by destruct (zlen d <? a) | done].
Qed.

Lemma sizeAsEncoded_eq d :
  sizeAsEncoded d = (a ← actualSize d; if zlen d <? a then Throw UndersizeRLP else Ok a).
Proof.
  unfold sizeAsEncoded. rewrite newRLP_tooSmall. destruct (actualSize d) as [a |] eqn:Ha; [| done].
  cbn [mbind result_bind]. by destruct (zlen d <? a).
Qed.

Lemma sizeAsEncoded_item x rest : good_item x → sizeAsEncoded (x ++ rest) = Ok (zlen x).
Proof.
  intros [_ Hx]. rewrite sizeAsEncoded_eq, Hx. cbn [mbind result_bind].
  by replace (_ <? _) with false by (symmetry; zsize).
Qed.

Lemma newRLP_item x s : good_item x → newRLP x s = Ok (freshRLP x).
Proof.
  intros [_ Hx]. specialize (Hx []). rewrite app_nil_r in Hx. unfold newRLP.
  rewrite Hx. cbn [mbind result_bind]. rewrite Z.ltb_irrefl.
  destruct (flag s FailIfTooBig); cbn [mbind result_bind]; rewrite ?Hx; cbn [mbind result_bind];
    rewrite ?Z.ltb_irrefl; by destruct (flag s FailIfTooSmall).
Qed.

(** Iterating over a concatenation of items gives the items back. *)
Lemma iter_items_join l fuel :
  Forall good_item l → (length (mjoin l) ≤ fuel)%nat → iter_items fuel (mjoin l) = Ok l.
Proof.
  intros Hl. revert fuel. induction Hl as [|x l Hx Hl IH]; intros fuel Hfuel.
  - by destruct fuel.
  - change (mjoin (x :: l)) with (x ++ mjoin l) in *.
    assert (0 < zlen x) by (destruct Hx; destruct x; [done | zsize]).
    rewrite length_app in Hfuel. destruct fuel as [|fuel]; [unfold zlen in *; lia |].
    cbn [iter_items]. replace (zlen _ =? 0) with false by (symmetry; zsize).
    rewrite sizeAsEncoded_item by done. cbn [mbind result_bind].
    rewrite cropped_prefix, newRLP_item by done. cbn [mbind result_bind m_data freshRLP].
    rewrite croppedFrom_suffix. rewrite IH; [done |].
    unfold zlen in *. lia.
Qed.

(** ** The memo of [operator[]] *)

Lemma longLength_nonneg d a b l : longLength d a b = Ok l → 0 ≤ l.
Proof.
  unfold longLength. cbv zeta. do 5 (intros (? & _ & H)%bind_Ok; revert H).
  intros [= <-]. rewrite fromBigEndian_val. apply wrapU_range. lia.
Qed.

Lemma rlpLength_nonneg d l : rlpLength d = Ok l → 0 ≤ l.
Proof.
  unfold rlpLength. break_if; [by intros [= <-] |]. intros (_ & _ & H)%bind_Ok. revert H.
  rlp_consts. cbv zeta. repeat (break_if; breflect); try (intros [= <-]; lia);
    apply longLength_nonneg.
Qed.

Lemma sizeAsEncoded_bound d sz : sizeAsEncoded d = Ok sz → 0 ≤ sz ≤ zlen d.
Proof.
  rewrite sizeAsEncoded_eq. intros H. destruct (actualSize d) as [a |] eqn:Ha; [| done].
  cbn [mbind result_bind] in H. break_if; [done |].
  simplify_eq. breflect. split; [| lia]. unfold actualSize in Ha.
  repeat break_if; simplify_eq; try lia. destruct (rlpLength d) eqn:Hl; [| done].
  cbn [mbind result_bind] in Ha. simplify_eq. apply rlpLength_nonneg in Hl.
  unfold payloadOffset, lengthSize. repeat break_if; breflect; lia.
Qed.

Lemma zlen_cropped0 p sz : 0 ≤ sz ≤ zlen p → zlen (cropped p 0 sz) = sz.
Proof.
  intros. unfold cropped. replace (_ && _ && _) with true by (symmetry; lia).
  unfold zlen in *. rewrite drop_0, length_take. lia.
Qed.

(** Past an empty item every item is empty. *)
Lemma itemAt_past p n k : itemAt p n = Ok [] → itemAt p (n + k) = Ok [].
Proof.
  revert p. induction n as [|n IH]; intros p; cbn [itemAt Nat.add];
    intros (sz & Hsz & H)%bind_Ok.
  - destruct k; cbn [itemAt]; rewrite Hsz; cbn [mbind result_bind]; [done |].
    by simplify_eq; rewrite H.
  - rewrite Hsz. cbn [mbind result_bind].
    destruct (zlen (cropped p 0 sz) =? 0); [done |]. by apply IH.
Qed.

Lemma itemAt_throw p n x : itemAt p n = Throw x → itemAt p (S n) = Throw x.
Proof.
  revert p. induction n as [|n IH]; intros p H.
  - cbn [itemAt] in H |- *. by destruct (sizeAsEncoded p).
  - cbn [itemAt] in H. change (itemAt p (S (S n))) with
      (sz ← sizeAsEncoded p; if zlen (cropped p 0 sz) =? 0 then Ok []
                             else itemAt (croppedFrom p sz) (S n)).
    destruct (sizeAsEncoded p); [| done]. cbn [mbind result_bind] in *.
    break_if; [done |]. by apply IH.
Qed.

(** The forward computation agrees with the stateless one, and what follows a
    non-empty item is addressed from its end offset. *)
Lemma walk_itemAt p n :
  (walk p n ≫= λ x, Ok x.2) = itemAt p n
  ∧ ∀ e it, walk p n = Ok (e, it) →
      0 ≤ e ∧ (it ≠ [] → ∀ k, itemAt p (n + S k) = itemAt (croppedFrom p e) k).
Proof.
  induction n as [|n [IH1 IH2]]; cbn [walk].
  - cbn [itemAt]. destruct (sizeAsEncoded p) as [sz |] eqn:Hsz; cbn [mbind result_bind]; split; try done.
    intros e it [= <- <-]. apply sizeAsEncoded_bound in Hsz as Hb. split; [lia |].
    intros Hne k. cbn [Nat.add itemAt]. rewrite Hsz. cbn [mbind result_bind].
    by destruct (Z.eqb_spec (zlen (cropped p 0 sz)) 0) as [?%zlen_eq0 |].
  - destruct (walk p n) as [[e it] | x] eqn:Hw; cbn [mbind result_bind] in *.
    2: { split; [| done]. symmetry. by apply itemAt_throw. }
    destruct (IH2 e it eq_refl) as [He Hnext]. symmetry in IH1. cbn [snd] in IH1.
    destruct (Z.eqb_spec (zlen it) 0) as [->%zlen_eq0 | Hit].
    + split; [| by intros ?? [= <- <-]]. cbn [mbind result_bind snd]. symmetry.
      rewrite <- Nat.add_1_r. by apply itemAt_past.
    + rewrite zlen_eq0 in Hit. specialize (Hnext Hit). split.
      * rewrite <- Nat.add_1_r, Hnext. cbn [itemAt].
        by destruct (sizeAsEncoded (croppedFrom p e)).
      * intros e' it' H. destruct (sizeAsEncoded (croppedFrom p e)) as [sz |] eqn:Hsz; [| done].
        cbn [mbind result_bind] in H. simplify_eq. apply sizeAsEncoded_bound in Hsz as Hb.
        rewrite zlen_cropped0 by done. split; [lia |]. intros Hne k.
        replace (S n + S k)%nat with (n + S (S k))%nat by lia. rewrite Hnext. cbn [itemAt].
        rewrite Hsz. cbn [mbind result_bind].
        destruct (Z.eqb_spec (zlen (cropped (croppedFrom p e) 0 sz)) 0) as [?%zlen_eq0 |]; [done |].
        rewrite !croppedFrom_drop, drop_drop by lia. by rewrite Z2Nat.inj_add by lia.
Qed.

Lemma walk_stutter p n k e : walk p n = Ok (e, []) → walk p (n + k) = Ok (e, []).
Proof.
  intros Hw. induction k as [|k IH]; [by rewrite Nat.add_0_r |].
  rewrite Nat.add_succ_r. cbn [walk]. by rewrite IH.
Qed.

Lemma walk_throw p n k x : walk p n = Throw x → walk p (n + k) = Throw x.
Proof.
  intros Hw. induction k as [|k IH]; [by rewrite Nat.add_0_r |].
  rewrite Nat.add_succ_r. cbn [walk]. by rewrite IH.
Qed.

Lemma index_loop_spec k r i p :
  payload (m_data r) = Ok p → 0 ≤ m_lastIndex r →
  walk p (Z.to_nat (m_lastIndex r)) = Ok (m_lastEnd r, m_lastItem r) →
  let '(r', ok) := index_loop k r i in
  m_data r' = m_data r
  ∧ (ok ≫= λ _, Ok (m_lastItem r')) = (walk p (Z.to_nat (m_lastIndex r) + k) ≫= λ x, Ok x.2)
  ∧ (ok = Ok tt → memo_ok r').
Proof.
  revert r. induction k as [|k IH]; intros r Hp Hi Hw; cbn [index_loop].
  { rewrite Nat.add_0_r, Hw. split; [done | split; [done | intros _; right; eauto]]. }
  destruct (Z.eqb_spec (zlen (m_lastItem r)) 0) as [Hz%zlen_eq0 | Hne]; cbn [negb].
  - rewrite Hz in Hw. rewrite (walk_stutter _ _ _ _ Hw), <- Hz.
    split; [done | split; [done | intros _; right; rewrite Hz; eauto]].
  - rewrite Hp. rewrite <- Nat.add_succ_comm.
    assert (walk p (S (Z.to_nat (m_lastIndex r))) =
      sz ← sizeAsEncoded (croppedFrom p (m_lastEnd r));
      Ok (m_lastEnd r + zlen (cropped (croppedFrom p (m_lastEnd r)) 0 sz),
          cropped (croppedFrom p (m_lastEnd r)) 0 sz)) as HS.
    { cbn [walk]. rewrite Hw. cbn [mbind result_bind]. by rewrite (proj2 (Z.eqb_neq _ _) Hne). }
    destruct (sizeAsEncoded (croppedFrom p (m_lastEnd r))) as [sz | x]; cbn [mbind result_bind] in HS.
    + specialize (IH (mkRLP (m_data r) (m_lastIndex r + 1)
        (m_lastEnd r + zlen (cropped (croppedFrom p (m_lastEnd r)) 0 sz))
        (cropped (croppedFrom p (m_lastEnd r)) 0 sz))).
      cbn [m_data m_lastIndex m_lastEnd m_lastItem] in IH.
      replace (Z.to_nat (m_lastIndex r + 1)) with (S (Z.to_nat (m_lastIndex r))) in IH by lia.
      apply IH; [done | lia | done].
    + rewrite (walk_throw _ _ _ _ HS). by repeat split.
Qed.

(** [operator[]] on an object with a good memo: the item is the stateless one,
    the exception too, and after a success the memo is good again. *)
Lemma rlpIndex_spec r i :
  memo_ok r → 0 ≤ i < 2 ^ 64 - 1 →
  let '(r', res) := rlpIndex r i in
  m_data r' = m_data r
  ∧ (is_Ok res = true → memo_ok r')
  ∧ res = (p ← payload (m_data r); it ← itemAt p (Z.to_nat i);
           newRLP it (Z.lor ThrowOnFail FailIfTooSmall)).
Proof.
  intros Hm Hi. unfold rlpIndex.
  destruct (Z.ltb_spec i (m_lastIndex r)) as [Hlt | Hge].
  - destruct (payload (m_data r)) as [p |] eqn:Hp; [| done]. cbn [mbind result_bind].
    destruct (sizeAsEncoded p) as [sz |] eqn:Hsz.
    2: { repeat split; try done. destruct (Z.to_nat i); cbn [itemAt]; by rewrite Hsz. }
    set (r0 := mkRLP _ _ _ _). pose proof (index_loop_spec (Z.to_nat (i - m_lastIndex r0)) r0 i p) as HL.
    destruct (index_loop _ _ _) as [r' ok].
    destruct HL as (Hd & Heq & Hm'); [done | done | |].
    { change (Z.to_nat (m_lastIndex r0)) with 0%nat. cbn [walk]. by rewrite Hsz. }
    replace (_ + _)%nat with (Z.to_nat i) in Heq by (cbn; lia).
    rewrite (proj1 (walk_itemAt _ _)) in Heq. destruct ok as [[] |]; cbn [mbind result_bind] in Heq.
    + repeat split; [done | auto |]. by rewrite <- Heq.
    + repeat split; [done | done |]. by rewrite <- Heq.
  - destruct Hm as [? | (p & Hp & H0i & Hw)]; [lia |].
    pose proof (index_loop_spec (Z.to_nat (i - m_lastIndex r)) r i p Hp H0i Hw) as HL.
    destruct (index_loop _ _ _) as [r' ok]. destruct HL as (Hd & Heq & Hm').
    replace (_ + _)%nat with (Z.to_nat i) in Heq by lia.
    rewrite (proj1 (walk_itemAt _ _)) in Heq. rewrite Hp. cbn [mbind result_bind].
    destruct ok as [[] |]; cbn [mbind result_bind] in Heq; repeat split; try done; auto; by rewrite <- Heq.
Qed.

(** ** The writer's output *)

Lemma rlpHeader_list len :
  0 ≤ len < 2 ^ 63 →
  rlpHeader 0xc0 len =
    if len <? c_rlpListImmLenCount then [byte.of_Z (c_rlpListStart + len)]
    else [byte.of_Z (c_rlpListIndLenZero + bytesRequired len)]
           ++ toBigEndian (Z.to_nat (bytesRequired len)) len.
Proof.
  intros Hlen. unfold rlpHeader, toCompactBigEndian. rlp_consts.
  change (256 - 192 - 8) with 56. change (192 + 56 - 1) with (192 + 55).
  break_if; breflect; [done |].
  pose proof (bytesRequired_nonneg len ltac:(lia)). by rewrite Z.max_r by lia.
Qed.

(** An item completes its list unless more are expected. *)
Lemma noteAppended_open out k p st :
  1 < k → noteAppended_loop out ((k, p) :: st) 1 = Ok (mkStream out ((k - 1, p) :: st)).
Proof.
  intros. cbn [noteAppended_loop]. replace (k <? 1) with false by (symmetry; lia).
  by replace (k - 1 =? 0) with false by (symmetry; lia).
Qed.

Lemma noteAppended_close pre l st :
  rlp_fits (mjoin l) →
  noteAppended_loop (pre ++ mjoin l) ((1, zlen pre) :: st) 1
  = noteAppended_loop (pre ++ rlpList l) st 1.
Proof.
  intros Hfit. unfold rlp_fits in *. cbn [noteAppended_loop]. cbv zeta.
  replace (zlen (pre ++ mjoin l) - zlen pre) with (zlen (mjoin l)) by zsize.
  rewrite zlen_to_nat, take_app_length, drop_app_length. change (negb (1 - 1 =? 0)) with false.
  change (1 <? 1) with false. cbv iota. unfold rlpList.
  pose proof (zlen_nonneg (mjoin l)). rewrite rlpHeader_list by lia.
  rlp_consts. destruct (Z.ltb_spec (zlen (mjoin l)) (256 - 192 - 8)); [done |].
  assert (1 ≤ bytesRequired (zlen (mjoin l)) ≤ 8) by (apply bytesRequired_8; lia).
  replace (_ <=? 255) with true by (symmetry; lia). by rewrite <- app_assoc.
Qed.

Lemma rlpData_unfold d :
  rlpData d = if isShort d then d
              else (if zlen d <? 56 then [byte.of_Z (zlen d + 0x80)]
                    else byte.of_Z (bytesRequired (zlen d) + 0xb7)
                           :: toBigEndian (Z.to_nat (bytesRequired (zlen d))) (zlen d)) ++ d.
Proof.
  unfold rlpData, rlpHeader, toCompactBigEndian. pose proof (zlen_nonneg d).
  pose proof (bytesRequired_nonneg (zlen d) ltac:(done)). rewrite Z.max_r by lia.
  replace (zlen d + 0x80) with (0x80 + zlen d) by lia.
  by replace (bytesRequired (zlen d) + 0xb7) with (0x80 + 55 + bytesRequired (zlen d)) by lia.
Qed.

Lemma appendBytes_spec d : rlp_fits d → appends (λ d, appendBytes d false) rlpData d.
Proof.
  intros Hfit s. unfold rlp_fits in *. rewrite rlpData_unfold. unfold appendBytes. cbv zeta.
  change (match d with [b] => byte.unsigned b <? c_rlpDataImmLenStart | _ => false end)
    with (isShort d).
  destruct (isShort d); [done |]. rlp_consts. change (192 - 128 - 8) with 56.
  change (128 + 56 - 1) with 0xb7. destruct (Z.ltb_spec (zlen d) 56).
  - cbn. by rewrite <- app_assoc.
  - pose proof (bytesRequired_8 (zlen d) ltac:(lia)). unfold pushCount.
    replace (0xff <? _) with false by (symmetry; lia). rewrite throw_if_false. cbn.
    by rewrite <- !app_assoc.
Qed.

Lemma toBigEndian_1 i : toBigEndian 1 i = [byte.of_Z (Z.land i 255)].
Proof. done. Qed.

Lemma appendBigint_spec i :
  0 ≤ i < 256 ^ 55 → appends appendBigint (λ i, rlpData (toCompactBigEndian i 0)) i.
Proof.
  intros Hi s. rewrite rlpData_unfold. unfold appendBigint. rlp_consts. cbv zeta.
  change (192 - 128 - 8) with 56. destruct (Z.eqb_spec i 0) as [-> |]; [done |].
  rewrite zlen_compact by lia. pose proof (bytesRequired_le i 55 ltac:(lia) ltac:(lia)).
  destruct (compact_head i ltac:(lia)) as (b & bs & Hc & Hb).
  pose proof (zlen_compact i ltac:(lia)) as Hz. pose proof (be_val_compact i ltac:(lia)) as Hv.
  destruct (Z.ltb_spec i 128).
  - assert (bytesRequired i = 1) as Hbr.
    { destruct (bytesRequired_spec i); [lia |].
      pose proof (bytesRequired_le i 1 ltac:(lia) ltac:(lia)). lia. }
    assert (toCompactBigEndian i 0 = [byte.of_Z i]) as Hci.
    { unfold toCompactBigEndian. rewrite Hbr. change (Z.to_nat (Z.max 0 1)) with 1%nat.
      rewrite toBigEndian_1, land_255, Z.mod_small by lia. done. }
    rewrite Hci. unfold isShort. rewrite small_byte by lia.
    by replace (i <? 128) with true by (symmetry; lia).
  - replace (isShort _) with false.
    2: { rewrite Hc. destruct bs; [| done]. rewrite Hc in Hv. cbn [isShort]. symmetry.
         apply Z.ltb_ge. change (be_val [b]) with (byte.unsigned b) in Hv. lia. }
    replace (bytesRequired i <? 56) with true by (symmetry; lia). cbn [mbind result_bind].
    unfold noteAppended, pushInt, push. cbn [Z.eqb m_out m_listStack].
    unfold toCompactBigEndian. rewrite Z.max_r by (pose proof (bytesRequired_nonneg i); lia).
    by rewrite <- app_assoc.
Qed.

(** One appender on a list that expects more items, or this last one. *)
Lemma append_step {A} app (enc : A → bytes) a hd k p st :
  appends app enc a → 1 < k →
  app a (mkStream (mjoin hd) ((k, p) :: st)) = Ok (mkStream (mjoin (hd ++ [enc a])) ((k - 1, p) :: st)).
Proof.
  intros -> ?. cbn [m_out m_listStack]. rewrite noteAppended_open by done.
  rewrite join_app. cbn [mjoin list_join]. by rewrite app_nil_r.
Qed.

Lemma append_last {A} app (enc : A → bytes) a hd st :
  appends app enc a → rlp_fits (mjoin (hd ++ [enc a])) →
  app a (mkStream (mjoin hd) ((1, 0) :: st)) = noteAppended_loop (rlpList (hd ++ [enc a])) st 1.
Proof.
  intros -> Hfit. cbn [m_out m_listStack].
  replace (mjoin hd ++ enc a) with ([] ++ mjoin (hd ++ [enc a])).
  - by rewrite (noteAppended_close []).
  - rewrite join_app. cbn [mjoin list_join]. by rewrite app_nil_r.
Qed.

(** One appender outside any list. *)
Lemma append_flat {A} app (enc : A → bytes) a hd :
  appends app enc a → app a (mkStream (mjoin hd) []) = Ok (mkStream (mjoin (hd ++ [enc a])) []).
Proof.
  intros ->. cbn [m_out m_listStack noteAppended_loop].
  rewrite join_app. cbn [mjoin list_join]. by rewrite app_nil_r.
Qed.

Lemma appendHash_spec n h :
  Z.of_nat n < 2 ^ 63 → appends (appendHash n) (λ h, rlpData (hashBytes n h)) h.
Proof.
  intros Hn s. apply appendBytes_spec. unfold rlp_fits, hashBytes. by rewrite zlen_toBigEndian.
Qed.

Lemma appendUnsigned_spec i :
  appends appendUnsigned (λ i, rlpData (toCompactBigEndian (wrapU 32 i) 0)) i.
Proof.
  intros s. apply appendBigint_spec. pose proof (wrapU_range 32 i ltac:(lia)).
  split; [lia |]. eapply Z.lt_trans; [apply H | done].
Qed.

(** Sizes of the encodings. *)
Lemma zlen_rlpHeader base len : 0 ≤ len < 2 ^ 63 → zlen (rlpHeader base len) ≤ 9.
Proof.
  intros. unfold rlpHeader. break_if; breflect; zsize.
  rewrite zlen_compact by lia. pose proof (bytesRequired_8 len ltac:(lia)). lia.
Qed.
Lemma zlen_rlpData b : rlp_fits b → zlen (rlpData b) ≤ zlen b + 9.
Proof.
  unfold rlp_fits, rlpData. intros. break_if; [zsize |].
  pose proof (zlen_nonneg b). pose proof (zlen_rlpHeader 0x80 (zlen b)). zsize.
Qed.
Lemma zlen_rlpList l : rlp_fits (mjoin l) → zlen (rlpList l) ≤ zlen (mjoin l) + 9.
Proof.
  unfold rlp_fits, rlpList. intros. pose proof (zlen_nonneg (mjoin l)).
  pose proof (zlen_rlpHeader 0xc0 (zlen (mjoin l))). zsize.
Qed.
Lemma zlen_mjoin {A} (x : list A) l : zlen (mjoin (x :: l)) = zlen x + zlen (mjoin l).
Proof. change (mjoin (x :: l)) with (x ++ mjoin l). by rewrite zlen_app. Qed.
Lemma zlen_compact_le z n : 0 ≤ z < 256 ^ n → 0 ≤ n → zlen (toCompactBigEndian z 0) ≤ n.
Proof. intros. rewrite zlen_compact by lia. by apply bytesRequired_le. Qed.

(** Sequencing appenders on a list that still expects all of them. *)
Lemma appendAll_spec {A} app (enc : A → bytes) (w : list A) pre hd st :
  Forall (appends app enc) w → w ≠ [] → rlp_fits (mjoin (hd ++ (enc <$> w))) →
  foldl (λ acc a, acc ≫= app a) (Ok (mkStream (pre ++ mjoin hd) ((zlen w, zlen pre) :: st))) w
  = noteAppended_loop (pre ++ rlpList (hd ++ (enc <$> w))) st 1.
Proof.
  intros Hw. revert hd. induction Hw as [|a w Ha Hw IH]; intros hd Hne Hfit; [done |].
  cbn [foldl fmap list_fmap]. cbn [mbind result_bind]. rewrite Ha. cbn [m_out m_listStack].
  assert ((pre ++ mjoin hd) ++ enc a = pre ++ mjoin (hd ++ [enc a])) as ->.
  { rewrite join_app. cbn. by rewrite app_nil_r, app_assoc. }
  destruct w as [|a' w].
  - cbn [fmap list_fmap foldl]. by apply noteAppended_close.
  - rewrite noteAppended_open by zsize.
    replace (zlen (a :: a' :: w) - 1) with (zlen (a' :: w)) by zsize.
    rewrite IH; rewrite <- ?app_assoc; done.
Qed.

Lemma appendVector_spec {A} app (enc : A → bytes) (v : list A) :
  Forall (appends app enc) v → rlp_fits (mjoin (enc <$> v)) →
  appends (appendVector app) (λ v, rlpList (enc <$> v)) v.
Proof.
  intros Hv Hfit s. unfold appendVector, appendList. destruct v as [|a v].
  - change (zlen [] =? 0) with true. cbv iota. cbn [foldl fmap list_fmap].
    replace (appendListRaw [] s) with (noteAppended_loop (m_out s ++ rlpList []) (m_listStack s) 1).
    + by destruct (noteAppended_loop _ _ 1).
    + unfold appendListRaw, appendRaw. rewrite zlen_nil.
      change (0 <? c_rlpListImmLenCount) with true. cbn [mbind result_bind push m_out m_listStack].
      by rewrite app_nil_r.
  - replace (zlen (a :: v) =? 0) with false by (symmetry; zsize). cbn [mbind result_bind].
    pose proof (appendAll_spec app enc (a :: v) (m_out s) [] (m_listStack s) Hv) as H.
    cbn [mjoin list_join] in H. rewrite app_nil_r in H. by apply H.
Qed.

(** ** Reading back *)

Lemma itemAt_join l n : Forall good_item l → itemAt (mjoin l) n = Ok (default [] (l !! n)).
Proof.
  intros Hl. revert n. induction Hl as [|x l Hx Hl IH]; intros n.
  - by destruct n.
  - change (mjoin (x :: l)) with (x ++ mjoin l).
    assert (0 < zlen x) by (destruct Hx; destruct x; [done | zsize]).
    destruct n as [|n]; cbn [itemAt]; rewrite sizeAsEncoded_item by done; cbn [mbind result_bind];
      rewrite cropped_prefix; [done |].
    replace (zlen x =? 0) with false by (symmetry; lia).
    by rewrite croppedFrom_suffix, IH.
Qed.

Lemma payload_requireGood d p : isNull d = false → payload d = Ok p → requireGood d = Ok tt.
Proof.
  unfold payload, rlpLength. intros ->. intros (? & H & _)%bind_Ok.
  by apply bind_Ok in H as ([] & -> & _).
Qed.

Lemma good_isNull x : good_item x → isNull x = false.
Proof. intros [Hx _]. destruct x; [done | apply isNull_cons]. Qed.

Lemma rlpData_requireGood b : rlp_fits b → requireGood (rlpData b) = Ok tt.
Proof.
  intros Hb. destruct (rlpData_good b Hb) as [Hg Hp].
  eapply payload_requireGood; [by apply good_isNull | done].
Qed.

Lemma toBytes_data b flags : rlp_fits b → toBytes (rlpData b) flags = Ok b.
Proof.
  intros Hb. destruct (rlpData_good b Hb) as [Hg Hp]. unfold toBytes.
  rewrite (proj1 (rlpData_isData b Hb)), Hp. cbn [negb mbind result_bind].
  unfold payload in Hp. destruct (rlpLength (rlpData b)) as [l |] eqn:Hl; [| done].
  cbn [mbind result_bind] in *. apply bind_Ok in Hp as (_ & _ & [= Hp]).
  f_equal. apply take_ge. rewrite <- Hp. unfold cropped. apply rlpLength_nonneg in Hl.
  break_if; [| cbn; lia]. rewrite length_take. lia.
Qed.

Lemma toHash_data n h flags :
  0 ≤ h < 256 ^ Z.of_nat n → Z.of_nat n < 2 ^ 63 → toHash n (rlpData (hashBytes n h)) flags = Ok h.
Proof.
  intros Hh Hn. assert (zlen (hashBytes n h) = Z.of_nat n) as Hz by apply zlen_toBigEndian.
  assert (rlp_fits (hashBytes n h)) as Hfit by (unfold rlp_fits; lia).
  unfold toHash. rewrite rlpData_requireGood, (proj1 (rlpData_isData _ Hfit)) by done.
  rewrite (proj2 (rlpData_good _ Hfit)). cbn [negb mbind result_bind orb]. cbv zeta.
  rewrite Hz, Z.ltb_irrefl. cbn [andb orb]. rewrite Z.min_id, Nat2Z.id. f_equal.
  rewrite take_ge by (unfold zlen in Hz; lia). unfold hashBytes. rewrite be_val_toBigEndian.
  by apply Z.mod_small.
Qed.

Lemma isInt_compact z : 0 ≤ z < 256 ^ 55 → isInt (rlpData (toCompactBigEndian z 0)) = Ok true.
Proof.
  intros Hz. assert (rlp_fits (toCompactBigEndian z 0)) as Hfit.
  { unfold rlp_fits. rewrite zlen_compact by lia.
    pose proof (bytesRequired_le z 55 ltac:(lia) ltac:(lia)). lia. }
  unfold isInt. rewrite rlpData_requireGood by done.
  rewrite (good_isNull _ (proj1 (rlpData_good _ Hfit))). cbn [mbind result_bind].
  destruct (decide (z = 0)) as [-> |]; [done |].
  destruct (compact_head z ltac:(lia)) as (b & bs & Hc & Hb).
  pose proof (zlen_compact z ltac:(lia)) as Hl. pose proof (bytesRequired_le z 55 ltac:(lia) ltac:(lia)).
  rewrite rlpData_unfold, Hc. rewrite Hc in Hl. pose proof (byte_range b).
  destruct (isShort (b :: bs)) eqn:Hs.
  - apply isShort_inv in Hs as (x & [= <- ->] & Hx). rewrite nthb_0. rlp_consts. cbv zeta.
    replace (_ <? _) with true by (symmetry; lia). by replace (_ =? _) with false by (symmetry; lia).
  - destruct (Z.ltb_spec (zlen (b :: bs)) 56); [| lia]. cbn [app]. rewrite nthb_0, nthb_1. rlp_consts.
    cbv zeta. pose proof (zlen_nonneg bs). rewrite zlen_cons in Hl.
    rewrite small_byte by zsize. autorewrite with size.
    replace (_ <? 128) with false by (symmetry; lia). replace (_ =? 128) with false by (symmetry; lia).
    replace (1 + zlen bs + 128 <=? _) with true by (symmetry; lia).
    replace (_ <=? 1) with false by (symmetry; lia). rewrite throw_if_false.
    by replace (_ =? 0) with false by (symmetry; lia).
Qed.

(** [toInt<T>] of what [append(bigint)] wrote, for a value that [T] has room for. *)
Lemma toInt_compact T z flags :
  0 ≤ z < 256 ^ 55 → bytesRequired z ≤ maxSize T →
  toInt T (rlpData (toCompactBigEndian z 0)) flags = Ok (castT T z).
Proof.
  intros Hz HT. assert (rlp_fits (toCompactBigEndian z 0)) as Hfit.
  { unfold rlp_fits. rewrite zlen_compact by lia.
    pose proof (bytesRequired_le z 55 ltac:(lia) ltac:(lia)). lia. }
  unfold toInt. rewrite rlpData_requireGood, isInt_compact by done. cbn [mbind result_bind negb andb].
  rewrite (proj2 (rlpData_isData _ Hfit)), (good_isNull _ (proj1 (rlpData_good _ Hfit))).
  cbn [orb]. rewrite (proj2 (rlpData_good _ Hfit)). cbn [mbind result_bind].
  rewrite zlen_compact by lia. replace (_ <? _) with false by (symmetry; lia). cbn [andb].
  by rewrite fromBigEndian_val, be_val_compact by lia.
Qed.

Lemma foldr_convert {A} (conv : bytes → Z → result dev_exn A) enc v flags :
  Forall (λ a, conv (enc a) flags = Ok a) v →
  foldr (λ it acc, a ← conv it flags; l ← acc; Ok (a :: l)) (Ok []) (enc <$> v) = Ok v.
Proof.
  induction 1 as [|a v Ha Hv IH]; [done |]. cbn [fmap list_fmap foldr].
  rewrite Ha. cbn [mbind result_bind]. change (list_fmap _ _ enc v) with (enc <$> v). by rewrite IH.
Qed.

Lemma toVector_list {A} (conv : bytes → Z → result dev_exn A) enc v flags :
  Forall (λ a, good_item (enc a) ∧ conv (enc a) flags = Ok a) v → rlp_fits (mjoin (enc <$> v)) →
  toVector conv (rlpList (enc <$> v)) flags = Ok v.
Proof.
  intros Hv Hfit. unfold toVector.
  rewrite (proj1 (rlpList_isList _ Hfit)), (proj2 (rlpList_good _ Hfit)). cbn [mbind result_bind].
  rewrite iter_items_join; [| | done].
  - cbn [mbind result_bind]. apply foldr_convert. eapply Forall_impl; [done |]. by intros a [].
  - apply Forall_fmap. eapply Forall_impl; [done |]. by intros a [].
Qed.

(** Reading item [n] of an object that holds a payload of good items. *)
Lemma rlpIndex_fresh d l n :
  payload d = Ok (mjoin l) → Forall good_item l → (n < length l)%nat →
  Z.of_nat n < 2 ^ 64 - 1 →
  (rlpIndex (freshRLP d) (Z.of_nat n)).2 = Ok (freshRLP (default [] (l !! n))).
Proof.
  intros Hp Hl Hn Hn'. pose proof (rlpIndex_spec (freshRLP d) (Z.of_nat n)) as H.
  destruct (rlpIndex _ _) as [r' res]. destruct H as (_ & _ & ->); [by left | lia |].
  cbn [m_data freshRLP]. rewrite Hp. cbn [mbind result_bind].
  rewrite Nat2Z.id, itemAt_join by done. cbn [mbind result_bind]. apply newRLP_item.
  destruct (lookup_lt_is_Some_2 l n Hn) as [x Hx]. rewrite Hx. cbn. by eapply Forall_lookup_1 in Hl.
Qed.

Lemma reads_pure {E A} l (x : result E A) : reads l (pure_result x) x.
Proof. intros r Hm Hp. by exists r. Qed.
Lemma reads_ret {E A} l (a : A) : reads (E:=E) l (mret a) (Ok a).
Proof. apply reads_pure. Qed.

Lemma reads_bind {E A B} l (m : reader E A) a (k : A → reader E B) x :
  reads l m (Ok a) → reads l (k a) x → reads l (m ≫= k) x.
Proof.
  intros Hm Hk r Hr Hp. destruct (Hm r Hr Hp) as (r1 & Hm1 & Hr1).
  destruct (Hr1 eq_refl) as [Hr1m Hd1]. destruct (Hk r1) as (r2 & Hk2 & Hr2); [done | by rewrite Hd1 |].
  exists r2. unfold mbind, reader_bind. rewrite Hm1. split; [done |].
  intros Hx. destruct (Hr2 Hx). split; [done | congruence].
Qed.

Lemma reads_field {E A} (lift : dev_exn → E) l n it (conv : bytes → result E A) a :
  Forall good_item l → l !! n = Some it → Z.of_nat n < 2 ^ 64 - 1 → conv it = Ok a →
  reads l (fieldE lift (Z.of_nat n) conv) (Ok a).
Proof.
  intros Hl Hn Hn' Hc r Hr Hp. pose proof (rlpIndex_spec r (Z.of_nat n) Hr) as H.
  unfold fieldE. destruct (rlpIndex r (Z.of_nat n)) as [r' x].
  destruct H as (Hd & Hm & ->); [lia |]. exists r'.
  rewrite Hp in *. cbn [mbind result_bind] in *. rewrite Nat2Z.id, itemAt_join, Hn in * by done.
  change (default [] (Some it)) with it in *. cbn [mbind result_bind] in *.
  rewrite newRLP_item in * by by eapply Forall_lookup_1 in Hl.
  cbn [mbind result_bind m_data freshRLP] in *. split; [by rewrite Hc | auto].
Qed.

(** One step of such a proof: the [i]-th item and its conversion. *)
Ltac reads_step tac :=
  eapply reads_bind;
    [lazymatch goal with |- reads _ (fieldE _ ?i _) _ => change i with (Z.of_nat (Z.to_nat i)) end;
     eapply reads_field; [done | reflexivity | done | tac ()] |].

Lemma indexed_memo d r : indexed d r → m_data r = d ∧ memo_ok r.
Proof.
  intros Hr. cut (∀ r0, m_data r0 = d → memo_ok r0 →
    rtc (λ r r', ∃ i x, 0 ≤ i < 2 ^ 64 - 1 ∧ rlpIndex r i = (r', Ok x)) r0 r → m_data r = d ∧ memo_ok r).
  { intros H. apply (H (freshRLP d)); [done | by left | done]. }
  clear Hr. intros r0 Hd Hm Hr. induction Hr as [r | r r1 r' (i & x & Hi & Hx) _ IH]; [done |].
  pose proof (rlpIndex_spec r i Hm Hi) as H. rewrite Hx in H. destruct H as (Hd1 & Hm1 & _).
  apply IH; [congruence | auto].
Qed.

(** The memo of [RLP::operator[]] is transparent: after any sequence of
    successful accesses, in any order of indices, an access returns (or throws)
    what a walk from the start of the payload returns, and leaves the bytes alone. *)
Theorem rlp_index_memo_transparent d r i :
  indexed d r → 0 ≤ i < 2 ^ 64 - 1 →
  (rlpIndex r i).2 = (p ← payload d; it ← itemAt p (Z.to_nat i);
                      newRLP it (Z.lor ThrowOnFail FailIfTooSmall))
  ∧ m_data (rlpIndex r i).1 = d.
Proof.
  intros [Hd Hm]%indexed_memo Hi. pose proof (rlpIndex_spec r i Hm Hi) as H.
  destruct (rlpIndex r i) as [r' res]. destruct H as (Hd' & _ & ->). cbn [fst snd].
  rewrite Hd', Hd. done.
Qed.

Lemma rlp_index_memo_transparent_witness :
  let d := rlpList [rlpData [byte.of_Z 7]; rlpData [byte.of_Z 8; byte.of_Z 9]] in
  (rlpIndex (rlpIndex (freshRLP d) 1).1 0).2 = Ok (freshRLP [byte.of_Z 7]).
Proof.
  intros d. rewrite (proj1 (rlp_index_memo_transparent d (rlpIndex (freshRLP d) 1).1 0
    ltac:(apply rtc_once; exists 1; eexists; split; [lia | vm_compute; reflexivity]) ltac:(lia))).
  vm_compute. reflexivity.
Defined.

(** A list of byte strings written with [appendVector] and read with
    [toVector] comes back unchanged, for every list that fits in memory. *)
Theorem rlp_byte_vector_roundtrip (v : list bytes) flags :
  rlp_fits (mjoin (rlpData <$> v)) → Forall rlp_fits v →
  (s ← appendVector (λ b, appendBytes b false) v emptyStream;
   d ← streamOut s; r ← newRLP d VeryStrict; toVector toBytes (m_data r) flags) = Ok v.
Proof.
  intros Hfit Hv.
  rewrite appendVector_spec with (enc := rlpData);
    [| eapply Forall_impl; [done | apply appendBytes_spec] | done].
  cbn [noteAppended_loop m_out m_listStack emptyStream app mbind result_bind streamOut].
  rewrite newRLP_item by by apply rlpList_good. cbn [mbind result_bind m_data freshRLP].
  apply toVector_list; [| done]. eapply Forall_impl; [done |].
  intros b Hb. split; [by apply rlpData_good | by apply toBytes_data].
Qed.

Lemma rlp_byte_vector_roundtrip_witness :
  (s ← appendVector (λ b, appendBytes b false) [[]; [byte.of_Z 1]; [byte.of_Z 200; byte.of_Z 0]] emptyStream;
   d ← streamOut s; r ← newRLP d VeryStrict; toVector toBytes (m_data r) Strict)
  = Ok [[]; [byte.of_Z 1]; [byte.of_Z 200; byte.of_Z 0]].
Proof.
  apply (rlp_byte_vector_roundtrip [[]; [byte.of_Z 1]; [byte.of_Z 200; byte.of_Z 0]] Strict).
  - vm_compute. reflexivity.
  - repeat constructor.
Defined.
