(* ===== verification/Crypto.v ===== *)
(** * The cryptographic primitives (interface of libdevcrypto/CryptoInterface.h)

    Hashing and signing are done by third-party libraries; the development sees
    them through this class.  [Verify] is the composition
    [Verify(nodeId, SignatureFromBytes(sig), hash)] of the callers.  Theorems that
    rely on a property of the primitives name it as a hypothesis. *)
From S2P Require Import Prelude CommonData.
Local Open Scope Z_scope.

Class Crypto := {
  KeyPair : Type;
  pub : KeyPair → Z;
  Hash : bytes → Z;
  Sign : KeyPair → Z → bytes;
  Verify : Z → bytes → Z → bool;
}.

(** A hash is a 256-bit value. *)
Class HashRange `{Crypto} : Prop := hash_range : ∀ b, 0 ≤ Hash b < 2 ^ 256.
(** A signature made with a key verifies under its public key. *)
Class SignCorrect `{Crypto} : Prop :=
  sign_correct : ∀ k h, Verify (pub k) (Sign k h) h = true.
(** At most one byte string verifies for a key and a hash, as with a
    deterministic, non-malleable scheme. *)
Class UniqueSignatures `{Crypto} : Prop :=
  unique_signatures : ∀ k s s' h, Verify k s h = true → Verify k s' h = true → s = s'.

(** An instance to evaluate the definitions with: a 16-bit polynomial hash, and
    signatures that are the key followed by the hash. *)
Definition toyCrypto : Crypto := {|
  KeyPair := Z;
  pub := λ k, k;
  Hash := λ b, foldl (λ acc x, Z.land (acc * 5 + byte.unsigned x + 1) 65535) 7 b;
  Sign := λ k h, hashBytes 64 k ++ hashBytes 32 h;
  Verify := λ k s h, bool_decide (s = hashBytes 64 k ++ hashBytes 32 h);
|}.

Lemma toy_hash_range : @HashRange toyCrypto.
Proof.
  intros b. cbn. assert (H : ∀ acc, 0 ≤ acc < 2 ^ 16 → 0 ≤ foldl (λ acc x, Z.land (acc * 5 + byte.unsigned x + 1) 65535) acc b < 2 ^ 16).
  { induction b as [|x b IH]; intros acc Ha; [done|]. cbn [foldl]. apply IH. change 65535 with (Z.ones 16).
    rewrite Z.land_ones by lia. apply Z.mod_pos_bound. lia. }
  specialize (H 7). lia.
Qed.

Lemma toy_sign_correct : @SignCorrect toyCrypto.
Proof. intros k h. by apply bool_decide_eq_true. Qed.

Lemma toy_unique : @UniqueSignatures toyCrypto.
Proof. intros k s s' h H1%bool_decide_eq_true H2%bool_decide_eq_true. congruence. Qed.
