(* ===== verification/BlockHeader.v ===== *)
(** * Block headers (libethcore/BlockHeader.h, BlockHeader.cpp)

    The header with its memoised hash, the setters, the RLP form, derivation from
    a parent and verification. *)
From S2P Require Import Prelude CommonData RLP Crypto.
Local Open Scope Z_scope.

(** [Invalid256], [UINT64_MAX] and [INT64_MAX]. *)
Definition Invalid256 : Z := 2 ^ 256 - 1.
Definition UINT64_MAX : Z := 2 ^ 64 - 1.
Definition INT64_MAX : Z := 2 ^ 63 - 1.
Definition MaxBlockNumber : Z := INT64_MAX.
Definition BasicFields : Z := 13.

(** The exceptions of block validation (libethcore/Exceptions.h) and those of the
    RLP layer below. *)
Inductive eth_exn :=
  | InvalidNumber | TooMuchGasUsed | InvalidParentHash | InvalidTimestamp
  | InvalidTransactionsRoot | InvalidBlockFormat | ErrorBlockHash | InvalidTransaction
  | FromDev (e : dev_exn).

Definition lift_dev {A} (r : result dev_exn A) : result eth_exn A :=
  match r with Ok a => Ok a | Throw e => Throw (FromDev e) end.

Record BlockHeader := mkHeader {
  m_parentHash : Z; m_stateRoot : Z; m_transactionsRoot : Z; m_receiptsRoot : Z;
  m_dbHash : Z; m_logBloom : Z; m_number : Z; m_gasLimit : Z; m_gasUsed : Z;
  m_timestamp : Z; m_extraData : list bytes; m_sealer : Z; m_sealerList : list Z;
  m_hash : Z }.

Definition set_parentHash v (s : BlockHeader) : BlockHeader := mkHeader v (m_stateRoot s)
  (m_transactionsRoot s) (m_receiptsRoot s) (m_dbHash s) (m_logBloom s) (m_number s) (m_gasLimit
  s) (m_gasUsed s) (m_timestamp s) (m_extraData s) (m_sealer s) (m_sealerList s) (m_hash s).
Definition set_stateRoot v (s : BlockHeader) : BlockHeader := mkHeader (m_parentHash s) v
  (m_transactionsRoot s) (m_receiptsRoot s) (m_dbHash s) (m_logBloom s) (m_number s) (m_gasLimit
  s) (m_gasUsed s) (m_timestamp s) (m_extraData s) (m_sealer s) (m_sealerList s) (m_hash s).
Definition set_transactionsRoot v (s : BlockHeader) : BlockHeader := mkHeader (m_parentHash s)
  (m_stateRoot s) v (m_receiptsRoot s) (m_dbHash s) (m_logBloom s) (m_number s) (m_gasLimit s)
  (m_gasUsed s) (m_timestamp s) (m_extraData s) (m_sealer s) (m_sealerList s) (m_hash s).
Definition set_receiptsRoot v (s : BlockHeader) : BlockHeader := mkHeader (m_parentHash s)
  (m_stateRoot s) (m_transactionsRoot s) v (m_dbHash s) (m_logBloom s) (m_number s) (m_gasLimit
  s) (m_gasUsed s) (m_timestamp s) (m_extraData s) (m_sealer s) (m_sealerList s) (m_hash s).
Definition set_dbHash v (s : BlockHeader) : BlockHeader := mkHeader (m_parentHash s)
  (m_stateRoot s) (m_transactionsRoot s) (m_receiptsRoot s) v (m_logBloom s) (m_number s)
  (m_gasLimit s) (m_gasUsed s) (m_timestamp s) (m_extraData s) (m_sealer s) (m_sealerList s)
  (m_hash s).
Definition set_logBloom v (s : BlockHeader) : BlockHeader := mkHeader (m_parentHash s)
  (m_stateRoot s) (m_transactionsRoot s) (m_receiptsRoot s) (m_dbHash s) v (m_number s)
  (m_gasLimit s) (m_gasUsed s) (m_timestamp s) (m_extraData s) (m_sealer s) (m_sealerList s)
  (m_hash s).
Definition set_number v (s : BlockHeader) : BlockHeader := mkHeader (m_parentHash s)
  (m_stateRoot s) (m_transactionsRoot s) (m_receiptsRoot s) (m_dbHash s) (m_logBloom s) v
  (m_gasLimit s) (m_gasUsed s) (m_timestamp s) (m_extraData s) (m_sealer s) (m_sealerList s)
  (m_hash s).
Definition set_gasLimit v (s : BlockHeader) : BlockHeader := mkHeader (m_parentHash s)
  (m_stateRoot s) (m_transactionsRoot s) (m_receiptsRoot s) (m_dbHash s) (m_logBloom s)
  (m_number s) v (m_gasUsed s) (m_timestamp s) (m_extraData s) (m_sealer s) (m_sealerList s)
  (m_hash s).
Definition set_gasUsed v (s : BlockHeader) : BlockHeader := mkHeader (m_parentHash s)
  (m_stateRoot s) (m_transactionsRoot s) (m_receiptsRoot s) (m_dbHash s) (m_logBloom s)
  (m_number s) (m_gasLimit s) v (m_timestamp s) (m_extraData s) (m_sealer s) (m_sealerList s)
  (m_hash s).
Definition set_timestamp v (s : BlockHeader) : BlockHeader := mkHeader (m_parentHash s)
  (m_stateRoot s) (m_transactionsRoot s) (m_receiptsRoot s) (m_dbHash s) (m_logBloom s)
  (m_number s) (m_gasLimit s) (m_gasUsed s) v (m_extraData s) (m_sealer s) (m_sealerList s)
  (m_hash s).
Definition set_extraData v (s : BlockHeader) : BlockHeader := mkHeader (m_parentHash s)
  (m_stateRoot s) (m_transactionsRoot s) (m_receiptsRoot s) (m_dbHash s) (m_logBloom s)
  (m_number s) (m_gasLimit s) (m_gasUsed s) (m_timestamp s) v (m_sealer s) (m_sealerList s)
  (m_hash s).
Definition set_sealer v (s : BlockHeader) : BlockHeader := mkHeader (m_parentHash s)
  (m_stateRoot s) (m_transactionsRoot s) (m_receiptsRoot s) (m_dbHash s) (m_logBloom s)
  (m_number s) (m_gasLimit s) (m_gasUsed s) (m_timestamp s) (m_extraData s) v (m_sealerList s)
  (m_hash s).
Definition set_sealerList v (s : BlockHeader) : BlockHeader := mkHeader (m_parentHash s)
  (m_stateRoot s) (m_transactionsRoot s) (m_receiptsRoot s) (m_dbHash s) (m_logBloom s)
  (m_number s) (m_gasLimit s) (m_gasUsed s) (m_timestamp s) (m_extraData s) (m_sealer s) v
  (m_hash s).
Definition set_hash v (s : BlockHeader) : BlockHeader := mkHeader (m_parentHash s) (m_stateRoot
  s) (m_transactionsRoot s) (m_receiptsRoot s) (m_dbHash s) (m_logBloom s) (m_number s)
  (m_gasLimit s) (m_gasUsed s) (m_timestamp s) (m_extraData s) (m_sealer s) (m_sealerList s) v.

(** [BlockHeader()]: the in-class initialisers. *)
Definition emptyHeader : BlockHeader :=
  mkHeader 0 0 0 0 0 0 0 0 0 UINT64_MAX [] Invalid256 [] 0.

(** The conversion to [bool]: set once it has a timestamp. *)
Definition headerSet (h : BlockHeader) : bool := negb (m_timestamp h =? UINT64_MAX).

(** [noteDirty] and the setters, each of which ends with it. *)
Definition noteDirty (h : BlockHeader) : BlockHeader := set_hash 0 h.
Definition setParentHash p h := noteDirty (set_parentHash p h).
Definition setRoots t r st h :=
  noteDirty (set_stateRoot st (set_receiptsRoot r (set_transactionsRoot t h))).
Definition setDBhash d h := noteDirty (set_dbHash d h).
Definition setLogBloom l h := noteDirty (set_logBloom l h).
Definition setNumber n h := noteDirty (set_number n h).
Definition setGasLimit g h := noteDirty (set_gasLimit g h).
Definition setGasUsed g h := noteDirty (set_gasUsed g h).
Definition appendExtraDataArray b h := noteDirty (set_extraData (m_extraData h ++ [b]) h).
Definition setExtraDataAt (b : bytes) (i : Z) h : BlockHeader * bool :=
  if zlen (m_extraData h) <=? i then (h, false)
  else (noteDirty (set_extraData (<[Z.to_nat i := b]> (m_extraData h)) h), true).
Definition setExtraData e h := noteDirty (set_extraData e h).
Definition setTimestamp t h := noteDirty (set_timestamp t h).
Definition setSealer x h := noteDirty (set_sealer x h).
Definition setSealerList l h := noteDirty (set_sealerList l h).
Definition setStateRoot r h := noteDirty (set_stateRoot r h).
Definition setTransactionsRoot r h := noteDirty (set_transactionsRoot r h).
Definition setReceiptsRoot r h := noteDirty (set_receiptsRoot r h).

(** [streamRLPFields]. *)
Definition header_streamRLPFields (h : BlockHeader) (s : RLPStream) : result dev_exn RLPStream :=
  s ← appendHash 32 (m_parentHash h) s;
  s ← appendHash 32 (m_stateRoot h) s;
  s ← appendHash 32 (m_transactionsRoot h) s;
  s ← appendHash 32 (m_receiptsRoot h) s;
  s ← appendHash 32 (m_dbHash h) s;
  s ← appendHash 256 (m_logBloom h) s;
  s ← appendBigint (m_number h) s;
  s ← appendBigint (m_gasLimit h) s;
  s ← appendBigint (m_gasUsed h) s;
  s ← appendBigint (m_timestamp h) s;
  s ← appendVector (λ b, appendBytes b false) (m_extraData h) s;
  s ← appendBigint (m_sealer h) s;
  appendVector (appendHash 64) (m_sealerList h) s.

(** [encode]. *)
Definition header_encode (h : BlockHeader) : result dev_exn bytes :=
  s ← appendList BasicFields emptyStream;
  s ← header_streamRLPFields h s;
  streamOut s.

(** [populate]: the memoised hash is not touched. *)
Definition header_populate (h : BlockHeader) : reader dev_exn BlockHeader :=
  parentHash ← field 0 (λ d, toHash 32 d VeryStrict);
  stateRoot ← field 1 (λ d, toHash 32 d VeryStrict);
  transactionsRoot ← field 2 (λ d, toHash 32 d VeryStrict);
  receiptsRoot ← field 3 (λ d, toHash 32 d VeryStrict);
  dbHash ← field 4 (λ d, toHash 32 d VeryStrict);
  logBloom ← field 5 (λ d, toHash 256 d VeryStrict);
  number ← field 6 (λ d, toPositiveInt64 d Strict);
  gasLimit ← field 7 (λ d, toInt T_u256 d Strict);
  gasUsed ← field 8 (λ d, toInt T_u256 d Strict);
  timestamp ← field 9 (λ d, toInt T_uint64 d Strict);
  extraData ← field 10 (λ d, toVector toBytes d LaissezFaire);
  sealer ← field 11 (λ d, toInt T_u256 d Strict);
  sealerList ← field 12 (λ d, toVector (toHash 64) d LaissezFaire);
  mret (mkHeader parentHash stateRoot transactionsRoot receiptsRoot dbHash logBloom number
          gasLimit gasUsed timestamp extraData sealer sealerList (m_hash h)).

(** [decode]. *)
Definition header_decode (h : BlockHeader) (d : bytes) : result dev_exn BlockHeader :=
  r ← newRLP d VeryStrict;
  (header_populate h r).2.

Section hashed.
Context `{Crypto}.

(** [hash]: computed when the memo is zero, and stored. *)
Definition header_hash (h : BlockHeader) : result dev_exn (BlockHeader * Z) :=
  if m_hash h =? 0 then
    d ← header_encode h;
    Ok (set_hash (Hash d) h, Hash d)
  else Ok (h, m_hash h).

(** The value alone. *)
Definition headerHash (h : BlockHeader) : Z :=
  match header_hash h with Ok (_, v) => v | Throw _ => 0 end.

(** [clear]; the parameter is [EmptyTrie]. *)
Definition header_clear (EmptyTrie : Z) (h : BlockHeader) : BlockHeader :=
  noteDirty (mkHeader 0 EmptyTrie EmptyTrie EmptyTrie 0 0 0 0 0 UINT64_MAX [] Invalid256 [] (m_hash h)).

(** [populateFromParent]. *)
Definition populateFromParent (parent h : BlockHeader) : BlockHeader :=
  noteDirty
    (set_sealer Invalid256
      (set_gasUsed 0
        (set_gasLimit (m_gasLimit parent)
          (set_parentHash (headerHash parent)
            (set_number (wrapS 64 (m_number parent + 1))
              (set_stateRoot (m_stateRoot parent) h)))))).

(** [verify(_s, _parent, _block)]: [checkGas] is [_s != CheckNothingNew], and
    [block], when given, carries the transaction root recomputed from the bytes
    ([trieRootOver]). *)
Definition header_verify (checkGas : bool) (parent : BlockHeader) (block : option Z) (h : BlockHeader)
  : result eth_exn unit :=
  _ ← throw_if ((MaxBlockNumber <=? m_number h) || (m_number h <? 0)) InvalidNumber;
  _ ← throw_if (checkGas && (m_gasLimit h <? m_gasUsed h)) TooMuchGasUsed;
  _ ← (if headerSet parent then
         _ ← throw_if (negb (m_parentHash h =? 0) && negb (headerHash parent =? m_parentHash h))
               InvalidParentHash;
         _ ← throw_if (m_timestamp h <=? m_timestamp parent) InvalidTimestamp;
         throw_if (negb (m_number h =? wrapS 64 (m_number parent + 1))) InvalidNumber
       else Ok tt);
  match block with
  | Some expectedRoot =>
      throw_if (negb (m_transactionsRoot h =? expectedRoot)) InvalidTransactionsRoot
  | None => Ok tt
  end.
End hashed.

(** ** Round trip *)

(** The values the C++ types can hold, and sizes that fit in memory. *)
Record header_wf (h : BlockHeader) : Prop := {
  wf_parent : 0 ≤ m_parentHash h < 2 ^ 256;
  wf_state : 0 ≤ m_stateRoot h < 2 ^ 256;
  wf_txs : 0 ≤ m_transactionsRoot h < 2 ^ 256;
  wf_receipts : 0 ≤ m_receiptsRoot h < 2 ^ 256;
  wf_db : 0 ≤ m_dbHash h < 2 ^ 256;
  wf_bloom : 0 ≤ m_logBloom h < 2 ^ 2048;
  wf_number : 0 ≤ m_number h < 2 ^ 63;
  wf_gasLimit : 0 ≤ m_gasLimit h < 2 ^ 256;
  wf_gasUsed : 0 ≤ m_gasUsed h < 2 ^ 256;
  wf_timestamp : 0 ≤ m_timestamp h < 2 ^ 64;
  wf_sealer : 0 ≤ m_sealer h < 2 ^ 256;
  wf_sealerList : Forall (λ x, 0 ≤ x < 2 ^ 512) (m_sealerList h);
  wf_extra : Forall rlp_fits (m_extraData h);
  wf_extra_size : zlen (mjoin (rlpData <$> m_extraData h)) < 2 ^ 60;
  wf_sealers_size : zlen (m_sealerList h) < 2 ^ 50;
}.

Abbreviation encHash n := (λ h, rlpData (hashBytes n h)).
Abbreviation encInt := (λ i, rlpData (toCompactBigEndian i 0)).

(** The thirteen items of the encoded header. *)
Definition header_items (h : BlockHeader) : list bytes :=
  [encHash 32 (m_parentHash h); encHash 32 (m_stateRoot h); encHash 32 (m_transactionsRoot h);
   encHash 32 (m_receiptsRoot h); encHash 32 (m_dbHash h); encHash 256 (m_logBloom h);
   encInt (m_number h); encInt (m_gasLimit h); encInt (m_gasUsed h); encInt (m_timestamp h);
   rlpList (rlpData <$> m_extraData h); encInt (m_sealer h);
   rlpList (encHash 64 <$> m_sealerList h)].

(** The memo agrees with the content. *)
Definition header_memo `{Crypto} (h : BlockHeader) : Prop :=
  m_hash h = 0 ∨ ∃ d, header_encode h = Ok d ∧ m_hash h = Hash d.

(** The operations on a header that change it through the setters. *)
Inductive header_op :=
  | OSetParentHash (p : Z) | OSetRoots (t r s : Z) | OSetDBhash (d : Z) | OSetLogBloom (l : Z)
  | OSetNumber (n : Z) | OSetGasLimit (g : Z) | OSetGasUsed (g : Z)
  | OAppendExtraDataArray (b : bytes) | OSetExtraDataAt (b : bytes) (i : Z)
  | OSetExtraData (e : list bytes) | OSetTimestamp (t : Z) | OSetSealer (x : Z)
  | OSetSealerList (l : list Z) | OSetStateRoot (r : Z) | OSetTransactionsRoot (r : Z)
  | OSetReceiptsRoot (r : Z) | OClear (EmptyTrie : Z) | OPopulateFromParent (p : BlockHeader) | OHash.

Definition header_apply `{Crypto} (o : header_op) (h : BlockHeader) : BlockHeader :=
  match o with
  | OSetParentHash p => setParentHash p h
  | OSetRoots t r s => setRoots t r s h
  | OSetDBhash d => setDBhash d h
  | OSetLogBloom l => setLogBloom l h
  | OSetNumber n => setNumber n h
  | OSetGasLimit g => setGasLimit g h
  | OSetGasUsed g => setGasUsed g h
  | OAppendExtraDataArray b => appendExtraDataArray b h
  | OSetExtraDataAt b i => (setExtraDataAt b i h).1
  | OSetExtraData e => setExtraData e h
  | OSetTimestamp t => setTimestamp t h
  | OSetSealer x => setSealer x h
  | OSetSealerList l => setSealerList l h
  | OSetStateRoot r => setStateRoot r h
  | OSetTransactionsRoot r => setTransactionsRoot r h
  | OSetReceiptsRoot r => setReceiptsRoot r h
  | OClear e => header_clear e h
  | OPopulateFromParent p => populateFromParent p h
  | OHash => match header_hash h with Ok (h', _) => h' | Throw _ => h end
  end.

Lemma encHash_good n h : Z.of_nat n < 2 ^ 63 → good_item (encHash n h).
Proof.
  intros. apply rlpData_good. unfold rlp_fits, hashBytes. by rewrite zlen_toBigEndian.
Qed.

Lemma compact_fits i n : 0 ≤ i < 256 ^ n → 0 ≤ n < 2 ^ 63 → rlp_fits (toCompactBigEndian i 0).
Proof. intros. unfold rlp_fits. pose proof (zlen_compact_le i n). lia. Qed.

Lemma encInt_good i : 0 ≤ i < 2 ^ 256 → good_item (encInt i).
Proof.
  intros. apply rlpData_good. apply (compact_fits i 32); [change (256 ^ 32) with (2 ^ 256) |]; lia.
Qed.

Lemma zlen_encHash n h : Z.of_nat n < 2 ^ 63 → zlen (encHash n h) ≤ Z.of_nat n + 9.
Proof.
  intros. assert (zlen (hashBytes n h) = Z.of_nat n) as Hz by apply zlen_toBigEndian.
  rewrite <- Hz. apply zlen_rlpData. unfold rlp_fits. lia.
Qed.

Lemma zlen_encInt i : 0 ≤ i < 2 ^ 256 → zlen (encInt i) ≤ 41.
Proof.
  intros. assert (0 ≤ i < 256 ^ 32) by (change (256 ^ 32) with (2 ^ 256); lia).
  pose proof (zlen_compact_le i 32 ltac:(lia) ltac:(lia)).
  pose proof (zlen_rlpData _ (compact_fits i 32 ltac:(lia) ltac:(lia))). lia.
Qed.

Lemma zlen_sealers l : zlen (mjoin (encHash 64 <$> l)) ≤ 73 * zlen l.
Proof.
  induction l as [|x l IH]; [done |]. rewrite fmap_cons, zlen_mjoin, zlen_cons.
  pose proof (zlen_encHash 64 x ltac:(lia)). lia.
Qed.

Lemma sealers_fit h : header_wf h → rlp_fits (mjoin (encHash 64 <$> m_sealerList h)).
Proof.
  intros []. unfold rlp_fits. pose proof (zlen_sealers (m_sealerList h)). lia.
Qed.
Lemma extra_fit h : header_wf h → rlp_fits (mjoin (rlpData <$> m_extraData h)).
Proof. intros []. unfold rlp_fits. lia. Qed.

Lemma wf_u64 z : 0 ≤ z < 2 ^ 64 → 0 ≤ z < 2 ^ 256.
Proof. intros. split; [lia |]. eapply Z.lt_trans; [apply H | done]. Qed.
Lemma wf_i63 z : 0 ≤ z < 2 ^ 63 → 0 ≤ z < 2 ^ 256.
Proof. intros. split; [lia |]. eapply Z.lt_trans; [apply H | done]. Qed.

Lemma header_items_good h : header_wf h → Forall good_item (header_items h).
Proof.
  intros Hwf. pose proof (sealers_fit h Hwf). pose proof (extra_fit h Hwf). destruct Hwf.
  repeat constructor; try (by apply encHash_good); try (by apply encInt_good);
    try (by apply rlpList_good); try (by apply encInt_good, wf_u64); by apply encInt_good, wf_i63.
Qed.

Lemma header_items_fit h : header_wf h → rlp_fits (mjoin (header_items h)).
Proof.
  intros Hwf. pose proof (zlen_rlpList _ (sealers_fit h Hwf)).
  pose proof (zlen_rlpList _ (extra_fit h Hwf)). pose proof (zlen_sealers (m_sealerList h)).
  destruct Hwf. unfold rlp_fits, header_items. rewrite !zlen_mjoin. change (zlen (mjoin [])) with 0.
  pose proof (zlen_encHash 32 (m_parentHash h) ltac:(lia)).
  pose proof (zlen_encHash 32 (m_stateRoot h) ltac:(lia)).
  pose proof (zlen_encHash 32 (m_transactionsRoot h) ltac:(lia)).
  pose proof (zlen_encHash 32 (m_receiptsRoot h) ltac:(lia)).
  pose proof (zlen_encHash 32 (m_dbHash h) ltac:(lia)).
  pose proof (zlen_encHash 256 (m_logBloom h) ltac:(lia)).
  pose proof (zlen_encInt (m_number h) (wf_i63 _ wf_number0)).
  pose proof (zlen_encInt (m_gasLimit h) wf_gasLimit0).
  pose proof (zlen_encInt (m_gasUsed h) wf_gasUsed0).
  pose proof (zlen_encInt (m_timestamp h) (wf_u64 _ wf_timestamp0)).
  pose proof (zlen_encInt (m_sealer h) wf_sealer0). lia.
Qed.

Lemma appendBigint_256 i : 0 ≤ i < 2 ^ 256 → appends appendBigint encInt i.
Proof.
  intros. apply appendBigint_spec. split; [lia |]. eapply Z.lt_trans; [apply H | done].
Qed.

(** A header encodes as the list of its items. *)
Lemma header_encode_items h : header_wf h → header_encode h = Ok (rlpList (header_items h)).
Proof.
  intros Hwf. pose proof (header_items_fit h Hwf) as Hfit.
  assert (appends (appendVector (λ b, appendBytes b false)) (λ v, rlpList (rlpData <$> v)) (m_extraData h)).
  { apply appendVector_spec; [| by apply extra_fit].
    eapply Forall_impl; [by apply wf_extra | apply appendBytes_spec]. }
  assert (appends (appendVector (appendHash 64)) (λ v, rlpList (encHash 64 <$> v)) (m_sealerList h)).
  { apply appendVector_spec; [| by apply sealers_fit].
    apply Forall_true. intros x. by apply appendHash_spec. }
  destruct Hwf. unfold header_encode, appendList, header_streamRLPFields.
  change (BasicFields =? 0) with false. cbn [emptyStream m_out m_listStack mbind result_bind].
  change (mkStream [] [(BasicFields, zlen [])]) with (mkStream (mjoin []) [(13, 0)]).
  do 6 (rewrite append_step with (enc := encHash _) by first [lia | by apply appendHash_spec];
    cbn [mbind result_bind]).
  do 4 (rewrite append_step with (enc := encInt)
      by first [lia | apply appendBigint_256; auto using wf_u64, wf_i63]; cbn [mbind result_bind]).
  rewrite append_step with (enc := λ v, rlpList (rlpData <$> v)) by done. cbn [mbind result_bind].
  rewrite append_step with (enc := encInt) by first [lia | by apply appendBigint_256].
  cbn [mbind result_bind].
  rewrite append_last with (enc := λ v, rlpList (encHash 64 <$> v)) by done. done.
Qed.

Lemma toInt_256 T i flags :
  0 ≤ i < 2 ^ 256 → bytesRequired i ≤ maxSize T → castT T i = i → toInt T (encInt i) flags = Ok i.
Proof.
  intros Hi HT Hc. cbn beta. rewrite toInt_compact; [by rewrite Hc | | done].
  split; [lia |]. eapply Z.lt_trans; [apply Hi | done].
Qed.

Lemma toInt_u256 i flags : 0 ≤ i < 2 ^ 256 → toInt T_u256 (encInt i) flags = Ok i.
Proof.
  intros Hi. apply toInt_256; [done | | by apply wrapU_id].
  apply bytesRequired_le; [done |]. by change (256 ^ maxSize T_u256) with (2 ^ 256).
Qed.

Lemma toInt_u64 i flags : 0 ≤ i < 2 ^ 64 → toInt T_uint64 (encInt i) flags = Ok i.
Proof.
  intros Hi. apply toInt_256; [by apply wf_u64 | | by apply wrapU_id].
  apply bytesRequired_le; [done |]. by change (256 ^ maxSize T_uint64) with (2 ^ 64).
Qed.

Lemma toInt_i64 i flags : 0 ≤ i < 2 ^ 63 → toInt T_int64 (encInt i) flags = Ok i.
Proof.
  intros Hi. apply toInt_256; [by apply wf_i63 | | apply wrapS_id; [done |]; lia].
  apply bytesRequired_le; [done |]. change (256 ^ maxSize T_int64) with (2 * 2 ^ 63). lia.
Qed.

Lemma toPositiveInt64_enc i flags : 0 ≤ i < 2 ^ 63 → toPositiveInt64 (encInt i) flags = Ok i.
Proof.
  intros Hi. unfold toPositiveInt64. rewrite toInt_i64 by done. cbn [mbind result_bind].
  replace (i <? 0) with false by (symmetry; lia). by rewrite andb_false_r.
Qed.

Lemma toHash_enc n k h flags :
  0 ≤ h < 2 ^ k → k = 8 * Z.of_nat n → Z.of_nat n < 2 ^ 63 → toHash n (encHash n h) flags = Ok h.
Proof.
  intros Hh -> Hn. apply toHash_data; [| done].
  by replace (256 ^ Z.of_nat n) with (2 ^ (8 * Z.of_nat n)) by (rewrite Z.pow_mul_r by lia; done).
Qed.

Lemma toVector_sealers h :
  header_wf h → toVector (toHash 64) (rlpList (encHash 64 <$> m_sealerList h)) LaissezFaire
                = Ok (m_sealerList h).
Proof.
  intros Hwf. apply toVector_list; [| by apply sealers_fit].
  eapply Forall_impl; [by apply wf_sealerList |]. intros x Hx. cbn beta.
  split; [by apply encHash_good | by apply (toHash_enc 64 512)].
Qed.

Lemma toVector_extra h :
  header_wf h → toVector toBytes (rlpList (rlpData <$> m_extraData h)) LaissezFaire = Ok (m_extraData h).
Proof.
  intros Hwf. apply toVector_list; [| by apply extra_fit].
  eapply Forall_impl; [by apply wf_extra |]. intros b Hb.
  split; [by apply rlpData_good | by apply toBytes_data].
Qed.

(** [populate] reads the items of a header back. *)
Lemma header_populate_items h h0 :
  header_wf h → reads (header_items h) (header_populate h0) (Ok (set_hash (m_hash h0) h)).
Proof.
  intros Hwf. pose proof (header_items_good h Hwf) as Hg.
  pose proof (toVector_sealers h Hwf). pose proof (toVector_extra h Hwf). destruct Hwf.
  unfold header_populate.
  repeat reads_step ltac:(fun _ =>
     lazymatch goal with
     | |- toHash 32 _ _ = _ => by apply (toHash_enc 32 256)
     | |- toHash 256 _ _ = _ => by apply (toHash_enc 256 2048)
     | |- toPositiveInt64 _ _ = _ => by apply toPositiveInt64_enc
     | |- toInt T_u256 _ _ = _ => by apply toInt_u256
     | |- toInt T_uint64 _ _ = _ => by apply toInt_u64
     | |- toVector _ _ _ = _ => eassumption
     end).
  apply reads_ret.
Qed.

Lemma header_decode_encode h h0 :
  header_wf h → (d ← header_encode h; header_decode h0 d) = Ok (set_hash (m_hash h0) h).
Proof.
  intros Hwf. rewrite header_encode_items by done. cbn [mbind result_bind]. unfold header_decode.
  pose proof (header_items_fit h Hwf) as Hfit. destruct (rlpList_good _ Hfit) as [Hg Hp].
  rewrite newRLP_item by done. cbn [mbind result_bind].
  destruct (header_populate_items h h0 Hwf (freshRLP (rlpList (header_items h)))) as (r' & -> & _);
    [by left | done | done].
Qed.

(** ** The memoised hash *)

Section memo.
Context `{Crypto}.

Lemma header_encode_hash h v : header_encode (set_hash v h) = header_encode h.
Proof. done. Qed.

Lemma header_apply_memo o h : header_memo h → header_memo (header_apply o h).
Proof.
  intros Hm. destruct o; try (by left).
  - cbn [header_apply setExtraDataAt]. unfold setExtraDataAt. by break_if; [| left].
  - cbn [header_apply]. unfold header_hash. destruct (m_hash h =? 0); [| done].
    destruct (header_encode h) as [d |] eqn:Hd; [| done]. right. exists d. exact (conj Hd eq_refl).
Qed.

Lemma header_memo_hash h d : header_memo h → header_encode h = Ok d → headerHash h = Hash d.
Proof.
  intros [Hm | (d' & Hd' & Hm)] Hd; unfold headerHash, header_hash.
  - rewrite Hm, Hd. done.
  - rewrite Hd in Hd'. injection Hd' as ->. rewrite Hd. destruct (Z.eqb_spec (m_hash h) 0) as [|Hne]; cbn [mbind result_bind];
      congruence.
Qed.

(** The memo of [BlockHeader::hash] is transparent: after any sequence of
    setters, [clear], [populateFromParent] and [hash] calls on a fresh header,
    [hash] is the hash of the encoding of the current fields. *)
Theorem header_hash_memo_transparent ops :
  let h := foldl (λ h o, header_apply o h) emptyHeader ops in
  header_wf h → headerHash h = Hash (rlpList (header_items h)).
Proof.
  intros h Hwf. apply header_memo_hash; [| by apply header_encode_items].
  subst h. assert (header_memo emptyHeader) as Hm by by left. revert Hm Hwf.
  generalize emptyHeader. induction ops as [|o ops IH]; intros h Hm Hwf; [done |].
  cbn [foldl] in *. apply IH; [by apply header_apply_memo | done].
Qed.
End memo.

Lemma header_hash_memo_transparent_witness :
  let h := foldl (λ h o, @header_apply toyCrypto o h) emptyHeader
             [OSetNumber 5; OSetTimestamp 9; OSetSealer 2] in
  @headerHash toyCrypto h = @Hash toyCrypto (rlpList (header_items h)).
Proof.
  apply (@header_hash_memo_transparent toyCrypto [OSetNumber 5; OSetTimestamp 9; OSetSealer 2]).
  constructor; first [apply Forall_nil; exact I | split; [by apply Z.leb_le | by apply Z.ltb_lt]
                     | by apply Z.ltb_lt].
Defined.

(** [decode] of an encoded header restores all thirteen fields, for every
    header with a non-negative number.  The memoised hash of the target is kept,
    whatever was decoded: an object that had hashed before keeps its old hash. *)
Theorem header_decode_encode_roundtrip h h0 :
  header_wf h →
  (d ← header_encode h; header_decode h0 d) = Ok (set_hash (m_hash h0) h).
Proof. apply header_decode_encode. Qed.

Lemma header_decode_encode_roundtrip_witness :
  (d ← header_encode (setTimestamp 9 (setNumber 5 emptyHeader)); header_decode emptyHeader d)
  = Ok (setTimestamp 9 (setNumber 5 emptyHeader)).
Proof.
  apply (header_decode_encode_roundtrip (setTimestamp 9 (setNumber 5 emptyHeader)) emptyHeader).
  constructor; first [apply Forall_nil; exact I | split; [by apply Z.leb_le | by apply Z.ltb_lt]
                     | by apply Z.ltb_lt].
Defined.

Section derive.
Context `{Crypto}.

(** A header derived with [populateFromParent] and then stamped later than
    its parent passes [verify] against that parent, as long as the chain is not
    at the last representable height and the parent is set. *)
Theorem header_from_parent_verifies parent h t :
  0 ≤ m_number parent < MaxBlockNumber - 1 → 0 ≤ m_gasLimit parent →
  m_timestamp parent < t → m_timestamp parent < UINT64_MAX →
  header_verify true parent None (setTimestamp t (populateFromParent parent h)) = Ok tt.
Proof.
  unfold MaxBlockNumber, INT64_MAX. intros Hn Hg Ht Hp. unfold header_verify. cbn.
  rewrite wrapS_id by lia. unfold throw_if, headerSet, MaxBlockNumber, INT64_MAX.
  repeat (break_if; breflect; try done); lia.
Qed.
End derive.

Lemma header_from_parent_verifies_witness :
  @header_verify toyCrypto true (setTimestamp 5 emptyHeader) None
    (setTimestamp 6 (@populateFromParent toyCrypto (setTimestamp 5 emptyHeader) emptyHeader)) = Ok tt.
Proof.
  apply (@header_from_parent_verifies toyCrypto (setTimestamp 5 emptyHeader) emptyHeader 6);
    vm_compute; intuition congruence.
Defined.
