(* ===== verification/TxsParser.v ===== *)
(** * The transaction block format (libethcore/TxsParallelParser.h, TxsParallelParser.cpp)

    [txNum, offsets, transaction bytes] with 32-bit little-endian numbers.  The
    transaction codec is an argument: [decodeTx] for [Transaction::decode].  The
    parallel loops write disjoint elements and any exception of an element is
    re-thrown as one exception, so the loop is its sequential version. *)
From S2P Require Import Prelude CommonData RLP BlockHeader.
Local Open Scope Z_scope.

(** [InvalidBlockFormat], or a read outside the buffer. *)
Inductive txs_exn := TxsInvalidFormat | TxsOutOfBounds.

(** [toBytes] and [fromBytes]: the in-memory (little-endian) form. *)
Definition le32 (n : Z) : bytes := rev (toBigEndian 4 n).
Definition rd32 (d : bytes) (at_ : Z) : result txs_exn Z :=
  let b := take 4 (drop (Z.to_nat at_) d) in
  if zlen b =? 4 then Ok (be_val (rev b)) else Throw TxsOutOfBounds.

(** The accumulated offsets, in [uint32_t]. *)
Fixpoint txs_offsets (off : Z) (txs : list bytes) : list Z :=
  match txs with
  | [] => [off]
  | b :: txs' => off :: txs_offsets (wrapU 32 (off + zlen b)) txs'
  end.

(** [encode]. *)
Definition txs_encode (txs : list bytes) : bytes :=
  let txNum := wrapU 32 (zlen txs) in
  if txNum =? 0 then []
  else le32 txNum ++ mjoin (le32 <$> txs_offsets 0 txs) ++ mjoin txs.

(** [sizeof(Offset_t) * (txNum + 2)]: the sum is in [uint32_t]. *)
Definition txs_objectStart (txNum : Z) : Z := 4 * wrapU 32 (txNum + 2).

Section decode.
Context {Tx : Type} (decodeTx : bytes → option Tx).

(** The body of the decoding loop. *)
Definition txs_decode_one (d : bytes) (objectStart i : Z) : result txs_exn Tx :=
  offset ← rd32 d (4 + 4 * i);
  next ← rd32 d (4 + 4 * (i + 1));
  let size := wrapU 32 (next - offset) in
  _ ← throw_if (zlen d - objectStart - 1 <? offset) TxsInvalidFormat;
  match decodeTx (cropped (croppedFrom d objectStart) offset size) with
  | Some tx => Ok tx
  | None => Throw TxsInvalidFormat
  end.

Fixpoint txs_decode_loop (n : nat) (d : bytes) (objectStart i : Z) : result txs_exn (list Tx) :=
  match n with
  | O => Ok []
  | S n' =>
      tx ← txs_decode_one d objectStart i;
      rest ← txs_decode_loop n' d objectStart (i + 1);
      Ok (tx :: rest)
  end.

(** [decode] into [txs], which an empty input leaves alone. *)
Definition txs_decode (txs : list Tx) (d : bytes) : result txs_exn (list Tx) :=
  if zlen d =? 0 then Ok txs
  else
    txNum ← rd32 d 0;
    let objectStart := txs_objectStart txNum in
    _ ← throw_if (zlen d <=? objectStart) TxsInvalidFormat;
    _ ← throw_if (wrapU 32 (txNum + 1) =? 0) TxsInvalidFormat;
    _ ← throw_if (zlen (croppedFrom d objectStart) =? 0) TxsInvalidFormat;
    txs_decode_loop (Z.to_nat txNum) d objectStart 0.
End decode.

(** The element count that [decode] asks [resize] for before it reads the
    transactions, when its checks pass. *)
Definition txs_resize (d : bytes) : option Z :=
  match rd32 d 0 with
  | Ok txNum => if zlen d <=? txs_objectStart txNum then None else Some txNum
  | Throw _ => None
  end.

Lemma length_le32 n : length (le32 n) = 4%nat.
Proof. unfold le32. by rewrite length_rev, length_toBigEndian. Qed.

Lemma rd32_at pre n post : rd32 (pre ++ le32 n ++ post) (zlen pre) = Ok (wrapU 32 n).
Proof.
  unfold rd32. rewrite zlen_to_nat, drop_app_length, (take_app_length' (le32 n)) by by rewrite length_le32.
  unfold zlen. rewrite length_le32. change (Z.of_nat 4 =? 4) with true. cbv iota. unfold le32. rewrite rev_involutive, be_val_toBigEndian. done.
Qed.

Lemma zlen_le32s (l : list Z) : zlen (mjoin (le32 <$> l)) = 4 * zlen l.
Proof.
  induction l as [|n l IH]; [done |]. rewrite fmap_cons, zlen_mjoin, zlen_cons, IH.
  unfold zlen at 1. rewrite length_le32. lia.
Qed.

Lemma txs_offsets_lookup off txs i :
  (i ≤ length txs)%nat → 0 ≤ off → off + zlen (mjoin txs) < 2 ^ 32 →
  txs_offsets off txs !! i = Some (off + zlen (mjoin (take i txs))).
Proof.
  revert off i. induction txs as [|b txs IH]; intros off i Hi Hoff Hsum.
  - assert (i = 0%nat) as -> by (cbn in Hi; lia).
    change (Some off = Some (off + 0)). f_equal. lia.
  - destruct i as [|i]; cbn [txs_offsets lookup list_lookup take].
    + change (Some off = Some (off + 0)). f_equal. lia.
    + rewrite !zlen_mjoin in *. pose proof (zlen_nonneg b). pose proof (zlen_nonneg (mjoin txs)).
      rewrite wrapU_id by lia. rewrite IH; [f_equal; lia | cbn in Hi; lia | lia | lia].
Qed.

Lemma length_txs_offsets off txs : length (txs_offsets off txs) = S (length txs).
Proof. revert off. induction txs as [|b txs IH]; intros off; cbn; [done | by rewrite IH]. Qed.

(** The [i]-th offset of an encoding. *)
Lemma rd32_offset hd offs tl i o :
  length hd = 4%nat → offs !! i = Some o → 0 ≤ o < 2 ^ 32 →
  rd32 (hd ++ mjoin (le32 <$> offs) ++ tl) (4 + 4 * Z.of_nat i) = Ok o.
Proof.
  intros Hhd Ho Hrange.
  rewrite <- (take_drop_middle offs i o Ho), fmap_app, join_app, fmap_cons.
  change (mjoin (le32 o :: (le32 <$> drop (S i) offs))) with (le32 o ++ mjoin (le32 <$> drop (S i) offs)).
  replace (hd ++ _) with ((hd ++ mjoin (le32 <$> take i offs)) ++ le32 o
                            ++ (mjoin (le32 <$> drop (S i) offs) ++ tl)) by by rewrite <- !app_assoc.
  replace (4 + 4 * Z.of_nat i) with (zlen (hd ++ mjoin (le32 <$> take i offs))).
  - rewrite rd32_at. by rewrite wrapU_id.
  - rewrite zlen_app, zlen_le32s. apply lookup_lt_Some in Ho. unfold zlen. rewrite length_take. lia.
Qed.

Section roundtrip.
Context {Tx : Type} (decodeTx : bytes → option Tx) (encodeTx : Tx → bytes).

(** The bytes of an encoding of [l], with the sizes that make it exact. *)
Definition txs_small (l : list bytes) : Prop :=
  0 < zlen l ∧ zlen l + 2 < 2 ^ 32 ∧ 0 < zlen (mjoin l) < 2 ^ 32.

Lemma txs_encode_shape l :
  txs_small l → txs_encode l = le32 (zlen l) ++ mjoin (le32 <$> txs_offsets 0 l) ++ mjoin l.
Proof.
  intros (? & ? & ?). unfold txs_encode. rewrite wrapU_id by lia.
  by replace (zlen l =? 0) with false by (symmetry; lia).
Qed.

Lemma zlen_txs_header l :
  zlen (le32 (zlen l) ++ mjoin (le32 <$> txs_offsets 0 l)) = 4 * (zlen l + 2).
Proof.
  rewrite zlen_app, zlen_le32s. unfold zlen. rewrite length_le32, length_txs_offsets. lia.
Qed.

Lemma txs_objectStart_eq l : txs_small l → txs_objectStart (zlen l) = 4 * (zlen l + 2).
Proof. intros (? & ? & ?). unfold txs_objectStart. by rewrite wrapU_id by lia. Qed.

(** The loop body on an encoding reads the right slice. *)
Lemma txs_decode_one_encode l i b tx :
  txs_small l → l !! i = Some b → 0 < zlen b → decodeTx b = Some tx →
  txs_decode_one decodeTx (txs_encode l) (4 * (zlen l + 2)) (Z.of_nat i) = Ok tx.
Proof.
  intros Hs Hb Hlen Hdec. pose proof Hs as (Hl & Hl2 & Hsum).
  assert (mjoin l = mjoin (take i l) ++ b ++ mjoin (drop (S i) l)) as Hsplit.
  { rewrite <- (take_drop_middle l i b Hb) at 1. by rewrite join_app. }
  assert (zlen (mjoin (take (S i) l)) = zlen (mjoin (take i l)) + zlen b) as HS.
  { rewrite (take_S_r _ _ _ Hb), join_app, zlen_app. cbn [mjoin list_join]. by rewrite app_nil_r. }
  apply (f_equal zlen) in Hsplit as Hz. rewrite !zlen_app in Hz.
  pose proof (zlen_nonneg (mjoin (take i l))). pose proof (zlen_nonneg (mjoin (drop (S i) l))).
  pose proof (lookup_lt_Some _ _ _ Hb) as Hi. unfold txs_decode_one. rewrite txs_encode_shape by done.
  rewrite (rd32_offset _ _ _ i (zlen (mjoin (take i l))));
    [| apply length_le32 | rewrite txs_offsets_lookup by lia; done | lia].
  cbn [mbind result_bind]. replace (Z.of_nat i + 1) with (Z.of_nat (S i)) by lia.
  rewrite (rd32_offset _ _ _ (S i) (zlen (mjoin (take i l)) + zlen b));
    [| apply length_le32 | rewrite txs_offsets_lookup by lia; by rewrite HS | lia].
  cbn [mbind result_bind]. rewrite app_assoc, <- zlen_txs_header, croppedFrom_suffix.
  replace (_ <? _) with false by (symmetry; rewrite zlen_app; lia). rewrite throw_if_false.
  replace (wrapU 32 _) with (zlen b) by (rewrite wrapU_id by lia; lia).
  replace (cropped _ _ _) with b; [by rewrite Hdec |].
  unfold cropped. replace (_ && _ && _) with true by (symmetry; lia).
  by rewrite Hsplit, !zlen_to_nat, drop_app_length, take_app_length.
Qed.

Lemma txs_decode_loop_encode l txs n :
  txs_small l → Forall2 (λ b tx, 0 < zlen b ∧ decodeTx b = Some tx) l txs → (n ≤ length l)%nat →
  txs_decode_loop decodeTx n (txs_encode l) (4 * (zlen l + 2)) (Z.of_nat (length l - n))
  = Ok (drop (length l - n) txs).
Proof.
  intros Hs Hall. pose proof (Forall2_length _ _ _ Hall) as Hlen.
  induction n as [|n IH]; intros Hn; cbn [txs_decode_loop].
  - rewrite Nat.sub_0_r, drop_ge by lia. done.
  - destruct (lookup_lt_is_Some_2 l (length l - S n)) as [b Hb]; [lia |].
    destruct (Forall2_lookup_l _ _ _ _ _ Hall Hb) as (tx & Htx & Hpos & Hdec).
    rewrite (txs_decode_one_encode _ _ _ _ Hs Hb Hpos Hdec). cbn [mbind result_bind].
    replace (Z.of_nat (length l - S n) + 1) with (Z.of_nat (length l - n)) by lia.
    rewrite IH by lia. cbn [mbind result_bind]. rewrite (drop_S _ _ _ Htx). do 3 f_equal. lia.
Qed.

Lemma txs_decode_ok (txs old : list Tx) :
  (∀ tx, tx ∈ txs → 0 < zlen (encodeTx tx) ∧ decodeTx (encodeTx tx) = Some tx) →
  txs ≠ [] → zlen txs + 2 < 2 ^ 32 → zlen (mjoin (encodeTx <$> txs)) < 2 ^ 32 →
  txs_decode decodeTx old (txs_encode (encodeTx <$> txs)) = Ok txs.
Proof.
  intros Hcodec Hne Hnum Hsize. set (l := encodeTx <$> txs) in *.
  assert (zlen l = zlen txs) as Hl by (unfold zlen, l; by rewrite length_fmap).
  assert (Forall2 (λ b tx, 0 < zlen b ∧ decodeTx b = Some tx) l txs) as Hall.
  { unfold l. apply Forall2_fmap_l, Forall_Forall2_diag, Forall_forall. auto. }
  assert (txs_small l) as Hs.
  { split; [rewrite Hl; destruct txs; [done | zsize] | split; [lia |]]. split; [| done].
    destruct txs as [|tx txs]; [done |]. destruct (Hcodec tx) as [Hp _]; [left |].
    unfold l. rewrite fmap_cons, zlen_mjoin. pose proof (zlen_nonneg (mjoin (encodeTx <$> txs))). lia. }
  pose proof Hs as (Hl0 & Hl2 & Hsum).
  assert (zlen (txs_encode l) = 4 * (zlen l + 2) + zlen (mjoin l)) as Hz.
  { rewrite txs_encode_shape, app_assoc, zlen_app, zlen_txs_header by done. done. }
  unfold txs_decode. replace (zlen (txs_encode l) =? 0) with false by (symmetry; lia).
  assert (rd32 (txs_encode l) 0 = Ok (zlen l)) as ->.
  { rewrite txs_encode_shape by done. rewrite <- (app_nil_l (le32 _ ++ _)).
    change 0 with (zlen (@nil Byte.byte)). rewrite rd32_at. by rewrite wrapU_id by lia. }
  cbn [mbind result_bind]. cbv zeta. rewrite txs_objectStart_eq, Hz by done.
  replace (_ <=? _) with false by (symmetry; lia). rewrite throw_if_false.
  rewrite wrapU_id by lia. replace (zlen l + 1 =? 0) with false by (symmetry; lia).
  rewrite throw_if_false.
  assert (croppedFrom (txs_encode l) (4 * (zlen l + 2)) = mjoin l) as ->.
  { rewrite txs_encode_shape, app_assoc by done. rewrite <- zlen_txs_header. apply croppedFrom_suffix. }
  replace (zlen (mjoin l) =? 0) with false by (symmetry; lia). rewrite throw_if_false.
  pose proof (txs_decode_loop_encode l txs (length l) Hs Hall ltac:(lia)) as H.
  rewrite Nat.sub_diag, drop_0 in H. by rewrite zlen_to_nat.
Qed.

(** Decoding the encoded transactions of a block gives the transactions
    back, provided each is decoded from its own bytes, none is encoded as the
    empty string, and the sizes fit the 32-bit offsets. *)
Theorem txs_decode_encode (txs old : list Tx) :
  (∀ tx, tx ∈ txs → 0 < zlen (encodeTx tx) ∧ decodeTx (encodeTx tx) = Some tx) →
  txs ≠ [] → zlen txs + 2 < 2 ^ 32 → zlen (mjoin (encodeTx <$> txs)) < 2 ^ 32 →
  txs_decode decodeTx old (txs_encode (encodeTx <$> txs)) = Ok txs.
Proof. apply txs_decode_ok. Qed.
End roundtrip.

Lemma txs_decode_encode_witness :
  txs_decode (λ b, match b with x :: _ => Some (byte.unsigned x) | [] => None end) []
    (txs_encode ((λ z, [byte.of_Z z]) <$> [3; 250; 7])) = Ok [3; 250; 7].
Proof.
  apply (txs_decode_encode (λ b, match b with x :: _ => Some (byte.unsigned x) | [] => None end)
           (λ z, [byte.of_Z z]) [3; 250; 7] []); [| done..].
  intros tx Htx. rewrite !elem_of_cons, elem_of_nil in Htx.
  by destruct Htx as [-> | [-> | [-> | []]]].
Defined.

(** The size check of [decode] is defeated by a wrapping addition: for
    [txNum = 2^32 - 2] the computed start of the transactions is 0, so a message
    of four bytes passes the check and [resize] is asked for 4294967294 elements. *)
Theorem txs_resize_unbounded : txs_resize (le32 (2 ^ 32 - 2)) = Some (2 ^ 32 - 2).
Proof. vm_compute. reflexivity. Qed.
