(* ===== verification/Block.v ===== *)
(** * Blocks (libethcore/Block.h, Block.cpp; libdevcore/TrieHash2.cpp)

    A block with its header, transactions, receipts, signature list and the
    memoised encodings and roots, for [supported_version >= V2_2_0].  The codecs of
    a transaction and of a receipt are arguments. *)
From S2P Require Import Prelude CommonData RLP Crypto BlockHeader TxsParser.
Local Open Scope Z_scope.

(** What the block code reads of a [Transaction] and of a [TransactionReceipt]:
    their hashes, the nonce and their RLP forms. *)
Record Transaction := mkTx { tx_sha3 : Z; tx_nonce : Z; tx_rlp : bytes }.
Record TransactionReceipt := mkReceipt { r_sha3 : bytes; r_rlp : bytes }.

Definition MAX_CHILD_COUNT : nat := 16.

Record Block := mkBlock {
  b_header : BlockHeader;
  b_transactions : list Transaction;
  b_receipts : list TransactionReceipt;
  b_sigList : list (Z * bytes);
  b_txsCache : bytes;
  b_tReceiptsCache : bytes;
  b_transRootCache : Z;
  b_receiptRootCache : Z;
  b_blockSize : Z }.

Definition set_b_header v (s : Block) : Block := mkBlock v (b_transactions s) (b_receipts s)
  (b_sigList s) (b_txsCache s) (b_tReceiptsCache s) (b_transRootCache s) (b_receiptRootCache s)
  (b_blockSize s).
Definition set_b_transactions v (s : Block) : Block := mkBlock (b_header s) v (b_receipts s)
  (b_sigList s) (b_txsCache s) (b_tReceiptsCache s) (b_transRootCache s) (b_receiptRootCache s)
  (b_blockSize s).
Definition set_b_receipts v (s : Block) : Block := mkBlock (b_header s) (b_transactions s) v
  (b_sigList s) (b_txsCache s) (b_tReceiptsCache s) (b_transRootCache s) (b_receiptRootCache s)
  (b_blockSize s).
Definition set_b_sigList v (s : Block) : Block := mkBlock (b_header s) (b_transactions s)
  (b_receipts s) v (b_txsCache s) (b_tReceiptsCache s) (b_transRootCache s) (b_receiptRootCache
  s) (b_blockSize s).
Definition set_b_txsCache v (s : Block) : Block := mkBlock (b_header s) (b_transactions s)
  (b_receipts s) (b_sigList s) v (b_tReceiptsCache s) (b_transRootCache s) (b_receiptRootCache
  s) (b_blockSize s).
Definition set_b_tReceiptsCache v (s : Block) : Block := mkBlock (b_header s) (b_transactions s)
  (b_receipts s) (b_sigList s) (b_txsCache s) v (b_transRootCache s) (b_receiptRootCache s)
  (b_blockSize s).
Definition set_b_transRootCache v (s : Block) : Block := mkBlock (b_header s) (b_transactions s)
  (b_receipts s) (b_sigList s) (b_txsCache s) (b_tReceiptsCache s) v (b_receiptRootCache s)
  (b_blockSize s).
Definition set_b_receiptRootCache v (s : Block) : Block := mkBlock (b_header s) (b_transactions
  s) (b_receipts s) (b_sigList s) (b_txsCache s) (b_tReceiptsCache s) (b_transRootCache s) v
  (b_blockSize s).
Definition set_b_blockSize v (s : Block) : Block := mkBlock (b_header s) (b_transactions s)
  (b_receipts s) (b_sigList s) (b_txsCache s) (b_tReceiptsCache s) (b_transRootCache s)
  (b_receiptRootCache s) v.

(** [Block()]. *)
Definition emptyBlock : Block := mkBlock emptyHeader [] [] [] [] [] 0 0 0.

Definition isSealed (b : Block) : bool := negb (m_sealer (b_header b) =? Invalid256).
Definition getTransactionSize (b : Block) : Z := zlen (b_transactions b).

(** [noteChange] and [noteReceiptChange]: the memoised encodings are dropped. *)
Definition noteChange (b : Block) : Block := set_b_txsCache [] b.
Definition noteReceiptChange (b : Block) : Block := set_b_tReceiptsCache [] b.

Definition setTransactions txs b := noteChange (set_b_transactions txs b).
Definition setTransactionReceipts rs b := noteReceiptChange (set_b_receipts rs b).
Definition appendTransaction tx b := noteChange (set_b_transactions (b_transactions b ++ [tx]) b).
Definition appendTransactions txs b := noteChange (set_b_transactions (b_transactions b ++ txs) b).
Definition appendTransactionReceipt r b := noteReceiptChange (set_b_receipts (b_receipts b ++ [r]) b).
Definition clearAllReceipts b := noteReceiptChange (set_b_receipts [] b).
Definition getAllNonces (b : Block) : list Z := tx_nonce <$> b_transactions b.

(** [setEmptyBlock]. *)
Definition setEmptyBlock (timeStamp : Z) (b : Block) : Block :=
  let h := setTimestamp timeStamp (setSealer 0 (setGasUsed 0 (setNumber 0 (b_header b)))) in
  noteReceiptChange (noteChange (set_b_header h b)).

Section hashed.
Context `{Crypto}.

(** [resetCurrentBlock]. *)
Definition resetCurrentBlock (parent : BlockHeader) (b : Block) : Block :=
  let h := if negb (m_sealer parent =? Invalid256) then populateFromParent parent (b_header b)
           else b_header b in
  let b := set_b_sigList [] (set_b_receipts [] (set_b_transactions [] (set_b_header (setSealer Invalid256 h) b))) in
  noteReceiptChange (noteChange b).

(** One level of [getHash256]: groups of sixteen are hashed together. *)
Fixpoint merkle_level (fuel : nat) (l : list bytes) : list bytes :=
  match fuel with
  | O => []
  | S fuel' =>
      match l with
      | [] => []
      | _ => hashBytes 32 (Hash (mjoin (take MAX_CHILD_COUNT l)))
               :: merkle_level fuel' (drop MAX_CHILD_COUNT l)
      end
  end.

(** [getHash256]; the fuel is the number of leaves, see [merkle_levels_shrink]. *)
Fixpoint merkle_root (fuel : nat) (l : list bytes) : Z :=
  match l with
  | [] => Hash []
  | [x] => Hash x
  | _ => match fuel with O => Hash [] | S fuel' => merkle_root fuel' (merkle_level (length l) l) end
  end.
Definition getHash256 (l : list bytes) : Z := merkle_root (length l) l.

(** The leaves: the index in RLP followed by the hash. *)
Definition merkle_leaf (i : nat) (h : bytes) : bytes :=
  rlpData (toCompactBigEndian (wrapU 32 (Z.of_nat i)) 0) ++ h.

(** [calTransactionRootV2_2_0]. *)
Definition calTransactionRoot (update : bool) (b : Block) : Block :=
  let b := if bool_decide (b_txsCache b = []) then
             set_b_transRootCache
               (getHash256 (imap (λ i tx, merkle_leaf i (hashBytes 32 (tx_sha3 tx))) (b_transactions b)))
               (set_b_txsCache (txs_encode (tx_rlp <$> b_transactions b)) b)
           else b in
  if update then set_b_header (setTransactionsRoot (b_transRootCache b) (b_header b)) b else b.

(** [calReceiptRootV2_2_0]. *)
Definition calReceiptRoot (update : bool) (b : Block) : result dev_exn Block :=
  b ← (if bool_decide (b_tReceiptsCache b = []) then
         s ← appendList (zlen (b_receipts b)) emptyStream;
         s ← foldl (λ acc r, acc ≫= appendRaw (r_rlp r) 1) (Ok s) (b_receipts b);
         out ← streamOut s;
         Ok (set_b_receiptRootCache
               (getHash256 (imap (λ i r, merkle_leaf i (r_sha3 r)) (b_receipts b)))
               (set_b_tReceiptsCache out b))
       else Ok b);
  Ok (if update then set_b_header (setReceiptsRoot (b_receiptRootCache b) (b_header b)) b else b).

(** [append(std::pair<u256, bytes>)]. *)
Definition appendSig (sg : Z * bytes) (s : RLPStream) : result dev_exn RLPStream :=
  s ← appendList 2 s; s ← appendBigint sg.1 s; appendBytes sg.2 false s.

(** [encodeRC2]: the mutable members are the updated block. *)
Definition block_encode (b : Block) : result eth_exn (Block * bytes) :=
  _ ← header_verify true emptyHeader None (b_header b);
  let b := calTransactionRoot false b in
  b ← lift_dev (calReceiptRoot false b);
  headerData ← lift_dev (header_encode (b_header b));
  s ← lift_dev (appendList 5 emptyStream);
  s ← lift_dev (appendRaw headerData 1 s);
  s ← lift_dev (appendBytes (b_txsCache b) false s);
  hh ← lift_dev (header_hash (b_header b));
  let b := set_b_header hh.1 b in
  s ← lift_dev (appendHash 32 hh.2 s);
  s ← lift_dev (appendVector appendSig (b_sigList b) s);
  s ← lift_dev (appendRaw (b_tReceiptsCache b) 1 s);
  out ← lift_dev (streamOut s);
  Ok (b, out).

(** [toPair<u256, bytes>]. *)
Definition toSig (d : bytes) (flags : Z) : result dev_exn (Z * bytes) :=
  _ ← throw_if (negb (isList d)) BadCast;
  n ← itemCount d;
  if negb (n =? 2) then (if flag flags ThrowOnFail then Throw BadCast else Ok (0, []))
  else
    ((a ← field 0 (λ x, toInt T_u256 x flags); b ← field 1 (λ x, toBytes x flags); mret (a, b))
       (freshRLP d)).2.

(** [TxsParallelParser::decode] as the block decoder calls it. *)
Definition parseTxs (decodeTx : bytes → option Transaction) (txs : list Transaction) (d : bytes)
  : result eth_exn (list Transaction) :=
  match txs_decode decodeTx txs d with Ok l => Ok l | Throw _ => Throw InvalidBlockFormat end.

(** The receipts of a list item, each with the receipt decoder. *)
Definition parseReceipts (decodeReceipt : bytes → option TransactionReceipt) (d : bytes)
  : result eth_exn (list TransactionReceipt) :=
  if isList d then
    p ← lift_dev (payload d);
    its ← lift_dev (iter_items (length p) p);
    match mapM decodeReceipt its with Some l => Ok l | None => Throw InvalidBlockFormat end
  else Ok [].

(** [decodeRC2] into the block [b] (after [extractBlock]). *)
Definition block_decode (decodeTx : bytes → option Transaction)
    (decodeReceipt : bytes → option TransactionReceipt) (withReceipt : bool) (b : Block) (d : bytes)
  : result eth_exn Block :=
  r ← lift_dev (newRLP d VeryStrict);
  _ ← throw_if (negb (isList d)) InvalidBlockFormat;
  ((_ ← fieldE FromDev 0 (λ x, throw_if (negb (isList x)) InvalidBlockFormat);
   h ← fieldE FromDev 0 (λ x, lift_dev (header_populate (b_header b) (freshRLP x)).2);
   txsBytes ← fieldE FromDev 1 (λ x, lift_dev (toBytes x LaissezFaire));
   txs ← pure_result (parseTxs decodeTx (b_transactions b) txsBytes);
   hash ← fieldE FromDev 2 (λ x, lift_dev (toHash 32 x Strict));
   hh ← pure_result (lift_dev (header_hash h));
   _ ← pure_result (throw_if (negb (hash =? hh.2)) ErrorBlockHash);
   sigs ← fieldE FromDev 3 (λ x, lift_dev (toVector toSig x LaissezFaire));
   receipts ← (if withReceipt then fieldE FromDev 4 (parseReceipts decodeReceipt)
               else mret (b_receipts b));
   mret (mkBlock hh.1 txs receipts sigs txsBytes (b_tReceiptsCache b) (b_transRootCache b)
           (b_receiptRootCache b) (b_blockSize b))) r).2.
End hashed.

(** ** Round trip *)

Definition encSig (sg : Z * bytes) : bytes := rlpList [encInt sg.1; rlpData sg.2].

(** A signature entry of the block: a sealer index and a signature of bounded size. *)
Definition sig_wf (sg : Z * bytes) : Prop := 0 ≤ sg.1 < 2 ^ 256 ∧ zlen sg.2 < 2 ^ 32.

(** The five items of an encoded block. *)
Definition block_items `{Crypto} (b : Block) : list bytes :=
  [rlpList (header_items (b_header b)); rlpData (txs_encode (tx_rlp <$> b_transactions b));
   encHash 32 (Hash (rlpList (header_items (b_header b)))); rlpList (encSig <$> b_sigList b);
   rlpList (r_rlp <$> b_receipts b)].

(** A block whose parts fit their types, with the memos dropped. *)
Record block_wf `{Crypto} (b : Block) : Prop := {
  bwf_header : header_wf (b_header b);
  bwf_number : m_number (b_header b) < MaxBlockNumber;
  bwf_gas : m_gasUsed (b_header b) ≤ m_gasLimit (b_header b);
  bwf_memo : header_memo (b_header b);
  bwf_hash : 0 ≤ Hash (rlpList (header_items (b_header b))) < 2 ^ 256;
  bwf_sigs : Forall sig_wf (b_sigList b);
  bwf_sigs_num : zlen (b_sigList b) < 2 ^ 16;
  bwf_receipts : Forall (λ r, good_item (r_rlp r)) (b_receipts b);
  bwf_receipts_size : zlen (mjoin (r_rlp <$> b_receipts b)) < 2 ^ 60;
  bwf_txs : zlen (mjoin (tx_rlp <$> b_transactions b)) < 2 ^ 32;
  bwf_txs_num : zlen (b_transactions b) + 2 < 2 ^ 32;
  bwf_header_size : zlen (mjoin (header_items (b_header b))) < 2 ^ 62;
  bwf_caches : b_txsCache b = [] ∧ b_tReceiptsCache b = [];
}.

Lemma sig_items sg :
  sig_wf sg →
  Forall good_item [encInt sg.1; rlpData sg.2] ∧ zlen (mjoin [encInt sg.1; rlpData sg.2]) < 2 ^ 33.
Proof.
  intros [Hi Hs]. assert (rlp_fits sg.2) by (unfold rlp_fits; lia). split.
  - repeat constructor; try (by apply encInt_good); by apply rlpData_good.
  - rewrite !zlen_mjoin. change (zlen (mjoin [])) with 0.
    pose proof (zlen_encInt _ Hi). pose proof (zlen_rlpData sg.2 ltac:(done)). cbn beta in *. lia.
Qed.

Lemma appendSig_spec sg : sig_wf sg → appends appendSig encSig sg.
Proof.
  intros Hwf s. destruct (sig_items sg Hwf) as [_ Hsz]. destruct Hwf as [Hi Hs].
  unfold appendSig, appendList. cbn [mbind result_bind]. change (2 =? 0) with false. cbv iota.
  cbn [mbind result_bind]. rewrite (appendBigint_256 _ Hi). cbn [m_out m_listStack].
  rewrite noteAppended_open by lia. cbn [mbind result_bind].
  rewrite (appendBytes_spec sg.2) by (unfold rlp_fits; lia). cbn [m_out m_listStack].
  replace ((m_out s ++ encInt sg.1) ++ rlpData sg.2)
    with (m_out s ++ mjoin [encInt sg.1; rlpData sg.2])
    by (cbn [mjoin list_join]; by rewrite app_nil_r, app_assoc).
  rewrite noteAppended_close by (unfold rlp_fits; lia). done.
Qed.

Lemma encSig_good sg : sig_wf sg → good_item (encSig sg) ∧ zlen (encSig sg) < 2 ^ 34.
Proof.
  intros Hwf. destruct (sig_items sg Hwf) as [_ Hsz].
  assert (rlp_fits (mjoin [encInt sg.1; rlpData sg.2])) by (unfold rlp_fits; lia).
  split; [by apply rlpList_good |]. unfold encSig.
  pose proof (zlen_rlpList [encInt sg.1; rlpData sg.2] ltac:(done)). cbn beta in *. lia.
Qed.

Lemma count_items_join l fuel :
  Forall good_item l → (length (mjoin l) ≤ fuel)%nat → count_items fuel (mjoin l) = Ok (zlen l).
Proof.
  intros Hl. revert fuel. induction Hl as [|x l Hx Hl IH]; intros fuel Hfuel.
  - by destruct fuel.
  - change (mjoin (x :: l)) with (x ++ mjoin l) in *.
    assert (0 < zlen x) by (destruct Hx; destruct x; [done | zsize]).
    rewrite length_app in Hfuel. destruct fuel as [|fuel]; [unfold zlen in *; lia |].
    cbn [count_items]. replace (zlen _ =? 0) with false by (symmetry; zsize).
    rewrite sizeAsEncoded_item by done. cbn [mbind result_bind].
    rewrite croppedFrom_suffix. rewrite IH by (unfold zlen in *; lia). cbn [mbind result_bind].
    by rewrite zlen_cons.
Qed.

Lemma toSig_enc sg : sig_wf sg → toSig (encSig sg) LaissezFaire = Ok sg.
Proof.
  intros Hwf. destruct (sig_items sg Hwf) as [Hg Hsz]. destruct Hwf as [Hi Hs].
  assert (rlp_fits (mjoin [encInt sg.1; rlpData sg.2])) as Hfit by (unfold rlp_fits; lia).
  destruct (rlpList_good _ Hfit) as [_ Hp]. destruct (rlpList_isList _ Hfit) as [Hl _].
  unfold toSig, encSig, itemCount. rewrite Hl, Hp. cbn [negb]. rewrite throw_if_false.
  cbn [mbind result_bind]. rewrite count_items_join by done. cbn [mbind result_bind].
  change (negb (zlen [encInt sg.1; rlpData sg.2] =? 2)) with false. cbv iota.
  assert (reads [encInt sg.1; rlpData sg.2]
    (a ← field 0 (λ x, toInt T_u256 x LaissezFaire); b ← field 1 (λ x, toBytes x LaissezFaire);
     mret (a, b)) (Ok sg)) as Hr.
  { reads_step ltac:(fun _ => by apply toInt_u256).
    reads_step ltac:(fun _ => by apply toBytes_data; unfold rlp_fits; lia).
    destruct sg. apply reads_ret. }
  destruct (Hr (freshRLP (rlpList [encInt sg.1; rlpData sg.2]))) as (r' & -> & _);
    [by left | done | done].
Qed.

Lemma zlen_sigs (l : list (Z * bytes)) : Forall sig_wf l → zlen (mjoin (encSig <$> l)) ≤ 2 ^ 34 * zlen l.
Proof.
  induction 1 as [|sg l Hsg Hl IH]; [done |]. rewrite fmap_cons, zlen_mjoin, zlen_cons.
  destruct (encSig_good sg Hsg). lia.
Qed.

Lemma zlen_txs_encode l :
  zlen l + 2 < 2 ^ 32 → zlen (mjoin l) < 2 ^ 32 → zlen (txs_encode l) < 2 ^ 35.
Proof.
  intros Hn Hs. pose proof (zlen_nonneg l). pose proof (zlen_nonneg (mjoin l)). unfold txs_encode.
  rewrite wrapU_id by lia. break_if; [done |]. rewrite app_assoc, zlen_app, zlen_txs_header. lia.
Qed.

Section blocks.
Context `{Crypto}.

Lemma block_fits b :
  block_wf b →
  rlp_fits (mjoin (encSig <$> b_sigList b)) ∧ rlp_fits (mjoin (r_rlp <$> b_receipts b))
  ∧ rlp_fits (txs_encode (tx_rlp <$> b_transactions b))
  ∧ rlp_fits (mjoin (header_items (b_header b))) ∧ rlp_fits (mjoin (block_items b)).
Proof.
  intros []. pose proof (zlen_sigs _ bwf_sigs0).
  assert (zlen (tx_rlp <$> b_transactions b) = zlen (b_transactions b)) as Hn
    by (unfold zlen; by rewrite length_fmap).
  assert (zlen (txs_encode (tx_rlp <$> b_transactions b)) < 2 ^ 35)
    by (apply zlen_txs_encode; [lia | done]).
  assert (rlp_fits (mjoin (encSig <$> b_sigList b))) as Hf1 by (unfold rlp_fits; lia).
  assert (rlp_fits (mjoin (r_rlp <$> b_receipts b))) as Hf2 by (unfold rlp_fits; lia).
  assert (rlp_fits (txs_encode (tx_rlp <$> b_transactions b))) as Hf3 by (unfold rlp_fits; lia).
  assert (rlp_fits (mjoin (header_items (b_header b)))) as Hf4 by (unfold rlp_fits; lia).
  split; [exact Hf1 | split; [exact Hf2 | split; [exact Hf3 | split; [exact Hf4 |]]]].
  unfold rlp_fits, block_items. rewrite !zlen_mjoin.
  change (zlen (mjoin [])) with 0.
  pose proof (zlen_rlpList _ Hf1). pose proof (zlen_rlpList _ Hf2). pose proof (zlen_rlpList _ Hf4).
  pose proof (zlen_rlpData _ Hf3).
  pose proof (zlen_encHash 32 (Hash (rlpList (header_items (b_header b)))) ltac:(lia)).
  cbn beta in *. lia.
Qed.

Lemma block_items_good b : block_wf b → Forall good_item (block_items b).
Proof.
  intros Hwf. destruct (block_fits b Hwf) as (? & ? & ? & ? & _).
  unfold block_items. rewrite !Forall_cons. split; [| split; [| split; [| split; [| split]]]].
  - by apply rlpList_good.
  - by apply rlpData_good.
  - by apply encHash_good.
  - by apply rlpList_good.
  - by apply rlpList_good.
  - by apply Forall_nil.
Qed.

(** The memoising parts on a block whose memos were dropped. *)
Lemma calReceiptRoot_fresh b :
  block_wf b → ∃ b', calReceiptRoot false (calTransactionRoot false b) = Ok b'
    ∧ b_header b' = b_header b ∧ b_sigList b' = b_sigList b
    ∧ b_txsCache b' = txs_encode (tx_rlp <$> b_transactions b)
    ∧ b_tReceiptsCache b' = rlpList (r_rlp <$> b_receipts b).
Proof.
  intros Hwf. destruct (block_fits b Hwf) as (_ & Hr & _). destruct Hwf.
  destruct bwf_caches0 as [Hc1 Hc2]. unfold calTransactionRoot. rewrite Hc1.
  rewrite bool_decide_true by done. unfold calReceiptRoot. cbn [b_tReceiptsCache set_b_transRootCache
    set_b_txsCache b_receipts]. rewrite Hc2, bool_decide_true by done.
  pose proof (appendVector_spec (λ r, appendRaw (r_rlp r) 1) r_rlp (b_receipts b)) as HV.
  unfold appends, appendVector in HV. specialize (HV ltac:(by apply Forall_true) Hr emptyStream).
  destruct (appendList (zlen (b_receipts b)) emptyStream) as [s |]; [| done].
  cbn [mbind result_bind m_out m_listStack emptyStream noteAppended_loop app] in HV |- *.
  rewrite HV. cbn [mbind result_bind streamOut m_listStack m_out]. eexists. split_and!; reflexivity.
Qed.

Lemma block_encode_items b :
  block_wf b → ∃ b', block_encode b = Ok (b', rlpList (block_items b)).
Proof.
  intros Hwf. destruct (calReceiptRoot_fresh b Hwf) as (b' & Hcal & Hh & Hs & Ht & Hr).
  pose proof (block_fits b Hwf) as (Hf1 & _ & Hf3 & Hf4 & Hf5). destruct Hwf.
  unfold block_encode. assert (header_verify true emptyHeader None (b_header b) = Ok tt) as ->.
  { unfold header_verify. destruct bwf_header0. change (headerSet emptyHeader) with false.
    unfold throw_if. replace (_ || _) with false by (symmetry; lia).
    replace (true && _) with false by (symmetry; cbn; lia). done. }
  cbn [mbind result_bind]. rewrite Hcal. cbn [lift_dev mbind result_bind]. rewrite Hh.
  rewrite header_encode_items by done. cbn [lift_dev mbind result_bind].
  change (appendList 5 emptyStream) with (Ok (E:=dev_exn) (mkStream (mjoin []) [(5, 0)])).
  cbn [lift_dev mbind result_bind].
  rewrite append_step with (app := λ d, appendRaw d 1) (enc := λ d, d) by first [lia | intros ?; reflexivity].
  cbn [lift_dev mbind result_bind].
  rewrite append_step with (app := λ d, appendBytes d false) (enc := rlpData)
    by first [lia | rewrite Ht; by apply appendBytes_spec].
  cbn [lift_dev mbind result_bind].
  assert (∃ hm, header_hash (b_header b) = Ok (hm, Hash (rlpList (header_items (b_header b))))) as [hm ->].
  { pose proof (header_memo_hash _ _ bwf_memo0 (header_encode_items _ bwf_header0)) as HH.
    unfold headerHash in HH. unfold header_hash in *. rewrite header_encode_items in * by done.
    destruct (m_hash (b_header b) =? 0); cbn [mbind result_bind] in *; [by eexists |].
    rewrite HH. by eexists. }
  cbn [lift_dev mbind result_bind fst snd b_tReceiptsCache b_sigList set_b_header].
  rewrite append_step with (enc := encHash 32) by first [lia | by apply appendHash_spec].
  cbn [lift_dev mbind result_bind]. rewrite Hs.
  rewrite append_step with (enc := λ v, rlpList (encSig <$> v));
    [| apply appendVector_spec; [| done]; eapply Forall_impl; [done | apply appendSig_spec] | lia].
  cbn [lift_dev mbind result_bind]. rewrite Ht, Hr.
  rewrite append_last with (app := λ d, appendRaw d 1) (enc := λ d, d)
    by first [exact Hf5 | intros ?; reflexivity].
  eexists. reflexivity.
Qed.
End blocks.

Section codec.
Context `{Crypto} (decodeTx : bytes → option Transaction)
  (decodeReceipt : bytes → option TransactionReceipt).

(** The codecs invert the RLP forms that the block holds. *)
Definition block_codec (b : Block) : Prop :=
  (∀ tx, tx ∈ b_transactions b → 0 < zlen (tx_rlp tx) ∧ decodeTx (tx_rlp tx) = Some tx)
  ∧ b_transactions b ≠ []
  ∧ Forall (λ r, decodeReceipt (r_rlp r) = Some r) (b_receipts b).

Lemma parseTxs_encode b :
  block_wf b → block_codec b →
  parseTxs decodeTx [] (txs_encode (tx_rlp <$> b_transactions b)) = Ok (b_transactions b).
Proof.
  intros [] (Htx & Hne & _). unfold parseTxs.
  by rewrite (txs_decode_ok decodeTx tx_rlp).
Qed.

Lemma parseReceipts_encode b :
  block_wf b → block_codec b →
  parseReceipts decodeReceipt (rlpList (r_rlp <$> b_receipts b)) = Ok (b_receipts b).
Proof.
  intros Hwf (_ & _ & Hr). pose proof (block_fits b Hwf) as (_ & Hf & _). destruct Hwf.
  unfold parseReceipts. rewrite (proj1 (rlpList_isList _ Hf)), (proj2 (rlpList_good _ Hf)).
  cbn [lift_dev mbind result_bind]. rewrite iter_items_join; [| by apply Forall_fmap | done].
  cbn [lift_dev mbind result_bind].
  assert (mapM decodeReceipt (r_rlp <$> b_receipts b) = Some (b_receipts b)) as ->; [| done].
  apply mapM_Some. apply Forall2_fmap_l, Forall_Forall2_diag. done.
Qed.

Lemma header_populate_rlp h h0 :
  header_wf h → (header_populate h0 (freshRLP (rlpList (header_items h)))).2 = Ok (set_hash (m_hash h0) h).
Proof.
  intros Hwf. destruct (rlpList_good _ (header_items_fit h Hwf)) as [_ Hp].
  destruct (header_populate_items h h0 Hwf (freshRLP (rlpList (header_items h)))) as (r' & -> & _);
    [by left | exact Hp | reflexivity].
Qed.

(** What the decoder makes of the items of a block. *)
Lemma block_decode_items b :
  block_wf b → block_codec b →
  block_decode decodeTx decodeReceipt true emptyBlock (rlpList (block_items b))
  = Ok (mkBlock (set_hash (Hash (rlpList (header_items (b_header b)))) (b_header b))
          (b_transactions b) (b_receipts b) (b_sigList b)
          (txs_encode (tx_rlp <$> b_transactions b)) [] 0 0 0).
Proof.
  intros Hwf Hc. pose proof (parseTxs_encode b Hwf Hc) as Htx.
  pose proof (parseReceipts_encode b Hwf Hc) as Hrc. pose proof (block_items_good b Hwf) as Hg.
  pose proof (block_fits b Hwf) as (Hf1 & _ & Hf3 & Hf4 & Hf5). destruct Hwf.
  unfold block_decode. destruct (rlpList_good _ Hf5) as [Hgood Hp].
  rewrite newRLP_item by exact Hgood. cbn [lift_dev mbind result_bind].
  rewrite (proj1 (rlpList_isList _ Hf5)). cbn [negb]. rewrite throw_if_false.
  match goal with |- (?m _).2 = Ok ?x => assert (reads (block_items b) m (Ok x)) as Hr end.
  2: { destruct (Hr (freshRLP (rlpList (block_items b)))) as (r' & Heq & _);
         [by left | exact Hp |]. rewrite Heq. reflexivity. }
  reads_step ltac:(fun _ => rewrite (proj1 (rlpList_isList _ Hf4)); reflexivity).
  reads_step ltac:(fun _ => rewrite header_populate_rlp by exact bwf_header0; reflexivity).
  reads_step ltac:(fun _ => rewrite toBytes_data by exact Hf3; reflexivity).
  eapply reads_bind; [change (b_transactions emptyBlock) with (@nil Transaction);
    rewrite Htx; apply reads_pure |].
  reads_step ltac:(fun _ => rewrite (toHash_enc 32 256) by done; reflexivity).
  eapply reads_bind.
  { unfold header_hash. change (m_hash (set_hash _ _) =? 0) with true. cbv iota.
    rewrite header_encode_hash, header_encode_items by exact bwf_header0. apply reads_pure. }
  cbn [snd fst]. eapply reads_bind; [rewrite Z.eqb_refl; apply reads_pure |].
  reads_step ltac:(fun _ => rewrite toVector_list; [reflexivity | | exact Hf1];
    eapply Forall_impl; [exact bwf_sigs0 |]; intros sg Hsg;
    split; [by apply encSig_good | by apply toSig_enc]).
  reads_step ltac:(fun _ => exact Hrc). apply reads_ret.
Qed.

(** C40. A block that is encoded with [encodeRC2] and decoded with [decodeRC2]
    into a new block object comes back with its header, transactions, receipts and
    signature list, and the decoder's hash check passes: for every block in range
    whose transaction and receipt codecs invert their RLP forms. *)
Theorem block_decode_encode b :
  block_wf b → block_codec b →
  ∃ b' out b'', block_encode b = Ok (b', out)
    ∧ block_decode decodeTx decodeReceipt true emptyBlock out = Ok b''
    ∧ b_header b'' = set_hash (Hash (rlpList (header_items (b_header b)))) (b_header b)
    ∧ b_transactions b'' = b_transactions b ∧ b_receipts b'' = b_receipts b
    ∧ b_sigList b'' = b_sigList b.
Proof.
  intros Hwf Hc. destruct (block_encode_items b Hwf) as [b' Hb']. eexists _, _, _.
  split; [exact Hb' |]. rewrite (block_decode_items b Hwf Hc). split_and!; reflexivity.
Qed.
End codec.

(** A block with one transaction, for evaluation. *)
Definition sampleBlock : Block :=
  mkBlock (setSealer 1 (setTimestamp 9 (setNumber 5 emptyHeader)))
    [mkTx 11 12 [byte.of_Z 200; byte.of_Z 1]] [mkReceipt [] [byte.of_Z 7]]
    [(0, [byte.of_Z 1]); (3, [byte.of_Z 2; byte.of_Z 3])] [] [] 0 0 0.

Lemma block_decode_encode_witness :
  ∃ b' out b'', @block_encode toyCrypto sampleBlock = Ok (b', out)
    ∧ @block_decode toyCrypto (λ d, Some (mkTx 11 12 d)) (λ d, Some (mkReceipt [] d)) true emptyBlock out
      = Ok b''
    ∧ b_header b'' = set_hash (@Hash toyCrypto (rlpList (header_items (b_header sampleBlock))))
                       (b_header sampleBlock)
    ∧ b_transactions b'' = b_transactions sampleBlock ∧ b_receipts b'' = b_receipts sampleBlock
    ∧ b_sigList b'' = b_sigList sampleBlock.
Proof.
  apply (@block_decode_encode toyCrypto (λ d, Some (mkTx 11 12 d)) (λ d, Some (mkReceipt [] d)) sampleBlock).
  - constructor; first [by apply Z.ltb_lt | by apply Z.leb_le | by left | split; reflexivity
                       | apply toy_hash_range | idtac].
    + constructor; first [apply Forall_nil; exact I | split; [by apply Z.leb_le | by apply Z.ltb_lt]
                         | by apply Z.ltb_lt].
    + do 2 (apply Forall_cons; split;
        [split; [split; [by apply Z.leb_le | by apply Z.ltb_lt] | by apply Z.ltb_lt] |]).
      by apply Forall_nil.
    + apply Forall_cons. split; [| by apply Forall_nil].
      apply (rlpData_good [byte.of_Z 7]). by apply Z.ltb_lt.
  - split; [| split; [done |]].
    + intros tx Htx. apply list_elem_of_singleton in Htx as ->. by split.
    + apply Forall_cons. split; [reflexivity | by apply Forall_nil].
Defined.

(** ** The Merkle root *)

Section merkle.
Context `{Crypto}.

Lemma length_merkle_level fuel l :
  (length l ≤ fuel)%nat → (16 * length (merkle_level fuel l) ≤ length l + 15)%nat.
Proof.
  revert l. induction fuel as [|fuel IH]; intros l Hl; cbn [merkle_level]; [cbn; lia |].
  destruct l as [|x l]; [cbn; lia |]. cbn [length]. change MAX_CHILD_COUNT with 16%nat.
  specialize (IH (drop 16 (x :: l))). rewrite length_drop in IH. cbn [length] in *. lia.
Qed.

Lemma merkle_levels_shrink l :
  (1 < length l)%nat → (length (merkle_level (length l) l) < length l)%nat.
Proof. intros. pose proof (length_merkle_level (length l) l ltac:(lia)). lia. Qed.

Lemma merkle_root_enough fuel fuel' l :
  (length l ≤ fuel)%nat → (length l ≤ fuel')%nat → merkle_root fuel l = merkle_root fuel' l.
Proof.
  revert fuel' l. induction fuel as [|fuel IH]; intros fuel' l Hf Hl; destruct l as [|x [|y l]];
    destruct fuel'; cbn [length] in Hf, Hl; try lia; try done.
  cbn [merkle_root]. pose proof (merkle_levels_shrink (x :: y :: l)) as Hlt.
  apply IH; cbn [length] in *; lia.
Qed.

(** [getHash256] terminates with the root: the number of leaves is enough
    iterations, and any larger bound gives the same root. *)
Theorem merkle_root_fuel fuel l :
  (length l ≤ fuel)%nat → merkle_root fuel l = getHash256 l.
Proof. intros Hf. by apply merkle_root_enough. Qed.
End merkle.

Lemma merkle_root_fuel_witness :
  @merkle_root toyCrypto 9 [[byte.of_Z 1]; [byte.of_Z 2]; [byte.of_Z 3]]
  = @getHash256 toyCrypto [[byte.of_Z 1]; [byte.of_Z 2]; [byte.of_Z 3]].
Proof.
  apply (@merkle_root_fuel toyCrypto 9 [[byte.of_Z 1]; [byte.of_Z 2]; [byte.of_Z 3]]). cbn. lia.
Defined.
