(* ===== verification/PBFTMsg.v ===== *)
(** * PBFT messages and packets (libconsensus/pbft/Common.h, libconsensus/Common.h)

    The message classes as records ([PrepareReq] extends [PBFTMsg] by the block;
    [SignReq], [CommitReq] and [ViewChangeReq] add nothing), their constructors, and
    their wire forms.  The current time and the key pair are arguments. *)
From S2P Require Import Prelude CommonData RLP Crypto BlockHeader TxsParser Block.
Local Open Scope Z_scope.

Definition MAXIDX : Z := 2 ^ 16 - 1.
Definition MAXVIEW : Z := INT64_MAX.
Definition MAXTTL : Z := 2.

(** [PBFTPacketType], a byte. *)
Definition PrepareReqPacket : Z := 0.
Definition SignReqPacket : Z := 1.
Definition CommitReqPacket : Z := 2.
Definition ViewChangeReqPacket : Z := 3.
Definition PBFTPacketCount : Z := 4.

(** [P2PPacketType]. *)
Definition PartiallyPreparePacket : Z := 1.
Definition GetMissedTxsPacket : Z := 2.
Definition MissedTxsPacket : Z := 3.
Definition P2PRawPrepareStatusPacket : Z := 4.
Definition RequestRawPreparePacket : Z := 5.
Definition RawPrepareResponse : Z := 6.

(** [PBFTMsg]. *)
Record PBFTMsg := mkMsg {
  height : Z; view : Z; idx : Z; timestamp : Z; block_hash : Z; sig : bytes; sig2 : bytes;
  isFuture : bool; signChecked : bool; isEmptyReq : bool }.
Definition set_height v (s : PBFTMsg) : PBFTMsg := mkMsg v (view s) (idx s) (timestamp s)
  (block_hash s) (sig s) (sig2 s) (isFuture s) (signChecked s) (isEmptyReq s).
Definition set_view v (s : PBFTMsg) : PBFTMsg := mkMsg (height s) v (idx s) (timestamp s)
  (block_hash s) (sig s) (sig2 s) (isFuture s) (signChecked s) (isEmptyReq s).
Definition set_idx v (s : PBFTMsg) : PBFTMsg := mkMsg (height s) (view s) v (timestamp s)
  (block_hash s) (sig s) (sig2 s) (isFuture s) (signChecked s) (isEmptyReq s).
Definition set_timestamp v (s : PBFTMsg) : PBFTMsg := mkMsg (height s) (view s) (idx s) v
  (block_hash s) (sig s) (sig2 s) (isFuture s) (signChecked s) (isEmptyReq s).
Definition set_block_hash v (s : PBFTMsg) : PBFTMsg := mkMsg (height s) (view s) (idx s)
  (timestamp s) v (sig s) (sig2 s) (isFuture s) (signChecked s) (isEmptyReq s).
Definition set_sig v (s : PBFTMsg) : PBFTMsg := mkMsg (height s) (view s) (idx s) (timestamp s)
  (block_hash s) v (sig2 s) (isFuture s) (signChecked s) (isEmptyReq s).
Definition set_sig2 v (s : PBFTMsg) : PBFTMsg := mkMsg (height s) (view s) (idx s) (timestamp s)
  (block_hash s) (sig s) v (isFuture s) (signChecked s) (isEmptyReq s).
Definition set_isFuture v (s : PBFTMsg) : PBFTMsg := mkMsg (height s) (view s) (idx s)
  (timestamp s) (block_hash s) (sig s) (sig2 s) v (signChecked s) (isEmptyReq s).
Definition set_signChecked v (s : PBFTMsg) : PBFTMsg := mkMsg (height s) (view s) (idx s)
  (timestamp s) (block_hash s) (sig s) (sig2 s) (isFuture s) v (isEmptyReq s).
Definition set_isEmptyReq v (s : PBFTMsg) : PBFTMsg := mkMsg (height s) (view s) (idx s)
  (timestamp s) (block_hash s) (sig s) (sig2 s) (isFuture s) (signChecked s) v.

(** The in-class initialisers. *)
Definition defaultMsg : PBFTMsg :=
  mkMsg (-1) MAXVIEW MAXIDX Invalid256 0 [] [] false true false.

(** [operator==]. *)
Definition msg_eqb (a b : PBFTMsg) : bool :=
  (height a =? height b) && (view a =? view b) && (block_hash a =? block_hash b)
  && bool_decide (sig a = sig b) && bool_decide (sig2 a = sig2 b).

(** [clear]: [sig.resize(sig.size(), 0)] keeps the signatures as they are. *)
Definition msg_clear (m : PBFTMsg) : PBFTMsg :=
  mkMsg (-1) MAXVIEW MAXIDX Invalid256 0 (sig m) (sig2 m) (isFuture m) (signChecked m) (isEmptyReq m).

(** [uniqueKey]. *)
Definition uniqueKey (m : PBFTMsg) : string := String.append (toHex (sig m)) (toHex (sig2 m)).

(** [streamRLPFields]: [height], [view] and [idx] are built-in integers, which
    [operator<<] hands to [append(unsigned)]. *)
Definition msg_streamRLPFields (m : PBFTMsg) (s : RLPStream) : result dev_exn RLPStream :=
  s ← appendUnsigned (height m) s;
  s ← appendUnsigned (view m) s;
  s ← appendUnsigned (idx m) s;
  s ← appendBigint (timestamp m) s;
  s ← appendHash 32 (block_hash m) s;
  s ← appendBytes (sig m) false s;
  appendBytes (sig2 m) false s.

(** The wrapping that all [encode] functions share: a list of one string that
    holds the fields. *)
Definition wrap_fields (fields : RLPStream → result dev_exn RLPStream) : result dev_exn bytes :=
  tmp ← fields emptyStream;
  out ← streamOut tmp;
  s ← appendList 1 emptyStream;
  s ← appendBytes out false s;
  streamOut s.

Definition msg_encode (m : PBFTMsg) : result dev_exn bytes := wrap_fields (msg_streamRLPFields m).

(** [encodeStatus]. *)
Definition msg_encodeStatus (m : PBFTMsg) : result dev_exn bytes :=
  wrap_fields (λ s,
    s ← appendUnsigned (height m) s;
    s ← appendUnsigned (view m) s;
    s ← appendUnsigned (idx m) s;
    appendHash 32 (block_hash m) s).

(** [populate]. *)
Definition msg_populate (m : PBFTMsg) : reader dev_exn PBFTMsg :=
  height ← field 0 (λ d, toInt T_int64 d Strict);
  view ← field 1 (λ d, toInt T_int64 d Strict);
  idx ← field 2 (λ d, toInt T_uint16 d Strict);
  timestamp ← field 3 (λ d, toInt T_u256 d Strict);
  block_hash ← field 4 (λ d, toHash 32 d VeryStrict);
  sig ← field 5 (λ d, toBytes d LaissezFaire);
  sig2 ← field 6 (λ d, toBytes d LaissezFaire);
  mret (mkMsg height view idx timestamp block_hash sig sig2 (isFuture m) (signChecked m) (isEmptyReq m)).

(** Reading the [index]-th item of a message and populating from it. *)
Definition decode_item {A} (populate : reader dev_exn A) (d : bytes) (index : Z) : result dev_exn A :=
  r ← newRLP d VeryStrict;
  item ← (rlpIndex r index).2;
  (populate item).2.

(** [decode]. *)
Definition msg_decode (m : PBFTMsg) (d : bytes) (index : Z) : result dev_exn PBFTMsg :=
  decode_item (msg_populate m) d index.

(** [decodeStatus]. *)
Definition msg_decodeStatus (m : PBFTMsg) (d : bytes) : result dev_exn PBFTMsg :=
  decode_item
    (height ← field 0 (λ d, toInt T_int64 d Strict);
     view ← field 1 (λ d, toInt T_int64 d Strict);
     idx ← field 2 (λ d, toInt T_uint16 d Strict);
     block_hash ← field 3 (λ d, toHash 32 d VeryStrict);
     mret (set_block_hash block_hash (set_idx idx (set_view view (set_height height m))))) d 0.

(** [PrepareReq]: the encoded block, the decoded one, and a handle to the
    execution result. *)
Record PrepareReq := mkPrepare {
  req_msg : PBFTMsg; req_block : bytes; pBlock : option Block; p_execContext : option Z }.
Definition set_req_msg v (s : PrepareReq) : PrepareReq := mkPrepare v (req_block s) (pBlock s)
  (p_execContext s).
Definition set_req_block v (s : PrepareReq) : PrepareReq := mkPrepare (req_msg s) v (pBlock s)
  (p_execContext s).
Definition set_pBlock v (s : PrepareReq) : PrepareReq := mkPrepare (req_msg s) (req_block s) v
  (p_execContext s).
Definition set_p_execContext v (s : PrepareReq) : PrepareReq := mkPrepare (req_msg s) (req_block
  s) (pBlock s) v.

Coercion req_msg : PrepareReq >-> PBFTMsg.

Definition defaultPrepare : PrepareReq := mkPrepare defaultMsg [] None None.

Definition prepare_eqb (a b : PrepareReq) : bool :=
  msg_eqb a b && bool_decide (req_block b = req_block a).

(** [streamRLPFields], [populate], [encode] and [decode] of [PrepareReq]. *)
Definition prepare_streamRLPFields (r : PrepareReq) (s : RLPStream) : result dev_exn RLPStream :=
  s ← msg_streamRLPFields r s;
  appendBytes (req_block r) false s.
Definition prepare_populate (r : PrepareReq) : reader dev_exn PrepareReq :=
  m ← msg_populate r;
  block ← field 7 (λ d, toBytes d LaissezFaire);
  mret (mkPrepare m block (pBlock r) (p_execContext r)).
Definition prepare_encode (r : PrepareReq) : result dev_exn bytes := wrap_fields (prepare_streamRLPFields r).
Definition prepare_decode (r : PrepareReq) (d : bytes) (index : Z) : result dev_exn PrepareReq :=
  decode_item (prepare_populate r) d index.

Section signed.
Context `{Crypto}.

(** [fieldsWithoutBlock]: the hash that [sig2] signs. *)
Definition fieldsWithoutBlock (m : PBFTMsg) : Z :=
  match (s ← appendUnsigned (height m) emptyStream;
         s ← appendUnsigned (view m) s;
         s ← appendUnsigned (idx m) s;
         s ← appendBigint (timestamp m) s;
         streamOut s) with
  | Ok d => Hash d
  | Throw _ => 0
  end.

Definition signHash (hash : Z) (k : KeyPair) : bytes := Sign k hash.

(** [PBFTMsg(keyPair, height, view, idx, blockHash)] at time [now]; the
    constructors of [SignReq], [CommitReq] and [ViewChangeReq] fill the fields the
    same way. *)
Definition newMsg (k : KeyPair) (now h v i hash : Z) : PBFTMsg :=
  let m := mkMsg h v i now hash (signHash hash k) [] false true false in
  set_sig2 (signHash (fieldsWithoutBlock m) k) m.

Definition newSignReq (k : KeyPair) (now : Z) (req : PrepareReq) (i : Z) : PBFTMsg :=
  newMsg k now (height req) (view req) i (block_hash req).
Definition newCommitReq (k : KeyPair) (now : Z) (req : PrepareReq) (i : Z) : PBFTMsg :=
  newMsg k now (height req) (view req) i (block_hash req).
Definition newViewChangeReq (k : KeyPair) (now h v i hash : Z) : PBFTMsg := newMsg k now h v i hash.

(** The four constructors of [PrepareReq]: from scratch; re-signing a request for
    a new view; from a block, with the encoding of the proposal; and from the
    executed block. *)
Definition newPrepare (k : KeyPair) (now h v i hash : Z) : PrepareReq :=
  mkPrepare (newMsg k now h v i hash) [] None None.
Definition newPrepareForView (k : KeyPair) (now : Z) (req : PrepareReq) (v i : Z) : PrepareReq :=
  mkPrepare (newMsg k now (height req) v i (block_hash req)) (req_block req) (pBlock req) None.
Definition newPrepareFromBlock (k : KeyPair) (now : Z) (b : Block) (proposal : bytes) (v i : Z) : PrepareReq :=
  mkPrepare (newMsg k now (m_number (b_header b)) v i (headerHash (b_header b))) proposal (Some b) None.
Definition newPrepareExecuted (k : KeyPair) (now : Z) (req : PrepareReq) (b : Block) (ctx : option Z) : PrepareReq :=
  mkPrepare (newMsg k now (height req) (view req) (idx req) (headerHash (b_header b))) [] (Some b) ctx.
End signed.

(** [PBFTMsgPacket] and [OPBFTMsgPacket]: the latter has forward nodes. *)
Record PBFTMsgPacket := mkPacket {
  node_idx : Z; node_id : Z; packet_id : Z; ttl : Z; prepareWithEmptyBlock : bool;
  pkt_data : bytes; pkt_timestamp : Z; endpoint : string; forwardNodes : option (list Z) }.
Definition set_node_idx v (s : PBFTMsgPacket) : PBFTMsgPacket := mkPacket v (node_id s)
  (packet_id s) (ttl s) (prepareWithEmptyBlock s) (pkt_data s) (pkt_timestamp s) (endpoint s)
  (forwardNodes s).
Definition set_node_id v (s : PBFTMsgPacket) : PBFTMsgPacket := mkPacket (node_idx s) v
  (packet_id s) (ttl s) (prepareWithEmptyBlock s) (pkt_data s) (pkt_timestamp s) (endpoint s)
  (forwardNodes s).
Definition set_packet_id v (s : PBFTMsgPacket) : PBFTMsgPacket := mkPacket (node_idx s) (node_id
  s) v (ttl s) (prepareWithEmptyBlock s) (pkt_data s) (pkt_timestamp s) (endpoint s)
  (forwardNodes s).
Definition set_ttl v (s : PBFTMsgPacket) : PBFTMsgPacket := mkPacket (node_idx s) (node_id s)
  (packet_id s) v (prepareWithEmptyBlock s) (pkt_data s) (pkt_timestamp s) (endpoint s)
  (forwardNodes s).
Definition set_prepareWithEmptyBlock v (s : PBFTMsgPacket) : PBFTMsgPacket := mkPacket (node_idx
  s) (node_id s) (packet_id s) (ttl s) v (pkt_data s) (pkt_timestamp s) (endpoint s)
  (forwardNodes s).
Definition set_pkt_data v (s : PBFTMsgPacket) : PBFTMsgPacket := mkPacket (node_idx s) (node_id
  s) (packet_id s) (ttl s) (prepareWithEmptyBlock s) v (pkt_timestamp s) (endpoint s)
  (forwardNodes s).
Definition set_pkt_timestamp v (s : PBFTMsgPacket) : PBFTMsgPacket := mkPacket (node_idx s)
  (node_id s) (packet_id s) (ttl s) (prepareWithEmptyBlock s) (pkt_data s) v (endpoint s)
  (forwardNodes s).
Definition set_endpoint v (s : PBFTMsgPacket) : PBFTMsgPacket := mkPacket (node_idx s) (node_id
  s) (packet_id s) (ttl s) (prepareWithEmptyBlock s) (pkt_data s) (pkt_timestamp s) v
  (forwardNodes s).
Definition set_forwardNodes v (s : PBFTMsgPacket) : PBFTMsgPacket := mkPacket (node_idx s)
  (node_id s) (packet_id s) (ttl s) (prepareWithEmptyBlock s) (pkt_data s) (pkt_timestamp s)
  (endpoint s) v.

Definition defaultPacket (optimised : bool) (now : Z) : PBFTMsgPacket :=
  mkPacket 0 0 0 MAXTTL false [] now EmptyString (if optimised then Some [] else None).

Definition packet_eqb (a b : PBFTMsgPacket) : bool :=
  (node_idx a =? node_idx b) && (node_id a =? node_id b) && (packet_id a =? packet_id b)
  && bool_decide (pkt_data a = pkt_data b).

(** [setOtherField]. *)
Definition setOtherField (i nodeId : Z) (ep : string) (now : Z) (p : PBFTMsgPacket) : PBFTMsgPacket :=
  set_pkt_timestamp now (set_endpoint ep (set_node_id nodeId (set_node_idx i p))).

(** [ttl] is mutable: [streamRLPFields] sets its top bit for an empty block. *)
Definition packet_mark (p : PBFTMsgPacket) : PBFTMsgPacket :=
  if prepareWithEmptyBlock p then set_ttl (Z.lor (ttl p) 0x80) p else p.

Definition packet_streamRLPFields (p : PBFTMsgPacket) (s : RLPStream) : result dev_exn RLPStream :=
  let p := packet_mark p in
  s ← appendUnsigned (packet_id p) s;
  s ← appendUnsigned (ttl p) s;
  s ← appendBytes (pkt_data p) false s;
  match forwardNodes p with
  | Some l => appendVector (appendHash 64) l s
  | None => Ok s
  end.

(** [encode]: the packet with its [ttl] updated, and the bytes. *)
Definition packet_encode (p : PBFTMsgPacket) : result dev_exn (PBFTMsgPacket * bytes) :=
  d ← wrap_fields (packet_streamRLPFields p);
  Ok (packet_mark p, d).

(** [populate]: into a packet whose class the presence of forward nodes tells. *)
Definition packet_populate (p : PBFTMsgPacket) : reader dev_exn PBFTMsgPacket :=
  packet_id ← field 0 (λ d, toInt T_uint8 d Strict);
  extendedTTL ← field 1 (λ d, toInt T_uint8 d Strict);
  data ← field 2 (λ d, toBytes d LaissezFaire);
  forward ← (match forwardNodes p with
             | Some _ => l ← field 3 (λ d, toVector (toHash 64) d LaissezFaire); mret (Some l)
             | None => mret None
             end);
  mret (mkPacket (node_idx p) (node_id p) packet_id (Z.land extendedTTL 0x7f)
          (negb (Z.land extendedTTL 0x80 =? 0)) data (pkt_timestamp p) (endpoint p) forward).

Definition packet_decode (p : PBFTMsgPacket) (d : bytes) : result dev_exn PBFTMsgPacket :=
  decode_item (packet_populate p) d 0.

(** ** Wire forms *)

(** A message as the C++ types hold it, with strings that fit in memory. *)
Record msg_wf (m : PBFTMsg) : Prop := {
  mwf_idx : 0 ≤ idx m < 2 ^ 16;
  mwf_timestamp : 0 ≤ timestamp m < 2 ^ 256;
  mwf_hash : 0 ≤ block_hash m < 2 ^ 256;
  mwf_sigs : zlen (sig m) + zlen (sig2 m) < 2 ^ 32;
}.

Abbreviation encU32 := (λ i, rlpData (toCompactBigEndian (wrapU 32 i) 0)).

Definition msg_items (m : PBFTMsg) : list bytes :=
  [encU32 (height m); encU32 (view m); encU32 (idx m); encInt (timestamp m);
   encHash 32 (block_hash m); rlpData (sig m); rlpData (sig2 m)].

(** What the receiver of a message sees: height and view modulo 2^32. *)
Definition received (m0 m : PBFTMsg) : PBFTMsg :=
  mkMsg (wrapU 32 (height m)) (wrapU 32 (view m)) (idx m) (timestamp m) (block_hash m) (sig m) (sig2 m)
    (isFuture m0) (signChecked m0) (isEmptyReq m0).

(** The wire form of a message whose fields are the items [l]. *)
Definition wire (l : list bytes) : bytes := rlpList [rlpData (mjoin l)].

(** The items of a packet. *)
Definition packet_items (p : PBFTMsgPacket) : list bytes :=
  [encU32 (packet_id p); encU32 (ttl (packet_mark p)); rlpData (pkt_data p)]
  ++ match forwardNodes p with Some l => [rlpList (encHash 64 <$> l)] | None => [] end.

Record packet_wf (p : PBFTMsgPacket) : Prop := {
  pwf_id : 0 ≤ packet_id p < 2 ^ 8;
  pwf_ttl : 0 ≤ ttl p < 2 ^ 7;
  pwf_data : zlen (pkt_data p) < 2 ^ 60;
  pwf_forward : ∀ l, forwardNodes p = Some l → Forall (λ x, 0 ≤ x < 2 ^ 512) l ∧ zlen l < 2 ^ 50;
}.

Lemma encU32_props i : good_item (encU32 i) ∧ zlen (encU32 i) ≤ 41.
Proof.
  pose proof (wrapU_range 32 i ltac:(lia)) as Hw.
  assert (0 ≤ wrapU 32 i < 2 ^ 256) by (split; [lia |]; eapply Z.lt_trans; [apply Hw | done]).
  split; [by apply (encInt_good (wrapU 32 i)) | by apply (zlen_encInt (wrapU 32 i))].
Qed.

Lemma toInt_U32 T i flags :
  bytesRequired (wrapU 32 i) ≤ maxSize T → castT T (wrapU 32 i) = wrapU 32 i →
  toInt T (encU32 i) flags = Ok (wrapU 32 i).
Proof.
  intros. pose proof (wrapU_range 32 i ltac:(lia)) as Hw.
  apply (toInt_256 T (wrapU 32 i)); [| done | done].
  split; [lia |]. eapply Z.lt_trans; [apply Hw | done].
Qed.

Lemma toInt_U32_i64 i flags : toInt T_int64 (encU32 i) flags = Ok (wrapU 32 i).
Proof.
  pose proof (wrapU_range 32 i ltac:(lia)) as Hw. apply toInt_U32.
  - apply bytesRequired_le; [done |]. split; [lia |]. eapply Z.lt_trans; [apply Hw | done].
  - cbn [castT]. apply wrapS_id; [done |]. change (2 ^ (64 - 1)) with (2 ^ 31 * 2 ^ 32).
    change (2 ^ 31) with 2147483648. lia.
Qed.

Lemma toInt_U32_narrow T w i flags :
  T = T_uint8 ∧ w = 8 ∨ T = T_uint16 ∧ w = 16 → 0 ≤ i < 2 ^ w →
  toInt T (encU32 i) flags = Ok i.
Proof.
  intros HT Hi. assert (2 ^ w ≤ 2 ^ 32) by (apply Z.pow_le_mono_r; destruct HT as [[_ ->] | [_ ->]]; lia).
  assert (wrapU 32 i = i) as Hid by (apply wrapU_id; lia).
  cbn beta. rewrite (toInt_U32 T); rewrite Hid; [done | |].
  - apply bytesRequired_le; destruct HT as [[-> ->] | [-> ->]]; cbn; lia.
  - destruct HT as [[-> ->] | [-> ->]]; by apply wrapU_id.
Qed.

(** [encode] puts the fields, concatenated, into one string of a list. *)
Lemma wrap_fields_wire fields l :
  fields emptyStream = Ok (mkStream (mjoin l) []) → zlen (mjoin l) < 2 ^ 62 →
  wrap_fields fields = Ok (wire l).
Proof.
  intros Hf Hl. unfold wrap_fields. rewrite Hf. cbn [mbind result_bind streamOut m_listStack m_out].
  change (appendList 1 emptyStream) with (Ok (E:=dev_exn) (mkStream (mjoin []) [(1, 0)])).
  cbn [mbind result_bind]. assert (rlp_fits (mjoin l)) as Hfit by (unfold rlp_fits; lia).
  rewrite append_last with (app := λ d, appendBytes d false) (enc := rlpData).
  - reflexivity.
  - by apply appendBytes_spec.
  - unfold rlp_fits. cbn [app]. rewrite zlen_mjoin. change (zlen (mjoin [])) with 0.
    pose proof (zlen_rlpData _ Hfit). lia.
Qed.

(** [decode] of that form runs [populate] on the fields. *)
Lemma decode_item_wire {A} (populate : reader dev_exn A) l x :
  zlen (mjoin l) < 2 ^ 62 → reads l populate x → decode_item populate (wire l) 0 = x.
Proof.
  intros Hl Hr. assert (rlp_fits (mjoin l)) as Hfit by (unfold rlp_fits; lia).
  destruct (rlpData_good _ Hfit) as [Hg Hp].
  assert (rlp_fits (mjoin [rlpData (mjoin l)])) as Hfit'.
  { unfold rlp_fits. rewrite zlen_mjoin. change (zlen (mjoin [])) with 0.
    pose proof (zlen_rlpData _ Hfit). lia. }
  destruct (rlpList_good _ Hfit') as [Hg' Hp']. unfold decode_item, wire.
  rewrite newRLP_item by done. cbn [mbind result_bind].
  rewrite (rlpIndex_fresh _ [rlpData (mjoin l)] 0);
    [| exact Hp' | by apply Forall_singleton | cbn; lia | done].
  change (default [] ([rlpData (mjoin l)] !! 0%nat)) with (rlpData (mjoin l)).
  cbn [mbind result_bind].
  destruct (Hr (freshRLP (rlpData (mjoin l)))) as (r' & -> & _); [by left | exact Hp | done].
Qed.

Lemma msg_items_wf m : msg_wf m → Forall good_item (msg_items m) ∧ zlen (mjoin (msg_items m)) < 2 ^ 33.
Proof.
  intros []. pose proof (zlen_nonneg (sig m)). pose proof (zlen_nonneg (sig2 m)).
  assert (rlp_fits (sig m)) as Hs1 by (unfold rlp_fits; lia).
  assert (rlp_fits (sig2 m)) as Hs2 by (unfold rlp_fits; lia).
  destruct (encU32_props (height m)), (encU32_props (view m)), (encU32_props (idx m)).
  split.
  - unfold msg_items. rewrite !Forall_cons. split_and!; try done; try (by apply rlpData_good);
      first [by apply encInt_good | by apply encHash_good | by apply Forall_nil].
  - unfold msg_items. rewrite !zlen_mjoin. change (zlen (mjoin [])) with 0.
    pose proof (zlen_encInt _ mwf_timestamp0). pose proof (zlen_encHash 32 (block_hash m) ltac:(lia)).
    pose proof (zlen_rlpData _ Hs1). pose proof (zlen_rlpData _ Hs2). cbn beta in *. lia.
Qed.

Lemma msg_stream_items m :
  msg_wf m → msg_streamRLPFields m emptyStream = Ok (mkStream (mjoin (msg_items m)) []).
Proof.
  intros []. pose proof (zlen_nonneg (sig m)). pose proof (zlen_nonneg (sig2 m)).
  unfold msg_streamRLPFields. change emptyStream with (mkStream (mjoin []) []).
  do 3 (rewrite append_flat with (enc := encU32) by apply appendUnsigned_spec; cbn [mbind result_bind]).
  rewrite append_flat with (enc := encInt) by by apply appendBigint_256. cbn [mbind result_bind].
  rewrite append_flat with (enc := encHash 32) by by apply appendHash_spec. cbn [mbind result_bind].
  rewrite append_flat with (app := λ d, appendBytes d false) (enc := rlpData)
    by (apply appendBytes_spec; unfold rlp_fits; lia). cbn [mbind result_bind].
  rewrite append_flat with (app := λ d, appendBytes d false) (enc := rlpData)
    by (apply appendBytes_spec; unfold rlp_fits; lia). reflexivity.
Qed.

(** [populate] on the items of a message, possibly followed by others. *)
Lemma msg_populate_items m m0 rest :
  msg_wf m → Forall good_item (msg_items m ++ rest) →
  reads (msg_items m ++ rest) (msg_populate m0) (Ok (received m0 m)).
Proof.
  intros [] Hg. pose proof (zlen_nonneg (sig m)). pose proof (zlen_nonneg (sig2 m)).
  unfold msg_populate.
  reads_step ltac:(fun _ => apply toInt_U32_i64).
  reads_step ltac:(fun _ => apply toInt_U32_i64).
  reads_step ltac:(fun _ => apply (toInt_U32_narrow T_uint16 16); [auto | done]).
  reads_step ltac:(fun _ => by apply toInt_u256).
  reads_step ltac:(fun _ => by apply (toHash_enc 32 256)).
  reads_step ltac:(fun _ => apply toBytes_data; unfold rlp_fits; lia).
  reads_step ltac:(fun _ => apply toBytes_data; unfold rlp_fits; lia).
  apply reads_ret.
Qed.

Lemma msg_decode_encode_ok m m0 :
  msg_wf m → (d ← msg_encode m; msg_decode m0 d 0) = Ok (received m0 m).
Proof.
  intros Hwf. destruct (msg_items_wf m Hwf) as [Hg Hsz].
  unfold msg_encode. rewrite (wrap_fields_wire _ (msg_items m)); [| by apply msg_stream_items | lia].
  cbn [mbind result_bind]. apply decode_item_wire; [lia |].
  pose proof (msg_populate_items m m0 [] Hwf) as Hr. rewrite app_nil_r in Hr. by apply Hr.
Qed.

Lemma wrapU_id_iff w z : 0 ≤ w → wrapU w z = z ↔ 0 ≤ z < 2 ^ w.
Proof.
  intros Hw. split; [intros <-; by apply wrapU_range | apply wrapU_id].
Qed.

(** C39. A sign, commit or view-change message survives the wire exactly when its
    height and view fit in 32 bits: the receiver sees both modulo 2^32, and all
    other fields unchanged. *)
Theorem msg_roundtrip_32bit m m0 :
  msg_wf m → isFuture m = isFuture m0 → signChecked m = signChecked m0 → isEmptyReq m = isEmptyReq m0 →
  (d ← msg_encode m; msg_decode m0 d 0) = Ok m ↔ 0 ≤ height m < 2 ^ 32 ∧ 0 ≤ view m < 2 ^ 32.
Proof.
  intros Hwf H1 H2 H3. rewrite msg_decode_encode_ok by done.
  rewrite <- !wrapU_id_iff by lia. unfold received. rewrite <- H1, <- H2, <- H3.
  destruct m as [h v i t bh s s2 f c e]; cbn in *. split; [intros H; by injection H | by intros [-> ->]].
Qed.

Lemma msg_roundtrip_32bit_witness :
  let m := mkMsg 7 (2 ^ 32) 1 5 9 [byte.of_Z 1] [] false true false in
  (d ← msg_encode m; msg_decode defaultMsg d 0) = Ok m
  ↔ 0 ≤ height m < 2 ^ 32 ∧ 0 ≤ view m < 2 ^ 32.
Proof.
  intros m. apply (msg_roundtrip_32bit m defaultMsg); [| reflexivity..].
  constructor; vm_compute; first [split; [discriminate | reflexivity] | reflexivity].
Defined.

(** A prepare request survives the wire with its block, height and view
    modulo 2^32, and the receiver's own block object and execution handle kept. *)
Theorem prepare_decode_encode (r r0 : PrepareReq) :
  msg_wf r → zlen (req_block r) < 2 ^ 60 →
  (d ← prepare_encode r; prepare_decode r0 d 0)
  = Ok (mkPrepare (received r0 r) (req_block r) (pBlock r0) (p_execContext r0)).
Proof.
  intros Hwf Hb. destruct (msg_items_wf r Hwf) as [Hg Hsz].
  assert (rlp_fits (req_block r)) as Hfit by (unfold rlp_fits; lia).
  destruct (rlpData_good _ Hfit) as [Hgb _].
  assert (Forall good_item (msg_items r ++ [rlpData (req_block r)])) as Hall
    by (apply Forall_app_2; [done | by apply Forall_singleton]).
  assert (zlen (mjoin (msg_items r ++ [rlpData (req_block r)])) < 2 ^ 62) as Hz.
  { rewrite join_app, zlen_app, zlen_mjoin. change (zlen (mjoin [])) with 0.
    pose proof (zlen_rlpData _ Hfit). lia. }
  unfold prepare_encode. rewrite (wrap_fields_wire _ (msg_items r ++ [rlpData (req_block r)])); [| | done].
  - cbn [mbind result_bind]. apply decode_item_wire; [done |]. unfold prepare_populate.
    eapply reads_bind; [by apply msg_populate_items |].
    reads_step ltac:(fun _ => by apply toBytes_data). apply reads_ret.
  - unfold prepare_streamRLPFields. rewrite msg_stream_items by done. cbn [mbind result_bind].
    by apply (append_flat (λ d, appendBytes d false) rlpData), appendBytes_spec.
Qed.

Lemma prepare_decode_encode_witness :
  let r := mkPrepare (mkMsg 7 2 1 5 9 [byte.of_Z 1] [] false true false) [byte.of_Z 3] None None in
  (d ← prepare_encode r; prepare_decode defaultPrepare d 0) = Ok r.
Proof.
  intros r. rewrite (prepare_decode_encode r defaultPrepare).
  - vm_compute. reflexivity.
  - constructor; vm_compute; first [split; [discriminate | reflexivity] | reflexivity].
  - vm_compute. reflexivity.
Defined.

Section signatures.
Context `{Crypto}.

Lemma fieldsWithoutBlock_hash m :
  0 ≤ timestamp m < 2 ^ 256 →
  fieldsWithoutBlock m
  = Hash (mjoin [encU32 (height m); encU32 (view m); encU32 (idx m); encInt (timestamp m)]).
Proof.
  intros. unfold fieldsWithoutBlock. change emptyStream with (mkStream (mjoin []) []).
  do 3 (rewrite append_flat with (enc := encU32) by apply appendUnsigned_spec; cbn [mbind result_bind]).
  by rewrite append_flat with (enc := encInt) by by apply appendBigint_256.
Qed.

(** The signature of the header fields binds height and view only modulo
    2^32: two messages that agree modulo 2^32 sign the same hash and, with equal
    hash, index, time and signatures, have the same bytes on the wire. *)
Theorem msg_binds_low_32_bits m m' :
  msg_wf m → msg_wf m' → idx m = idx m' → timestamp m = timestamp m' →
  wrapU 32 (height m) = wrapU 32 (height m') → wrapU 32 (view m) = wrapU 32 (view m') →
  fieldsWithoutBlock m = fieldsWithoutBlock m'
  ∧ (block_hash m = block_hash m' → sig m = sig m' → sig2 m = sig2 m' → msg_encode m = msg_encode m').
Proof.
  intros Hwf Hwf' Hi Ht Hh Hv. split.
  - rewrite !fieldsWithoutBlock_hash by (by destruct Hwf, Hwf'). by rewrite Hi, Ht, Hh, Hv.
  - intros Hb Hs Hs2. destruct (msg_items_wf m Hwf), (msg_items_wf m' Hwf'). unfold msg_encode.
    rewrite (wrap_fields_wire _ (msg_items m)) by (by apply msg_stream_items || lia).
    rewrite (wrap_fields_wire _ (msg_items m')) by (by apply msg_stream_items || lia).
    unfold msg_items. by rewrite Hi, Ht, Hh, Hv, Hb, Hs, Hs2.
Qed.

(** A message made by the constructors passes, after the wire, the two
    signature checks of its receiver under the sender's public key. *)
Theorem msg_signed_verifies k now h v i hash m0 d m :
  SignCorrect → 0 ≤ i < 2 ^ 16 → 0 ≤ now < 2 ^ 256 → 0 ≤ hash < 2 ^ 256 →
  (∀ x, zlen (Sign k x) < 2 ^ 31) →
  msg_encode (newMsg k now h v i hash) = Ok d → msg_decode m0 d 0 = Ok m →
  Verify (pub k) (sig m) (block_hash m) && Verify (pub k) (sig2 m) (fieldsWithoutBlock m) = true
  ∧ block_hash m = hash ∧ idx m = i.
Proof.
  intros HS Hi Hnow Hhash Hlen He Hd.
  assert (msg_wf (newMsg k now h v i hash)) as Hwf.
  { pose proof (Hlen hash). constructor; try done. cbn [newMsg sig sig2 set_sig2]. unfold signHash.
    match goal with |- _ + zlen (Sign k ?x) < _ => pose proof (Hlen x) end. lia. }
  pose proof (msg_decode_encode_ok _ m0 Hwf) as H'. rewrite He in H'. cbn [mbind result_bind] in H'.
  rewrite Hd in H'. injection H' as ->. split; [| done].
  cbn [received sig sig2 block_hash newMsg set_sig2]. unfold signHash. rewrite HS. cbn [andb].
  match goal with |- Verify _ (Sign _ ?x) ?y = true => replace y with x; [apply HS |] end.
  rewrite !fieldsWithoutBlock_hash by done. cbn [height view idx timestamp received newMsg set_sig2].
  by rewrite !wrapU_idemp by lia.
Qed.
End signatures.

Lemma msg_binds_low_32_bits_witness :
  let m := mkMsg 5 1 2 3 4 [] [] false true false in
  let m' := mkMsg (5 + 2 ^ 32) 1 2 3 4 [] [] false true false in
  @fieldsWithoutBlock toyCrypto m = @fieldsWithoutBlock toyCrypto m'
  ∧ (block_hash m = block_hash m' → sig m = sig m' → sig2 m = sig2 m' → msg_encode m = msg_encode m').
Proof.
  intros m m'. apply (@msg_binds_low_32_bits toyCrypto m m');
    [constructor; vm_compute; first [split; [discriminate | reflexivity] | reflexivity]..
    | reflexivity | reflexivity | reflexivity | reflexivity].
Defined.

Lemma toy_sign_size (k x : Z) : zlen (@Sign toyCrypto k x) < 2 ^ 31.
Proof. cbn [Sign toyCrypto]. unfold hashBytes. rewrite zlen_app, !zlen_toBigEndian. done. Qed.

Lemma msg_signed_verifies_witness :
  let m := received defaultMsg (@newMsg toyCrypto 42 1000 7 2 3 99) in
  @Verify toyCrypto 42 (sig m) (block_hash m)
    && @Verify toyCrypto 42 (sig2 m) (@fieldsWithoutBlock toyCrypto m) = true
  ∧ block_hash m = 99 ∧ idx m = 3.
Proof.
  refine (@msg_signed_verifies toyCrypto 42 1000 7 2 3 99 defaultMsg
    (wire (msg_items (@newMsg toyCrypto 42 1000 7 2 3 99))) _ toy_sign_correct _ _ _ (toy_sign_size 42) _ _).
  - by split; [apply Z.leb_le | apply Z.ltb_lt].
  - by split; [apply Z.leb_le | apply Z.ltb_lt].
  - by split; [apply Z.leb_le | apply Z.ltb_lt].
  - vm_compute. reflexivity.
  - vm_compute. reflexivity.
Defined.

(** ** Packets *)

Lemma forward_props l :
  Forall (λ x, 0 ≤ x < 2 ^ 512) l → zlen l < 2 ^ 50 →
  rlp_fits (mjoin (encHash 64 <$> l)) ∧ good_item (rlpList (encHash 64 <$> l))
  ∧ zlen (rlpList (encHash 64 <$> l)) < 2 ^ 60
  ∧ toVector (toHash 64) (rlpList (encHash 64 <$> l)) LaissezFaire = Ok l
  ∧ appends (appendVector (appendHash 64)) (λ l, rlpList (encHash 64 <$> l)) l.
Proof.
  intros Hl Hn. pose proof (zlen_sealers l).
  assert (rlp_fits (mjoin (encHash 64 <$> l))) as Hfit by (unfold rlp_fits; lia).
  split; [done |]. split; [by apply rlpList_good |].
  split; [pose proof (zlen_rlpList _ Hfit); lia |]. split.
  - apply toVector_list; [| done]. eapply Forall_impl; [exact Hl |]. intros x Hx. cbn beta.
    split; [by apply encHash_good | by apply (toHash_enc 64 512)].
  - apply appendVector_spec; [| done]. apply Forall_true. intros x. by apply appendHash_spec.
Qed.

Lemma packet_items_wf p :
  packet_wf p → Forall good_item (packet_items p) ∧ zlen (mjoin (packet_items p)) < 2 ^ 62.
Proof.
  intros []. assert (rlp_fits (pkt_data p)) as Hfit by (unfold rlp_fits; lia).
  pose proof (zlen_rlpData _ Hfit). destruct (rlpData_good _ Hfit) as [Hg _].
  destruct (encU32_props (packet_id p)), (encU32_props (ttl (packet_mark p))).
  unfold packet_items. cbn [app]. rewrite !Forall_cons, !zlen_mjoin. cbn beta in *.
  destruct (forwardNodes p) as [l |].
  - destruct (pwf_forward0 l eq_refl) as [Hl Hn]. destruct (forward_props l Hl Hn) as (_ & Hgl & Hzl & _).
    rewrite zlen_mjoin. change (zlen (mjoin [])) with 0. split; [| lia].
    split_and!; try assumption. by apply Forall_singleton.
  - change (zlen (mjoin [])) with 0. split; [| lia]. split_and!; try assumption. by apply Forall_nil.
Qed.

Lemma packet_stream_items p :
  packet_wf p → packet_streamRLPFields p emptyStream = Ok (mkStream (mjoin (packet_items p)) []).
Proof.
  intros []. unfold packet_streamRLPFields. cbv zeta. change emptyStream with (mkStream (mjoin []) []).
  assert (forwardNodes (packet_mark p) = forwardNodes p ∧ pkt_data (packet_mark p) = pkt_data p
          ∧ packet_id (packet_mark p) = packet_id p) as (Hf & Hd & Hi)
    by (unfold packet_mark; by destruct (prepareWithEmptyBlock p)).
  rewrite Hf, Hd, Hi.
  do 2 (rewrite append_flat with (enc := encU32) by apply appendUnsigned_spec; cbn [mbind result_bind]).
  rewrite append_flat with (app := λ d, appendBytes d false) (enc := rlpData)
    by (apply appendBytes_spec; unfold rlp_fits; lia). cbn [mbind result_bind]. unfold packet_items.
  destruct (forwardNodes p) as [l |]; [| reflexivity].
  destruct (pwf_forward0 l eq_refl) as [Hl Hn]. destruct (forward_props l Hl Hn) as (_ & _ & _ & _ & Ha).
  rewrite append_flat with (enc := λ l, rlpList (encHash 64 <$> l)) by exact Ha. reflexivity.
Qed.

Lemma ttl_bits t e :
  0 ≤ t < 2 ^ 7 →
  let t' := if e : bool then Z.lor t 0x80 else t in
  0 ≤ t' < 2 ^ 8 ∧ Z.land t' 0x7f = t ∧ negb (Z.land t' 0x80 =? 0) = e.
Proof.
  intros Ht. assert (Z.land t 0x80 = 0) as H8.
  { apply Z.bits_inj'. intros n Hn. rewrite Z.land_spec, Z.bits_0.
    destruct (decide (n = 7)) as [-> |].
    - replace (Z.testbit t 7) with false; [done |]. symmetry. apply Z.testbit_false; [lia |].
      by rewrite Z.div_small by lia.
    - change 0x80 with (2 ^ 7). rewrite Z.pow2_bits_false by lia. by rewrite andb_false_r. }
  assert (Z.land t 0x7f = t) as H7.
  { change 0x7f with (Z.ones 7). rewrite Z.land_ones by lia. by apply Z.mod_small. }
  destruct e; cbv zeta.
  - assert (Z.lor t 0x80 = t + 0x80) as Hlor.
    { rewrite <- Z.lxor_lor by done. rewrite <- Z.add_nocarry_lxor by done. done. }
    split; [rewrite Hlor; lia |]. rewrite !Z.land_lor_distr_l, H7, H8. by split; [rewrite Z.lor_0_r |].
  - rewrite H8. by split; [lia |].
Qed.

(** A packet survives the wire: type, data, forward nodes, the 7-bit ttl and
    the empty-block flag that shares its byte. *)
Theorem packet_decode_encode p p0 :
  packet_wf p → (forwardNodes p = None ↔ forwardNodes p0 = None) →
  (pd ← packet_encode p; packet_decode p0 pd.2)
  = Ok (mkPacket (node_idx p0) (node_id p0) (packet_id p) (ttl p) (prepareWithEmptyBlock p)
          (pkt_data p) (pkt_timestamp p0) (endpoint p0) (forwardNodes p)).
Proof.
  intros Hwf Hf. destruct (packet_items_wf p Hwf) as [Hg Hsz]. unfold packet_encode.
  rewrite (wrap_fields_wire _ (packet_items p)); [| by apply packet_stream_items | done].
  cbn [mbind result_bind snd]. apply decode_item_wire; [done |]. destruct Hwf.
  destruct (ttl_bits (ttl p) (prepareWithEmptyBlock p) pwf_ttl0) as (Ht & Ht7 & Ht8).
  assert (ttl (packet_mark p) = if prepareWithEmptyBlock p then Z.lor (ttl p) 0x80 else ttl p) as Hm
    by (unfold packet_mark; by destruct (prepareWithEmptyBlock p)).
  rewrite <- Hm in *. unfold packet_populate.
  reads_step ltac:(fun _ => apply (toInt_U32_narrow T_uint8 8); [auto | done]).
  reads_step ltac:(fun _ => apply (toInt_U32_narrow T_uint8 8); [auto | done]).
  reads_step ltac:(fun _ => apply toBytes_data; unfold rlp_fits; lia).
  eapply (reads_bind _ _ (forwardNodes p)).
  - unfold packet_items in *. destruct (forwardNodes p) as [l |], (forwardNodes p0) as [l0 |];
      [| by destruct Hf as [_ Hf]; discriminate Hf | by destruct Hf as [Hf _]; discriminate Hf | apply reads_ret].
    destruct (pwf_forward0 l eq_refl) as [Hl Hn]. destruct (forward_props l Hl Hn) as (_ & _ & _ & Hv & _).
    reads_step ltac:(fun _ => exact Hv). apply reads_ret.
  - rewrite Ht7, Ht8. apply reads_ret.
Qed.

Lemma packet_decode_encode_witness :
  let p := mkPacket 1 2 3 2 true [byte.of_Z 9] 0 EmptyString (Some [17]) in
  (pd ← packet_encode p; packet_decode (defaultPacket true 5) pd.2)
  = Ok (mkPacket 0 0 3 2 true [byte.of_Z 9] 5 EmptyString (Some [17])).
Proof.
  intros p. apply (packet_decode_encode p (defaultPacket true 5)); [| done].
  constructor; [by split; [apply Z.leb_le | apply Z.ltb_lt] | by split; [apply Z.leb_le | apply Z.ltb_lt]
    | by apply Z.ltb_lt |].
  intros l [= <-]. split; [| by apply Z.ltb_lt].
  apply Forall_singleton. by split; [apply Z.leb_le | apply Z.ltb_lt].
Defined.
