(* ===== verification/MsgCache.v ===== *)
(** * The broadcast filter (libdevcore/Common.h [QueueSet], libconsensus/pbft/PBFTMsgCache.h)

    Per node and packet type, a bounded queue of the keys already broadcast. *)
From S2P Require Import Prelude CommonData PBFTMsg.
Local Open Scope Z_scope.

(** ** [QueueSet] *)

Record QueueSet := mkQueueSet { qs_set : gset string; qs_queue : list string }.

Definition qs_empty : QueueSet := mkQueueSet ∅ [].
Definition qs_exist (k : string) (q : QueueSet) : bool := bool_decide (k ∈ qs_set q).
Definition qs_size (q : QueueSet) : Z := Z.of_nat (size (qs_set q)).
Definition qs_push (k : string) (q : QueueSet) : QueueSet :=
  if bool_decide (k ∈ qs_set q) then q else mkQueueSet ({[k]} ∪ qs_set q) (qs_queue q ++ [k]).
Definition qs_pop (q : QueueSet) : QueueSet :=
  match qs_queue q with [] => q | k :: ks => mkQueueSet (qs_set q ∖ {[k]}) ks end.

(** ** [PBFTMsgCache] *)

(** [c_knownPrepare], [c_knownSign], [c_knownCommit], [c_knownViewChange]. *)
Definition c_known : Z := 1024.

(** [insertMessage]. *)
Definition insertMessage (maxCacheSize : Z) (k : string) (q : QueueSet) : QueueSet :=
  qs_push k (if maxCacheSize <? qs_size q then qs_pop q else q).

Record PBFTMsgCache := mkMsgCache {
  m_knownPrepare : QueueSet; m_knownSign : QueueSet;
  m_knownCommit : QueueSet; m_knownViewChange : QueueSet }.

Definition emptyMsgCache : PBFTMsgCache := mkMsgCache qs_empty qs_empty qs_empty qs_empty.

(** [insertByPacketType]. *)
Definition insertByPacketType (type : Z) (k : string) (c : PBFTMsgCache) : PBFTMsgCache * bool :=
  let '(mkMsgCache p s m v) := c in
  if type =? PrepareReqPacket then (mkMsgCache (insertMessage c_known k p) s m v, true)
  else if type =? SignReqPacket then (mkMsgCache p (insertMessage c_known k s) m v, true)
  else if type =? CommitReqPacket then (mkMsgCache p s (insertMessage c_known k m) v, true)
  else if type =? ViewChangeReqPacket then (mkMsgCache p s m (insertMessage c_known k v), true)
  else (c, false).

(** The cache of a packet type, and [exists]. *)
Definition cacheOfType (type : Z) (c : PBFTMsgCache) : option QueueSet :=
  if type =? PrepareReqPacket then Some (m_knownPrepare c)
  else if type =? SignReqPacket then Some (m_knownSign c)
  else if type =? CommitReqPacket then Some (m_knownCommit c)
  else if type =? ViewChangeReqPacket then Some (m_knownViewChange c)
  else None.
Definition msgCache_exists (type : Z) (k : string) (c : PBFTMsgCache) : bool :=
  match cacheOfType type c with Some q => qs_exist k q | None => false end.

(** ** [PBFTBroadcastCache] *)

Abbreviation PBFTBroadcastCache := (gmap Z PBFTMsgCache).

(** [insertKey]. *)
Definition insertKey (nodeId type : Z) (k : string) (b : PBFTBroadcastCache) : PBFTBroadcastCache * bool :=
  let c := default emptyMsgCache (b !! nodeId) in
  let '(c', ok) := insertByPacketType type k c in
  (<[nodeId := c']> b, ok).

(** [keyExists]. *)
Definition keyExists (nodeId type : Z) (k : string) (b : PBFTBroadcastCache) : bool :=
  match b !! nodeId with Some c => msgCache_exists type k c | None => false end.

(** [clearAll]. *)
Definition broadcast_clearAll (b : PBFTBroadcastCache) : PBFTBroadcastCache := (λ _, emptyMsgCache) <$> b.

(** ** Correctness *)

(** The set mirrors the queue, which has no duplicates and at most [n] keys. *)
Definition qs_wf (n : Z) (q : QueueSet) : Prop :=
  NoDup (qs_queue q) ∧ qs_set q = list_to_set (qs_queue q) ∧ zlen (qs_queue q) ≤ n.

(** The abstract content of the filter: the keys of a node and type, oldest first. *)
Definition keysOf (b : PBFTBroadcastCache) (nodeId type : Z) : list string :=
  match b !! nodeId with
  | Some c => match cacheOfType type c with Some q => qs_queue q | None => [] end
  | None => []
  end.

(** The abstract insertion: drop the oldest key of a list over the limit, then
    add the key unless it is there. *)
Definition keys_insert (n : Z) (k : string) (l : list string) : list string :=
  let l := if n <? zlen l then tail l else l in
  if bool_decide (k ∈ l) then l else l ++ [k].

Definition validType (t : Z) : bool := (0 <=? t) && (t <? PBFTPacketCount).

Definition broadcast_wf (b : PBFTBroadcastCache) : Prop :=
  map_Forall (λ _ c, ∀ t q, cacheOfType t c = Some q → qs_wf (c_known + 1) q) b.

(** Sequences of insertions. *)
Definition insertAll (b : PBFTBroadcastCache) (ops : list (Z * Z * string)) : PBFTBroadcastCache :=
  foldl (λ b '(n, t, k), (insertKey n t k b).1) b ops.

(** The keys that a sequence of insertions gives to one node and type. *)
Definition keysFor (n t : Z) (ops : list (Z * Z * string)) : list string :=
  omap (λ '(n', t', k), if (n' =? n) && (t' =? t) && validType t' then Some k else None) ops.

Lemma qs_size_queue n q : qs_wf n q → qs_size q = zlen (qs_queue q).
Proof. intros (Hd & Hs & _). unfold qs_size, zlen. by rewrite Hs, size_list_to_set. Qed.

Lemma qs_exist_iff n q k : qs_wf n q → qs_exist k q = true ↔ k ∈ qs_queue q.
Proof.
  intros (_ & Hs & _). unfold qs_exist. by rewrite bool_decide_eq_true, Hs, elem_of_list_to_set.
Qed.

Lemma qs_pop_wf n q : qs_wf n q → qs_wf n (qs_pop q) ∧ qs_queue (qs_pop q) = tail (qs_queue q).
Proof.
  intros (Hd & Hs & Hn). unfold qs_pop. destruct (qs_queue q) as [|k ks] eqn:Hq; cbn [tail].
  - by repeat split; rewrite ?Hq.
  - apply NoDup_cons in Hd as [Hk Hd]. cbn [qs_queue]. split; [| done].
    split_and!; cbn [qs_queue qs_set]; [done | | zsize].
    rewrite Hs. cbn [list_to_set]. set_solver.
Qed.

Lemma qs_push_wf n k q :
  qs_wf n q →
  qs_wf (n + 1) (qs_push k q)
  ∧ qs_queue (qs_push k q) = if bool_decide (k ∈ qs_queue q) then qs_queue q else qs_queue q ++ [k].
Proof.
  intros Hwf. pose proof Hwf as (Hd & Hs & Hn). unfold qs_push.
  assert (bool_decide (k ∈ qs_set q) = bool_decide (k ∈ qs_queue q)) as ->.
  { apply bool_decide_ext. by rewrite Hs, elem_of_list_to_set. }
  case_bool_decide as Hk; [split; [split_and!; [done | done | lia] | done] |].
  cbn [qs_queue qs_set]. split; [| done]. split_and!; cbn [qs_queue qs_set].
  - apply NoDup_app. split; [done |]. split; [set_solver | apply NoDup_singleton].
  - rewrite Hs, list_to_set_app_L. cbn [list_to_set]. set_solver.
  - zsize.
Qed.

Lemma insertMessage_refines n k q :
  0 ≤ n → qs_wf (n + 1) q →
  qs_wf (n + 1) (insertMessage n k q)
  ∧ qs_queue (insertMessage n k q) = keys_insert n k (qs_queue q).
Proof.
  intros Hn0 Hwf. unfold insertMessage, keys_insert. rewrite (qs_size_queue _ _ Hwf).
  destruct (Z.ltb_spec n (zlen (qs_queue q))) as [Hlt | Hle].
  - destruct (qs_pop_wf _ _ Hwf) as [(Hd & Hs & Hn) Hq].
    assert (qs_wf n (qs_pop q)) as Hwf'.
    { split_and!; [done | done |]. rewrite Hq. destruct Hwf as (_ & _ & Hn').
      destruct (qs_queue q); cbn [tail] in *; zsize. }
    destruct (qs_push_wf n k _ Hwf') as [Hp Hpq]. split; [done |]. by rewrite Hpq, Hq.
  - apply qs_push_wf. destruct Hwf as (? & ? & ?). split_and!; [done | done | lia].
Qed.

Lemma cacheOfType_insert t t' k c q :
  cacheOfType t' (insertByPacketType t k c).1 = Some q →
  ∃ q0, cacheOfType t' c = Some q0 ∧ q = if t =? t' then insertMessage c_known k q0 else q0.
Proof.
  unfold cacheOfType, insertByPacketType. destruct c as [p s m v].
  unfold PrepareReqPacket, SignReqPacket, CommitReqPacket, ViewChangeReqPacket.
  destruct (Z.eqb_spec t 0), (Z.eqb_spec t 1), (Z.eqb_spec t 2), (Z.eqb_spec t 3); try lia;
    cbn [fst m_knownPrepare m_knownSign m_knownCommit m_knownViewChange];
    destruct (Z.eqb_spec t' 0), (Z.eqb_spec t' 1), (Z.eqb_spec t' 2), (Z.eqb_spec t' 3); try lia;
    destruct (Z.eqb_spec t t'); try lia; intros [= <-]; eauto.
Qed.

Lemma validType_cases t :
  validType t = true ↔ t = PrepareReqPacket ∨ t = SignReqPacket ∨ t = CommitReqPacket ∨ t = ViewChangeReqPacket.
Proof.
  unfold validType, PrepareReqPacket, SignReqPacket, CommitReqPacket, ViewChangeReqPacket, PBFTPacketCount.
  rewrite andb_true_iff, Z.leb_le, Z.ltb_lt. lia.
Qed.

Lemma cacheOfType_valid t c : validType t = true → ∃ q, cacheOfType t c = Some q.
Proof. intros [-> | [-> | [-> | ->]]]%validType_cases; cbn; eauto. Qed.
Lemma cacheOfType_invalid t c : validType t = false → cacheOfType t c = None.
Proof.
  intros H. unfold cacheOfType. assert (¬ validType t = true) as Hn by congruence.
  rewrite validType_cases in Hn.
  destruct (Z.eqb_spec t PrepareReqPacket), (Z.eqb_spec t SignReqPacket),
    (Z.eqb_spec t CommitReqPacket), (Z.eqb_spec t ViewChangeReqPacket); tauto.
Qed.
Lemma cacheOfType_empty t q : cacheOfType t emptyMsgCache = Some q → q = qs_empty.
Proof. unfold cacheOfType. repeat break_if; by intros [= <-]. Qed.

Lemma qs_empty_wf n : 0 ≤ n → qs_wf n qs_empty.
Proof. intros. split_and!; [apply NoDup_nil_2 | done | done]. Qed.

(** One insertion, on the abstract content. *)
Lemma insertKey_refines n t k b :
  broadcast_wf b →
  broadcast_wf (insertKey n t k b).1
  ∧ ∀ n' t', keysOf (insertKey n t k b).1 n' t' =
      if (n =? n') && (t =? t') && validType t then keys_insert c_known k (keysOf b n' t') else keysOf b n' t'.
Proof.
  intros Hwf. unfold insertKey. destruct (insertByPacketType t k _) as [c' ok] eqn:Hc. cbn [fst].
  assert (∀ t0 q, cacheOfType t0 (default emptyMsgCache (b !! n)) = Some q → qs_wf (c_known + 1) q) as Hc0.
  { intros t0 q Hq. destruct (b !! n) as [c0 |] eqn:Hb; [by eapply Hwf |].
    apply cacheOfType_empty in Hq as ->. by apply qs_empty_wf. }
  assert (∀ t0 q, cacheOfType t0 c' = Some q → ∃ q0,
    cacheOfType t0 (default emptyMsgCache (b !! n)) = Some q0
    ∧ q = if t =? t0 then insertMessage c_known k q0 else q0) as Hins.
  { intros t0 q Hq. apply cacheOfType_insert. by rewrite Hc. }
  split.
  - apply map_Forall_insert_2; [| done]. intros t0 q Hq.
    destruct (Hins t0 q Hq) as (q0 & Hq0 & ->). destruct (t =? t0); [| by eapply Hc0].
    apply insertMessage_refines; [done | by eapply Hc0].
  - intros n' t'. unfold keysOf. destruct (Z.eqb_spec n n') as [<- | Hne].
    2: { cbn [andb]. by rewrite lookup_insert_ne. }
    rewrite lookup_insert_eq. destruct (validType t') eqn:Hv'.
    + destruct (cacheOfType_valid t' c' Hv') as [q Hq]. rewrite Hq.
      destruct (Hins t' q Hq) as (q0 & Hq0 & ->).
      assert (match b !! n with Some c => match cacheOfType t' c with Some q => qs_queue q | None => [] end
              | None => [] end = qs_queue q0) as ->.
      { destruct (b !! n); cbn [from_option id] in Hq0; [by rewrite Hq0 |].
        by apply cacheOfType_empty in Hq0 as ->. }
      destruct (Z.eqb_spec t t') as [-> |]; cbn [andb]; [| done].
      rewrite Hv'. apply insertMessage_refines; [done | by eapply Hc0].
    + rewrite cacheOfType_invalid by done.
      replace (true && (t =? t') && validType t) with false.
      * destruct (b !! n) as [c |]; [by rewrite cacheOfType_invalid | done].
      * symmetry. destruct (Z.eqb_spec t t') as [-> |]; [by rewrite Hv' | done].
Qed.

Lemma insertAll_wf b ops : broadcast_wf b → broadcast_wf (insertAll b ops).
Proof.
  revert b. induction ops as [|[[n t] k] ops IH]; intros b Hwf; [done |].
  cbn [insertAll foldl]. by apply IH, insertKey_refines.
Qed.

Lemma keyExists_keysOf b n t k : broadcast_wf b → keyExists n t k b = true ↔ k ∈ keysOf b n t.
Proof.
  intros Hwf. unfold keyExists, keysOf, msgCache_exists. destruct (b !! n) as [c |] eqn:Hc.
  - destruct (cacheOfType t c) as [q |] eqn:Hq.
    + eapply qs_exist_iff. by eapply Hwf.
    + split; [done | by intros ?%elem_of_nil].
  - split; [done | by intros ?%elem_of_nil].
Qed.

Lemma keysOf_bound b n t : broadcast_wf b → zlen (keysOf b n t) ≤ c_known + 1.
Proof.
  intros Hwf. unfold keysOf. destruct (b !! n) as [c |] eqn:Hc; [| done].
  destruct (cacheOfType t c) as [q |] eqn:Hq; [| done].
  by apply (Hwf n c Hc t q Hq).
Qed.

(** The broadcast filter implements its abstract contract: after any
    insertions, the queue of a node and packet type is the bounded list of the keys
    inserted for it, [keyExists] is membership in it, and it holds at most 1025 keys
    (the limit of 1024 is exceeded by one). *)
Theorem broadcast_filter_refines ops n t k :
  let b := insertAll ∅ ops in
  keysOf b n t = foldl (λ l k, keys_insert c_known k l) [] (keysFor n t ops)
  ∧ (keyExists n t k b = true ↔ k ∈ keysOf b n t)
  ∧ zlen (keysOf b n t) ≤ 1025.
Proof.
  assert (broadcast_wf ∅) as Hwf by apply map_Forall_empty.
  assert (keysOf ∅ n t = []) as H0 by (unfold keysOf; by rewrite lookup_empty).
  cbv zeta. split_and!; [| by apply keyExists_keysOf, insertAll_wf | by apply (keysOf_bound _ n t), insertAll_wf].
  rewrite <- H0. clear H0. revert Hwf. generalize (∅ : PBFTBroadcastCache).
  induction ops as [|[[n' t'] k'] ops IH]; intros b Hwf; [done |]. cbn [insertAll foldl].
  destruct (insertKey_refines n' t' k' b Hwf) as [Hwf' Hk]. unfold insertAll in IH.
  rewrite IH by done. rewrite Hk. unfold keysFor. cbn [omap list_omap].
  by destruct ((n' =? n) && (t' =? t) && validType t').
Qed.

Lemma keys_insert_elem n k l : k ∈ keys_insert n k l.
Proof. unfold keys_insert. case_bool_decide; [done |]. set_solver. Qed.

Lemma keys_insert_only n k x l : x ∈ keys_insert n k l → x = k ∨ x ∈ l.
Proof.
  unfold keys_insert. intros Hx. assert (∀ y, y ∈ (if n <? zlen l then tail l else l) → y ∈ l) as Ht.
  { intros y. destruct (n <? zlen l); [| done]. destruct l; cbn [tail]; set_solver. }
  case_bool_decide; [auto |]. apply elem_of_app in Hx as [? | Hx]; [auto |].
  apply list_elem_of_singleton in Hx. auto.
Qed.

(** The filter never suppresses a packet that was not sent: a key exists
    for a node and type only if it was inserted for them; and a key that has just
    been inserted with a valid packet type exists. *)
Theorem broadcast_filter_sound ops n t k :
  (keyExists n t k (insertAll ∅ ops) = true → (n, t, k) ∈ ops)
  ∧ (validType t = true → keyExists n t k (insertAll ∅ (ops ++ [(n, t, k)])) = true).
Proof.
  assert (broadcast_wf ∅) as Hwf by apply map_Forall_empty. split.
  - intros Hk. apply keyExists_keysOf in Hk; [| by apply insertAll_wf].
    cut (∀ b, broadcast_wf b → k ∈ keysOf (insertAll b ops) n t → k ∈ keysOf b n t ∨ (n, t, k) ∈ ops).
    { intros Hc. destruct (Hc ∅ Hwf Hk) as [Hk' | ?]; [| done].
      unfold keysOf in Hk'. rewrite lookup_empty in Hk'. by apply elem_of_nil in Hk'. }
    clear Hwf Hk. induction ops as [|[[n' t'] k'] ops IH]; intros b Hwf Hk; [by left |].
    cbn [insertAll foldl] in Hk. destruct (insertKey_refines n' t' k' b Hwf) as [Hwf' Hr].
    destruct (IH _ Hwf' Hk) as [Hk' | ?]; [| right; by apply list_elem_of_further].
    rewrite Hr in Hk'. destruct ((n' =? n) && (t' =? t) && validType t') eqn:Hc; [| by left].
    apply keys_insert_only in Hk' as [-> | ?]; [| by left]. right.
    rewrite !andb_true_iff, !Z.eqb_eq in Hc. destruct Hc as [[-> ->] _]. apply list_elem_of_here.
  - intros Hv. unfold insertAll. rewrite foldl_app. cbn [foldl].
    apply keyExists_keysOf; [by apply insertKey_refines, insertAll_wf |].
    destruct (insertKey_refines n t k (insertAll ∅ ops) (insertAll_wf _ _ Hwf)) as [_ Hr].
    unfold insertAll in Hr. rewrite Hr, !Z.eqb_refl, Hv. cbn [andb]. apply keys_insert_elem.
Qed.
