(* ===== verification/TimeManager.v ===== *)
(** * Timers of the consensus engine (libconsensus/pbft/TimeManager.h)

    Times are milliseconds of the steady clock; [now] is an argument.  The
    back-off factor is a double: [std::pow(1.5, c)] is exact for the cycles that
    occur (3^20 has 32 bits), the product is rounded to 53 bits, and the conversion
    to [uint64_t] truncates. *)
From S2P Require Import Prelude.
Local Open Scope Z_scope.

Definition kMaxChangeCycle : Z := 20.
Definition CollectInterval : Z := 60.

(** The fields prefixed [tm_] are the members prefixed [m_]. *)
Record TimeManager := mkTimeManager {
  tm_emptyBlockGenTime : Z; tm_viewTimeout : Z; tm_consensusTimeout : Z; tm_changeCycle : Z;
  tm_lastSignTime : Z; tm_lastConsensusTime : Z; tm_lastAddRawPrepareTime : Z; tm_lastExecTime : Z;
  tm_minBlockGenTime : Z; tm_lastGarbageCollection : Z }.
Definition set_tm_emptyBlockGenTime v (s : TimeManager) : TimeManager := mkTimeManager v
  (tm_viewTimeout s) (tm_consensusTimeout s) (tm_changeCycle s) (tm_lastSignTime s)
  (tm_lastConsensusTime s) (tm_lastAddRawPrepareTime s) (tm_lastExecTime s) (tm_minBlockGenTime
  s) (tm_lastGarbageCollection s).
Definition set_tm_viewTimeout v (s : TimeManager) : TimeManager := mkTimeManager
  (tm_emptyBlockGenTime s) v (tm_consensusTimeout s) (tm_changeCycle s) (tm_lastSignTime s)
  (tm_lastConsensusTime s) (tm_lastAddRawPrepareTime s) (tm_lastExecTime s) (tm_minBlockGenTime
  s) (tm_lastGarbageCollection s).
Definition set_tm_consensusTimeout v (s : TimeManager) : TimeManager := mkTimeManager
  (tm_emptyBlockGenTime s) (tm_viewTimeout s) v (tm_changeCycle s) (tm_lastSignTime s)
  (tm_lastConsensusTime s) (tm_lastAddRawPrepareTime s) (tm_lastExecTime s) (tm_minBlockGenTime
  s) (tm_lastGarbageCollection s).
Definition set_tm_changeCycle v (s : TimeManager) : TimeManager := mkTimeManager
  (tm_emptyBlockGenTime s) (tm_viewTimeout s) (tm_consensusTimeout s) v (tm_lastSignTime s)
  (tm_lastConsensusTime s) (tm_lastAddRawPrepareTime s) (tm_lastExecTime s) (tm_minBlockGenTime
  s) (tm_lastGarbageCollection s).
Definition set_tm_lastSignTime v (s : TimeManager) : TimeManager := mkTimeManager
  (tm_emptyBlockGenTime s) (tm_viewTimeout s) (tm_consensusTimeout s) (tm_changeCycle s) v
  (tm_lastConsensusTime s) (tm_lastAddRawPrepareTime s) (tm_lastExecTime s) (tm_minBlockGenTime
  s) (tm_lastGarbageCollection s).
Definition set_tm_lastConsensusTime v (s : TimeManager) : TimeManager := mkTimeManager
  (tm_emptyBlockGenTime s) (tm_viewTimeout s) (tm_consensusTimeout s) (tm_changeCycle s)
  (tm_lastSignTime s) v (tm_lastAddRawPrepareTime s) (tm_lastExecTime s) (tm_minBlockGenTime s)
  (tm_lastGarbageCollection s).
Definition set_tm_lastAddRawPrepareTime v (s : TimeManager) : TimeManager := mkTimeManager
  (tm_emptyBlockGenTime s) (tm_viewTimeout s) (tm_consensusTimeout s) (tm_changeCycle s)
  (tm_lastSignTime s) (tm_lastConsensusTime s) v (tm_lastExecTime s) (tm_minBlockGenTime s)
  (tm_lastGarbageCollection s).
Definition set_tm_lastExecTime v (s : TimeManager) : TimeManager := mkTimeManager
  (tm_emptyBlockGenTime s) (tm_viewTimeout s) (tm_consensusTimeout s) (tm_changeCycle s)
  (tm_lastSignTime s) (tm_lastConsensusTime s) (tm_lastAddRawPrepareTime s) v
  (tm_minBlockGenTime s) (tm_lastGarbageCollection s).
Definition set_tm_minBlockGenTime v (s : TimeManager) : TimeManager := mkTimeManager
  (tm_emptyBlockGenTime s) (tm_viewTimeout s) (tm_consensusTimeout s) (tm_changeCycle s)
  (tm_lastSignTime s) (tm_lastConsensusTime s) (tm_lastAddRawPrepareTime s) (tm_lastExecTime s)
  v (tm_lastGarbageCollection s).
Definition set_tm_lastGarbageCollection v (s : TimeManager) : TimeManager := mkTimeManager
  (tm_emptyBlockGenTime s) (tm_viewTimeout s) (tm_consensusTimeout s) (tm_changeCycle s)
  (tm_lastSignTime s) (tm_lastConsensusTime s) (tm_lastAddRawPrepareTime s) (tm_lastExecTime s)
  (tm_minBlockGenTime s) v.

(** The in-class initialisers; [m_lastConsensusTime] has none and is set by
    [initTimerManager]. *)
Definition defaultTimeManager : TimeManager := mkTimeManager 1000 3000 3000 0 0 0 0 0 500 0.

(** [resetConsensusTimeout]; the engine's method of the same name calls it. *)
Definition tm_resetConsensusTimeout (t : Z) (m : TimeManager) : TimeManager := set_tm_consensusTimeout t m.

(** [initTimerManager]. *)
Definition initTimerManager (now view_timeout : Z) (m : TimeManager) : TimeManager :=
  mkTimeManager (tm_emptyBlockGenTime m) view_timeout (tm_consensusTimeout m) 0 0 now now now
    (tm_minBlockGenTime m) now.

(** [changeView]. *)
Definition tm_changeView (m : TimeManager) : TimeManager :=
  set_tm_lastSignTime 0 (set_tm_lastConsensusTime 0 m).

(** [updateChangeCycle]: [unsigned] arithmetic. *)
Definition updateChangeCycle (m : TimeManager) : TimeManager :=
  set_tm_changeCycle (Z.min (wrapU 32 (tm_changeCycle m + 1)) kMaxChangeCycle) m.

(** Rounding of a non-negative integer to [p] significant bits, to nearest and ties
    to even: 53 for [double], 24 for [float]. *)
Definition roundTo (p n : Z) : Z :=
  if n <? 2 ^ p then n
  else
    let e := Z.log2 n - (p - 1) in
    let q := Z.shiftr n e in
    let r := n - Z.shiftl q e in
    let half := Z.shiftl 1 (e - 1) in
    Z.shiftl (if (half <? r) || ((half =? r) && Z.odd q) then q + 1 else q) e.
Abbreviation round53 := (roundTo 53).
Abbreviation round24 := (roundTo 24).

(** [(uint64_t)(viewTimeOut * std::pow(1.5, m_changeCycle))]. *)
Definition timeoutInterval (viewTimeOut cycle : Z) : Z :=
  round53 (round53 viewTimeOut * 3 ^ cycle) / 2 ^ cycle.

(** The reference time and the base timeout of [isTimeout]. *)
Definition timeoutBase (m : TimeManager) : Z * Z :=
  let maxConsensusTime := Z.max (tm_lastConsensusTime m) (tm_lastSignTime m) in
  if (maxConsensusTime <? tm_lastAddRawPrepareTime m)
     && (negb (tm_lastConsensusTime m =? 0) || negb (tm_lastSignTime m =? 0))
  then
    if tm_lastExecTime m <? tm_lastAddRawPrepareTime m
    then (tm_lastAddRawPrepareTime m, tm_consensusTimeout m)
    else (tm_lastExecTime m, tm_viewTimeout m)
  else (maxConsensusTime, tm_viewTimeout m).

(** [isTimeout]: the difference is [uint64_t]. *)
Definition isTimeout (now : Z) (m : TimeManager) : bool :=
  let '(last, viewTimeOut) := timeoutBase m in
  timeoutInterval viewTimeOut (tm_changeCycle m) <=? wrapU 64 (now - last).

(** ** Correctness *)

(** Timers as the engine keeps them. *)
Record tm_wf (now : Z) (m : TimeManager) : Prop := {
  tmwf_cycle : 0 ≤ tm_changeCycle m ≤ kMaxChangeCycle;
  tmwf_view : 0 ≤ tm_viewTimeout m < 2 ^ 21;
  tmwf_consensus : 0 ≤ tm_consensusTimeout m < 2 ^ 21;
  tmwf_sign : 0 ≤ tm_lastSignTime m ≤ now;
  tmwf_cons : 0 ≤ tm_lastConsensusTime m ≤ now;
  tmwf_raw : 0 ≤ tm_lastAddRawPrepareTime m ≤ now;
  tmwf_exec : 0 ≤ tm_lastExecTime m ≤ now;
  tmwf_now : now < 2 ^ 63;
}.

Lemma roundTo_small p n : n < 2 ^ p → roundTo p n = n.
Proof. intros. unfold roundTo. by replace (n <? 2 ^ p) with true by (symmetry; lia). Qed.

(** The rounding error is at most half a unit in the last place. *)
Lemma roundTo_error p n : 1 < p → 0 ≤ n → 2 ^ p * Z.abs (roundTo p n - n) ≤ n.
Proof.
  intros Hp Hn. unfold roundTo. destruct (Z.ltb_spec n (2 ^ p)) as [|Hbig]; [rewrite Z.sub_diag; simpl; lia|].
  assert (Hlog : p <= Z.log2 n) by (apply Z.log2_le_pow2; lia).
  assert (Hpow : 2 ^ p * 2 ^ (Z.log2 n - (p - 1) - 1) <= n).
  { rewrite <- Z.pow_add_r by lia. replace (p + (Z.log2 n - (p - 1) - 1)) with (Z.log2 n) by lia.
    apply Z.log2_spec; lia. }
  set (e := Z.log2 n - (p - 1)) in *. assert (1 <= e) by lia. cbv zeta.
  rewrite !Z.shiftl_mul_pow2, !Z.shiftr_div_pow2 by lia.
  assert (He : 2 ^ e = 2 * 2 ^ (e - 1)) by (rewrite <- Z.pow_succ_r by lia; f_equal; lia).
  pose proof (Z.pow_pos_nonneg 2 (e - 1) ltac:(lia) ltac:(lia)) as H1.
  pose proof (Z.div_mod n (2 ^ e) ltac:(lia)) as Hd. pose proof (Z.mod_pos_bound n (2 ^ e) ltac:(lia)) as Hm.
  pose proof (Z.pow_pos_nonneg 2 p ltac:(lia) ltac:(lia)) as H2.
  set (q := n / 2 ^ e) in *. set (r := n mod 2 ^ e) in *. clearbody q r.
  replace (n - q * 2 ^ e) with r by lia.
  enough (Z.abs ((if (1 * 2 ^ (e - 1) <? r) || (1 * 2 ^ (e - 1) =? r) && Z.odd q then q + 1 else q) * 2 ^ e - n)
          <= 2 ^ (e - 1)) by nia.
  destruct (_ || _) eqn:E; [|apply orb_false_iff in E as [E%Z.ltb_ge _]; nia].
  apply orb_true_iff in E as [E%Z.ltb_lt|[E%Z.eqb_eq _]%andb_true_iff]; nia.
Qed.

Lemma pow3_cycle c : 0 ≤ c ≤ kMaxChangeCycle → 1 ≤ 3 ^ c ≤ 3 ^ 20.
Proof.
  intros [? ?]. split; [change 1 with (3 ^ 0) |]; apply Z.pow_le_mono_r; unfold kMaxChangeCycle in *; lia.
Qed.

(** For timeouts below 2^21 milliseconds (35 minutes) the interval is exact. *)
Lemma timeoutInterval_exact v c :
  0 ≤ v < 2 ^ 21 → 0 ≤ c ≤ kMaxChangeCycle → timeoutInterval v c = v * 3 ^ c / 2 ^ c.
Proof.
  intros Hv Hc. pose proof (pow3_cycle c Hc). unfold timeoutInterval. rewrite (roundTo_small 53 v) by lia.
  rewrite roundTo_small; [done |]. assert (v * 3 ^ c ≤ 2 ^ 21 * 3 ^ 20) as Hle by nia.
  eapply Z.le_lt_trans; [exact Hle | done].
Qed.

Lemma timeoutBase_range now m :
  tm_wf now m → 0 ≤ (timeoutBase m).1 ≤ now ∧ 0 ≤ (timeoutBase m).2 < 2 ^ 21.
Proof. intros []. unfold timeoutBase. repeat break_if; cbn [fst snd]; lia. Qed.

(** A view times out exactly when the base timeout times 1.5^cycle, rounded
    down, has passed since the reference time: the reception of the raw prepare
    while the block executes (with the consensus timeout), the end of its execution
    while signatures are missing, or the last progress otherwise. *)
Theorem isTimeout_iff now m :
  tm_wf now m →
  isTimeout now m = true ↔
  (timeoutBase m).1 + (timeoutBase m).2 * 3 ^ tm_changeCycle m / 2 ^ tm_changeCycle m ≤ now.
Proof.
  intros Hwf. pose proof (timeoutBase_range now m Hwf) as [Hl Hv]. destruct Hwf.
  unfold isTimeout. destruct (timeoutBase m) as [last v]. cbn [fst snd] in *.
  rewrite timeoutInterval_exact, wrapU_id by (done || lia). rewrite Z.leb_le. lia.
Qed.

Lemma isTimeout_iff_witness :
  let m := mkTimeManager 1000 3000 3000 2 0 5000 0 0 500 0 in
  isTimeout 11750 m = true ↔
  (timeoutBase m).1 + (timeoutBase m).2 * 3 ^ tm_changeCycle m / 2 ^ tm_changeCycle m ≤ 11750.
Proof.
  intros m. apply (isTimeout_iff 11750 m).
  constructor; vm_compute; first [split; discriminate | split; [discriminate | reflexivity] | reflexivity].
Defined.

Lemma interval_mono v c c' :
  0 ≤ v < 2 ^ 21 → 0 ≤ c ≤ c' → c' ≤ kMaxChangeCycle → timeoutInterval v c ≤ timeoutInterval v c'.
Proof.
  intros Hv Hc Hc'. rewrite !timeoutInterval_exact by lia.
  assert (0 < 2 ^ c) by (apply Z.pow_pos_nonneg; lia). assert (0 < 2 ^ c') by (apply Z.pow_pos_nonneg; lia).
  apply Z.div_le_lower_bound; [done |].
  assert (2 ^ c * (v * 3 ^ c / 2 ^ c) ≤ v * 3 ^ c) by (apply Z.mul_div_le; done).
  assert (2 ^ c' = 2 ^ c * 2 ^ (c' - c)) as -> by (rewrite <- Z.pow_add_r by lia; f_equal; lia).
  assert (3 ^ c' = 3 ^ c * 3 ^ (c' - c)) as -> by (rewrite <- Z.pow_add_r by lia; f_equal; lia).
  assert (2 ^ (c' - c) ≤ 3 ^ (c' - c)) by (apply Z.pow_le_mono_l; lia).
  assert (0 < 3 ^ c) by (apply Z.pow_pos_nonneg; lia).
  assert (0 < 2 ^ (c' - c)) by (apply Z.pow_pos_nonneg; lia). nia.
Qed.

(** The back-off: [updateChangeCycle] keeps the cycle within 20, never
    shortens the waiting time, and repeated timeouts raise the cycle by one each up
    to the cap. *)
Theorem backoff_monotone v m n :
  0 ≤ v < 2 ^ 21 → 0 ≤ tm_changeCycle m ≤ kMaxChangeCycle →
  let m' := Nat.iter n updateChangeCycle m in
  tm_changeCycle m' = Z.min (tm_changeCycle m + Z.of_nat n) kMaxChangeCycle
  ∧ timeoutInterval v (tm_changeCycle m) ≤ timeoutInterval v (tm_changeCycle m') ≤ v * 3 ^ 20 / 2 ^ 20.
Proof.
  intros Hv Hc m'. assert (tm_changeCycle m' = Z.min (tm_changeCycle m + Z.of_nat n) kMaxChangeCycle) as Heq.
  { subst m'. induction n as [|n IH]; [cbn; lia |].
    rewrite Nat.iter_succ. cbn [updateChangeCycle tm_changeCycle set_tm_changeCycle].
    rewrite IH, wrapU_id; unfold kMaxChangeCycle in *; lia. }
  rewrite Heq. split; [done |]. split; [apply interval_mono; lia |].
  rewrite <- (timeoutInterval_exact v 20) by (done || (unfold kMaxChangeCycle; lia)).
  apply interval_mono; unfold kMaxChangeCycle in *; lia.
Qed.

Lemma backoff_monotone_witness :
  let m' := Nat.iter 3 updateChangeCycle defaultTimeManager in
  tm_changeCycle m' = Z.min (tm_changeCycle defaultTimeManager + Z.of_nat 3) kMaxChangeCycle
  ∧ timeoutInterval 3000 (tm_changeCycle defaultTimeManager)
      ≤ timeoutInterval 3000 (tm_changeCycle m') ≤ 3000 * 3 ^ 20 / 2 ^ 20.
Proof.
  apply (backoff_monotone 3000 defaultTimeManager 3); vm_compute;
    first [split; discriminate | split; [discriminate | reflexivity]].
Defined.
