(* ===== verification/BlockSize.v ===== *)
(** * The dynamic block size (libconsensus/pbft/PBFTSealer.h, PBFTSealer.cpp)

    The engine calls [onTimeout] and [onCommitBlock] on the sealer, which halves and
    raises [m_maxBlockCanSeal].  The [float] ratio takes the values 0, 0.5 and 1 only
    ([setBlockSizeIncreaseRatio] takes a [bool]) and is kept doubled; products and
    sums of [float] and [double] are rounded as IEEE 754 does, to 24 and 53 bits.  The
    engine's limit and what the synchroniser and the chain answer are arguments. *)
From S2P Require Import Prelude CommonData TimeManager.
Local Open Scope Z_scope.

Record BlockSize := mkBlockSize {
  bs_maxBlockCanSeal : Z;
  bs_lastTimeoutTx : Z;
  bs_maxNoTimeoutTx : Z;
  bs_timeoutCount : Z;
  bs_lastBlockNumber : Z;
  bs_ratio2 : Z }.
Definition set_bs_maxBlockCanSeal v s := mkBlockSize v (bs_lastTimeoutTx s) (bs_maxNoTimeoutTx s)
  (bs_timeoutCount s) (bs_lastBlockNumber s) (bs_ratio2 s).
Definition set_bs_lastTimeoutTx v s := mkBlockSize (bs_maxBlockCanSeal s) v (bs_maxNoTimeoutTx s)
  (bs_timeoutCount s) (bs_lastBlockNumber s) (bs_ratio2 s).
Definition set_bs_maxNoTimeoutTx v s := mkBlockSize (bs_maxBlockCanSeal s) (bs_lastTimeoutTx s) v
  (bs_timeoutCount s) (bs_lastBlockNumber s) (bs_ratio2 s).
Definition set_bs_timeoutCount v s := mkBlockSize (bs_maxBlockCanSeal s) (bs_lastTimeoutTx s)
  (bs_maxNoTimeoutTx s) v (bs_lastBlockNumber s) (bs_ratio2 s).
Definition set_bs_lastBlockNumber v s := mkBlockSize (bs_maxBlockCanSeal s) (bs_lastTimeoutTx s)
  (bs_maxNoTimeoutTx s) (bs_timeoutCount s) v (bs_ratio2 s).
Definition set_bs_ratio2 v s := mkBlockSize (bs_maxBlockCanSeal s) (bs_lastTimeoutTx s)
  (bs_maxNoTimeoutTx s) (bs_timeoutCount s) (bs_lastBlockNumber s) v.

(** The members' initialisers, and [setBlockSizeIncreaseRatio]. *)
Definition defaultBlockSize : BlockSize := mkBlockSize 1000 0 0 0 0 1.
Definition setBlockSizeIncreaseRatio (blockSizeIncreaseRatio : bool) (s : BlockSize) : BlockSize :=
  set_bs_ratio2 (if blockSizeIncreaseRatio then 2 else 0) s.

(** [x * 0.1 > 1] and [(uint64_t)(x * (1 + 0.1))]: the doubles are
    3602879701896397 / 2^55 and 4953959590107546 / 2^52. *)
Definition tenth_above_one (x : Z) : bool := 2 ^ 55 <? round53 (round53 x * 3602879701896397).
Definition tenth_more (x : Z) : Z := wrapU 64 (round53 (round53 x * 4953959590107546) / 2 ^ 52).

Section callbacks.
Context (maxBlockTransactions : Z).

(** [attempIncreaseTimeoutTx]. *)
Definition attempIncreaseTimeoutTx (s : BlockSize) : BlockSize :=
  if maxBlockTransactions <=? bs_lastTimeoutTx s then set_bs_lastTimeoutTx maxBlockTransactions s
  else if bs_maxNoTimeoutTx s =? maxBlockTransactions then set_bs_lastTimeoutTx (bs_maxNoTimeoutTx s) s
  else
    let s := if tenth_above_one (bs_maxNoTimeoutTx s)
             then set_bs_lastTimeoutTx (tenth_more (bs_maxNoTimeoutTx s)) s
             else set_bs_lastTimeoutTx (wrapU 64 (bs_lastTimeoutTx s * 2)) s in
    if maxBlockTransactions <=? bs_lastTimeoutTx s then set_bs_lastTimeoutTx maxBlockTransactions s else s.

(** The first lines of both callbacks. *)
Definition clampMax (s : BlockSize) : BlockSize :=
  if maxBlockTransactions <=? bs_maxBlockCanSeal s then set_bs_maxBlockCanSeal maxBlockTransactions s else s.

(** [onTimeout]. *)
Definition onTimeout (isSyncing : bool) (knownHighest sealingTxNumber : Z) (s : BlockSize) : BlockSize :=
  let s := clampMax s in
  let s := if isSyncing then set_bs_lastBlockNumber (wrapU 64 knownHighest) s else s in
  let s := set_bs_timeoutCount (wrapS 64 (bs_timeoutCount s + 1)) s in
  let s := if (0 <? sealingTxNumber)
              && ((bs_lastTimeoutTx s =? 0)
                  || ((sealingTxNumber <? bs_lastTimeoutTx s) && (bs_maxNoTimeoutTx s <? sealingTxNumber)))
           then set_bs_lastTimeoutTx sealingTxNumber s else s in
  if 2 <? bs_maxBlockCanSeal s then set_bs_maxBlockCanSeal (bs_maxBlockCanSeal s / 2) s else s.

(** [increaseMaxTxsCanSeal]: the product is exact, in halves. *)
Definition raised (s : BlockSize) : Z :=
  let x := round24 (bs_maxBlockCanSeal s) in
  if 2 <? bs_ratio2 s * x then wrapU 64 (round24 (2 * x + bs_ratio2 s * x) / 2)
  else wrapU 64 (bs_maxBlockCanSeal s + 1).
Definition increaseMaxTxsCanSeal (s : BlockSize) : BlockSize :=
  let s := set_bs_maxBlockCanSeal (raised s) s in
  let s := if (0 <? bs_lastTimeoutTx s) && (bs_lastTimeoutTx s <? bs_maxBlockCanSeal s)
           then set_bs_maxBlockCanSeal (bs_lastTimeoutTx s) s else s in
  let s := if (0 <? bs_maxNoTimeoutTx s) && (bs_maxBlockCanSeal s <? bs_maxNoTimeoutTx s)
           then set_bs_maxBlockCanSeal (bs_maxNoTimeoutTx s) s else s in
  if maxBlockTransactions <? bs_maxBlockCanSeal s then set_bs_maxBlockCanSeal maxBlockTransactions s else s.

(** [onCommitBlock]. *)
Definition onCommitBlock (isSyncing : bool) (knownHighest chainNumber : Z)
    (blockNumber sealingTxNumber changeCycle : Z) (s : BlockSize) : BlockSize :=
  let s := clampMax s in
  if isSyncing || (0 <? changeCycle) then set_bs_lastBlockNumber (wrapU 64 knownHighest) s
  else if blockNumber <=? bs_lastBlockNumber s then s
  else
    let s := set_bs_lastBlockNumber (wrapU 64 chainNumber) s in
    if 0 <? bs_timeoutCount s then set_bs_timeoutCount (bs_timeoutCount s - 1) s
    else
      let s := if (0 <? sealingTxNumber)
                  && ((bs_maxNoTimeoutTx s =? 0) || (bs_maxNoTimeoutTx s <? sealingTxNumber))
               then set_bs_maxNoTimeoutTx sealingTxNumber s else s in
      if maxBlockTransactions <=? bs_maxBlockCanSeal s then set_bs_maxBlockCanSeal maxBlockTransactions s
      else
        let s := if bs_lastTimeoutTx s <=? bs_maxNoTimeoutTx s then attempIncreaseTimeoutTx s else s in
        if negb (bs_lastTimeoutTx s =? 0) && (bs_lastTimeoutTx s <=? bs_maxBlockCanSeal s) then s
        else increaseMaxTxsCanSeal s.
End callbacks.

(** ** Bounds and recovery *)

(** A call of the engine, with its limit at that time. *)
Inductive size_call :=
| CallTimeout (limit : Z) (isSyncing : bool) (knownHighest txs : Z)
| CallCommit (limit : Z) (isSyncing : bool) (knownHighest chainNumber number txs cycle : Z).
Definition size_limit (x : size_call) : Z :=
  match x with CallTimeout m _ _ _ => m | CallCommit m _ _ _ _ _ _ => m end.
Definition size_txs (x : size_call) : Z :=
  match x with CallTimeout _ _ _ t => t | CallCommit _ _ _ _ _ t _ => t end.
Definition size_apply (x : size_call) (s : BlockSize) : BlockSize :=
  match x with
  | CallTimeout m y k t => onTimeout m y k t s
  | CallCommit m y k c n t g => onCommitBlock m y k c n t g s
  end.

(** Full blocks of consecutive heights are committed in their first view. *)
Fixpoint fullCommits (limit number : Z) (n : nat) (s : BlockSize) : BlockSize :=
  match n with
  | O => s
  | S n => fullCommits limit (number + 1) n
             (onCommitBlock limit false number number number (bs_maxBlockCanSeal s) 0 s)
  end.

Record size_wf (s : BlockSize) : Prop := {
  sz_max : 1 <= bs_maxBlockCanSeal s < 2 ^ 50;
  sz_last : 0 <= bs_lastTimeoutTx s < 2 ^ 50;
  sz_noTimeout : 0 <= bs_maxNoTimeoutTx s < 2 ^ 50;
  sz_ratio : 0 <= bs_ratio2 s <= 2 }.

Lemma round24_bounds n : 0 <= n → n <= 2 * round24 n /\ round24 n <= 2 * n.
Proof. intros Hn. pose proof (roundTo_error 24 n ltac:(lia) Hn). lia. Qed.

Lemma tenth_above_one_big x : 0 <= x → tenth_above_one x = true → 11 <= x.
Proof.
  intros H0 H. destruct (Z.le_gt_cases 11 x); [done|]. exfalso.
  assert (x = 0 \/ x = 1 \/ x = 2 \/ x = 3 \/ x = 4 \/ x = 5 \/ x = 6 \/ x = 7 \/ x = 8 \/ x = 9 \/ x = 10)
    as Hx by lia.
  repeat (destruct Hx as [->|Hx]; [vm_compute in H; discriminate H|]). subst. vm_compute in H. discriminate H.
Qed.

(** Adding a tenth adds at least one, from eleven on. *)
Lemma tenth_more_bounds x : 11 <= x < 2 ^ 50 → x + 1 <= tenth_more x <= 2 * x.
Proof.
  intros Hx. unfold tenth_more. rewrite (roundTo_small 53 x) by lia.
  pose proof (roundTo_error 53 (x * 4953959590107546) ltac:(lia) ltac:(lia)) as He.
  set (y := round53 _) in *. clearbody y.
  assert (Hb : (x + 1) * 2 ^ 52 <= y <= 2 * x * 2 ^ 52) by lia.
  assert (x + 1 <= y / 2 ^ 52 <= 2 * x).
  { split; [apply Z.div_le_lower_bound; lia|]. apply Z.div_le_upper_bound; lia. }
  rewrite wrapU_id; lia.
Qed.

Ltac size_cases := repeat break_if; simpl in *; try lia.

Lemma raised_above s : size_wf s → bs_maxBlockCanSeal s + 1 <= raised s < 2 ^ 53.
Proof.
  intros [Hm _ _ Hr]. unfold raised. set (m := bs_maxBlockCanSeal s) in *. clearbody m.
  pose proof (roundTo_error 24 m ltac:(lia) ltac:(lia)) as H1.
  set (x := round24 m) in *. clearbody x.
  break_if; [|rewrite wrapU_id; lia].
  assert (Hk : 2 * x + bs_ratio2 s * x = 3 * x /\ 3 <= x \/ 2 * x + bs_ratio2 s * x = 4 * x /\ 2 <= x).
  { assert (Hr' : bs_ratio2 s = 0 \/ bs_ratio2 s = 1 \/ bs_ratio2 s = 2) by lia.
    destruct Hr' as [E|[E|E]]; rewrite E in *; lia. }
  set (k := 2 * x + bs_ratio2 s * x) in *. clearbody k.
  pose proof (roundTo_error 24 k ltac:(lia) ltac:(lia)) as H2. set (y := round24 k) in *. clearbody y.
  assert (2 * (m + 1) <= y < 2 ^ 54) as Hy by lia.
  assert (m + 1 <= y / 2 < 2 ^ 53).
  { split; [apply Z.div_le_lower_bound; lia|apply Z.div_lt_upper_bound; lia]. }
  rewrite wrapU_id; lia.
Qed.

Section limit.
Context (limit : Z) (Hlimit : 1 <= limit < 2 ^ 50).

Lemma increase_spec s :
  size_wf s → bs_maxBlockCanSeal s < limit →
  bs_lastTimeoutTx s = 0 \/ bs_maxBlockCanSeal s < bs_lastTimeoutTx s →
  let s' := increaseMaxTxsCanSeal limit s in
  bs_maxBlockCanSeal s < bs_maxBlockCanSeal s' <= limit /\ s' = set_bs_maxBlockCanSeal (bs_maxBlockCanSeal s') s.
Proof using Hlimit.
  intros Hs Hlt Hl. pose proof (raised_above s Hs). unfold increaseMaxTxsCanSeal.
  set (r := raised s) in *. clearbody r. destruct s, Hs; simpl in *. size_cases; split; (lia || done).
Qed.

(** A timeout bound that a block has reached is raised, or stays unset. *)
Lemma attemp_spec s :
  size_wf s → bs_lastTimeoutTx s <= bs_maxNoTimeoutTx s →
  let s' := attempIncreaseTimeoutTx limit s in
  s' = set_bs_lastTimeoutTx (bs_lastTimeoutTx s') s /\ 0 <= bs_lastTimeoutTx s' <= limit
  /\ (bs_lastTimeoutTx s' = 0 /\ bs_lastTimeoutTx s = 0 \/ bs_lastTimeoutTx s' = limit
      \/ bs_lastTimeoutTx s < bs_lastTimeoutTx s').
Proof using Hlimit.
  intros [H1 H2 H3 H4] Hle. unfold attempIncreaseTimeoutTx.
  destruct (tenth_above_one (bs_maxNoTimeoutTx s)) eqn:E.
  - apply tenth_above_one_big in E; [|lia]. pose proof (tenth_more_bounds (bs_maxNoTimeoutTx s) ltac:(lia)) as Ht.
    set (t := tenth_more _) in *. clearbody t. destruct s; simpl in *. size_cases; split_and!; (done || lia).
  - rewrite (wrapU_id 64) by lia. destruct s; simpl in *. size_cases; split_and!; (done || lia).
Qed.

(** What a call leaves of the well-formedness of the state. *)
Lemma clamp_spec s :
  size_wf s → let s' := clampMax limit s in
  s' = set_bs_maxBlockCanSeal (Z.min limit (bs_maxBlockCanSeal s)) s /\ size_wf s'.
Proof using Hlimit.
  intros [H1 H2 H3 H4]. unfold clampMax. destruct s; simpl in *.
  size_cases; (split; [unfold set_bs_maxBlockCanSeal; simpl; f_equal; lia|split; simpl; lia]).
Qed.

Lemma onTimeout_spec y k t s :
  0 <= t < 2 ^ 50 → size_wf s →
  let s' := onTimeout limit y k t s in size_wf s' /\ bs_maxBlockCanSeal s' <= limit.
Proof using Hlimit.
  intros Ht Hs. destruct (clamp_spec s Hs) as [E [H1 H2 H3 H4]]. unfold onTimeout. rewrite E in *.
  destruct s; simpl in *. pose proof (Z.div_pos (Z.min limit bs_maxBlockCanSeal0) 2).
  size_cases; (split; [split; simpl|]; Z.to_euclidean_division_equations; lia).
Qed.

(** A commit counted as progress, once the timeouts are made up for: the state stays
    well formed and, below the limit, the size or the timeout bound grows. *)
Definition room (s : BlockSize) : Z :=
  (limit - bs_maxBlockCanSeal s) + (limit - Z.min limit (bs_lastTimeoutTx s)).

Definition counted (t : Z) (s : BlockSize) : BlockSize :=
  if (0 <? t) && ((bs_maxNoTimeoutTx s =? 0) || (bs_maxNoTimeoutTx s <? t)) then set_bs_maxNoTimeoutTx t s else s.
Definition grown (s : BlockSize) : BlockSize :=
  let s := if bs_lastTimeoutTx s <=? bs_maxNoTimeoutTx s then attempIncreaseTimeoutTx limit s else s in
  if negb (bs_lastTimeoutTx s =? 0) && (bs_lastTimeoutTx s <=? bs_maxBlockCanSeal s) then s
  else increaseMaxTxsCanSeal limit s.

Lemma grown_spec s :
  size_wf s → bs_maxBlockCanSeal s < limit → bs_timeoutCount (grown s) = bs_timeoutCount s
  /\ bs_lastBlockNumber (grown s) = bs_lastBlockNumber s
  /\ size_wf (grown s) /\ bs_maxBlockCanSeal (grown s) <= limit
  /\ (bs_maxBlockCanSeal s <= bs_maxNoTimeoutTx s → room (grown s) < room s).
Proof using Hlimit.
  intros Hs Hlt. unfold grown.
  set (s1 := if _ <=? _ then attempIncreaseTimeoutTx limit s else s).
  assert (H1 : s1 = set_bs_lastTimeoutTx (bs_lastTimeoutTx s1) s /\ size_wf s1
    /\ (bs_maxBlockCanSeal s <= bs_maxNoTimeoutTx s →
        (bs_lastTimeoutTx s1 = 0 \/ bs_maxBlockCanSeal s < bs_lastTimeoutTx s1) /\ room s1 <= room s
        \/ room s1 < room s)).
  { pose proof Hs as [A1 A2 A3 A4]. subst s1. destruct (Z.leb_spec (bs_lastTimeoutTx s) (bs_maxNoTimeoutTx s)) as [Hle|].
    - destruct (attemp_spec s Hs Hle) as (E & Hr & Hg). set (s1 := attempIncreaseTimeoutTx _ _) in *.
      clearbody s1. unfold room. rewrite E in Hr, Hg |- *. destruct s, s1; simpl in *.
      split_and!; [done|split; simpl; lia|lia].
    - destruct s; simpl in *. split_and!; [done|done|lia]. }
  clearbody s1. destruct H1 as (E & Hs1 & Hp).
  assert (Em : bs_maxBlockCanSeal s1 = bs_maxBlockCanSeal s) by (by rewrite E).
  assert (Ec : bs_timeoutCount s1 = bs_timeoutCount s /\ bs_lastBlockNumber s1 = bs_lastBlockNumber s) by (by rewrite E).
  destruct (negb _ && _) eqn:Hb; [pose proof Hs1 as []; split_and!; try tauto; lia|].
  destruct (increase_spec s1 Hs1) as [Hm E2]; [lia|lia|].
  set (s2 := increaseMaxTxsCanSeal limit s1) in *. clearbody s2. pose proof Hs1 as [B1 B2 B3 B4].
  unfold room in *. rewrite E2. destruct s1; simpl in *. split_and!; [tauto|tauto|split; simpl; lia|lia|lia].
Qed.

Lemma onCommitBlock_unfold y k c n t g s :
  onCommitBlock limit y k c n t g s =
    let s := clampMax limit s in
    if y || (0 <? g) then set_bs_lastBlockNumber (wrapU 64 k) s
    else if n <=? bs_lastBlockNumber s then s
    else let s := set_bs_lastBlockNumber (wrapU 64 c) s in
         if 0 <? bs_timeoutCount s then set_bs_timeoutCount (bs_timeoutCount s - 1) s
         else let s := counted t s in
              if limit <=? bs_maxBlockCanSeal s then set_bs_maxBlockCanSeal limit s else grown s.
Proof. done. Qed.

Lemma counted_spec t s :
  0 <= t < 2 ^ 50 → size_wf s → let s' := counted t s in
  size_wf s' /\ s' = set_bs_maxNoTimeoutTx (bs_maxNoTimeoutTx s') s /\ t <= bs_maxNoTimeoutTx s'.
Proof.
  intros Ht [H1 H2 H3 H4]. unfold counted. destruct s; simpl in *.
  size_cases; split_and!; (done || lia || (split; simpl; lia)).
Qed.

Lemma onCommitBlock_spec y k c n t g s :
  0 <= t < 2 ^ 50 → size_wf s →
  let s' := onCommitBlock limit y k c n t g s in size_wf s' /\ bs_maxBlockCanSeal s' <= limit.
Proof using Hlimit.
  intros Ht Hs s'. subst s'. rewrite onCommitBlock_unfold. destruct (clamp_spec s Hs) as [E Hc].
  assert (Hm : bs_maxBlockCanSeal (clampMax limit s) <= limit) by (rewrite E; simpl; lia).
  set (s1 := clampMax limit s) in *. clearbody s1. clear E Hs s. cbv zeta. pose proof Hc as [H1 H2 H3 H4].
  break_if; [split; [split; simpl|]; simpl; lia|]. break_if; [done|]. break_if; [split; [split; simpl|]; simpl; lia|].
  set (s2 := set_bs_lastBlockNumber _ s1).
  assert (Hs2 : size_wf s2) by (split; simpl; lia). clearbody s2. destruct (counted_spec t s2 Ht Hs2) as (Hw & _).
  set (s3 := counted t s2) in *. clearbody s3. pose proof Hw as [A1 A2 A3 A4].
  break_if; [split; [split; simpl|]; simpl; lia|]. destruct (grown_spec s3 Hw) as (_ & _ & ? & ? & _); [lia|done].
Qed.

(** The commits still needed to reach the limit. *)
Definition cost (s : BlockSize) : Z :=
  bs_timeoutCount s + if limit <=? bs_maxBlockCanSeal s then 0 else room s.

Lemma full_step n s :
  size_wf s → bs_maxBlockCanSeal s <= limit → 0 <= bs_timeoutCount s → bs_lastBlockNumber s < n < 2 ^ 63 → 0 <= n →
  let s' := onCommitBlock limit false n n n (bs_maxBlockCanSeal s) 0 s in
  0 <= bs_timeoutCount s' /\ bs_lastBlockNumber s' = n /\ cost s' <= Z.max 0 (cost s - 1).
Proof using Hlimit.
  intros Hs Hm Hc Hn Hn0 s'. subst s'. rewrite onCommitBlock_unfold.
  destruct (clamp_spec s Hs) as [E _]. rewrite Z.min_r in E by lia.
  replace (set_bs_maxBlockCanSeal (bs_maxBlockCanSeal s) s) with s in E by (by destruct s). rewrite E. clear E. cbv zeta.
  cbn [orb]. rewrite Z.ltb_irrefl. destruct (Z.leb_spec n (bs_lastBlockNumber s)); [lia|].
  rewrite (wrapU_id 64 n) by lia. unfold cost. cbn [bs_timeoutCount set_bs_lastBlockNumber].
  pose proof Hs as [H1 H2 H3 H4].
  destruct (Z.ltb_spec 0 (bs_timeoutCount s)); [destruct s; unfold room; simpl in *; size_cases; lia|].
  set (s2 := set_bs_lastBlockNumber n s).
  assert (Hs2 : size_wf s2) by (split; simpl; lia).
  destruct (counted_spec (bs_maxBlockCanSeal s) s2 ltac:(lia) Hs2) as (Hw & E & Hle).
  set (s3 := counted _ s2) in *. clearbody s3. subst s2.
  assert (room s3 = room s /\ bs_maxBlockCanSeal s3 = bs_maxBlockCanSeal s /\ bs_timeoutCount s3 = bs_timeoutCount s
          /\ bs_lastBlockNumber s3 = n) as (R1 & R2 & R3 & R4) by (unfold room; rewrite E; by destruct s).
  rewrite R2 in *. destruct (Z.leb_spec limit (bs_maxBlockCanSeal s)).
  - simpl. rewrite Z.leb_refl. lia.
  - destruct (grown_spec s3 Hw) as (G1 & G2 & [G5 G6 _ _] & G3 & G4); [lia|]. rewrite R1, R2 in G4.
    rewrite G1, G2. unfold room in *. size_cases.
Qed.
End limit.

(** The number of transactions the sealer puts in a block stays between one and
    the engine's limit: after any sequence of timeouts and commits, with a limit that
    may change between them, the size is within the limit of the last call. *)
Theorem block_size_bounds calls x s :
  size_wf s → Forall (λ x, 1 <= size_limit x < 2 ^ 50 /\ 0 <= size_txs x < 2 ^ 50) (calls ++ [x]) →
  1 <= bs_maxBlockCanSeal (size_apply x (foldl (flip size_apply) s calls)) <= size_limit x.
Proof.
  intros Hs [Hc Hx]%Forall_app. rewrite Forall_singleton in Hx.
  assert (Hstep : ∀ x s, 1 <= size_limit x < 2 ^ 50 /\ 0 <= size_txs x < 2 ^ 50 → size_wf s →
            size_wf (size_apply x s) /\ bs_maxBlockCanSeal (size_apply x s) <= size_limit x).
  { intros [] s0 [? ?] ?; [by apply onTimeout_spec|by apply onCommitBlock_spec]. }
  assert (Hf : size_wf (foldl (flip size_apply) s calls)).
  { revert s Hs. induction Hc as [|y calls Hy Hc IH]; intros s Hs; [done|]. simpl. apply IH. by apply Hstep. }
  destruct (Hstep x _ Hx Hf) as [[] ?]. lia.
Qed.

(** The block size recovers: once full blocks are committed in their first view
    again, it is back at the engine's limit after at most one commit for each
    timeout to make up for and two for each transaction of the limit, and stays
    there. *)
Theorem block_size_recovers limit number n s :
  1 <= limit < 2 ^ 50 → size_wf s → bs_maxBlockCanSeal s <= limit → 0 <= bs_timeoutCount s →
  bs_lastBlockNumber s < number → 0 <= number → number + Z.of_nat n < 2 ^ 63 →
  bs_timeoutCount s + 2 * limit <= Z.of_nat n →
  bs_maxBlockCanSeal (fullCommits limit number n s) = limit.
Proof.
  intros Hl Hs Hm Hc Hlast Hn0 Hn Hcost.
  assert (Hcost' : cost limit s <= Z.of_nat n).
  { unfold cost, room. destruct Hs. break_if; lia. }
  clear Hcost. revert number s Hs Hm Hc Hlast Hn0 Hn Hcost'.
  induction n as [|n IH]; intros number s Hs Hm Hc Hlast Hn0 Hn Hcost; simpl.
  - unfold cost, room in Hcost. destruct Hs. break_if; lia.
  - destruct (full_step limit Hl number s) as (F1 & F2 & F3); [done..|lia|done|].
    destruct (onCommitBlock_spec limit Hl false number number number (bs_maxBlockCanSeal s) 0 s) as [F4 F5];
      [destruct Hs; lia|done|].
    apply IH; [done..|lia|lia|lia|lia].
Qed.

Lemma block_size_bounds_witness :
  1 <= bs_maxBlockCanSeal
         (size_apply (CallCommit 600 false 0 2 2 500 0)
            (foldl (flip size_apply) defaultBlockSize [CallTimeout 1000 false 0 700; CallCommit 1000 false 0 1 1 500 0]))
    <= 600.
Proof.
  apply (block_size_bounds [CallTimeout 1000 false 0 700; CallCommit 1000 false 0 1 1 500 0]
           (CallCommit 600 false 0 2 2 500 0)); [split; simpl; lia|].
  repeat constructor; simpl; lia.
Defined.

Lemma block_size_recovers_witness :
  bs_maxBlockCanSeal (fullCommits 20 5 43 (mkBlockSize 1 2 1 3 4 1)) = 20.
Proof. apply (block_size_recovers 20 5 43); [lia|split; simpl; lia|simpl; lia..]. Defined.
