(* ===== verification/ReqCache.v ===== *)
(** * The request caches (libconsensus/pbft/PBFTReqCache.h, PBFTReqCache.cpp)

    All caches of the consensus engine and every operation on them.  Unordered
    containers are finite maps whose iteration order is arbitrary
    ([UnorderedIter]).  A view-change request is kept with the identity of its
    object, which [eraseExpiredViewChange] compares; the other cached requests are
    reachable from one cache only and are kept by value. *)
From S2P Require Import Prelude CommonData RLP Crypto BlockHeader TxsParser Block PBFTMsg.
Local Open Scope Z_scope.

(** A [ViewChangeReq::Ptr]: the address and the object. *)
Record VCReq := mkVC { vc_id : Z; vc_msg : PBFTMsg }.
Coercion vc_msg : VCReq >-> PBFTMsg.

Abbreviation SigCache := (gmap Z (gmap string PBFTMsg)).

Record PBFTReqCache := mkReqCache {
  m_prepareCache : PrepareReq;
  m_rawPrepareCache : PrepareReq;
  m_signCache : SigCache;
  m_commitCache : SigCache;
  m_recvViewChangeReq : gmap Z (gmap Z VCReq);
  m_latestViewChangeReqCache : gmap Z VCReq;
  m_committedPrepareCache : PrepareReq;
  m_futurePrepareCache : gmap Z PrepareReq }.
Definition set_prepareCache v (s : PBFTReqCache) : PBFTReqCache := mkReqCache v
  (m_rawPrepareCache s) (m_signCache s) (m_commitCache s) (m_recvViewChangeReq s)
  (m_latestViewChangeReqCache s) (m_committedPrepareCache s) (m_futurePrepareCache s).
Definition set_rawPrepareCache v (s : PBFTReqCache) : PBFTReqCache := mkReqCache (m_prepareCache
  s) v (m_signCache s) (m_commitCache s) (m_recvViewChangeReq s) (m_latestViewChangeReqCache s)
  (m_committedPrepareCache s) (m_futurePrepareCache s).
Definition set_signCache v (s : PBFTReqCache) : PBFTReqCache := mkReqCache (m_prepareCache s)
  (m_rawPrepareCache s) v (m_commitCache s) (m_recvViewChangeReq s) (m_latestViewChangeReqCache
  s) (m_committedPrepareCache s) (m_futurePrepareCache s).
Definition set_commitCache v (s : PBFTReqCache) : PBFTReqCache := mkReqCache (m_prepareCache s)
  (m_rawPrepareCache s) (m_signCache s) v (m_recvViewChangeReq s) (m_latestViewChangeReqCache s)
  (m_committedPrepareCache s) (m_futurePrepareCache s).
Definition set_recvViewChangeReq v (s : PBFTReqCache) : PBFTReqCache := mkReqCache
  (m_prepareCache s) (m_rawPrepareCache s) (m_signCache s) (m_commitCache s) v
  (m_latestViewChangeReqCache s) (m_committedPrepareCache s) (m_futurePrepareCache s).
Definition set_latestViewChangeReqCache v (s : PBFTReqCache) : PBFTReqCache := mkReqCache
  (m_prepareCache s) (m_rawPrepareCache s) (m_signCache s) (m_commitCache s)
  (m_recvViewChangeReq s) v (m_committedPrepareCache s) (m_futurePrepareCache s).
Definition set_committedPrepareCache v (s : PBFTReqCache) : PBFTReqCache := mkReqCache
  (m_prepareCache s) (m_rawPrepareCache s) (m_signCache s) (m_commitCache s)
  (m_recvViewChangeReq s) (m_latestViewChangeReqCache s) v (m_futurePrepareCache s).
Definition set_futurePrepareCache v (s : PBFTReqCache) : PBFTReqCache := mkReqCache
  (m_prepareCache s) (m_rawPrepareCache s) (m_signCache s) (m_commitCache s)
  (m_recvViewChangeReq s) (m_latestViewChangeReqCache s) (m_committedPrepareCache s) v.

Definition m_maxFuturePrepareCacheSize : Z := 10.

(** [PBFTReqCache()]. *)
Definition emptyReqCache : PBFTReqCache :=
  mkReqCache defaultPrepare defaultPrepare ∅ ∅ ∅ ∅ defaultPrepare ∅.

(** [PBFTMsg::clear] on a prepare request: the block members stay. *)
Definition prepare_clear (r : PrepareReq) : PrepareReq := set_req_msg (msg_clear r) r.

(** Erasing the entries of a map that fail a test, as the erase loops do. *)
Definition keep_if {K V} `{Countable K} (f : K → V → bool) (m : gmap K V) : gmap K V :=
  filter (λ kv, f kv.1 kv.2 = true) m.

(** ** Membership and sizes *)

(** [cacheExists]. *)
Definition cacheExists {K U S} `{Countable K, Countable U} (cache : gmap K (gmap U S)) (k : K) (u : U) : bool :=
  match cache !! k with Some m => match m !! u with Some _ => true | None => false end | None => false end.

Definition isExistPrepare (req : PrepareReq) (c : PBFTReqCache) : bool :=
  block_hash (m_rawPrepareCache c) =? block_hash req.
Definition isExistSign (req : PBFTMsg) (c : PBFTReqCache) : bool :=
  cacheExists (m_signCache c) (block_hash req) (toHex (sig req)).
Definition isExistCommit (req : PBFTMsg) (c : PBFTReqCache) : bool :=
  cacheExists (m_commitCache c) (block_hash req) (toHex (sig req)).
Definition isExistViewChange (req : PBFTMsg) (c : PBFTReqCache) : bool :=
  cacheExists (m_recvViewChangeReq c) (view req) (idx req).

(** [getSizeFromCache]. *)
Definition getSizeFromCache {K U S} `{Countable K, Countable U} (k : K) (cache : gmap K (gmap U S)) : Z :=
  match cache !! k with Some m => Z.of_nat (size m) | None => 0 end.
Definition getViewChangeSize (toView : Z) (c : PBFTReqCache) : Z :=
  getSizeFromCache toView (m_recvViewChangeReq c).

Section requests.
Context `{UnorderedIter} (checkSign : PBFTMsg → bool).

(** The loop of [checkAndRemoveInvalidFutureReq] on the entries in iteration
    order, with the loop of [removeAllRedundantFutureReq]: the keys that remain in
    the local copy of the map, and the keys whose request gets [signChecked] set
    (through the shared pointer). *)
Fixpoint future_loop (needLimit : bool) (limitedSize futureReqSize : Z) (l : list (string * PBFTMsg))
  : list string * list string :=
  match l with
  | [] => ([], [])
  | (k, req) :: l' =>
      if negb (isFuture req) then
        let '(kept, checked) := future_loop needLimit limitedSize futureReqSize l' in (k :: kept, checked)
      else if needLimit && (limitedSize <=? futureReqSize) then
        (fst <$> filter (λ kr, negb (isFuture kr.2) = true) l', [])
      else if signChecked req then
        let '(kept, checked) := future_loop needLimit limitedSize (futureReqSize + 1) l' in (k :: kept, checked)
      else if checkSign req then
        let '(kept, checked) := future_loop needLimit limitedSize (futureReqSize + 1) l' in
        (k :: kept, k :: checked)
      else future_loop needLimit limitedSize futureReqSize l'
  end.

(** [checkAndRemoveInvalidFutureReq]: the erasures happen in a copy
    ([auto cachedItem = it->second]); the cache itself changes by the
    [signChecked] marks and, when the copy ends up empty, loses the whole entry. *)
Definition checkAndRemoveInvalidFutureReq (blockHash : Z) (cache : SigCache)
    (needLimit : bool) (limitedSize : Z) : SigCache * Z :=
  match cache !! blockHash with
  | None => (cache, 0)
  | Some m =>
      let '(kept, checked) := future_loop needLimit limitedSize 0 (uiter m) in
      let m' := foldr (λ k, alter (set_signChecked true) k) m checked in
      match kept with
      | [] => (delete blockHash cache, 0)
      | _ => (<[blockHash := m']> cache, zlen kept)
      end
  end.

(** [getSigCacheSize] and [getCommitCacheSize]. *)
Definition getSigCacheSize (blockHash sizeToCheck : Z) (c : PBFTReqCache) : PBFTReqCache * Z :=
  let n := getSizeFromCache blockHash (m_signCache c) in
  if sizeToCheck <=? n then
    let '(cache, k) :=
      checkAndRemoveInvalidFutureReq blockHash (m_signCache c) true (wrapU 16 (sizeToCheck - 1)) in
    (set_signCache cache c, k)
  else (c, n).
Definition getCommitCacheSize (blockHash sizeToCheck : Z) (c : PBFTReqCache) : PBFTReqCache * Z :=
  let n := getSizeFromCache blockHash (m_commitCache c) in
  if sizeToCheck <=? n then
    let '(cache, k) :=
      checkAndRemoveInvalidFutureReq blockHash (m_commitCache c) false (wrapU 16 (sizeToCheck - 1)) in
    (set_commitCache cache c, k)
  else (c, n).

(** ** Insertion and removal *)

(** [removeInvalidSignCache] and [removeInvalidCommitCache]. *)
Definition removeInvalidView (blockHash v : Z) (cache : SigCache) : SigCache :=
  alter (keep_if (λ _ r, view r =? v)) blockHash cache.
Definition removeInvalidSignCache (blockHash v : Z) (c : PBFTReqCache) : PBFTReqCache :=
  set_signCache (removeInvalidView blockHash v (m_signCache c)) c.
Definition removeInvalidCommitCache (blockHash v : Z) (c : PBFTReqCache) : PBFTReqCache :=
  set_commitCache (removeInvalidView blockHash v (m_commitCache c)) c.

(** [addRawPrepare]. *)
Definition addRawPrepare (req : PrepareReq) (c : PBFTReqCache) : PBFTReqCache :=
  set_prepareCache (prepare_clear (m_prepareCache c)) (set_rawPrepareCache req c).

(** [addPrepareReq]. *)
Definition addPrepareReq (req : PrepareReq) (c : PBFTReqCache) : PBFTReqCache :=
  removeInvalidCommitCache (block_hash req) (view req)
    (removeInvalidSignCache (block_hash req) (view req) (set_prepareCache req c)).

(** [addSignReq] and [addCommitReq]. *)
Definition addReq (req : PBFTMsg) (cache : SigCache) : SigCache :=
  if cacheExists cache (block_hash req) (toHex (sig req)) then cache
  else <[block_hash req := <[toHex (sig req) := req]> (default ∅ (cache !! block_hash req))]> cache.
Definition addSignReq (req : PBFTMsg) (c : PBFTReqCache) : PBFTReqCache :=
  set_signCache (addReq req (m_signCache c)) c.
Definition addCommitReq (req : PBFTMsg) (c : PBFTReqCache) : PBFTReqCache :=
  set_commitCache (addReq req (m_commitCache c)) c.

(** [futurePrepareCache], [addFuturePrepareCache], [eraseHandledFutureReq]: the
    key is the height as [uint64_t]. *)
Definition futurePrepareCache (blockNumber : Z) (c : PBFTReqCache) : option PrepareReq :=
  m_futurePrepareCache c !! wrapU 64 blockNumber.
Definition addFuturePrepareCache (req : PrepareReq) (c : PBFTReqCache) : PBFTReqCache :=
  if m_maxFuturePrepareCacheSize <=? Z.of_nat (size (m_futurePrepareCache c)) then c
  else match m_futurePrepareCache c !! wrapU 64 (height req) with
       | Some _ => c
       | None => set_futurePrepareCache (<[wrapU 64 (height req) := req]> (m_futurePrepareCache c)) c
       end.
Definition eraseHandledFutureReq (blockNumber : Z) (c : PBFTReqCache) : PBFTReqCache :=
  set_futurePrepareCache (delete (wrapU 64 blockNumber) (m_futurePrepareCache c)) c.

(** [updateCommittedPrepare]. *)
Definition updateCommittedPrepare (c : PBFTReqCache) : PBFTReqCache :=
  set_committedPrepareCache (m_rawPrepareCache c) c.

(** [removeInvalidFutureCache]. *)
Definition removeInvalidFutureCache (highestNumber : Z) (c : PBFTReqCache) : PBFTReqCache :=
  set_futurePrepareCache
    (keep_if (λ k _, negb (k <=? wrapU 64 highestNumber)) (m_futurePrepareCache c)) c.

(** [delCache]. *)
Definition delCache (number hash : Z) (c : PBFTReqCache) : PBFTReqCache :=
  let c := set_signCache (delete hash (m_signCache c)) c in
  let c := set_commitCache (delete hash (m_commitCache c)) c in
  let c := if hash =? block_hash (m_prepareCache c)
           then set_prepareCache (prepare_clear (m_prepareCache c)) c else c in
  removeInvalidFutureCache number c.

(** The requests [removeInvalidEntryFromCache] keeps. *)
Definition fresh_req (number hash : Z) (r : PBFTMsg) : bool :=
  negb (height r <? number) && negb ((height r =? number) && negb (block_hash r =? hash)).

(** [removeInvalidEntryFromCache] for both kinds of cache. *)
Definition removeInvalidEntryFromCache {K U S} `{Countable K, Countable U} (msg : S → PBFTMsg)
    (number hash : Z) (cache : gmap K (gmap U S)) : gmap K (gmap U S) :=
  keep_if (λ _ m, negb (Z.of_nat (size m) =? 0))
    (keep_if (λ _ s, fresh_req number hash (msg s)) <$> cache).

(** [removeInvalidLatestViewChangeReq], [removeInvalidViewChange(view, header)]
    and [removeInvalidViewChange(view)]. *)
Definition removeInvalidLatestViewChangeReq (number hash : Z) (c : PBFTReqCache) : PBFTReqCache :=
  set_latestViewChangeReqCache
    (keep_if (λ _ r, fresh_req number hash (vc_msg r)) (m_latestViewChangeReqCache c)) c.
Definition removeInvalidViewChange (v number hash : Z) (c : PBFTReqCache) : PBFTReqCache :=
  match m_recvViewChangeReq c !! v with
  | None => c
  | Some m =>
      removeInvalidLatestViewChangeReq number hash
        (set_recvViewChangeReq
           (<[v := keep_if (λ _ r, fresh_req number hash (vc_msg r)) m]> (m_recvViewChangeReq c)) c)
  end.
Definition removeInvalidViewChangeUpTo (curView : Z) (c : PBFTReqCache) : PBFTReqCache :=
  let c := set_recvViewChangeReq (keep_if (λ v _, negb (v <=? curView)) (m_recvViewChangeReq c)) c in
  set_latestViewChangeReqCache
    (keep_if (λ _ r, negb (view (vc_msg r) <=? curView)) (m_latestViewChangeReqCache c)) c.

(** [collectGarbage]. *)
Definition reqCache_collectGarbage (number hash : Z) (c : PBFTReqCache) : PBFTReqCache :=
  let c := set_signCache (removeInvalidEntryFromCache (λ r, r) number hash (m_signCache c)) c in
  let c := set_commitCache (removeInvalidEntryFromCache (λ r, r) number hash (m_commitCache c)) c in
  let c := removeInvalidFutureCache number c in
  let c := set_recvViewChangeReq
             (removeInvalidEntryFromCache vc_msg number hash (m_recvViewChangeReq c)) c in
  removeInvalidLatestViewChangeReq number hash c.

(** [clearAllExceptCommitCache] and [clearAll]. *)
Definition clearAllExceptCommitCache (c : PBFTReqCache) : PBFTReqCache :=
  set_recvViewChangeReq ∅ (set_signCache ∅ (set_prepareCache (prepare_clear (m_prepareCache c)) c)).
Definition clearAll (c : PBFTReqCache) : PBFTReqCache :=
  set_commitCache ∅
    (clearAllExceptCommitCache
       (set_futurePrepareCache ∅ (set_rawPrepareCache (prepare_clear (m_rawPrepareCache c)) c))).

(** [triggerViewChange]. *)
Definition triggerViewChange (curView highestNumber : Z) (c : PBFTReqCache) : PBFTReqCache :=
  let c := set_rawPrepareCache (prepare_clear (m_rawPrepareCache c)) c in
  let c := set_prepareCache (prepare_clear (m_prepareCache c)) c in
  let c := set_commitCache (keep_if (λ _ r, view r =? curView) <$> m_commitCache c) c in
  let c := set_signCache (keep_if (λ _ r, view r =? curView) <$> m_signCache c) c in
  let inCommit h := match m_commitCache c !! h with Some _ => true | None => false end in
  let c := set_signCache (keep_if (λ h _, inCommit h) (m_signCache c)) c in
  let c := removeInvalidFutureCache highestNumber c in
  let c := set_futurePrepareCache
             (keep_if (λ _ (r : PrepareReq), inCommit (block_hash r)) (m_futurePrepareCache c)) c in
  removeInvalidViewChangeUpTo curView c.

(** ** View changes *)

(** [eraseExpiredViewChange]: pointers are compared. *)
Definition eraseExpiredViewChange (req : VCReq) (c : PBFTReqCache) : PBFTReqCache :=
  match m_latestViewChangeReqCache c !! idx req with
  | None => c
  | Some latest =>
      match m_recvViewChangeReq c !! view (vc_msg latest) with
      | None => c
      | Some m =>
          match m !! idx req with
          | None => c
          | Some r =>
              let c := if vc_id latest =? vc_id r
                       then set_recvViewChangeReq
                              (<[view (vc_msg latest) := delete (idx req) m]> (m_recvViewChangeReq c)) c
                       else c in
              set_latestViewChangeReqCache (delete (idx req) (m_latestViewChangeReqCache c)) c
          end
      end
  end.

(** [checkViewChangeReq]. *)
Definition checkViewChangeReq (req : VCReq) (blockNumber : Z) (c : PBFTReqCache) : PBFTReqCache * bool :=
  if height req <? blockNumber then (c, false)
  else match m_latestViewChangeReqCache c !! idx req with
       | None => (c, true)
       | Some latest =>
           if height (vc_msg latest) <? blockNumber then (eraseExpiredViewChange latest c, true)
           else if height req <? height (vc_msg latest) then (c, false)
           else if view req <? view (vc_msg latest) then (c, false)
           else (c, true)
       end.

(** [addViewChangeReq]. *)
Definition addViewChangeReq (req : VCReq) (blockNumber : Z) (c : PBFTReqCache) : PBFTReqCache :=
  let '(c, ok) := checkViewChangeReq req blockNumber c in
  if ok then
    let c := eraseExpiredViewChange req c in
    let m := default ∅ (m_recvViewChangeReq c !! view req) in
    let c := set_recvViewChangeReq (<[view req := <[idx req := req]> m]> (m_recvViewChangeReq c)) c in
    set_latestViewChangeReqCache (<[idx req := req]> (m_latestViewChangeReqCache c)) c
  else c.

(** [eraseLatestViewChangeCacheForNodeUpdated]. *)
Definition eraseLatestViewChangeCacheForNodeUpdated (req : PBFTMsg) (c : PBFTReqCache) : PBFTReqCache :=
  set_latestViewChangeReqCache (delete (idx req) (m_latestViewChangeReqCache c)) c.

(** The loop of [canTriggerViewChange]: the views per node, the smallest view and
    the smallest height seen. *)
Record vc_scan := mkScan { sc_views : gmap Z Z; sc_minView : Z; sc_minHeight : Z }.
Definition scan_entry (v number : Z) (s : vc_scan) (e : Z * VCReq) : vc_scan :=
  let newer := match sc_views s !! e.1 with None => true | Some v' => v' <? v end in
  if newer && (number <=? height (vc_msg e.2)) then
    mkScan (<[e.1 := v]> (sc_views s)) (if v <? sc_minView s then v else sc_minView s)
      (if height (vc_msg e.2) <? sc_minHeight s then height (vc_msg e.2) else sc_minHeight s)
  else s.
Definition scan_view (toView number : Z) (s : vc_scan) (e : Z * gmap Z VCReq) : vc_scan :=
  if toView <? e.1 then foldl (scan_entry e.1 number) s (uiter e.2) else s.
Definition scan_all (toView number : Z) (c : PBFTReqCache) : vc_scan :=
  foldl (scan_view toView number) (mkScan ∅ MAXVIEW INT64_MAX) (uiter (m_recvViewChangeReq c)).

(** [canTriggerViewChange]: the decision and [minView]. *)
Definition canTriggerViewChange (maxInvalidNodeNum toView number consensusBlockNumber : Z)
    (c : PBFTReqCache) : bool * Z :=
  let s := scan_all toView number c in
  let count := wrapU 16 (Z.of_nat (size (sc_views s))) in
  let flag := (sc_minHeight s =? consensusBlockNumber)
              && (sc_minHeight s =? height (m_committedPrepareCache c)) in
  ((maxInvalidNodeNum <? count) && negb flag, sc_minView s).

(** [generateAndSetSigList]: the block with its signature list. *)
Definition sigListOf (m : gmap string PBFTMsg) : list (Z * bytes) :=
  (λ kr, (idx kr.2, match fromHex kr.1 false with Ok b => b | Throw _ => [] end)) <$> uiter m.
Definition generateAndSetSigList (b : Block) (minSigSize : Z) (c : PBFTReqCache) : Block * bool :=
  match m_commitCache c !! block_hash (m_prepareCache c) with
  | None => (b, false)
  | Some m =>
      let sig_list := sigListOf m in
      if zlen sig_list <? minSigSize then (b, false) else (set_b_sigList sig_list b, true)
  end.
End requests.

(** ** Erase loops *)

Section keep_if.
Context {K V : Type} `{Countable K}.
Implicit Types (m : gmap K V) (f : K → V → bool).

Lemma keep_if_Some f m k v : keep_if f m !! k = Some v ↔ m !! k = Some v ∧ f k v = true.
Proof. apply map_lookup_filter_Some. Qed.

Lemma keep_if_size_le f m : (size (keep_if f m) <= size m)%nat.
Proof. apply map_subseteq_size, map_filter_subseteq. Qed.

(** Counting in any iteration order counts in the map. *)
Lemma length_filter_uiter `{UnorderedIter} f m :
  length (filter (λ kv, f kv.1 kv.2 = true) (uiter m)) = size (keep_if f m).
Proof.
  rewrite uiter_perm. unfold keep_if. rewrite map_filter_alt, <-length_map_to_list, map_to_list_to_map;
    [done|].
  eapply sublist_NoDup; [apply (NoDup_fst_map_to_list m)|].
  apply fmap_sublist, sublist_filter.
Qed.
End keep_if.

(** ** Counting sign and commit requests *)

Section counting.
Context `{UnorderedIter} (checkSign : PBFTMsg → bool).

(** A future request counts when its signature was, or now is, found valid. *)
Definition authentic (r : PBFTMsg) : bool := isFuture r && (signChecked r || checkSign r).
Definition nonfutureCount (m : gmap string PBFTMsg) : Z :=
  Z.of_nat (size (keep_if (λ _ r, negb (isFuture r)) m)).
Definition authenticCount (m : gmap string PBFTMsg) : Z :=
  Z.of_nat (size (keep_if (λ _ r, authentic r) m)).

Lemma future_loop_count nl lim fs l :
  0 <= fs → (nl = true → fs <= lim) →
  zlen (future_loop checkSign nl lim fs l).1
  = zlen (filter (λ kr, negb (isFuture kr.2) = true) l)
    + (let a := zlen (filter (λ kr, authentic kr.2 = true) l) in if nl then Z.min (lim - fs) a else a).
Proof.
  unfold zlen, authentic. revert fs. induction l as [|[k r] l IH]; intros fs Hfs Hlim; [destruct nl; simpl; lia|].
  rewrite !filter_cons. simpl. destruct (isFuture r) eqn:Hf; simpl.
  2: { specialize (IH fs Hfs Hlim). destruct (future_loop _ _ _ _ l); simpl in *. destruct nl; simpl in *; lia. }
  destruct (nl && (lim <=? fs)) eqn:Hl.
  { apply andb_true_iff in Hl as [-> Hl%Z.leb_le]. simpl. rewrite length_fmap.
    specialize (Hlim eq_refl). destruct (signChecked r || checkSign r); simpl; lia. }
  assert (Hn : nl = true → fs + 1 <= lim) by (intros ->; apply Z.leb_gt in Hl; lia).
  specialize (IH (fs + 1) ltac:(lia) Hn) as IH1. specialize (IH fs Hfs Hlim).
  destruct (signChecked r); simpl.
  { destruct (future_loop checkSign nl lim (fs + 1) l); simpl in *. destruct nl; simpl in *; lia. }
  destruct (checkSign r); simpl; [|done].
  destruct (future_loop checkSign nl lim (fs + 1) l); simpl in *. destruct nl; simpl in *; lia.
Qed.

(** The number [checkAndRemoveInvalidFutureReq] returns. *)
Definition requestCount (needLimit : bool) (lim : Z) (m : gmap string PBFTMsg) : Z :=
  nonfutureCount m + (if needLimit then Z.min lim (authenticCount m) else authenticCount m).

Lemma future_loop_requestCount nl lim m :
  0 <= lim → zlen (future_loop checkSign nl lim 0 (uiter m)).1 = requestCount nl lim m.
Proof.
  intros Hlim. rewrite future_loop_count by lia. unfold requestCount, nonfutureCount, authenticCount, zlen.
  rewrite <-!(length_filter_uiter (λ _ r, _)). destruct nl; simpl; rewrite ?Z.sub_0_r; reflexivity.
Qed.

Lemma future_check_count h cache nl lim m :
  cache !! h = Some m → 0 <= lim →
  (checkAndRemoveInvalidFutureReq checkSign h cache nl lim).2 = requestCount nl lim m.
Proof.
  intros Hm Hlim. rewrite <-future_loop_requestCount by done.
  unfold checkAndRemoveInvalidFutureReq. rewrite Hm.
  destruct (future_loop _ _ _ _ _) as [[|k kept] checked]; reflexivity.
Qed.

(** The cache after the check keeps every request of every other hash; under the
    hash itself it is gone when nothing counted, and otherwise holds the same
    signatures as before, those erased from the copy included. *)
Lemma future_check_cache h cache nl lim m :
  cache !! h = Some m →
  let '(cache', n) := checkAndRemoveInvalidFutureReq checkSign h cache nl lim in
  (∀ h', h' ≠ h → cache' !! h' = cache !! h')
  ∧ (n = 0 → cache' !! h = None)
  ∧ (n ≠ 0 → ∃ m', cache' !! h = Some m' ∧ ∀ k, m' !! k = m !! k ∨ m' !! k = set_signChecked true <$> m !! k).
Proof.
  intros Hm. unfold checkAndRemoveInvalidFutureReq. rewrite Hm.
  destruct (future_loop _ _ _ _ _) as [[|k0 kept] checked].
  - split_and!; [|by intros; apply lookup_delete_eq|done]. intros. by rewrite lookup_delete_ne.
  - split_and!; [|by unfold zlen; simpl; lia|].
    + intros. by rewrite lookup_insert_ne.
    + intros _. eexists. split; [apply lookup_insert_eq|]. intros k.
      induction checked as [|k1 l IH]; simpl; [by left|].
      destruct (decide (k1 = k)) as [->|]; [|by rewrite lookup_alter_ne].
      rewrite lookup_alter_eq. right. destruct IH as [-> | ->]; [done|].
      destruct (m !! k) as [[]|]; reflexivity.
Qed.
End counting.

(** C5. The number of sign requests and of commit requests the engine compares with the
    quorum [t]: below [t] it is the number of cached signatures, and from [t] on
    the future requests count only when authentic, at most [t - 1] of them for
    sign requests.  No iteration order changes it. *)
Theorem quorum_counts `{UnorderedIter} checkSign h t c ms mc :
  m_signCache c !! h = Some ms → m_commitCache c !! h = Some mc → 1 <= t < 2 ^ 16 →
  (getSigCacheSize checkSign h t c).2
  = (if t <=? Z.of_nat (size ms)
     then nonfutureCount ms + Z.min (t - 1) (authenticCount checkSign ms) else Z.of_nat (size ms))
  ∧ (getCommitCacheSize checkSign h t c).2
    = (if t <=? Z.of_nat (size mc)
       then nonfutureCount mc + authenticCount checkSign mc else Z.of_nat (size mc)).
Proof.
  intros Hs Hc Ht.
  assert (Hlim : wrapU 16 (t - 1) = t - 1) by (apply wrapU_id; lia).
  unfold getSigCacheSize, getCommitCacheSize, getSizeFromCache. rewrite Hs, Hc, Hlim. split.
  - destruct (_ <=? _); [|done].
    pose proof (future_check_count checkSign h (m_signCache c) true (t - 1) ms Hs ltac:(lia)) as Hn.
    by destruct (checkAndRemoveInvalidFutureReq _ _ _ _ _).
  - destruct (_ <=? _); [|done].
    pose proof (future_check_count checkSign h (m_commitCache c) false (t - 1) mc Hc ltac:(lia)) as Hn.
    by destruct (checkAndRemoveInvalidFutureReq _ _ _ _ _).
Qed.

(** What [getSigCacheSize] returns for a quorum [t]. *)
Definition signCount (checkSign : PBFTMsg → bool) (t : Z) (m : gmap string PBFTMsg) : Z :=
  if t <=? Z.of_nat (size m) then requestCount checkSign true (t - 1) m else Z.of_nat (size m).

Lemma size_split (m : gmap string PBFTMsg) (f g : PBFTMsg → bool) :
  (∀ r, f r = true → g r = true → False) →
  (size (keep_if (λ _ r, f r) m) + size (keep_if (λ _ r, g r) m) <= size m)%nat.
Proof.
  intros Hfg. rewrite <-!size_dom.
  assert (Hd : dom (keep_if (λ _ r, f r) m) ## dom (keep_if (λ _ r, g r) m)).
  { intros k [x [Hx Hf]%keep_if_Some]%elem_of_dom [y [Hy Hg]%keep_if_Some]%elem_of_dom.
    rewrite Hx in Hy. injection Hy as <-. by apply (Hfg x). }
  rewrite <-size_union by done. apply subseteq_size. unfold keep_if.
  apply union_least; apply subseteq_dom, map_filter_subseteq.
Qed.

Lemma keep_if_insert (f : PBFTMsg → bool) k r (m : gmap string PBFTMsg) :
  m !! k = None →
  size (keep_if (λ _ r, f r) (<[k := r]> m)) = (size (keep_if (λ _ r, f r) m) + if f r then 1 else 0)%nat.
Proof.
  intros Hk. assert (Hk' : keep_if (λ _ r, f r) m !! k = None).
  { destruct (keep_if (λ _ r, f r) m !! k) eqn:E; [|done]. apply keep_if_Some in E as [E _]. congruence. }
  unfold keep_if in *. destruct (f r) eqn:Hf.
  - rewrite map_filter_insert_True, map_size_insert_None by done. lia.
  - rewrite map_filter_insert_not' by (simpl; intros; congruence). lia.
Qed.

Lemma signCount_insert checkSign t k r m :
  1 <= t → m !! k = None → isFuture r = false →
  signCount checkSign t m < t → signCount checkSign t (<[k := r]> m) <= t.
Proof.
  intros Ht Hk Hr. unfold signCount, requestCount, nonfutureCount, authenticCount.
  rewrite map_size_insert_None, !keep_if_insert by done. unfold authentic at 3. rewrite Hr. simpl.
  pose proof (size_split m (λ r, negb (isFuture r)) (authentic checkSign)) as Hs.
  assert (Hd : ∀ r, negb (isFuture r) = true → authentic checkSign r = true → False).
  { intros x. unfold authentic. by destruct (isFuture x). }
  specialize (Hs Hd). repeat break_if; breflect; lia.
Qed.

Lemma getSigCacheSize_signCount `{UnorderedIter} checkSign h t c :
  1 <= t < 2 ^ 16 →
  (getSigCacheSize checkSign h t c).2 = signCount checkSign t (default ∅ (m_signCache c !! h)).
Proof.
  intros Ht. assert (Hlim : wrapU 16 (t - 1) = t - 1) by (apply wrapU_id; lia).
  unfold getSigCacheSize, getSizeFromCache, signCount. rewrite Hlim.
  destruct (m_signCache c !! h) as [m|] eqn:Hm; cbn [default from_option id].
  - destruct (_ <=? _); [|done].
    pose proof (future_check_count checkSign h (m_signCache c) true (t - 1) m Hm ltac:(lia)) as Hn.
    by destruct (checkAndRemoveInvalidFutureReq _ _ _ _ _).
  - rewrite map_size_empty. destruct (t <=? 0) eqn:E; [apply Z.leb_le in E; lia|].
    by rewrite (proj2 (Z.leb_gt _ _)) by lia.
Qed.

(** The quorum of sign requests is compared with [==], and cannot be jumped over:
    when a new sign request of the current round is cached, a count below the
    quorum becomes at most the quorum, however many future requests are cached. *)
Theorem sign_quorum_not_skipped `{UnorderedIter} checkSign t r c :
  1 <= t < 2 ^ 16 → isFuture r = false → isExistSign r c = false →
  (getSigCacheSize checkSign (block_hash r) t c).2 < t →
  (getSigCacheSize checkSign (block_hash r) t (addSignReq r c)).2 <= t.
Proof.
  intros Ht Hr He. rewrite !getSigCacheSize_signCount by done.
  unfold addSignReq, addReq, isExistSign, cacheExists in *. rewrite He. simpl.
  rewrite lookup_insert_eq. cbn [default from_option id]. apply signCount_insert; [lia| |done].
  destruct (m_signCache c !! block_hash r) as [m|]; cbn [default from_option id]; [|apply lookup_empty].
  by destruct (m !! toHex (sig r)).
Qed.

Create HintDb cachewf.

(** ** Nested caches: what each kind of change does to their entries *)

Section nested.
Context {K U S : Type} `{Countable K, Countable U} (P : K → U → S → Prop).
Implicit Types cache : gmap K (gmap U S).

(** Every entry satisfies [P] with its keys. *)
Definition all_entries cache : Prop := ∀ k m u s, cache !! k = Some m → m !! u = Some s → P k u s.

Lemma all_empty : all_entries ∅.
Proof. intros k m u s Hk. by rewrite lookup_empty in Hk. Qed.

Lemma all_delete k cache : all_entries cache → all_entries (delete k cache).
Proof. intros Ha k' m u s [_ Hk]%lookup_delete_Some. by apply Ha. Qed.

Lemma all_insert k m cache :
  all_entries cache → (∀ u s, m !! u = Some s → P k u s) → all_entries (<[k := m]> cache).
Proof. intros Ha Hm k' m' u s [[<- <-]|[_ Hk]]%lookup_insert_Some; [by apply Hm|by apply Ha]. Qed.

Lemma all_keep (f : K → gmap U S → bool) cache : all_entries cache → all_entries (keep_if f cache).
Proof. intros Ha k m u s [Hk _]%keep_if_Some. by apply Ha. Qed.

Lemma all_fmap_keep (f : U → S → bool) cache : all_entries cache → all_entries (keep_if f <$> cache).
Proof.
  intros Ha k m u s (m0 & <- & Hk)%lookup_fmap_Some [Hu _]%keep_if_Some. by apply (Ha k m0).
Qed.

Lemma all_alter_keep (f : U → S → bool) k cache :
  all_entries cache → all_entries (alter (keep_if f) k cache).
Proof.
  intros Ha k' m u s Hk Hu. destruct (decide (k = k')) as [<-|]; [|rewrite lookup_alter_ne in Hk by done; by apply (Ha k' m)].
  rewrite lookup_alter_eq in Hk. apply fmap_Some in Hk as (m0 & Hk & ->).
  apply keep_if_Some in Hu as [Hu _]. by apply (Ha k m0).
Qed.
End nested.

#[export] Hint Resolve all_empty all_delete all_insert all_keep all_fmap_keep all_alter_keep : cachewf.

(** ** The cache invariant *)

(** Sign and commit requests are filed under their hash and their signature. *)
Definition sig_keyed (cache : SigCache) : Prop :=
  all_entries (λ h k r, block_hash r = h ∧ k = toHex (sig r)) cache.
Definition vc_keyed (cache : gmap Z (gmap Z VCReq)) : Prop :=
  all_entries (λ v i r, view (vc_msg r) = v ∧ idx (vc_msg r) = i) cache.

Definition latest_keyed (m : gmap Z VCReq) : Prop := ∀ i r, m !! i = Some r → idx (vc_msg r) = i.

(** The invariant of the request caches. *)
Record cache_wf (c : PBFTReqCache) : Prop := {
  wf_sign : sig_keyed (m_signCache c);
  wf_commit : sig_keyed (m_commitCache c);
  wf_recv : vc_keyed (m_recvViewChangeReq c);
  wf_latest : latest_keyed (m_latestViewChangeReqCache c);
  wf_future : ∀ k r, m_futurePrepareCache c !! k = Some r → k = wrapU 64 (height (req_msg r));
  wf_future_size : Z.of_nat (size (m_futurePrepareCache c)) <= m_maxFuturePrepareCacheSize }.

(** The operations that change the caches. *)
Inductive cache_op :=
| OpCountSigns (h t : Z) | OpCountCommits (h t : Z)
| OpAddRaw (r : PrepareReq) | OpAddPrepare (r : PrepareReq)
| OpAddSign (r : PBFTMsg) | OpAddCommit (r : PBFTMsg)
| OpAddFuture (r : PrepareReq) | OpEraseFuture (n : Z) | OpUpdateCommitted
| OpDelCache (n h : Z) | OpCollectGarbage (n h : Z)
| OpRemoveViewChange (v n h : Z) | OpAddViewChange (r : VCReq) (n : Z) | OpEraseLatest (r : PBFTMsg)
| OpTrigger (v n : Z) | OpClearExceptCommit | OpClearAll.

Definition cache_run `{UnorderedIter} (checkSign : PBFTMsg → bool) (o : cache_op) (c : PBFTReqCache)
  : PBFTReqCache :=
  match o with
  | OpCountSigns h t => (getSigCacheSize checkSign h t c).1
  | OpCountCommits h t => (getCommitCacheSize checkSign h t c).1
  | OpAddRaw r => addRawPrepare r c
  | OpAddPrepare r => addPrepareReq r c
  | OpAddSign r => addSignReq r c
  | OpAddCommit r => addCommitReq r c
  | OpAddFuture r => addFuturePrepareCache r c
  | OpEraseFuture n => eraseHandledFutureReq n c
  | OpUpdateCommitted => updateCommittedPrepare c
  | OpDelCache n h => delCache n h c
  | OpCollectGarbage n h => reqCache_collectGarbage n h c
  | OpRemoveViewChange v n h => removeInvalidViewChange v n h c
  | OpAddViewChange r n => addViewChangeReq r n c
  | OpEraseLatest r => eraseLatestViewChangeCacheForNodeUpdated r c
  | OpTrigger v n => triggerViewChange v n c
  | OpClearExceptCommit => clearAllExceptCommitCache c
  | OpClearAll => clearAll c
  end.

Section wf.
Context `{UnorderedIter} (checkSign : PBFTMsg → bool).

Lemma wf_empty : cache_wf emptyReqCache.
Proof.
  split; simpl.
  1-3: apply all_empty.
  1-2: intros ? ? Hk; by rewrite lookup_empty in Hk.
  rewrite map_size_empty. by vm_compute.
Qed.

Lemma sig_keyed_checked h cache nl lim :
  sig_keyed cache → sig_keyed (checkAndRemoveInvalidFutureReq checkSign h cache nl lim).1.
Proof.
  intros Hk. destruct (cache !! h) as [m|] eqn:Hm.
  2: { unfold checkAndRemoveInvalidFutureReq. by rewrite Hm. }
  pose proof (future_check_cache checkSign h cache nl lim m Hm) as Hc.
  destruct (checkAndRemoveInvalidFutureReq _ _ _ _ _) as [cache' n]; simpl in *.
  destruct Hc as (Hne & H0 & H1). intros h' m' k r Hm' Hr.
  destruct (decide (h' = h)) as [->|Hd]; [|rewrite (Hne h' Hd) in Hm'; by apply (Hk h' m')].
  destruct (decide (n = 0)) as [Hn|Hn]; [rewrite (H0 Hn) in Hm'; discriminate|].
  destruct (H1 Hn) as (m1 & E1 & E2). rewrite E1 in Hm'. injection Hm' as <-.
  destruct (E2 k) as [E|E]; rewrite E in Hr; [by apply (Hk h m)|].
  apply fmap_Some in Hr as (r0 & Hr & ->). apply (Hk h m k r0 Hm Hr).
Qed.

Lemma sig_keyed_add r cache : sig_keyed cache → sig_keyed (addReq r cache).
Proof.
  intros Hk. unfold addReq. break_if; [done|]. apply all_insert; [done|].
  intros k s [[<- <-]|[_ Hs]]%lookup_insert_Some; [done|].
  destruct (cache !! block_hash r) as [m|] eqn:Hm; cbn [default from_option id] in Hs.
  - by apply (Hk _ m).
  - by rewrite lookup_empty in Hs.
Qed.

Lemma latest_keep f m : latest_keyed m → latest_keyed (keep_if f m).
Proof. intros Hm i r [Hr _]%keep_if_Some. by apply Hm. Qed.

Lemma latest_delete j m : latest_keyed m → latest_keyed (delete j m).
Proof. intros Hm i r [_ Hr]%lookup_delete_Some. by apply Hm. Qed.

Lemma wf_erase r c : cache_wf c → cache_wf (eraseExpiredViewChange r c).
Proof.
  intros [Hs Hc Hv Hl Hf Hz]. unfold eraseExpiredViewChange.
  destruct (m_latestViewChangeReqCache c !! _) as [latest|]; [|done].
  destruct (m_recvViewChangeReq c !! _) as [m|] eqn:Hm; [|done].
  destruct (m !! _) as [r'|]; [|done].
  destruct (vc_id latest =? vc_id r'); split; simpl; eauto using latest_delete.
  apply all_insert; [done|]. intros i s [_ Hi]%lookup_delete_Some. by apply (Hv _ m).
Qed.

Lemma wf_keep_future f c :
  cache_wf c → cache_wf (set_futurePrepareCache (keep_if f (m_futurePrepareCache c)) c).
Proof.
  intros [Hs Hc Hv Hl Hf Hz]. split; simpl; try done.
  - intros k r [Hk _]%keep_if_Some. by apply Hf.
  - pose proof (keep_if_size_le f (m_futurePrepareCache c)). lia.
Qed.

Lemma wf_addViewChange r n c : cache_wf c → cache_wf (addViewChangeReq r n c).
Proof.
  intros Hwf. unfold addViewChangeReq.
  assert (Hc : cache_wf (checkViewChangeReq r n c).1).
  { unfold checkViewChangeReq. repeat (break_if || break_match); simpl; auto using wf_erase. }
  destruct (checkViewChangeReq r n c) as [c' []]; simpl in Hc; [|done].
  apply (wf_erase r) in Hc. destruct (eraseExpiredViewChange r c') as [p0 p1 s0 s1 v0 l0 p2 f0].
  destruct Hc as [Hs Hcm Hv Hl Hf Hz]. split; simpl in *; try done.
  - apply all_insert; [done|]. intros i s [[<- <-]|[_ Hi]]%lookup_insert_Some; [done|].
    destruct (v0 !! view r) as [m|] eqn:Hm; cbn [default from_option id] in Hi.
    + by apply (Hv _ m).
    + by rewrite lookup_empty in Hi.
  - intros i s [[<- <-]|[_ Hi]]%lookup_insert_Some; [done|]. by apply Hl.
Qed.

Lemma wf_addFuture r c : cache_wf c → cache_wf (addFuturePrepareCache r c).
Proof.
  intros Hwf. unfold addFuturePrepareCache. break_if; [done|].
  destruct (m_futurePrepareCache c !! _) eqn:Hn; [done|].
  destruct Hwf as [Hs Hc Hv Hl Hf Hz]. split; simpl; try done.
  - intros k s [[<- <-]|[_ Hk]]%lookup_insert_Some; [done|]. by apply Hf.
  - rewrite map_size_insert_None by done. breflect. lia.
Qed.

Lemma wf_countSigns h t c : cache_wf c → cache_wf (getSigCacheSize checkSign h t c).1.
Proof.
  intros [Hs Hc Hv Hl Hf Hz]. unfold getSigCacheSize. break_if; [|done].
  pose proof (sig_keyed_checked h (m_signCache c) true (wrapU 16 (t - 1)) Hs).
  destruct (checkAndRemoveInvalidFutureReq _ _ _ _ _). by split.
Qed.

Lemma wf_countCommits h t c : cache_wf c → cache_wf (getCommitCacheSize checkSign h t c).1.
Proof.
  intros [Hs Hc Hv Hl Hf Hz]. unfold getCommitCacheSize. break_if; [|done].
  pose proof (sig_keyed_checked h (m_commitCache c) false (wrapU 16 (t - 1)) Hc).
  destruct (checkAndRemoveInvalidFutureReq _ _ _ _ _). by split.
Qed.

Lemma wf_delCache n h c : cache_wf c → cache_wf (delCache n h c).
Proof.
  intros [Hs Hc Hv Hl Hf Hz]. unfold delCache. apply wf_keep_future.
  break_if; split; simpl; auto with cachewf; by apply all_delete.
Qed.

Lemma wf_collectGarbage n h c : cache_wf c → cache_wf (reqCache_collectGarbage n h c).
Proof.
  intros Hwf. apply (wf_keep_future (λ k _, negb (k <=? wrapU 64 n))) in Hwf.
  destruct c. destruct Hwf as [Hs Hc Hv Hl Hf Hz]. unfold removeInvalidEntryFromCache.
  split; simpl in *; try done; try (apply all_keep, all_fmap_keep; done). by apply latest_keep.
Qed.

Lemma wf_removeViewChange v n h c : cache_wf c → cache_wf (removeInvalidViewChange v n h c).
Proof.
  intros Hwf. unfold removeInvalidViewChange.
  destruct (m_recvViewChangeReq c !! v) as [m|] eqn:Hm; [|done].
  destruct Hwf as [Hs Hc Hv Hl Hf Hz]. split; simpl; try done; [|by apply latest_keep].
  apply all_insert; [done|]. intros i r [Hi _]%keep_if_Some. by apply (Hv v m).
Qed.

Lemma wf_trigger v n c : cache_wf c → cache_wf (triggerViewChange v n c).
Proof.
  intros Hwf. unfold triggerViewChange, removeInvalidViewChangeUpTo, removeInvalidFutureCache.
  apply (wf_keep_future (λ k _, negb (k <=? wrapU 64 n))) in Hwf. destruct c. simpl in *.
  apply (wf_keep_future (λ _ (r : PrepareReq),
    match (keep_if (λ _ r0, view r0 =? v) <$> m_commitCache0) !! block_hash r with
    | Some _ => true | None => false end)) in Hwf.
  destruct Hwf as [Hs Hc Hv Hl Hf Hz]. split; simpl in *; try done; auto using latest_keep.
  - by apply all_keep, all_fmap_keep.
  - by apply all_fmap_keep.
  - by apply all_keep.
Qed.

Lemma cache_run_wf o c : cache_wf c → cache_wf (cache_run checkSign o c).
Proof.
  intros Hwf. pose proof Hwf as [Hs Hc Hv Hl Hf Hz].
  destruct o; simpl; auto using wf_countSigns, wf_countCommits, wf_addFuture, wf_delCache,
    wf_collectGarbage, wf_removeViewChange, wf_addViewChange, wf_trigger.
  - by split.
  - split; simpl; try done; by apply all_alter_keep.
  - split; simpl; try done. by apply sig_keyed_add.
  - split; simpl; try done. by apply sig_keyed_add.
  - split; simpl; try done.
    + intros k r [_ Hk]%lookup_delete_Some. by apply Hf.
    + pose proof (map_subseteq_size _ _ (delete_subseteq (m_futurePrepareCache c) (wrapU 64 n))). lia.
  - by split.
  - split; simpl; try done. by apply latest_delete.
  - split; simpl; try done; apply all_empty.
  - split; simpl; try done; apply all_empty.
Qed.
End wf.

(** From the empty caches, after any sequence of cache operations, every sign and
    commit request is filed under its block hash and the hex form of its
    signature, every view-change request under its view and its node, the latest
    view-change requests under their node, the future prepares under their height,
    and at most ten future prepares are kept. *)
Theorem reqCache_invariant `{UnorderedIter} checkSign (ops : list cache_op) :
  cache_wf (foldl (λ c o, cache_run checkSign o c) emptyReqCache ops).
Proof.
  induction ops as [|o ops IH] using rev_ind; [apply wf_empty|].
  rewrite foldl_app. by apply cache_run_wf.
Qed.

(** ** Garbage collection and view changes *)

(** Membership in a nested cache. *)
Definition cached {K U S} `{Countable K, Countable U} (cache : gmap K (gmap U S)) (k : K) (u : U) (s : S)
  : Prop := ∃ m, cache !! k = Some m ∧ m !! u = Some s.

Lemma cached_keep {K U S} `{Countable K, Countable U} f (cache : gmap K (gmap U S)) k u s :
  cached (keep_if f <$> cache) k u s ↔ cached cache k u s ∧ f u s = true.
Proof.
  split.
  - intros (m & (m0 & <- & Hk)%lookup_fmap_Some & [Hu Hf]%keep_if_Some). split; [by exists m0|done].
  - intros [(m & Hk & Hu) Hf]. exists (keep_if f m). split; [by rewrite lookup_fmap, Hk|].
    by apply keep_if_Some.
Qed.

(** [removeInvalidEntryFromCache] keeps exactly the fresh requests and leaves no
    empty inner map. *)
Lemma cached_removeInvalidEntry {K U S} `{Countable K, Countable U} (msg : S → PBFTMsg) n h
    (cache : gmap K (gmap U S)) k u s :
  cached (removeInvalidEntryFromCache msg n h cache) k u s
  ↔ cached cache k u s ∧ fresh_req n h (msg s) = true.
Proof.
  rewrite <-(cached_keep (λ _ s, fresh_req n h (msg s))). unfold removeInvalidEntryFromCache.
  split; intros (m & Hk & Hu); exists m.
  - apply keep_if_Some in Hk as [Hk _]. by split.
  - split; [|done]. apply keep_if_Some. split; [done|]. apply negb_true_iff, Z.eqb_neq.
    enough (size m ≠ 0%nat) by lia. rewrite map_size_empty_iff. intros ->. by rewrite lookup_empty in Hu.
Qed.

(** Garbage collection against the highest block [(n, h)] removes exactly the
    requests below height [n] and those at height [n] for another hash, from the
    sign, commit and both view-change caches, and exactly the future prepares whose
    height, as [uint64_t], is at most [n]. *)
Theorem collectGarbage_exact n h c :
  let c' := reqCache_collectGarbage n h c in
  (∀ b k r, cached (m_signCache c') b k r ↔ cached (m_signCache c) b k r ∧ fresh_req n h r = true)
  ∧ (∀ b k r, cached (m_commitCache c') b k r ↔ cached (m_commitCache c) b k r ∧ fresh_req n h r = true)
  ∧ (∀ v i r, cached (m_recvViewChangeReq c') v i r
              ↔ cached (m_recvViewChangeReq c) v i r ∧ fresh_req n h (vc_msg r) = true)
  ∧ (∀ i r, m_latestViewChangeReqCache c' !! i = Some r
            ↔ m_latestViewChangeReqCache c !! i = Some r ∧ fresh_req n h (vc_msg r) = true)
  ∧ (∀ k r, m_futurePrepareCache c' !! k = Some r
            ↔ m_futurePrepareCache c !! k = Some r ∧ wrapU 64 n < k).
Proof.
  destruct c; simpl. split_and!; intros.
  1-3: apply cached_removeInvalidEntry.
  - by rewrite keep_if_Some.
  - rewrite keep_if_Some. breflect. split; intros [? ?]; split; auto; lia.
Qed.

(** Once a view change to [v] is triggered, the caches hold only what the new view
    may use: no prepare is in progress, every sign and commit request left is of
    view [v] and was there before, a sign request is left only for a hash some
    commit request was received for, as is a future prepare, and every view-change
    request left asks for a view above [v]. *)
Theorem triggerViewChange_purges v n c :
  let c' := triggerViewChange v n c in
  req_msg (m_rawPrepareCache c') = msg_clear (m_rawPrepareCache c)
  ∧ req_msg (m_prepareCache c') = msg_clear (m_prepareCache c)
  ∧ (∀ b k r, cached (m_commitCache c') b k r ↔ cached (m_commitCache c) b k r ∧ view r = v)
  ∧ (∀ b k r, cached (m_signCache c') b k r
              ↔ cached (m_signCache c) b k r ∧ view r = v ∧ is_Some (m_commitCache c !! b))
  ∧ (∀ k (r : PrepareReq), m_futurePrepareCache c' !! k = Some r
            ↔ m_futurePrepareCache c !! k = Some r ∧ wrapU 64 n < k ∧ is_Some (m_commitCache c !! block_hash r))
  ∧ (∀ w i r, cached (m_recvViewChangeReq c') w i r ↔ cached (m_recvViewChangeReq c) w i r ∧ v < w)
  ∧ (∀ i r, m_latestViewChangeReqCache c' !! i = Some r
            ↔ m_latestViewChangeReqCache c !! i = Some r ∧ v < view (vc_msg r)).
Proof.
  assert (Hin : ∀ (m : SigCache) b,
    (match (keep_if (λ _ r0, view r0 =? v) <$> m) !! b with Some _ => true | None => false end = true)
    ↔ is_Some (m !! b)).
  { intros m b. rewrite lookup_fmap. destruct (m !! b); simpl; [by split|].
    split; [done|]. intros [? ?]; done. }
  destruct c; simpl. split_and!; try done.
  - intros b k r. rewrite cached_keep. by rewrite Z.eqb_eq.
  - intros b k r. split.
    + intros (m & [(m0 & <- & Hm)%lookup_fmap_Some Hb%Hin]%keep_if_Some & [Hk Hv]%keep_if_Some).
      breflect. split_and!; [by exists m0|done|done].
    + intros ((m & Hm & Hk) & Hv & Hb). exists (keep_if (λ _ r0, view r0 =? v) m). split.
      * apply keep_if_Some. split; [by rewrite lookup_fmap, Hm|]. by apply Hin.
      * apply keep_if_Some. split; [done|]. by apply Z.eqb_eq.
  - intros k r. rewrite !keep_if_Some, Hin. breflect. intuition lia.
  - intros w i r. split.
    + intros (m & [Hm Hw]%keep_if_Some & Hi). breflect. split; [by exists m|lia].
    + intros [(m & Hm & Hi) Hw]. exists m. split; [|done]. apply keep_if_Some. breflect.
      split; [done|lia].
  - intros i r. rewrite keep_if_Some. breflect. intuition lia.
Qed.

(** ** The signature list *)

Section sigList.
Context `{UnorderedIter}.

Lemma sigListOf_keyed h (m : gmap string PBFTMsg) :
  (∀ k r, m !! k = Some r → block_hash r = h ∧ k = toHex (sig r)) →
  sigListOf m = (λ kr : string * PBFTMsg, (idx kr.2, sig kr.2)) <$> uiter m.
Proof.
  intros Hk. apply list_fmap_ext. intros i [k r] Hi. simpl.
  apply list_elem_of_lookup_2, elem_of_uiter, Hk in Hi as [_ ->]. by rewrite fromHex_toHex_Ok.
Qed.

Lemma sigListOf_NoDup h (m : gmap string PBFTMsg) :
  (∀ k r, m !! k = Some r → block_hash r = h ∧ k = toHex (sig r)) → NoDup (sigListOf m).*2.
Proof.
  intros Hk. rewrite (sigListOf_keyed h m Hk). rewrite <-list_fmap_compose.
  assert (Hn : NoDup (toHex <$> ((λ kr : string * PBFTMsg, sig kr.2) <$> uiter m))).
  { rewrite <-list_fmap_compose. erewrite list_fmap_ext; [apply (NoDup_fst_uiter m)|].
    intros i [k r] Hi. simpl. by apply list_elem_of_lookup_2, elem_of_uiter, Hk in Hi as [_ ->]. }
  by apply NoDup_fmap_1 in Hn.
Qed.

Lemma generateAndSetSigList_spec b minSigSize c :
  sig_keyed (m_commitCache c) →
  let h := block_hash (m_prepareCache c) in
  match generateAndSetSigList b minSigSize c with
  | (b', true) =>
      ∃ m l, m_commitCache c !! h = Some m ∧ b' = set_b_sigList l b
      ∧ zlen l = Z.of_nat (size m) ∧ minSigSize <= zlen l ∧ NoDup l.*2
      ∧ ∀ i sg, (i, sg) ∈ l ↔ ∃ k r, m !! k = Some r ∧ idx r = i ∧ sig r = sg
  | (b', false) => b' = b ∧ ∀ m, m_commitCache c !! h = Some m → Z.of_nat (size m) < minSigSize
  end.
Proof.
  intros Hk h. unfold generateAndSetSigList. fold h.
  destruct (m_commitCache c !! h) as [m|] eqn:Hm; [|done].
  assert (Hkm : ∀ k r, m !! k = Some r → block_hash r = h ∧ k = toHex (sig r))
    by (intros k r; by apply Hk).
  assert (Hlen : zlen (sigListOf m) = Z.of_nat (size m))
    by (unfold zlen, sigListOf; by rewrite length_fmap, length_uiter).
  destruct (zlen (sigListOf m) <? minSigSize) eqn:Hlt.
  { apply Z.ltb_lt in Hlt. split; [done|]. intros ? [= <-]. lia. }
  apply Z.ltb_ge in Hlt. exists m, (sigListOf m). split_and!; try done; [by apply (sigListOf_NoDup h)|].
  intros i sg. rewrite (sigListOf_keyed h m Hkm), list_elem_of_fmap. split.
  - intros ([k r] & [= -> ->] & Hi%elem_of_uiter). by exists k, r.
  - intros (k & r & Hr & <- & <-). exists (k, r). split; [done|]. by apply elem_of_uiter.
Qed.

(** The signature list put on a block is set exactly when the commit cache holds at
    least [minSigSize] requests for the prepared hash; it then lists, with pairwise
    distinct signatures, the node index and the signature of each of those
    requests and nothing else, and the rest of the block is unchanged. *)
Theorem sigList_exact b minSigSize c :
  sig_keyed (m_commitCache c) →
  let h := block_hash (m_prepareCache c) in
  match generateAndSetSigList b minSigSize c with
  | (b', true) =>
      ∃ m l, m_commitCache c !! h = Some m ∧ b' = set_b_sigList l b
      ∧ zlen l = Z.of_nat (size m) ∧ minSigSize <= zlen l ∧ NoDup l.*2
      ∧ ∀ i sg, (i, sg) ∈ l ↔ ∃ k r, m !! k = Some r ∧ idx r = i ∧ sig r = sg
  | (b', false) => b' = b ∧ ∀ m, m_commitCache c !! h = Some m → Z.of_nat (size m) < minSigSize
  end.
Proof. apply generateAndSetSigList_spec. Qed.

(** When the commit requests counted reach a quorum, the cache still holds at least
    as many requests of that hash, each one that was there before. *)
Lemma getCommitCacheSize_keeps checkSign h t c :
  1 <= t →
  let '(c', n) := getCommitCacheSize checkSign h t c in
  m_prepareCache c' = m_prepareCache c ∧ m_signCache c' = m_signCache c
  ∧ (t <= n → ∃ m', m_commitCache c' !! h = Some m' ∧ t <= Z.of_nat (size m')
     ∧ ∀ k r', m' !! k = Some r' →
         ∃ r, cached (m_commitCache c) h k r ∧ (r' = r ∨ r' = set_signChecked true r)).
Proof.
  intros Ht. unfold getCommitCacheSize, getSizeFromCache.
  destruct (m_commitCache c !! h) as [m|] eqn:Hm.
  2: { destruct (t <=? 0) eqn:E; [apply Z.leb_le in E; lia|]. split_and!; [done|done|lia]. }
  destruct (t <=? Z.of_nat (size m)) eqn:E; [apply Z.leb_le in E|apply Z.leb_gt in E; split_and!; [done|done|lia]].
  pose proof (future_check_cache checkSign h (m_commitCache c) false (wrapU 16 (t - 1)) m Hm) as Hc.
  destruct (checkAndRemoveInvalidFutureReq _ _ _ _ _) as [cache' n]. split_and!; [done|done|].
  intros Hn. destruct Hc as (_ & _ & Hc). destruct (Hc ltac:(lia)) as (m' & Hm' & Hlk). exists m'.
  assert (Hsize : size m' = size m).
  { rewrite <-!size_dom. f_equal. apply set_eq. intros x. rewrite !elem_of_dom.
    destruct (Hlk x) as [-> | ->]; [done|]. by rewrite fmap_is_Some. }
  split_and!; [done|lia|]. intros k r' Hr'. destruct (Hlk k) as [Ek|Ek]; rewrite Hr' in Ek.
  - exists r'. split; [by exists m|by left].
  - symmetry in Ek. apply fmap_Some in Ek as (r & Hr & ->). exists r. split; [by exists m|by right].
Qed.
End sigList.

(** ** Triggering a view change *)

Section trigger.
Context `{UnorderedIter} (toView number : Z).

(** The entries the loop visits, in its order, each with its view. *)
Definition visited (c : PBFTReqCache) : list (Z * (Z * VCReq)) :=
  mjoin ((λ e : Z * gmap Z VCReq, if toView <? e.1 then (λ x, (e.1, x)) <$> uiter e.2 else [])
         <$> uiter (m_recvViewChangeReq c)).

Lemma scan_all_visited c :
  scan_all toView number c
  = foldl (λ s e, scan_entry e.1 number s e.2) (mkScan ∅ MAXVIEW INT64_MAX) (visited c).
Proof.
  unfold scan_all, visited. generalize (mkScan ∅ MAXVIEW INT64_MAX).
  induction (uiter (m_recvViewChangeReq c)) as [|[v m] l IH]; intros s; [done|].
  cbn [fmap list_fmap foldl]. rewrite IH.
  change (mjoin (?x :: ?y)) with (x ++ mjoin y). rewrite foldl_app. f_equal.
  unfold scan_view. simpl. destruct (toView <? v); [|done].
  generalize s. induction (uiter m) as [|e l' IH']; intros s'; [done|]. simpl. apply IH'.
Qed.

Lemma elem_of_visited c v i r :
  (v, (i, r)) ∈ visited c ↔ toView < v ∧ cached (m_recvViewChangeReq c) v i r.
Proof.
  unfold visited, cached. rewrite list_elem_of_join. split.
  - intros (l & Hin & ([w m] & -> & Hm%elem_of_uiter)%list_elem_of_fmap). simpl in Hin.
    destruct (toView <? w) eqn:Hw; [|by apply not_elem_of_nil in Hin].
    apply list_elem_of_fmap in Hin as ([j r'] & [= -> -> ->] & Hj%elem_of_uiter).
    apply Z.ltb_lt in Hw. split; [done|]. by exists m.
  - intros [Hv (m & Hm & Hr)]. eexists. split; [|apply list_elem_of_fmap; exists (v, m); split; [done|by apply elem_of_uiter]].
    simpl. rewrite (proj2 (Z.ltb_lt _ _) Hv). apply list_elem_of_fmap. exists (i, r).
    split; [done|]. by apply elem_of_uiter.
Qed.

(** What the scan has established after the entries [l]. *)
Definition scan_ok (l : list (Z * (Z * VCReq))) (s : vc_scan) : Prop :=
  (∀ v i r, (v, (i, r)) ∈ l → number <= height (vc_msg r) → is_Some (sc_views s !! i))
  ∧ (∀ i v, sc_views s !! i = Some v →
       sc_minView s <= v ∧ ∃ r, (v, (i, r)) ∈ l ∧ number <= height (vc_msg r))
  ∧ sc_minView s <= MAXVIEW
  ∧ (sc_minView s = MAXVIEW ∨ ∃ i r, (sc_minView s, (i, r)) ∈ l ∧ number <= height (vc_msg r)).

Lemma scan_entry_ok l s v i r :
  scan_ok l s → scan_ok (l ++ [(v, (i, r))]) (scan_entry v number s (i, r)).
Proof.
  intros (H1 & H2 & H3 & H4). unfold scan_entry. simpl.
  set (newer := match sc_views s !! i with None => true | Some v' => v' <? v end).
  destruct (newer && (number <=? height (vc_msg r))) eqn:Hc.
  - apply andb_true_iff in Hc as [_ Hh%Z.leb_le].
    assert (Hin : (v, (i, r)) ∈ l ++ [(v, (i, r))])
      by (apply elem_of_app; right; by apply list_elem_of_singleton).
    assert (Hmin : ∀ w, sc_minView s <= w → (if v <? sc_minView s then v else sc_minView s) <= w)
      by (intros w Hw; destruct (v <? sc_minView s) eqn:E; breflect; lia).
    split_and!; simpl; [| |by apply Hmin|].
    + intros w j q [Hl|[= -> -> ->]%list_elem_of_singleton]%elem_of_app Hq; [|by rewrite lookup_insert_eq].
      destruct (decide (i = j)) as [->|]; [by rewrite lookup_insert_eq|].
      rewrite lookup_insert_ne by done. by apply (H1 w j q).
    + intros j w [[<- <-]|[_ Hj]]%lookup_insert_Some.
      * split; [destruct (v <? sc_minView s) eqn:E; breflect; lia|by exists r].
      * destruct (H2 j w Hj) as [Hle (q & Hq & Hn)]. split; [by apply Hmin|].
        exists q. split; [apply elem_of_app; by left|done].
    + destruct (v <? sc_minView s); [right; by exists i, r|].
      destruct H4 as [?|(j & q & Hq & Hn)]; [by left|right; exists j, q].
      split; [apply elem_of_app; by left|done].
  - split_and!; [| |done|].
    + intros w j q [Hl|[= -> -> ->]%list_elem_of_singleton]%elem_of_app Hq; [by apply (H1 w j q)|].
      apply Z.leb_le in Hq. rewrite Hq, andb_true_r in Hc. subst newer.
      destruct (sc_views s !! i); [done|discriminate].
    + intros j w Hj. destruct (H2 j w Hj) as [Hle (q & Hq & Hn)]. split; [done|].
      exists q. split; [apply elem_of_app; by left|done].
    + destruct H4 as [?|(j & q & Hq & Hn)]; [by left|right; exists j, q].
      split; [apply elem_of_app; by left|done].
Qed.

Lemma scan_all_ok c : scan_ok (visited c) (scan_all toView number c).
Proof.
  rewrite scan_all_visited. generalize (visited c). intros l.
  induction l as [|[v [i r]] l IH] using rev_ind.
  - split_and!; simpl; [|done|done|by left]. intros v i r Hn. by apply not_elem_of_nil in Hn.
  - rewrite foldl_app. by apply scan_entry_ok.
Qed.
End trigger.

(** The smallest view asked for is above the view headed for. *)
Lemma canTrigger_minView `{UnorderedIter} f toView number cbn c :
  toView < MAXVIEW → toView < (canTriggerViewChange f toView number cbn c).2.
Proof.
  intros Ht. unfold canTriggerViewChange. simpl.
  destruct (scan_all_ok toView number c) as (_ & _ & _ & [-> | (i & r & [Hr _]%elem_of_visited & _)]); done.
Qed.

(** Node [i] asks for view [v], at height [number] or above. *)
Definition asks (c : PBFTReqCache) (number v i : Z) : Prop :=
  ∃ r, cached (m_recvViewChangeReq c) v i r ∧ number <= height (vc_msg r).

Lemma size_bounded_keys (m : gmap Z Z) n :
  0 <= n → (∀ i v, m !! i = Some v → 0 <= i < n) → Z.of_nat (size m) <= n.
Proof.
  intros Hn Hk. rewrite <-size_dom.
  assert (Hsub : dom m ⊆ (list_to_set (seqZ 0 n) : gset Z)).
  { intros i [v Hv]%elem_of_dom. apply elem_of_list_to_set, elem_of_seqZ.
    specialize (Hk i v Hv). lia. }
  apply subseteq_size in Hsub. rewrite size_list_to_set in Hsub by apply NoDup_seqZ.
  rewrite length_seqZ in Hsub. lia.
Qed.

(** Catching up with other nodes' views.  When [canTriggerViewChange] answers yes
    with [minView], more than [f] distinct nodes ask for a view no lower than
    [minView] (at the highest block or above), and [minView] is above the view
    this node is heading for.  Conversely more than [f] such nodes suffice, in any
    iteration order, unless the block being agreed on is the committed prepare's. *)
Theorem canTriggerViewChange_spec `{UnorderedIter} f toView number cbn n c :
  0 <= f → toView < MAXVIEW → 0 <= n < 2 ^ 16 →
  (∀ v i r, cached (m_recvViewChangeReq c) v i r → 0 <= i < n) →
  let '(yes, minView) := canTriggerViewChange f toView number cbn c in
  (yes = true → toView < minView
     ∧ ∃ S : gset Z, f < Z.of_nat (size S)
       ∧ ∀ i, i ∈ S → ∃ v, minView <= v ∧ asks c number v i)
  ∧ (∀ S : gset Z, f < Z.of_nat (size S) → (∀ i, i ∈ S → ∃ v, toView < v ∧ asks c number v i) →
     cbn ≠ height (m_committedPrepareCache c) → yes = true).
Proof.
  intros Hf Ht Hn Hk. unfold canTriggerViewChange.
  destruct (scan_all_ok toView number c) as (H1 & H2 & H3 & H4).
  set (s := scan_all toView number c) in *.
  assert (Hsize : Z.of_nat (size (sc_views s)) <= n).
  { apply size_bounded_keys; [lia|]. intros i v Hv. destruct (H2 i v Hv) as [_ (r & Hr & _)].
    apply elem_of_visited in Hr as [_ Hr]. by apply Hk in Hr. }
  rewrite wrapU_id by lia. split.
  - intros [Hc%Z.ltb_lt _]%andb_true_iff. split.
    { destruct H4 as [-> | (i & r & Hr%elem_of_visited & _)]; [done|]. by destruct Hr. }
    exists (dom (sc_views s)). rewrite size_dom. split; [done|]. intros i [v Hv]%elem_of_dom.
    destruct (H2 i v Hv) as [Hle (r & Hr%elem_of_visited & Hh)]. exists v. split; [done|].
    exists r. by destruct Hr.
  - intros S HS Hi Hcbn. apply andb_true_iff. split.
    + apply Z.ltb_lt. enough (Hsub : S ⊆ dom (sc_views s))
        by (apply subseteq_size in Hsub; rewrite size_dom in Hsub; lia).
      intros i (v & Hv & r & Hr & Hh)%Hi. apply elem_of_dom, (H1 v i r); [|done].
      by apply elem_of_visited.
    + apply negb_true_iff. destruct (sc_minHeight s =? cbn) eqn:E1; [|done].
      apply Z.eqb_eq in E1. rewrite E1. simpl. by apply Z.eqb_neq.
Qed.

Lemma cached_insert {K U S} `{Countable K, Countable U} (cache : gmap K (gmap U S)) k u s k' u' s' :
  cached (<[k := <[u := s]> (default ∅ (cache !! k))]> cache) k' u' s'
  ↔ (k' = k ∧ u' = u ∧ s' = s) ∨ (¬ (k' = k ∧ u' = u) ∧ cached cache k' u' s').
Proof.
  unfold cached. destruct (decide (k = k')) as [<-|Hk].
  - rewrite lookup_insert_eq. destruct (decide (u = u')) as [<-|Hu].
    + split; [intros (m & [= <-] & Hm); rewrite lookup_insert_eq in Hm; naive_solver|].
      intros [(_ & _ & ->)|[[] _]]; [|done]. eexists. by rewrite lookup_insert_eq.
    + split.
      * intros (m & [= <-] & Hm). rewrite lookup_insert_ne in Hm by done. right. split; [naive_solver|].
        destruct (cache !! k) as [m|]; cbn [default from_option id] in Hm; [by exists m|].
        by rewrite lookup_empty in Hm.
      * intros [(_ & -> & _)|(_ & m & -> & Hm)]; [done|]. eexists. split; [done|]. by rewrite lookup_insert_ne.
  - rewrite lookup_insert_ne by done. naive_solver.
Qed.

(** Erasing a node's expired request does not touch the other nodes. *)
Lemma erase_other q c v i s :
  i ≠ idx (vc_msg q) →
  (cached (m_recvViewChangeReq (eraseExpiredViewChange q c)) v i s ↔ cached (m_recvViewChangeReq c) v i s)
  ∧ m_latestViewChangeReqCache (eraseExpiredViewChange q c) !! i = m_latestViewChangeReqCache c !! i.
Proof.
  intros Hi. unfold eraseExpiredViewChange.
  destruct (m_latestViewChangeReqCache c !! _) as [latest|]; [|done].
  destruct (m_recvViewChangeReq c !! _) as [m|] eqn:Hm; [|done].
  destruct (m !! _) as [r'|]; [|done].
  destruct (vc_id latest =? vc_id r'); simpl; rewrite lookup_delete_ne by done; [|done].
  split; [|done]. unfold cached. destruct (decide (view (vc_msg latest) = v)) as [<-|].
  - rewrite lookup_insert_eq, Hm. split; intros (m0 & [= <-] & Hs); eexists; (split; [done|]).
    + by rewrite lookup_delete_ne in Hs.
    + by rewrite lookup_delete_ne.
  - by rewrite lookup_insert_ne.
Qed.

(** The caches [checkViewChangeReq] leaves, and its verdict. *)
Lemma checkViewChangeReq_cases r n c :
  (checkViewChangeReq r n c = (c, false)
     ∧ (height r < n ∨ ∃ l, m_latestViewChangeReqCache c !! idx r = Some l ∧ n <= height (vc_msg l)
          ∧ (height r < height (vc_msg l) ∨ view r < view (vc_msg l))))
  ∨ (n <= height r
     ∧ (checkViewChangeReq r n c = (c, true)
        ∨ ∃ l, m_latestViewChangeReqCache c !! idx r = Some l ∧ height (vc_msg l) < n
              ∧ checkViewChangeReq r n c = (eraseExpiredViewChange l c, true))
     ∧ ∀ l, m_latestViewChangeReqCache c !! idx r = Some l →
          height (vc_msg l) < n ∨ (height (vc_msg l) <= height r ∧ view (vc_msg l) <= view r)).
Proof.
  unfold checkViewChangeReq. break_if; breflect; [left; split; [done|by left]|].
  destruct (m_latestViewChangeReqCache c !! _) as [l|] eqn:Hl.
  2: { right. split; [done|]. split; [by left|done]. }
  repeat break_if; breflect.
  - right. split_and!; [done|right; by exists l|]. intros ? [= <-]. by left.
  - left. split; [done|right; exists l]. auto.
  - left. split; [done|right; exists l]. auto.
  - right. split_and!; [done|by left|]. intros ? [= <-]. by right.
Qed.

(** What [addViewChangeReq] does, branch by branch: a request below the highest
    block, or below the node's cached request (unless that one is itself below the
    highest block), changes nothing the view-change decision reads; any other
    request becomes both the node's entry for its view and its latest one.  The
    other nodes' entries are kept. *)
Theorem addViewChangeReq_spec r n c :
  let c' := addViewChangeReq r n c in
  let stale := match m_latestViewChangeReqCache c !! idx r with
               | Some l => n <= height (vc_msg l)
                           ∧ (height r < height (vc_msg l) ∨ view r < view (vc_msg l))
               | None => False
               end in
  (height r < n ∨ stale → c' = c)
  ∧ (n <= height r → ¬ stale →
     cached (m_recvViewChangeReq c') (view r) (idx r) r
     ∧ m_latestViewChangeReqCache c' !! idx r = Some r)
  ∧ (cache_wf c → ∀ v i s, i ≠ idx r →
     (cached (m_recvViewChangeReq c') v i s ↔ cached (m_recvViewChangeReq c) v i s)
     ∧ m_latestViewChangeReqCache c' !! i = m_latestViewChangeReqCache c !! i).
Proof.
  cbn zeta. unfold addViewChangeReq.
  destruct (checkViewChangeReq_cases r n c) as [[-> Hrej]|(Hh & Hacc & Hmax)].
  { split_and!; try done. intros Hh Hst. destruct Hrej as [?|(l & Hl & ?)]; [lia|].
    rewrite Hl in Hst. tauto. }
  split_and!.
  - intros [?|Hst]; [lia|]. destruct (m_latestViewChangeReqCache c !! idx r) as [l|] eqn:Hl; [|done].
    specialize (Hmax l eq_refl). lia.
  - intros _ _. destruct Hacc as [-> | (l & _ & _ & ->)]; simpl; rewrite lookup_insert_eq;
      (split; [|done]); apply cached_insert; by left.
  - intros Hwf v i s Hi. assert (Hl : ∀ l, m_latestViewChangeReqCache c !! idx r = Some l → i ≠ idx (vc_msg l)).
    { intros l Hl. by rewrite (wf_latest _ Hwf _ _ Hl). }
    destruct Hacc as [-> | (l & Hlat & _ & ->)]; simpl; rewrite lookup_insert_ne by done;
      rewrite cached_insert.
    + destruct (erase_other r c v i s Hi) as [-> ->]. naive_solver.
    + destruct (erase_other r (eraseExpiredViewChange l c) v i s Hi) as [-> ->].
      destruct (erase_other l c v i s (Hl l Hlat)) as [-> ->]. naive_solver.
Qed.

(** The future check works on a copy of the inner map, so a commit request it
    rejects stays cached: once the remaining requests reach the quorum, the
    signature list written into the block contains the rejected signature. *)
Theorem rejected_commit_in_sigList `{UnorderedIter} checkSign b t c m k r :
  let h := block_hash (m_prepareCache c) in
  sig_keyed (m_commitCache c) → m_commitCache c !! h = Some m → m !! k = Some r →
  isFuture r = true → authentic checkSign r = false → 1 <= t →
  let '(c', n) := getCommitCacheSize checkSign h t c in
  t <= n → ∃ l, generateAndSetSigList b t c' = (set_b_sigList l b, true) ∧ (idx r, sig r) ∈ l.
Proof.
  intros h Hk Hm Hr _ _ Ht. unfold getCommitCacheSize, getSizeFromCache. rewrite Hm.
  pose proof (sig_keyed_checked checkSign h _ false (wrapU 16 (t - 1)) Hk) as Hk'.
  pose proof (future_check_cache checkSign h _ false (wrapU 16 (t - 1)) m Hm) as Hc.
  destruct (t <=? Z.of_nat (size m)) eqn:Hsz; [|apply Z.leb_gt in Hsz; lia]. apply Z.leb_le in Hsz.
  destruct (checkAndRemoveInvalidFutureReq _ _ _ _ _) as [cache' n]; simpl in *. intros Hn.
  destruct Hc as (_ & _ & Hc). destruct (Hc ltac:(lia)) as (m' & Hm' & Hlk).
  assert (Hkm : ∀ k r, m' !! k = Some r → block_hash r = h ∧ k = toHex (sig r))
    by (intros k0 r0; by apply Hk').
  assert (Hsize : size m' = size m).
  { rewrite <-!size_dom. f_equal. apply set_eq. intros x. rewrite !elem_of_dom.
    destruct (Hlk x) as [-> | ->]; [done|]. by rewrite fmap_is_Some. }
  assert (Hlen : zlen (sigListOf m') = Z.of_nat (size m'))
    by (unfold zlen, sigListOf; by rewrite length_fmap, length_uiter).
  exists (sigListOf m'). unfold generateAndSetSigList. simpl. fold h. rewrite Hm', Hlen.
  replace (Z.of_nat (size m') <? t) with false by (symmetry; apply Z.ltb_ge; lia). split; [done|].
  rewrite (sigListOf_keyed h m' Hkm). apply list_elem_of_fmap.
  destruct (Hlk k) as [E|E]; rewrite Hr in E.
  - exists (k, r). split; [done|]. by apply elem_of_uiter.
  - exists (k, set_signChecked true r). split; [by destruct r|]. by apply elem_of_uiter.
Qed.

(** ** Concrete instances *)

(** A commit request of this round and a future one with a forged signature, for
    the prepared hash 5; two view-change requests for view 3. *)
Definition sampleReq (future : bool) (i : Z) : PBFTMsg :=
  set_signChecked (negb future) (set_isFuture future (set_sig [byte.of_Z i] (set_block_hash 5 (set_idx i (set_view 3 (set_height 9 defaultMsg)))))).
Definition sampleCache : PBFTReqCache :=
  let c := set_prepareCache (set_req_msg (sampleReq false 0) defaultPrepare) emptyReqCache in
  let c := addSignReq (sampleReq true 2) (addSignReq (sampleReq false 1) c) in
  let c := addCommitReq (sampleReq true 2) (addCommitReq (sampleReq false 1) c) in
  addViewChangeReq (mkVC 2 (sampleReq false 2)) 9 (addViewChangeReq (mkVC 1 (sampleReq false 1)) 9 c).
Definition sampleMap : gmap string PBFTMsg :=
  <[toHex [byte.of_Z 2] := sampleReq true 2]> (<[toHex [byte.of_Z 1] := sampleReq false 1]> ∅).

Lemma sampleCache_keyed : sig_keyed (m_commitCache sampleCache).
Proof. apply sig_keyed_add, sig_keyed_add, all_empty. Qed.

Lemma quorum_counts_witness :
  (@getSigCacheSize canonicalIter (λ _, false) 5 2 sampleCache).2 = 1
  ∧ (@getCommitCacheSize canonicalIter (λ _, false) 5 2 sampleCache).2 = 1.
Proof.
  destruct (@quorum_counts canonicalIter (λ _, false) 5 2 sampleCache sampleMap sampleMap) as [-> ->];
    [vm_compute; reflexivity|vm_compute; reflexivity|lia|]. split; vm_compute; reflexivity.
Defined.

Lemma sign_quorum_not_skipped_witness :
  (@getSigCacheSize canonicalIter (λ _, true) 5 3 (addSignReq (sampleReq false 3) sampleCache)).2 <= 3.
Proof.
  apply (@sign_quorum_not_skipped canonicalIter (λ _, true) 3 (sampleReq false 3) sampleCache);
    [lia|reflexivity|vm_compute; reflexivity|vm_compute; reflexivity].
Defined.

Lemma sigList_exact_witness :
  match @generateAndSetSigList canonicalIter emptyBlock 2 sampleCache with
  | (b', true) =>
      ∃ m l, m_commitCache sampleCache !! 5 = Some m ∧ b' = set_b_sigList l emptyBlock
      ∧ zlen l = Z.of_nat (size m) ∧ 2 <= zlen l ∧ NoDup l.*2
      ∧ ∀ i sg, (i, sg) ∈ l ↔ ∃ k r, m !! k = Some r ∧ idx r = i ∧ sig r = sg
  | (b', false) => b' = emptyBlock
      ∧ ∀ m, m_commitCache sampleCache !! 5 = Some m → Z.of_nat (size m) < 2
  end.
Proof. exact (@sigList_exact canonicalIter emptyBlock 2 sampleCache sampleCache_keyed). Defined.

Lemma canTriggerViewChange_spec_witness :
  (@canTriggerViewChange canonicalIter 1 2 9 10 sampleCache).1 = true.
Proof.
  assert (Hk : ∀ v i r, cached (m_recvViewChangeReq sampleCache) v i r → 0 <= i < 4).
  { intros v i r (m & Hm & Hr).
    assert (Heq : m_recvViewChangeReq sampleCache
                  = <[3 := <[2 := mkVC 2 (sampleReq false 2)]> (<[1 := mkVC 1 (sampleReq false 1)]> ∅)]> ∅)
      by (vm_compute; reflexivity).
    rewrite Heq in Hm. apply lookup_insert_Some in Hm as [[_ <-]|[_ Hm]]; [|by rewrite lookup_empty in Hm].
    apply lookup_insert_Some in Hr as [[<- _]|[_ Hr]]; [lia|].
    apply lookup_insert_Some in Hr as [[<- _]|[_ Hr]]; [lia|by rewrite lookup_empty in Hr]. }
  pose proof (@canTriggerViewChange_spec canonicalIter 1 2 9 10 4 sampleCache
    ltac:(lia) ltac:(by apply Z.ltb_lt) ltac:(lia) Hk) as Hspec.
  destruct (canTriggerViewChange 1 2 9 10 sampleCache) as [yes mv].
  apply (proj2 Hspec ({[1; 2]} : gset Z)); [by vm_compute| |by vm_compute].
  intros i [->%elem_of_singleton | ->%elem_of_singleton]%elem_of_union; exists 3; (split; [lia|]);
    eexists; (split; [eexists; split; vm_compute; reflexivity|by vm_compute]).
Defined.

Lemma rejected_commit_in_sigList_witness :
  let '(c', n) := @getCommitCacheSize canonicalIter (λ _, false) 5 1 sampleCache in
  n = 1 ∧ ∃ l, @generateAndSetSigList canonicalIter emptyBlock 1 c' = (set_b_sigList l emptyBlock, true)
           ∧ (2, [byte.of_Z 2]) ∈ l.
Proof.
  pose proof (@rejected_commit_in_sigList canonicalIter (λ _, false) emptyBlock 1 sampleCache sampleMap
    (toHex [byte.of_Z 2]) (sampleReq true 2) sampleCache_keyed ltac:(vm_compute; reflexivity)
    ltac:(vm_compute; reflexivity) eq_refl eq_refl ltac:(lia)) as Hw.
  assert (Hn : (@getCommitCacheSize canonicalIter (λ _, false) 5 1 sampleCache).2 = 1) by (by vm_compute).
  change (block_hash (m_prepareCache sampleCache)) with 5 in Hw.
  destruct (getCommitCacheSize (λ _, false) 5 1 sampleCache) as [c' n]. simpl in Hn. subst n.
  split; [reflexivity|]. apply Hw. lia.
Defined.
