(* ===== verification/BlockChain.v ===== *)
(** * The block chain (libblockchain/BlockChainImp.h, BlockChainImp.cpp)

    The system tables a committed block is written to, the block cache, the reads
    and [commitBlock].  A row is keyed by the number or hash whose text form is the
    table key; an insertion with [setForce(true)] replaces the rows of its key; the
    block and header rows hold the block itself, whose encoding round trip is
    [Block.block_decode_encode]. *)
From S2P Require Import Prelude CommonData RLP Crypto BlockHeader TxsParser Block.
Local Open Scope Z_scope.

(** ** The block cache *)

Record BlockCache := mkBlockCache { m_blockCache : gmap Z Block; m_blockCacheFIFO : list Z }.
Definition c_blockCacheSize : Z := 10.

Section cache.
Context `{Crypto}.

(** [BlockCache::add]. *)
Definition blockCache_add (b : Block) (c : BlockCache) : BlockCache :=
  let c :=
    if c_blockCacheSize <? Z.of_nat (size (m_blockCache c)) then
      match m_blockCacheFIFO c with
      | [] => c
      | firstHash :: fifo =>
          let m := delete firstHash (m_blockCache c) in
          if c_blockCacheSize <? Z.of_nat (size m) then mkBlockCache ∅ [] else mkBlockCache m fifo
      end
    else c in
  let blockHash := headerHash (b_header b) in
  mkBlockCache
    (match m_blockCache c !! blockHash with
     | Some _ => m_blockCache c
     | None => <[blockHash := b]> (m_blockCache c)
     end)
    (m_blockCacheFIFO c ++ [blockHash]).

(** [BlockCache::get]. *)
Definition blockCache_get (hash : Z) (c : BlockCache) : option Block := m_blockCache c !! hash.
End cache.

(** ** The chain *)

Record BlockChainImp := mkChain {
  bc_hash2block : gmap Z Block;
  bc_number2hash : gmap Z Z;
  bc_currentNumber : option Z;
  bc_totalTx : option Z;
  bc_totalFailed : option Z;
  bc_txHash2block : gmap Z (Z * Z);
  bc_block2nonces : gmap Z (list Z);
  bc_hash2header : gmap Z (BlockHeader * list (Z * bytes));
  bc_blockNumber : Z;
  bc_blockCache : BlockCache }.
Definition set_bc_hash2block v (s : BlockChainImp) : BlockChainImp := mkChain v (bc_number2hash
  s) (bc_currentNumber s) (bc_totalTx s) (bc_totalFailed s) (bc_txHash2block s) (bc_block2nonces
  s) (bc_hash2header s) (bc_blockNumber s) (bc_blockCache s).
Definition set_bc_number2hash v (s : BlockChainImp) : BlockChainImp := mkChain (bc_hash2block s)
  v (bc_currentNumber s) (bc_totalTx s) (bc_totalFailed s) (bc_txHash2block s) (bc_block2nonces
  s) (bc_hash2header s) (bc_blockNumber s) (bc_blockCache s).
Definition set_bc_currentNumber v (s : BlockChainImp) : BlockChainImp := mkChain (bc_hash2block
  s) (bc_number2hash s) v (bc_totalTx s) (bc_totalFailed s) (bc_txHash2block s) (bc_block2nonces
  s) (bc_hash2header s) (bc_blockNumber s) (bc_blockCache s).
Definition set_bc_totalTx v (s : BlockChainImp) : BlockChainImp := mkChain (bc_hash2block s)
  (bc_number2hash s) (bc_currentNumber s) v (bc_totalFailed s) (bc_txHash2block s)
  (bc_block2nonces s) (bc_hash2header s) (bc_blockNumber s) (bc_blockCache s).
Definition set_bc_totalFailed v (s : BlockChainImp) : BlockChainImp := mkChain (bc_hash2block s)
  (bc_number2hash s) (bc_currentNumber s) (bc_totalTx s) v (bc_txHash2block s) (bc_block2nonces
  s) (bc_hash2header s) (bc_blockNumber s) (bc_blockCache s).
Definition set_bc_txHash2block v (s : BlockChainImp) : BlockChainImp := mkChain (bc_hash2block
  s) (bc_number2hash s) (bc_currentNumber s) (bc_totalTx s) (bc_totalFailed s) v
  (bc_block2nonces s) (bc_hash2header s) (bc_blockNumber s) (bc_blockCache s).
Definition set_bc_block2nonces v (s : BlockChainImp) : BlockChainImp := mkChain (bc_hash2block
  s) (bc_number2hash s) (bc_currentNumber s) (bc_totalTx s) (bc_totalFailed s) (bc_txHash2block
  s) v (bc_hash2header s) (bc_blockNumber s) (bc_blockCache s).
Definition set_bc_hash2header v (s : BlockChainImp) : BlockChainImp := mkChain (bc_hash2block s)
  (bc_number2hash s) (bc_currentNumber s) (bc_totalTx s) (bc_totalFailed s) (bc_txHash2block s)
  (bc_block2nonces s) v (bc_blockNumber s) (bc_blockCache s).
Definition set_bc_blockNumber v (s : BlockChainImp) : BlockChainImp := mkChain (bc_hash2block s)
  (bc_number2hash s) (bc_currentNumber s) (bc_totalTx s) (bc_totalFailed s) (bc_txHash2block s)
  (bc_block2nonces s) (bc_hash2header s) v (bc_blockCache s).
Definition set_bc_blockCache v (s : BlockChainImp) : BlockChainImp := mkChain (bc_hash2block s)
  (bc_number2hash s) (bc_currentNumber s) (bc_totalTx s) (bc_totalFailed s) (bc_txHash2block s)
  (bc_block2nonces s) (bc_hash2header s) (bc_blockNumber s) v.

Inductive CommitResult := CommitOK | ERROR_NUMBER | ERROR_PARENT_HASH | ERROR_COMMITTING.

#[export] Instance commitResult_eq_dec : EqDecision CommitResult.
Proof. solve_decision. Defined.

(** [obtainNumber] and [number]; the memo is filled on the first call. *)
Definition obtainNumber (c : BlockChainImp) : Z := default 0 (bc_currentNumber c).
Definition number (c : BlockChainImp) : Z :=
  if bc_blockNumber c =? -1 then obtainNumber c else bc_blockNumber c.
Definition number_memo (c : BlockChainImp) : BlockChainImp := set_bc_blockNumber (number c) c.

(** [numberHash]: [h256("")] is zero. *)
Definition numberHash (i : Z) (c : BlockChainImp) : Z := default 0 (bc_number2hash c !! i).

Section chain.
Context `{Crypto} (failed : TransactionReceipt → bool).

(** [getBlock(hash, number)]: a miss fills the cache. *)
Definition getBlockOfHash (blockHash : Z) (c : BlockChainImp) : BlockChainImp * option Block :=
  match blockCache_get blockHash (bc_blockCache c) with
  | Some b => (c, Some b)
  | None =>
      match bc_hash2block c !! blockHash with
      | Some b => (set_bc_blockCache (blockCache_add b (bc_blockCache c)) c, Some b)
      | None => (c, None)
      end
  end.

(** [getBlock(number)]. *)
Definition getBlock (n : Z) (c : BlockChainImp) : BlockChainImp * option Block :=
  let c := number_memo c in
  if number c <? n then (c, None)
  else let blockHash := numberHash n c in
       if negb (blockHash =? 0) then getBlockOfHash blockHash c else (c, None).

(** [getBlockByHash] and [getBlockByNumber]. *)
Definition getBlockByHash (blockHash : Z) (c : BlockChainImp) : BlockChainImp * option Block :=
  getBlockOfHash blockHash c.
Definition getBlockByNumber (i : Z) (c : BlockChainImp) : BlockChainImp * option Block :=
  let c := number_memo c in if number c <? i then (c, None) else getBlock i c.

(** [Block::rlpP], which is also what the rows of the blocks hold. *)
Definition rlpP (b : Block) : result eth_exn bytes :=
  match block_encode b with Ok (_, out) => Ok out | Throw e => Throw e end.

(** [getBlockRLP(hash, number)], [getBlockRLP(number)] and [getBlockRLPByNumber]; the
    cache is not filled. *)
Definition getBlockRLPOfHash (blockHash : Z) (c : BlockChainImp) : option (result eth_exn bytes) :=
  match blockCache_get blockHash (bc_blockCache c) with
  | Some b => Some (rlpP b)
  | None => rlpP <$> bc_hash2block c !! blockHash
  end.
Definition getBlockRLP (i : Z) (c : BlockChainImp) : BlockChainImp * option (result eth_exn bytes) :=
  let c := number_memo c in
  if number c <? i then (c, None)
  else (c, match bc_number2hash c !! i with Some blockHash => getBlockRLPOfHash blockHash c | None => None end).
Definition getBlockRLPByNumber (i : Z) (c : BlockChainImp) : BlockChainImp * option (result eth_exn bytes) :=
  let c := number_memo c in if number c <? i then (c, None) else getBlockRLP i c.

(** [getBlockHeaderInfoByHash] and [getBlockHeaderInfo]. *)
Definition getBlockHeaderFromBlock (b : option Block) : option (BlockHeader * list (Z * bytes)) :=
  (λ b, (b_header b, b_sigList b)) <$> b.
Definition getBlockHeaderInfoByHash (blockHash : Z) (c : BlockChainImp)
  : BlockChainImp * option (BlockHeader * list (Z * bytes)) :=
  match blockCache_get blockHash (bc_blockCache c) with
  | Some b => (c, getBlockHeaderFromBlock (Some b))
  | None =>
      match bc_hash2header c !! blockHash with
      | Some row => (c, Some row)
      | None => let '(c, b) := getBlockOfHash blockHash c in (c, getBlockHeaderFromBlock b)
      end
  end.
Definition getBlockHeaderInfo (n : Z) (c : BlockChainImp)
  : BlockChainImp * option (BlockHeader * list (Z * bytes)) :=
  let c := number_memo c in
  if number c <? n then (c, None)
  else let blockHash := numberHash n c in
       if negb (blockHash =? 0) then getBlockHeaderInfoByHash blockHash c else (c, None).

(** [getTxByHash]: [None] is the empty transaction. *)
Definition getTxByHash (txHash : Z) (c : BlockChainImp) : BlockChainImp * option Transaction :=
  match bc_txHash2block c !! txHash with
  | None => (c, None)
  | Some (n, i) =>
      let '(c, b) := getBlockByNumber n c in
      match b with
      | None => (c, None)
      | Some b => (c, b_transactions b !! Z.to_nat i)
      end
  end.

(** [getNonces]: no result for a number above the chain. *)
Definition getNonces (n : Z) (c : BlockChainImp) : option (list Z) :=
  if number c <? n then None else Some (default [] (bc_block2nonces c !! n)).

(** [totalTransactionCount] and [totalFailedTransactionCount], the counts. *)
Definition totalTransactionCount (c : BlockChainImp) : Z := default 0 (bc_totalTx c).
Definition totalFailedTransactionCount (c : BlockChainImp) : Z := default 0 (bc_totalFailed c).

(** ** Committing *)

Definition writeHash2Block (b : Block) (c : BlockChainImp) : BlockChainImp :=
  set_bc_hash2block (<[headerHash (b_header b) := b]> (bc_hash2block c)) c.
Definition writeNumber2Hash (b : Block) (c : BlockChainImp) : BlockChainImp :=
  set_bc_number2hash (<[m_number (b_header b) := headerHash (b_header b)]> (bc_number2hash c)) c.
(** [writeNumber] updates the row the genesis block created. *)
Definition writeNumber (b : Block) (c : BlockChainImp) : BlockChainImp :=
  set_bc_currentNumber (match bc_currentNumber c with Some _ => Some (m_number (b_header b)) | None => None end) c.
Definition writeTotalTransactionCount (b : Block) (c : BlockChainImp) : BlockChainImp :=
  let failedTransactions := wrapS 32 (zlen (filter (λ r, failed r = true) (b_receipts b))) in
  let c := set_bc_totalTx
             (Some (match bc_totalTx c with
                    | Some n => wrapS 64 (n + zlen (b_transactions b))
                    | None => zlen (b_transactions b)
                    end)) c in
  set_bc_totalFailed
    (Some (match bc_totalFailed c with
           | Some n => wrapS 64 (n + failedTransactions)
           | None => failedTransactions
           end)) c.

(** [writeTxToBlock]: the rows of the transactions, at their indices, and the
    nonces. *)
Fixpoint tx_rows (n i : Z) (txs : list Transaction) (m : gmap Z (Z * Z)) : gmap Z (Z * Z) :=
  match txs with
  | [] => m
  | tx :: txs => tx_rows n (i + 1) txs (<[tx_sha3 tx := (n, i)]> m)
  end.
Definition writeTxToBlock (b : Block) (c : BlockChainImp) : BlockChainImp :=
  let n := m_number (b_header b) in
  set_bc_block2nonces (<[n := tx_nonce <$> b_transactions b]> (bc_block2nonces c))
    (set_bc_txHash2block (tx_rows n 0 (b_transactions b) (bc_txHash2block c)) c).
Definition writeHash2BlockHeader (b : Block) (c : BlockChainImp) : BlockChainImp :=
  set_bc_hash2header (<[headerHash (b_header b) := (b_header b, b_sigList b)]> (bc_hash2header c)) c.

(** [isBlockShouldCommit]. *)
Definition isBlockShouldCommit (n : Z) (c : BlockChainImp) : bool := n =? number c + 1.

(** The checks [commitBlock] makes before taking [commitMutex]. *)
Definition commit_precheck (b : Block) (c : BlockChainImp) : option CommitResult :=
  if negb (isBlockShouldCommit (m_number (b_header b)) c) then Some ERROR_NUMBER
  else if negb (m_parentHash (b_header b) =? numberHash (number c) c) then Some ERROR_PARENT_HASH
  else None.

(** What it does holding [commitMutex]: the number is checked again, the tables
    written and, unless the database refuses, made durable. *)
Definition commit_locked (dbOk : bool) (b : Block) (c : BlockChainImp) : BlockChainImp * CommitResult :=
  if negb (isBlockShouldCommit (m_number (b_header b)) c) then (c, ERROR_PARENT_HASH)
  else if negb dbOk then (c, ERROR_COMMITTING)
  else
    let c := writeHash2BlockHeader b (writeTxToBlock b (writeTotalTransactionCount b
               (writeNumber b (writeNumber2Hash b (writeHash2Block b c))))) in
    let c := set_bc_blockNumber (m_number (b_header b)) c in
    (set_bc_blockCache (blockCache_add b (bc_blockCache c)) c, CommitOK).

(** [commitBlock], when no other commit runs between the two. *)
Definition commitBlock (dbOk : bool) (b : Block) (c : BlockChainImp) : BlockChainImp * CommitResult :=
  match commit_precheck b c with Some e => (c, e) | None => commit_locked dbOk b c end.

(** [checkAndBuildGenesisBlock] on empty tables: the genesis block and what is
    written of it (the consensus and configuration tables apart). *)
Definition genesisBlock (timeStamp : Z) (mark : bytes) : Block :=
  let b := setEmptyBlock timeStamp emptyBlock in
  set_b_header (appendExtraDataArray mark (b_header b)) b.
Definition genesisChain (g : Block) : BlockChainImp :=
  mkChain {[headerHash (b_header g) := g]} {[m_number (b_header g) := headerHash (b_header g)]}
    (Some 0) None None ∅ ∅ ∅ 0 (mkBlockCache ∅ []).
End chain.

(** ** The chain as the other components see it *)

Section specification.
Context `{Crypto} (failed : TransactionReceipt → bool).

(** Block [b] is the chain's block of height [n]. *)
Definition block_at (c : BlockChainImp) (n : Z) (b : Block) : Prop :=
  bc_number2hash c !! n = Some (headerHash (b_header b))
  ∧ bc_hash2block c !! headerHash (b_header b) = Some b ∧ m_number (b_header b) = n.

Record chain_inv (c : BlockChainImp) : Prop := {
  ci_current : bc_currentNumber c = Some (number c);
  ci_number : 0 <= number c;
  ci_blocks : ∀ n, 0 <= n <= number c → ∃ b, block_at c n b
    ∧ (1 <= n → m_parentHash (b_header b) = numberHash (n - 1) c);
  ci_keyed : ∀ h b, bc_hash2block c !! h = Some b → headerHash (b_header b) = h;
  ci_cache : ∀ h b, blockCache_get h (bc_blockCache c) = Some b → bc_hash2block c !! h = Some b }.

(** Two threads commit blocks, consensus and synchronisation, and others read: a
    commit passes its first checks, waits among the pending ones, and later takes
    the lock.  Distinct blocks have distinct header hashes. *)
Inductive chain_step : BlockChainImp * list Block → BlockChainImp * list Block → Prop :=
| step_precheck b c p : commit_precheck b c = None → chain_step (c, p) (c, b :: p)
| step_lock dbOk b c p1 p2 :
    bc_hash2block c !! headerHash (b_header b) = None →
    chain_step (c, p1 ++ b :: p2) ((commit_locked failed dbOk b c).1, p1 ++ p2)
| step_read n c p : chain_step (c, p) ((getBlockByNumber n c).1, p).

(** A pending block extends the block below it. *)
Definition pending_ok (c : BlockChainImp) (b : Block) : Prop :=
  1 <= m_number (b_header b) <= number c + 1
  ∧ m_parentHash (b_header b) = numberHash (m_number (b_header b) - 1) c.
Definition world_inv (w : BlockChainImp * list Block) : Prop := chain_inv w.1 ∧ Forall (pending_ok w.1) w.2.
End specification.

(** ** The interface the consensus engine uses (BlockChainInterface.h) *)

Class BlockChainInterface (C : Type) := {
  bci_number : C → Z;
  bci_numberHash : Z → C → Z;
  bci_getBlockByHash : Z → C → C * option Block;
  bci_getBlockByNumber : Z → C → C * option Block;
  bci_commitBlock : bool → Block → C → C * CommitResult }.

(** What a chain in a state satisfying [ok] promises: reads change nothing visible;
    a commit succeeds only for the next height on top of the current hash, and then
    appends the block; a failed commit changes nothing. *)
Class BlockChainSpec `{Crypto} (C : Type) `{BlockChainInterface C} (ok : C → Prop) := {
  bcs_number : ∀ c, ok c → 0 <= bci_number c;
  bcs_read : ∀ n c, ok c →
    let c' := (bci_getBlockByNumber n c).1 in
    ok c' ∧ bci_number c' = bci_number c ∧ ∀ m, bci_numberHash m c' = bci_numberHash m c;
  bcs_commit : ∀ dbOk b c c', ok c → bci_commitBlock dbOk b c = (c', CommitOK) →
    m_number (b_header b) = bci_number c + 1
    ∧ m_parentHash (b_header b) = bci_numberHash (bci_number c) c
    ∧ bci_number c' = bci_number c + 1
    ∧ bci_numberHash (bci_number c') c' = headerHash (b_header b)
    ∧ ∀ n, n <= bci_number c → bci_numberHash n c' = bci_numberHash n c;
  bcs_fail : ∀ dbOk b c c' r, bci_commitBlock dbOk b c = (c', r) → r ≠ CommitOK → c' = c }.

(** What a client that commits many blocks relies on besides: the chain stays [ok] when
    the new block's hash is not that of a stored one, the blocks it holds are found under
    their height, and a commit the database accepts fails only for a wrong height or
    parent. *)
Class BlockChainGrowth `{Crypto} (C : Type) `{BlockChainInterface C} (ok : C → Prop) (fresh : Z → C → Prop) := {
  bcg_spec :: BlockChainSpec C ok;
  bcg_commit : ∀ dbOk b c c', ok c → fresh (headerHash (b_header b)) c → bci_commitBlock dbOk b c = (c', CommitOK) →
    ok c' ∧ ∀ h, fresh h c → h ≠ headerHash (b_header b) → fresh h c';
  bcg_read : ∀ n c h, ok c → fresh h c → fresh h (bci_getBlockByNumber n c).1;
  bcg_found : ∀ n c, ok c → 0 <= n <= bci_number c →
    ∃ b, (bci_getBlockByNumber n c).2 = Some b ∧ m_number (b_header b) = n
      ∧ headerHash (b_header b) = bci_numberHash n c;
  bcg_accept : ∀ b c, ok c → m_number (b_header b) = bci_number c + 1 →
    m_parentHash (b_header b) = bci_numberHash (bci_number c) c → (bci_commitBlock true b c).2 = CommitOK }.

#[export] Instance chain_interface `{Crypto} (failed : TransactionReceipt → bool)
  : BlockChainInterface BlockChainImp := {|
  bci_number := number;
  bci_numberHash := numberHash;
  bci_getBlockByHash := getBlockByHash;
  bci_getBlockByNumber := getBlockByNumber;
  bci_commitBlock := commitBlock failed |}.

(** ** The block cache is bounded *)

Section cache_props.
Context `{Crypto}.

(** The queue covers the cache, and the cache holds at most eleven blocks. *)
Definition cache_inv (c : BlockCache) : Prop :=
  Z.of_nat (size (m_blockCache c)) <= c_blockCacheSize + 1
  ∧ (size (m_blockCache c) <= length (m_blockCacheFIFO c))%nat
  ∧ ∀ h b, m_blockCache c !! h = Some b → headerHash (b_header b) = h.

Lemma blockCache_add_inv b c : cache_inv c → cache_inv (blockCache_add b c).
Proof.
  intros (Hs & Hl & Hk). unfold blockCache_add.
  set (c1 := if c_blockCacheSize <? Z.of_nat (size (m_blockCache c)) then _ else c).
  assert (H1 : Z.of_nat (size (m_blockCache c1)) <= c_blockCacheSize
             ∧ (size (m_blockCache c1) <= length (m_blockCacheFIFO c1))%nat
             ∧ ∀ h b, m_blockCache c1 !! h = Some b → headerHash (b_header b) = h).
  { subst c1. destruct (c_blockCacheSize <? Z.of_nat (size (m_blockCache c))) eqn:E;
      [|apply Z.ltb_ge in E; done]. apply Z.ltb_lt in E.
    destruct (m_blockCacheFIFO c) as [|h0 fifo] eqn:Hf; [unfold c_blockCacheSize in *; simpl in *; lia|].
    destruct (c_blockCacheSize <? Z.of_nat (size (delete h0 (m_blockCache c)))) eqn:E2; simpl.
    - rewrite map_size_empty. split_and!; [by vm_compute|lia|]. intros h b' Hn. simpl in Hn. by rewrite lookup_empty in Hn.
    - apply Z.ltb_ge in E2. split_and!; [done| |intros h b' [_ Hn]%lookup_delete_Some; by apply Hk].
      rewrite map_size_delete. simpl in Hl. destruct (m_blockCache c !! h0) eqn:E3; simpl; [lia|].
      rewrite map_size_delete_None in E2 by done. lia. }
  destruct H1 as (H1 & H2 & H3). unfold cache_inv; simpl. rewrite length_app. simpl.
  destruct (m_blockCache c1 !! headerHash (b_header b)) eqn:E.
  - split_and!; [lia|lia|done].
  - rewrite map_size_insert_None by done. split_and!; [lia|lia|].
    intros h b' [[<- <-]|[_ Hb]]%lookup_insert_Some; [done|by apply H3].
Qed.

(** However blocks are added to the block cache, it holds at most eleven of them,
    one more than [c_blockCacheSize], and only under their own header hash. *)
Theorem blockCache_bounded (bs : list Block) :
  let c := foldl (λ c b, blockCache_add b c) (mkBlockCache ∅ []) bs in
  Z.of_nat (size (m_blockCache c)) <= c_blockCacheSize + 1
  ∧ ∀ h b, blockCache_get h c = Some b → headerHash (b_header b) = h.
Proof.
  assert (Hc : cache_inv (foldl (λ c b, blockCache_add b c) (mkBlockCache ∅ []) bs)).
  { induction bs as [|b bs IH] using rev_ind.
    - split_and!; [by vm_compute|done|]. intros h b Hn. simpl in Hn. by rewrite lookup_empty in Hn.
    - rewrite foldl_app. by apply blockCache_add_inv. }
  destruct Hc as (? & _ & ?). by split.
Qed.
End cache_props.

(** ** The chain grows by linked blocks and never rewrites them *)

Section chain_props.
Context `{Crypto} (failed : TransactionReceipt → bool).

Lemma blockCache_add_stored b c (m : gmap Z Block) :
  (∀ h b, m_blockCache c !! h = Some b → m !! h = Some b) → m !! headerHash (b_header b) = Some b →
  ∀ h b', m_blockCache (blockCache_add b c) !! h = Some b' → m !! h = Some b'.
Proof.
  intros Hc Hb h b'. unfold blockCache_add.
  set (c1 := if c_blockCacheSize <? Z.of_nat (size (m_blockCache c)) then _ else c).
  assert (H1 : ∀ h b, m_blockCache c1 !! h = Some b → m !! h = Some b).
  { subst c1. break_if; [|done]. destruct (m_blockCacheFIFO c); [done|]. break_if; simpl; intros h0 b0.
    - by rewrite lookup_empty.
    - intros [_ Hn]%lookup_delete_Some. by apply Hc. }
  simpl. destruct (m_blockCache c1 !! headerHash (b_header b)); [by apply H1|].
  intros [[<- <-]|[_ Hn]]%lookup_insert_Some; [done|by apply H1].
Qed.

(** Chains with the same tables and number, as far as blocks are concerned. *)
Definition same_blocks (c c' : BlockChainImp) : Prop :=
  number c' = number c ∧ bc_currentNumber c' = bc_currentNumber c
  ∧ bc_number2hash c' = bc_number2hash c ∧ bc_hash2block c' = bc_hash2block c.

Lemma same_blocks_inv c c' :
  same_blocks c c' → (∀ h b, blockCache_get h (bc_blockCache c') = Some b → bc_hash2block c !! h = Some b) →
  chain_inv c → chain_inv c'.
Proof.
  intros (E1 & E2 & E3 & E4) Hc [H1 H2 H3 H4 H5]. unfold block_at, numberHash in *.
  split; unfold block_at, numberHash; by rewrite ?E1, ?E2, ?E3, ?E4.
Qed.

Lemma number_memo_same c : chain_inv c → same_blocks c (number_memo c) ∧ chain_inv (number_memo c).
Proof.
  intros Hi. assert (Hs : same_blocks c (number_memo c)).
  { split_and!; try done. pose proof (ci_number _ Hi) as Hn. unfold number_memo, number at 1. simpl.
    destruct (number c =? -1) eqn:E; [apply Z.eqb_eq in E; lia|done]. }
  split; [done|]. apply (same_blocks_inv c); [done| |done]. apply (ci_cache _ Hi).
Qed.

(** A read changes the memo and the block cache only. *)
Lemma getBlockOfHash_same h c :
  chain_inv c → same_blocks c (getBlockOfHash h c).1 ∧ chain_inv (getBlockOfHash h c).1.
Proof.
  intros Hi. unfold getBlockOfHash. destruct (blockCache_get h (bc_blockCache c)); [done|].
  destruct (bc_hash2block c !! h) as [b|] eqn:Hb; [|done].
  assert (Hs : same_blocks c (set_bc_blockCache (blockCache_add b (bc_blockCache c)) c)) by done.
  split; [done|]. apply (same_blocks_inv c); [done| |done]. simpl.
  apply blockCache_add_stored; [apply (ci_cache _ Hi)|]. by rewrite (ci_keyed _ Hi h b Hb).
Qed.

Lemma same_blocks_trans c1 c2 c3 : same_blocks c1 c2 → same_blocks c2 c3 → same_blocks c1 c3.
Proof. unfold same_blocks. intuition congruence. Qed.

Lemma getBlock_same n c : chain_inv c → same_blocks c (getBlock n c).1 ∧ chain_inv (getBlock n c).1.
Proof.
  intros [Hs Hi]%number_memo_same. unfold getBlock. break_if; [done|]. break_if; [|done].
  destruct (getBlockOfHash_same (numberHash n (number_memo c)) _ Hi).
  split; [by eapply same_blocks_trans|done].
Qed.

Lemma getBlockByNumber_same n c :
  chain_inv c → same_blocks c (getBlockByNumber n c).1 ∧ chain_inv (getBlockByNumber n c).1.
Proof.
  intros [Hs Hi]%number_memo_same. unfold getBlockByNumber. break_if; [done|].
  destruct (getBlock_same n _ Hi). split; [by eapply same_blocks_trans|done].
Qed.

(** Reading finds the block of each height, cached or not. *)
Lemma getBlockByNumber_at n b c :
  chain_inv c → block_at c n b → n <= number c → headerHash (b_header b) ≠ 0 →
  (getBlockByNumber n c).2 = Some b.
Proof.
  intros Hi (H1 & H2 & H3) Hn H0.
  destruct (number_memo_same c Hi) as [(E & _ & E2 & E3) Hi1].
  destruct (number_memo_same _ Hi1) as [(E' & _ & E2' & E3') Hi2].
  unfold getBlockByNumber. cbn zeta. rewrite E, (proj2 (Z.ltb_ge _ _) Hn).
  unfold getBlock. cbn zeta. rewrite E', E, (proj2 (Z.ltb_ge _ _) Hn).
  unfold numberHash. rewrite E2', E2, H1. cbn [default from_option id].
  rewrite (proj2 (Z.eqb_neq _ _) H0). simpl. unfold getBlockOfHash.
  destruct (blockCache_get _ _) as [b'|] eqn:Hg.
  - apply (ci_cache _ Hi2) in Hg. rewrite E3', E3, H2 in Hg. by simplify_eq/=.
  - rewrite E3', E3, H2. done.
Qed.

Lemma number_set n c : bc_blockNumber c = n → 0 <= n → number c = n.
Proof. intros E Hn. unfold number. rewrite E. destruct (n =? -1) eqn:E1; [apply Z.eqb_eq in E1; lia|done]. Qed.

(** A successful commit appends. *)
Lemma commit_appends dbOk b c c' :
  chain_inv c → commit_locked failed dbOk b c = (c', CommitOK) →
  m_number (b_header b) = number c + 1 ∧ number c' = number c + 1
  ∧ bc_currentNumber c' = Some (number c')
  ∧ bc_number2hash c' = <[number c + 1 := headerHash (b_header b)]> (bc_number2hash c)
  ∧ bc_hash2block c' = <[headerHash (b_header b) := b]> (bc_hash2block c)
  ∧ bc_blockCache c' = blockCache_add b (bc_blockCache c).
Proof.
  intros Hi. unfold commit_locked, isBlockShouldCommit.
  destruct (m_number (b_header b) =? number c + 1) eqn:E; [|done]. apply Z.eqb_eq in E.
  destruct dbOk; [|done]. intros [= <-]. pose proof (ci_number _ Hi) as Hn.
  match goal with |- _ ∧ number ?x = _ ∧ _ => assert (Hm : number x = number c + 1) by (by apply number_set; [|lia]) end.
  rewrite Hm. split_and!; simpl; rewrite ?E; try done. by rewrite (ci_current _ Hi).
Qed.

Lemma commit_fails dbOk b c r : (commit_locked failed dbOk b c).2 = r → r ≠ CommitOK → (commit_locked failed dbOk b c).1 = c.
Proof. unfold commit_locked. repeat break_if; simpl; congruence. Qed.

Lemma commit_block_at dbOk b c c' n b0 :
  chain_inv c → bc_hash2block c !! headerHash (b_header b) = None →
  commit_locked failed dbOk b c = (c', CommitOK) → n <= number c → block_at c n b0 → block_at c' n b0.
Proof.
  intros Hi Hf Hc Hn (H1 & H2 & H3).
  destruct (commit_appends _ _ _ _ Hi Hc) as (_ & _ & _ & E1 & E2 & _). unfold block_at.
  rewrite E1, E2, !lookup_insert_ne; [done| |lia]. intros E. rewrite E in Hf. congruence.
Qed.

Lemma commit_inv dbOk b c c' :
  chain_inv c → pending_ok c b → bc_hash2block c !! headerHash (b_header b) = None →
  commit_locked failed dbOk b c = (c', CommitOK) → chain_inv c'.
Proof.
  intros Hi [_ Hp] Hf Hc. pose proof (ci_number _ Hi) as Hn0.
  destruct (commit_appends _ _ _ _ Hi Hc) as (Hb & Hn & Hcur & E1 & E2 & E3).
  assert (Hold : ∀ m, m <= number c → numberHash m c' = numberHash m c).
  { intros m Hm. unfold numberHash. rewrite E1, lookup_insert_ne by lia. done. }
  split; [done|lia| | |].
  - intros n Hrange. destruct (decide (n = number c + 1)) as [->|Hne].
    + exists b. split; [|intros _; rewrite Hold by lia; by rewrite <-Hb].
      unfold block_at. by rewrite E1, E2, !lookup_insert_eq.
    + destruct (ci_blocks _ Hi n ltac:(lia)) as (b0 & Hb0 & Hp0). exists b0. split.
      * apply (commit_block_at dbOk b c); [done|done|done|lia|done].
      * intros H1. rewrite Hold by lia. by apply Hp0.
  - intros h b0. rewrite E2. intros [[<- <-]|[_ Hh]]%lookup_insert_Some; [done|by apply (ci_keyed _ Hi)].
  - intros h b0. unfold blockCache_get. rewrite E2, E3. apply blockCache_add_stored.
    + intros h1 b1 Hh1%(ci_cache _ Hi). rewrite lookup_insert_ne; [done|]. congruence.
    + apply lookup_insert_eq.
Qed.

Lemma same_pending c c' b : same_blocks c c' → pending_ok c b → pending_ok c' b.
Proof. intros (E1 & _ & E2 & _). unfold pending_ok, numberHash. by rewrite E1, E2. Qed.

Lemma chain_step_inv w w' : chain_step failed w w' → world_inv w → world_inv w'.
Proof.
  intros Hstep [Hi Hp]. destruct Hstep as [b c p Hpre|dbOk b c p1 p2 Hf|n c p]; simpl in *.
  - split; [done|]. constructor; [|done]. unfold commit_precheck, isBlockShouldCommit in Hpre.
    destruct (m_number (b_header b) =? number c + 1) eqn:E1; [|done]. simpl in Hpre. apply Z.eqb_eq in E1.
    destruct (m_parentHash (b_header b) =? numberHash (number c) c) eqn:E2; [|done].
    apply Z.eqb_eq in E2. pose proof (ci_number _ Hi). split; simpl; [lia|].
    rewrite E1, E2. by replace (number c + 1 - 1) with (number c) by lia.
  - apply Forall_app in Hp as [Hp1 [Hb Hp2]%Forall_cons].
    assert (Hps : Forall (pending_ok c) (p1 ++ p2)) by (by apply Forall_app).
    destruct (commit_locked failed dbOk b c) as [c' r] eqn:Hc; simpl.
    assert (Hr : r = CommitOK ∨ c' = c).
    { destruct (decide (r = CommitOK)) as [|Hne]; [by left|right].
      pose proof (commit_fails dbOk b c r) as Hfail. rewrite Hc in Hfail. by apply Hfail. }
    destruct Hr as [-> | ->]; [|done]. split; [by eapply commit_inv|].
    destruct (commit_appends _ _ _ _ Hi Hc) as (_ & Hn & _ & E1 & _).
    eapply Forall_impl; [exact Hps|]. intros b' [Hr Hpar]. split; simpl; [lia|]. rewrite Hpar. unfold numberHash.
    rewrite E1, lookup_insert_ne by lia. done.
  - destruct (getBlockByNumber_same n c Hi) as [Hs Hi']. split; [done|].
    eapply Forall_impl; [exact Hp|]. intros b. by apply same_pending.
Qed.

Lemma chain_step_append w w' n b :
  chain_step failed w w' → world_inv w → n <= number w.1 → block_at w.1 n b →
  number w.1 <= number w'.1 ∧ block_at w'.1 n b.
Proof.
  intros Hstep [Hi Hp] Hn Hb. destruct Hstep as [b0 c p Hpre|dbOk b0 c p1 p2 Hf|m c p]; simpl in *.
  - split; [lia|done].
  - destruct (commit_locked failed dbOk b0 c) as [c' r] eqn:Hc; simpl.
    destruct (decide (r = CommitOK)) as [->|Hne].
    + destruct (commit_appends _ _ _ _ Hi Hc) as (_ & Hn' & _).
      split; [lia|]. by apply (commit_block_at dbOk b0 c).
    + pose proof (commit_fails dbOk b0 c r) as Hfail. rewrite Hc in Hfail. simpl in Hfail.
      rewrite (Hfail eq_refl Hne). split; [lia|done].
  - destruct (getBlockByNumber_same m c Hi) as [(E1 & _ & E2 & E3) _].
    unfold block_at. rewrite E1, E2, E3. split; [lia|done].
Qed.

Lemma genesis_inv g : m_number (b_header g) = 0 → world_inv (genesisChain g, []).
Proof.
  intros H0. split; [|by apply Forall_nil]. split; simpl; try done.
  - intros n Hn. unfold number in Hn; simpl in Hn. assert (n = 0) as -> by lia. exists g.
    split; [|lia]. unfold block_at; simpl. by rewrite H0, !lookup_singleton_eq.
  - intros h b [<- <-]%lookup_singleton_Some. done.
Qed.

Lemma chain_reach_inv w w' : rtc (chain_step failed) w w' → world_inv w → world_inv w'.
Proof. induction 1 as [|w w1 w' Hs _ IH]; [done|]. intros Hw. by apply IH, (chain_step_inv w). Qed.

(** C6. However commits of several threads and reads interleave from the genesis block
    on, the chain holds a block at every height up to its number, each linked to
    the one below by its parent hash; and a block once committed stays at its
    height in every later state. *)
Theorem chain_linked_append_only g w w' :
  m_number (b_header g) = 0 →
  rtc (chain_step failed) (genesisChain g, []) w → rtc (chain_step failed) w w' →
  (∀ n, 0 <= n <= number w.1 → ∃ b, block_at w.1 n b
     ∧ (1 <= n → ∃ p, block_at w.1 (n - 1) p ∧ m_parentHash (b_header b) = headerHash (b_header p)))
  ∧ (∀ n b, n <= number w.1 → block_at w.1 n b → block_at w'.1 n b)
  ∧ number w.1 <= number w'.1.
Proof.
  intros Hg Hw Hw'. pose proof (chain_reach_inv _ _ Hw (genesis_inv g Hg)) as Hinv. split.
  - destruct Hinv as [Hi _]. intros n Hn. destruct (ci_blocks _ Hi n Hn) as (b & Hb & Hp).
    exists b. split; [done|]. intros H1. destruct (ci_blocks _ Hi (n - 1) ltac:(lia)) as (p & Hp' & _).
    exists p. split; [done|]. rewrite (Hp H1). unfold numberHash. by destruct Hp' as [-> _].
  - clear Hw. induction Hw' as [w|w w1 w2 Hs _ IH]; [by split|].
    destruct (IH (chain_step_inv _ _ Hs Hinv)) as [IH1 IH2].
    assert (Hle : number w.1 <= number w1.1).
    { pose proof (ci_number _ (proj1 Hinv)) as H0.
      destruct (ci_blocks _ (proj1 Hinv) 0 ltac:(lia)) as (b & Hb & _).
      by destruct (chain_step_append w w1 0 b Hs Hinv H0 Hb). }
    split; [|lia]. intros n b Hn Hb. apply IH1; [lia|]. by apply (chain_step_append w w1 n b).
Qed.

(** ** What a committed block can be found by *)

Lemma tx_rows_other n i txs m k :
  k ∉ tx_sha3 <$> txs → tx_rows n i txs m !! k = m !! k.
Proof.
  revert i m. induction txs as [|tx txs IH]; intros i m Hk; [done|].
  rewrite fmap_cons, not_elem_of_cons in Hk. destruct Hk as [Hk1 Hk2]. simpl.
  rewrite IH by done. by rewrite lookup_insert_ne.
Qed.

Lemma tx_rows_lookup n i txs m j tx :
  NoDup (tx_sha3 <$> txs) → txs !! j = Some tx →
  tx_rows n i txs m !! tx_sha3 tx = Some (n, i + Z.of_nat j).
Proof.
  revert i j m. induction txs as [|t txs IH]; intros i j m Hd Hj; [done|].
  rewrite fmap_cons in Hd. apply NoDup_cons in Hd as [Hn Hd]. destruct j as [|j]; simpl in *.
  - injection Hj as ->. rewrite tx_rows_other by done. rewrite lookup_insert_eq. do 2 f_equal. lia.
  - rewrite (IH (i + 1) j) by done. do 2 f_equal. lia.
Qed.

Lemma commitBlock_ok dbOk b c c' :
  chain_inv c → commitBlock failed dbOk b c = (c', CommitOK) →
  pending_ok c b ∧ commit_locked failed dbOk b c = (c', CommitOK).
Proof.
  intros Hi. unfold commitBlock, commit_precheck, isBlockShouldCommit.
  destruct (m_number (b_header b) =? number c + 1) eqn:E1; [|done]. apply Z.eqb_eq in E1. simpl.
  destruct (m_parentHash (b_header b) =? numberHash (number c) c) eqn:E2; [|done]. apply Z.eqb_eq in E2.
  intros Hc. split; [|done]. pose proof (ci_number _ Hi). split; [lia|].
  rewrite E1, E2. by replace (number c + 1 - 1) with (number c) by lia.
Qed.

(** C7. Committing a block on a well-formed chain succeeds exactly for the next height on
    the current hash when the database accepts it.  The chain is then well formed,
    one block higher, with that block at the top; each of its transactions is found
    by its hash, and its nonces by its height.  Otherwise the chain is unchanged. *)
Theorem commitBlock_spec dbOk b c :
  chain_inv c → bc_hash2block c !! headerHash (b_header b) = None → headerHash (b_header b) ≠ 0 →
  NoDup (tx_sha3 <$> b_transactions b) →
  let '(c', r) := commitBlock failed dbOk b c in
  (r = CommitOK ↔ m_number (b_header b) = number c + 1
     ∧ m_parentHash (b_header b) = numberHash (number c) c ∧ dbOk = true)
  ∧ (r ≠ CommitOK → c' = c)
  ∧ (r = CommitOK → chain_inv c' ∧ number c' = number c + 1
     ∧ (getBlockByNumber (number c') c').2 = Some b
     ∧ (∀ j tx, b_transactions b !! j = Some tx → (getTxByHash (tx_sha3 tx) c').2 = Some tx)
     ∧ getNonces (number c') c' = Some (getAllNonces b)).
Proof.
  intros Hi Hf H0 Hd. destruct (commitBlock failed dbOk b c) as [c' r] eqn:Hc. split_and!.
  - revert Hc. unfold commitBlock, commit_precheck, commit_locked, isBlockShouldCommit.
    destruct (m_number (b_header b) =? number c + 1) eqn:E1; simpl;
      [apply Z.eqb_eq in E1|apply Z.eqb_neq in E1; intros [= <- <-]; split; [done|tauto]].
    destruct (m_parentHash (b_header b) =? numberHash (number c) c) eqn:E2; simpl;
      [apply Z.eqb_eq in E2|apply Z.eqb_neq in E2; intros [= <- <-]; split; [done|tauto]].
    destruct dbOk; simpl; intros [= <- <-]; split; intros; try done. destruct H1 as (_ & _ & ?); done.
  - intros Hr. unfold commitBlock in Hc. destruct (commit_precheck b c); [by simplify_eq|].
    pose proof (commit_fails dbOk b c r) as Hfail. rewrite Hc in Hfail. by apply Hfail.
  - intros ->. destruct (commitBlock_ok _ _ _ _ Hi Hc) as [Hp Hl].
    destruct (commit_appends _ _ _ _ Hi Hl) as (E1 & E2 & _ & E3 & E4 & _).
    assert (Hi' : chain_inv c') by (by eapply commit_inv).
    assert (Hb : block_at c' (number c') b) by (unfold block_at; by rewrite E2, E3, E4, !lookup_insert_eq).
    assert (Hget : (getBlockByNumber (number c') c').2 = Some b) by (apply getBlockByNumber_at; done || lia).
    assert (Htx : bc_txHash2block c' = tx_rows (number c') 0 (b_transactions b) (bc_txHash2block c)
                  ∧ bc_block2nonces c' !! number c' = Some (getAllNonces b)).
    { unfold commit_locked in Hl. do 2 (break_if; [done|]). injection Hl as <-. rewrite E2, <-E1.
      simpl. by rewrite lookup_insert_eq. }
    split_and!; [done|done|done| |].
    + intros j tx Hj. unfold getTxByHash. rewrite (proj1 Htx), (tx_rows_lookup _ _ _ _ j tx) by done.
      destruct (getBlockByNumber (number c') c') as [c1 ob]. simpl in Hget. subst ob. cbn [snd].
      by rewrite Z.add_0_l, Nat2Z.id.
    + unfold getNonces. rewrite Z.ltb_irrefl, (proj2 Htx). done.
Qed.
End chain_props.

(** [BlockChainImp] implements the interface's contract. *)
#[export] Instance chain_spec `{Crypto} failed :
  @BlockChainSpec _ BlockChainImp (chain_interface failed) chain_inv.
Proof.
  split.
  - intros c. apply ci_number.
  - intros n c Hi. destruct (getBlockByNumber_same n c Hi) as [(E1 & _ & E2 & _) Hi'].
    split_and!; [done|done|]. intros m. simpl. unfold numberHash. by rewrite E2.
  - intros dbOk b c c' Hi Hc. destruct (commitBlock_ok _ _ _ _ _ Hi Hc) as [[_ Hp] Hl].
    destruct (commit_appends _ _ _ _ _ Hi Hl) as (E1 & E2 & _ & E3 & _). simpl. rewrite E2.
    split_and!; [done| |done| |].
    + rewrite Hp, E1. by replace (number c + 1 - 1) with (number c) by lia.
    + unfold numberHash. by rewrite E3, lookup_insert_eq.
    + intros n Hn. unfold numberHash. by rewrite E3, lookup_insert_ne by lia.
  - intros dbOk b c c' r Hc Hr. simpl in Hc. unfold commitBlock in Hc.
    destruct (commit_precheck b c); [by simplify_eq|].
    pose proof (commit_fails failed dbOk b c r) as Hf. rewrite Hc in Hf. by apply Hf.
Qed.

(** The hash zero stands for no block, so a hash is fresh when it is not zero and names no
    stored block. *)
Definition chain_ok `{Crypto} (c : BlockChainImp) : Prop :=
  chain_inv c ∧ ∀ n, 0 <= n <= number c → numberHash n c ≠ 0.
Definition hash_fresh (h : Z) (c : BlockChainImp) : Prop := h ≠ 0 ∧ bc_hash2block c !! h = None.

Lemma chain_ok_spec `{Crypto} failed : @BlockChainSpec _ BlockChainImp (chain_interface failed) chain_ok.
Proof.
  destruct (chain_spec failed) as [S1 S2 S3 S4]. split.
  - intros c [Hi _]. by apply S1.
  - intros n c [Hi Hz]. destruct (S2 n c Hi) as (H1 & H2 & H3). split_and!; [|done|done].
    split; [done|]. intros m. simpl in *. rewrite H2, H3. apply Hz.
  - intros dbOk b c c' [Hi _]. by apply S3.
  - exact S4.
Qed.

#[export] Instance chain_growth `{Crypto} failed :
  @BlockChainGrowth _ BlockChainImp (chain_interface failed) chain_ok hash_fresh.
Proof.
  split; [apply chain_ok_spec| | | |].
  - intros dbOk b c c' [Hi Hz] [H0 Hf] Hc. destruct (commitBlock_ok _ _ _ _ _ Hi Hc) as [Hp Hl].
    destruct (commit_appends _ _ _ _ _ Hi Hl) as (E1 & E2 & _ & E3 & E4 & _). split; [split|].
    + by eapply commit_inv.
    + intros n Hn. unfold numberHash. rewrite E3. destruct (decide (n = number c + 1)) as [->|Hne].
      * by rewrite lookup_insert_eq.
      * rewrite lookup_insert_ne by lia. apply Hz. lia.
    + intros h [Hh Hn] Hne. split; [done|]. by rewrite E4, lookup_insert_ne.
  - intros n c h [Hi _] [Hh Hn]. destruct (getBlockByNumber_same n c Hi) as [(_ & _ & _ & E) _].
    split; [done|]. simpl. by rewrite E.
  - intros n c [Hi Hz] Hn. change (bci_number c) with (number c) in Hn. destruct (ci_blocks _ Hi n Hn) as (b & Hb & _). exists b.
    assert (numberHash n c = headerHash (b_header b)) as E by (unfold numberHash; by rewrite (proj1 Hb)).
    split_and!; [apply getBlockByNumber_at; [done|done|lia|rewrite <- E; by apply Hz]|apply Hb|done].
  - intros b c _ E1 E2. simpl in *. unfold commitBlock, commit_precheck, commit_locked, isBlockShouldCommit.
    by rewrite E1, E2, !Z.eqb_refl.
Qed.

(** ** Concrete instances *)

Definition sampleGenesis : Block := genesisBlock 1000 [byte.of_Z 1].
Definition sampleNext : Block :=
  set_b_transactions [mkTx 7 8 []; mkTx 9 10 []]
    (set_b_header
       (setNumber 1 (setParentHash (@headerHash toyCrypto (b_header sampleGenesis)) (b_header sampleGenesis)))
       sampleGenesis).

Lemma chain_linked_append_only_witness :
  let w := (@genesisChain toyCrypto sampleGenesis, [sampleNext]) in
  let c' := (@commit_locked toyCrypto (λ _, false) true sampleNext w.1).1 in
  number c' = 1 ∧ @block_at toyCrypto c' 0 sampleGenesis.
Proof.
  intros w c'. split; [vm_compute; reflexivity|].
  assert (H1 : rtc (@chain_step toyCrypto (λ _, false)) (@genesisChain toyCrypto sampleGenesis, []) w).
  { apply rtc_once. apply (@step_precheck toyCrypto). vm_compute; reflexivity. }
  assert (H2 : rtc (@chain_step toyCrypto (λ _, false)) w (c', [])).
  { apply rtc_once. apply (@step_lock toyCrypto _ true sampleNext _ [] []). vm_compute; reflexivity. }
  apply (@chain_linked_append_only toyCrypto (λ _, false) sampleGenesis w (c', []) eq_refl H1 H2).
  - apply Z.leb_le. vm_compute; reflexivity.
  - split; [vm_compute; reflexivity|split; vm_compute; reflexivity].
Defined.

Lemma commitBlock_spec_witness :
  let '(c', r) := @commitBlock toyCrypto (λ _, false) true sampleNext (@genesisChain toyCrypto sampleGenesis) in
  r = CommitOK ∧ (@getTxByHash toyCrypto 9 c').2 = Some (mkTx 9 10 []).
Proof.
  pose proof (@commitBlock_spec toyCrypto (λ _, false) true sampleNext (@genesisChain toyCrypto sampleGenesis)
    (proj1 (@genesis_inv toyCrypto sampleGenesis eq_refl)) ltac:(vm_compute; reflexivity)
    ltac:(apply Z.eqb_neq; vm_compute; reflexivity)
    ltac:(by apply (bool_decide_unpack _); vm_compute)) as Hs.
  destruct (commitBlock _ _ _ _) as [c' r]. destruct Hs as (H1 & _ & H2).
  assert (Hr : r = CommitOK) by (apply H1; split_and!; vm_compute; reflexivity).
  split; [done|]. destruct (H2 Hr) as (_ & _ & _ & Ht & _). by apply (Ht 1%nat (mkTx 9 10 [])).
Defined.
