(* ===== verification/NonceCheck.v ===== *)
(** * Nonce checks of the transaction pool (libtxpool/CommonTransactionNonceCheck,
      TransactionNonceCheck)

    A transaction carries a nonce and a block limit.  The pool keeps the nonces of its
    own transactions; the chain-level checker keeps those of the latest blocks and
    follows the chain with [updateCache].  Dereferencing the null vector that a
    failed read returns is the result [None]. *)
From S2P Require Import Prelude CommonData RLP Crypto BlockHeader TxsParser Block BlockChain.
Local Open Scope Z_scope.

(** ** [CommonTransactionNonceCheck]: a set of nonces *)

Definition isNonceOk (nonce : Z) (needInsert : bool) (cache : gset Z) : gset Z * bool :=
  if bool_decide (nonce ∈ cache) then (cache, false)
  else (if needInsert then {[nonce]} ∪ cache else cache, true).
Definition delNonce (key : Z) (cache : gset Z) : gset Z := cache ∖ {[key]}.
Definition delNonces (txs : list Transaction) (cache : gset Z) : gset Z :=
  foldl (λ c k, delNonce k c) cache (filter (λ k, k ∈ cache) (tx_nonce <$> txs)).
Definition insertNonce (nonce : Z) (cache : gset Z) : gset Z := {[nonce]} ∪ cache.

(** ** [TransactionNonceCheck] *)

Record TransactionNonceCheck := mkNonceCheck {
  nc_cache : gset Z;
  nc_blockNonceCache : gmap Z (option (list Z));
  nc_startblk : Z;
  nc_endblk : Z;
  nc_maxBlockLimit : Z;
  nc_blockNumber : Z }.
Definition set_nc_cache v s := mkNonceCheck v (nc_blockNonceCache s) (nc_startblk s) (nc_endblk s)
  (nc_maxBlockLimit s) (nc_blockNumber s).
Definition set_nc_blockNonceCache v s := mkNonceCheck (nc_cache s) v (nc_startblk s) (nc_endblk s)
  (nc_maxBlockLimit s) (nc_blockNumber s).

(** [isBlockLimitOk]: the limit is above the current number and at most
    [m_maxBlockLimit] blocks ahead. *)
Definition isBlockLimitOk (blockLimit : Z) (s : TransactionNonceCheck) : bool :=
  negb ((blockLimit =? Invalid256) || (blockLimit <=? nc_blockNumber s)
        || (nc_blockNumber s + nc_maxBlockLimit s <? blockLimit)).

(** [ok]. *)
Definition nonceCheck_ok (nonce blockLimit : Z) (s : TransactionNonceCheck) : bool :=
  isBlockLimitOk blockLimit s && (isNonceOk nonce false (nc_cache s)).2.

(** What the checker reads of the chain besides the consensus interface. *)
Class NonceSource (C : Type) := ns_getNonces : Z → C → option (list Z).

Section checker.
Context {C : Type} `{HB : BlockChainInterface C} `{HN : NonceSource C}.

(** [getNonceAndUpdateCache]. *)
Definition getNonceAndUpdateCache (n : Z) (update : bool) (s : TransactionNonceCheck) (c : C)
  : TransactionNonceCheck * C * option (list Z) :=
  let '(c, nonceVec) :=
    match nc_blockNonceCache s !! n with
    | Some v => (c, v)
    | None => if bci_number c =? n
              then let '(c, b) := bci_getBlockByNumber n c in (c, getAllNonces <$> b)
              else (c, ns_getNonces n c)
    end in
  let s := if update && (Z.of_nat (size (nc_blockNonceCache s)) <? nc_maxBlockLimit s)
           then set_nc_blockNonceCache (<[n := nonceVec]> (nc_blockNonceCache s)) s else s in
  (s, c, nonceVec).

(** The two loops of [updateCache]. *)
Definition erase_step (w : TransactionNonceCheck * C) (i : Z) : TransactionNonceCheck * C :=
  let '(s, c, v) := getNonceAndUpdateCache i false w.1 w.2 in
  let s := match v with
           | Some l => set_nc_cache (foldl (λ m k, m ∖ {[k]}) (nc_cache s) l) s
           | None => s
           end in
  (set_nc_blockNonceCache (delete i (nc_blockNonceCache s)) s, c).
Definition insert_step (w : option (TransactionNonceCheck * C)) (i : Z) : option (TransactionNonceCheck * C) :=
  '(s, c) ← w;
  let '(s, c, v) := getNonceAndUpdateCache i true s c in
  l ← v;
  Some (set_nc_cache (foldl (λ m k, {[k]} ∪ m) (nc_cache s) l) s, c).

(** [updateCache]. *)
Definition updateCache (rebuild : bool) (s : TransactionNonceCheck) (c : C) : option (TransactionNonceCheck * C) :=
  let lastnumber := bci_number c in
  let prestartblk := nc_startblk s in
  let preendblk := if rebuild then 0 else nc_endblk s in
  let startblk := if nc_maxBlockLimit s <? lastnumber then lastnumber - nc_maxBlockLimit s else 0 in
  let s := mkNonceCheck (nc_cache s) (nc_blockNonceCache s) startblk lastnumber (nc_maxBlockLimit s) lastnumber in
  let w := if rebuild then (set_nc_cache ∅ s, c)
           else foldl erase_step (s, c) (seqZ prestartblk (startblk - prestartblk)) in
  let from := Z.max (preendblk + 1) startblk in
  foldl insert_step (Some w) (seqZ from (lastnumber + 1 - from)).

(** The constructor, with [init]. *)
Definition newNonceCheck (maxBlockLimit : Z) (c : C) : option (TransactionNonceCheck * C) :=
  updateCache true (mkNonceCheck ∅ ∅ 0 0 maxBlockLimit 0) c.
End checker.

(** ** What the checker relies on *)

(** On a chain satisfying [ok], [noncesAt c n] are the nonces of block [n]: both reads
    return them, and reading changes nothing visible.  The genesis block has none. *)
Class NonceSpec (C : Type) `{BlockChainInterface C, NonceSource C} (ok : C → Prop) (noncesAt : C → Z → list Z) := {
  nsp_number : ∀ c, ok c → 0 <= bci_number c;
  nsp_genesis : ∀ c, ok c → noncesAt c 0 = [];
  nsp_getNonces : ∀ c n, ok c → 0 <= n <= bci_number c → ns_getNonces n c = Some (noncesAt c n);
  nsp_block : ∀ c, ok c →
    let n := bci_number c in
    let '(c', b) := bci_getBlockByNumber n c in
    getAllNonces <$> b = Some (noncesAt c n)
    ∧ ok c' ∧ bci_number c' = n ∧ ∀ m, noncesAt c' m = noncesAt c m }.

Section nonce_spec.
Context {C : Type} `{HB : BlockChainInterface C} `{HN : NonceSource C}.
Context (ok : C → Prop) (noncesAt : C → Z → list Z) `{HS : !NonceSpec C ok noncesAt}.

(** The nonces of the blocks [a..b]. *)
Definition window (c : C) (a b : Z) : gset Z := list_to_set (seqZ a (b + 1 - a) ≫= noncesAt c).

(** Blocks at most [d] apart share no nonce. *)
Definition nonces_fresh (d : Z) (c : C) : Prop :=
  ∀ i j x, 0 <= i < j → j <= bci_number c → j <= i + d → x ∈ noncesAt c i → x ∉ noncesAt c j.

(** The chain [c'] extends [c]. *)
Definition chain_extends (c c' : C) : Prop :=
  ok c' ∧ bci_number c <= bci_number c' ∧ ∀ n, 0 <= n <= bci_number c → noncesAt c' n = noncesAt c n.

(** The first block of the window of a chain of the given number. *)
Definition windowStart (maxBlockLimit number : Z) : Z :=
  if maxBlockLimit <? number then number - maxBlockLimit else 0.

(** The checker has followed the chain up to [nc_endblk]. *)
Record nc_ok (s : TransactionNonceCheck) (c : C) : Prop := {
  nco_limit : 0 <= nc_maxBlockLimit s;
  nco_number : nc_blockNumber s = nc_endblk s;
  nco_end : 0 <= nc_endblk s <= bci_number c;
  nco_start : nc_startblk s = windowStart (nc_maxBlockLimit s) (nc_endblk s);
  nco_cache : nc_cache s = window c (nc_startblk s) (nc_endblk s);
  nco_blocks : ∀ i v, nc_blockNonceCache s !! i = Some v → 0 <= i <= nc_endblk s ∧ v = Some (noncesAt c i) }.

(** ** Following the chain *)

Lemma elem_of_window c a b x : x ∈ window c a b ↔ ∃ i, a <= i <= b ∧ x ∈ noncesAt c i.
Proof.
  unfold window. rewrite elem_of_list_to_set, list_elem_of_bind. setoid_rewrite elem_of_seqZ.
  split; intros (i & H1 & H2); exists i; split; first [done|lia].
Qed.

(** What both loops keep: the chain is as [A] describes and the cached vectors are
    right. *)
Record reads (A : Z → list Z) (n : Z) (s : TransactionNonceCheck) (c : C) : Prop := {
  rd_ok : ok c;
  rd_number : bci_number c = n;
  rd_nonces : ∀ m, noncesAt c m = A m;
  rd_blocks : ∀ i v, nc_blockNonceCache s !! i = Some v → 0 <= i <= n ∧ v = Some (A i) }.

Definition same_params (s s' : TransactionNonceCheck) : Prop :=
  nc_startblk s' = nc_startblk s ∧ nc_endblk s' = nc_endblk s ∧ nc_maxBlockLimit s' = nc_maxBlockLimit s
  ∧ nc_blockNumber s' = nc_blockNumber s.

Lemma getNonce_spec A n i upd s c :
  reads A n s c → 0 <= i <= n →
  ∃ s' c', getNonceAndUpdateCache i upd s c = (s', c', Some (A i))
    ∧ reads A n s' c' ∧ same_params s s' ∧ nc_cache s' = nc_cache s.
Proof.
  intros [H1 H2 H3 H4] Hi. unfold getNonceAndUpdateCache.
  set (r := match nc_blockNonceCache s !! i with Some v => (c, v) | None => _ end).
  assert (Hr : ∃ c', r = (c', Some (A i)) ∧ reads A n s c').
  { subst r. destruct (nc_blockNonceCache s !! i) as [v|] eqn:Hv.
    - destruct (H4 i v Hv) as [_ ->]. exists c. by split.
    - destruct (bci_number c =? i) eqn:E.
      + apply Z.eqb_eq in E. subst i. pose proof (nsp_block c H1) as Hb. cbn zeta in Hb.
        destruct (bci_getBlockByNumber (bci_number c) c) as [c' b]. destruct Hb as (Hb & G1 & G2 & G3).
        exists c'. rewrite Hb, H3. split; [done|]. split; [done|lia| |done]. intros m. by rewrite G3.
      + exists c. rewrite (nsp_getNonces c i H1) by lia. rewrite H3. by split. }
  destruct Hr as (c' & -> & Hr). break_if; eexists _, c'; (split; [reflexivity|]); [|by split].
  split; [|by split_and!]. destruct Hr as [G1 G2 G3 G4]. split; try done. simpl.
  intros j v [[<- <-]|[_ Hj]]%lookup_insert_Some; [split; [lia|done]|by apply G4].
Qed.

Lemma foldl_difference (l : list Z) (m : gset Z) : foldl (λ m k, m ∖ {[k]}) m l = m ∖ list_to_set l.
Proof.
  revert m. induction l as [|k l IH]; intros m; simpl; [set_solver|]. rewrite IH. set_solver.
Qed.

Lemma foldl_union (l : list Z) (m : gset Z) : foldl (λ m k, {[k]} ∪ m) m l = list_to_set l ∪ m.
Proof.
  revert m. induction l as [|k l IH]; intros m; simpl; [set_solver|]. rewrite IH. set_solver.
Qed.

Lemma erase_loop A n l s c :
  reads A n s c → Forall (λ i, 0 <= i <= n) l →
  let w := foldl erase_step (s, c) l in
  reads A n w.1 w.2 ∧ same_params s w.1 ∧ nc_cache w.1 = nc_cache s ∖ list_to_set (l ≫= A).
Proof.
  revert s c. induction l as [|i l IH]; intros s c Hr Hl; [simpl; split_and!; [done|done|set_solver]|].
  apply Forall_cons in Hl as [Hi Hl].
  destruct (getNonce_spec A n i false s c Hr Hi) as (s1 & c1 & E & Hr1 & Hp1 & Hc1).
  set (s2 := set_nc_blockNonceCache (delete i (nc_blockNonceCache s1))
               (set_nc_cache (foldl (λ m k, m ∖ {[k]}) (nc_cache s1) (A i)) s1)).
  assert (Es : erase_step (s, c) i = (s2, c1)) by (unfold erase_step; simpl; by rewrite E).
  cbn [foldl]. rewrite Es.
  assert (Hr2 : reads A n s2 c1).
  { destruct Hr1 as [G1 G2 G3 G4]. split; try done. simpl. intros j v [_ Hj]%lookup_delete_Some. by apply G4. }
  destruct (IH s2 c1 Hr2 Hl) as (G1 & G2 & G3). split; [exact G1|].
  unfold same_params in *. split; [simpl in *; intuition congruence|]. rewrite G3. subst s2. simpl.
  rewrite foldl_difference, Hc1, list_to_set_app_L. set_solver.
Qed.

Lemma insert_loop A n l s c :
  reads A n s c → Forall (λ i, 0 <= i <= n) l →
  ∃ s' c', foldl insert_step (Some (s, c)) l = Some (s', c')
    ∧ reads A n s' c' ∧ same_params s s' ∧ nc_cache s' = nc_cache s ∪ list_to_set (l ≫= A).
Proof.
  revert s c. induction l as [|i l IH]; intros s c Hr Hl; simpl.
  { exists s, c. split_and!; [done|done|done|set_solver]. }
  apply Forall_cons in Hl as [Hi Hl].
  destruct (getNonce_spec A n i true s c Hr Hi) as (s1 & c1 & E & Hr1 & Hp1 & Hc1). rewrite E. simpl.
  set (s2 := set_nc_cache _ _).
  assert (Hr2 : reads A n s2 c1) by (destruct Hr1; by split).
  destruct (IH s2 c1 Hr2 Hl) as (s' & c' & G0 & G1 & G2 & G3). exists s', c'. split; [exact G0|]. split; [exact G1|].
  unfold same_params in *. split; [simpl in *; intuition congruence|]. rewrite G3. subst s2. simpl.
  rewrite foldl_union, Hc1, list_to_set_app_L. set_solver.
Qed.

Lemma window_start max n : 0 <= max → 0 <= n → 0 <= windowStart max n <= n ∧ n - max <= windowStart max n.
Proof. intros. unfold windowStart. destruct (Z.ltb_spec max n); lia. Qed.

Lemma window_start_mono max n n' : n <= n' → 0 <= max → windowStart max n <= windowStart max n'.
Proof. intros. unfold windowStart. destruct (Z.ltb_spec max n), (Z.ltb_spec max n'); lia. Qed.

Lemma seqZ_bounds a b lo hi : lo <= a → b <= hi → Forall (λ i, lo <= i <= hi) (seqZ a (b + 1 - a)).
Proof. intros. apply Forall_forall. intros i Hi%elem_of_seqZ. lia. Qed.

(** After the loops the checker is at the chain's number. *)
Lemma reads_nc_ok A n s c :
  reads A n s c → 0 <= n → 0 <= nc_maxBlockLimit s → nc_blockNumber s = n → nc_endblk s = n →
  nc_startblk s = windowStart (nc_maxBlockLimit s) n →
  (∀ x, x ∈ nc_cache s ↔ ∃ i, nc_startblk s <= i <= n ∧ x ∈ A i) → nc_ok s c.
Proof.
  intros [H1 H2 H3 H4] Hn Hl Hb He Hs Hc. split; try done; [congruence|lia|congruence| |].
  - apply set_eq. intros x. rewrite Hc, elem_of_window, He. by setoid_rewrite H3.
  - intros i v Hv. rewrite He, H3. by apply H4.
Qed.

Lemma newNonceCheck_ok max c :
  0 <= max → ok c → ∃ s c', newNonceCheck max c = Some (s, c') ∧ nc_ok s c'
    ∧ nc_endblk s = bci_number c' ∧ nc_maxBlockLimit s = max ∧ chain_extends c c' ∧ bci_number c' = bci_number c ∧ ok c'.
Proof.
  intros Hm Hok. pose proof (nsp_number c Hok) as Hn. pose proof (window_start max _ Hm Hn) as Hw.
  unfold newNonceCheck, updateCache. simpl. fold (windowStart max (bci_number c)). set (a := Z.max _ _).
  set (s0 := set_nc_cache ∅ _).
  assert (Hr : reads (noncesAt c) (bci_number c) s0 c) by (split; try done; simpl; by setoid_rewrite lookup_empty).
  destruct (insert_loop _ _ (seqZ a (bci_number c + 1 - a)) _ _ Hr ltac:(apply seqZ_bounds; lia))
    as (s & c' & E & Hr' & (P1 & P2 & P3 & P4) & Hc). exists s, c'. unfold s0 in P1, P2, P3, P4, Hc. simpl in *.
  assert (Hx : chain_extends c c' ∧ bci_number c' = bci_number c ∧ ok c').
  { destruct Hr' as [G1 G2 G3 G4]. unfold chain_extends. split_and!; [done|lia|intros; apply G3|done|done]. }
  split; [exact E|]. split; [|split_and!; [lia|done|apply Hx|apply Hx|apply Hx]].
  eapply reads_nc_ok; [exact Hr'|done|lia|done|done|by rewrite P3|].
  intros x. rewrite Hc, union_empty_l_L, elem_of_list_to_set, list_elem_of_bind. setoid_rewrite elem_of_seqZ. rewrite P1.
  split; [intros (i & I1 & I2); exists i; split; [lia|done]|]. intros (i & I1 & I2). exists i. split; [done|].
  destruct (decide (i = 0)) as [->|]; [|lia]. rewrite (nsp_genesis c Hok) in I2. by apply not_elem_of_nil in I2.
Qed.

Lemma updateCache_ok s c c' :
  nc_ok s c → chain_extends c c' → nonces_fresh (nc_maxBlockLimit s) c' →
  ∃ s1 c1, updateCache false s c' = Some (s1, c1) ∧ nc_ok s1 c1
    ∧ nc_endblk s1 = bci_number c1 ∧ nc_maxBlockLimit s1 = nc_maxBlockLimit s
    ∧ chain_extends c' c1 ∧ bci_number c1 = bci_number c' ∧ ok c1.
Proof.
  intros [H1 H2 H3 H4 H5 H6] (Hok & Hn & Hx) Hf. set (n := bci_number c') in *. set (max := nc_maxBlockLimit s) in *.
  pose proof (window_start max n H1 ltac:(lia)) as Hw. pose proof (window_start max (nc_endblk s) H1 ltac:(lia)) as Hw0.
  pose proof (window_start_mono max (nc_endblk s) n ltac:(lia) H1) as Hwm. rewrite <- H4 in Hw0, Hwm.
  unfold updateCache. cbn zeta. fold n max. fold (windowStart max n). set (st := windowStart max n) in *.
  set (s0 := mkNonceCheck _ _ _ _ _ _). set (a := Z.max _ _).
  assert (Hr : reads (noncesAt c') n s0 c').
  { split; try done. intros i v [Hi ->]%H6. split; [lia|]. by rewrite Hx by lia. }
  destruct (erase_loop _ _ (seqZ (nc_startblk s) (st - nc_startblk s)) _ _ Hr) as (Hr1 & (Q1 & Q2 & Q3 & Q4) & Hc1).
  { apply Forall_forall. intros i Hi%elem_of_seqZ. lia. }
  destruct (foldl erase_step (s0, c') _) as [s1 c1]. simpl in Hr1, Q1, Q2, Q3, Q4, Hc1.
  destruct (insert_loop _ _ (seqZ a (n + 1 - a)) _ _ Hr1 ltac:(apply seqZ_bounds; lia))
    as (s2 & c2 & E & Hr2 & (P1 & P2 & P3 & P4) & Hc2).
  exists s2, c2. split; [exact E|].
  assert (Hx2 : chain_extends c' c2 ∧ bci_number c2 = n ∧ ok c2).
  { destruct Hr2 as [G1 G2 G3 G4]. unfold chain_extends. split_and!; [done|lia|intros; apply G3|done|done]. }
  split; [|split_and!; [rewrite P2, Q2; symmetry; apply Hx2|by rewrite P3, Q3|apply Hx2|apply Hx2|apply Hx2]].
  eapply reads_nc_ok; [exact Hr2|lia|by rewrite P3, Q3|by rewrite P4, Q4|by rewrite P2, Q2|by rewrite P1, Q1, P3, Q3|].
  assert (Hs2 : nc_startblk s2 = st) by (by rewrite P1, Q1). rewrite Hs2. intros x.
  rewrite Hc2, Hc1. unfold s0. cbn [nc_cache]. rewrite H5.
  rewrite elem_of_union, elem_of_difference, !elem_of_list_to_set, !list_elem_of_bind, elem_of_window.
  setoid_rewrite elem_of_seqZ. split.
  - intros [[(i & I1 & I2) Hne]|(i & I1 & I2)]; exists i; (split; [|by rewrite ?Hx by lia]); [|lia].
    split; [|lia]. destruct (decide (st <= i)); [lia|]. exfalso. apply Hne. exists i. rewrite Hx by lia. split; [done|lia].
  - intros (i & I1 & I2). destruct (decide (i <= nc_endblk s)); [left|right; exists i; split; [done|lia]].
    split; [exists i; rewrite <- Hx by lia; split; [lia|done]|].
    intros (j & J1 & J2). apply (Hf j i x); [lia|fold n; lia|lia|done|done].
Qed.

(** A checker built on a chain and updated as the chain grows, by any number of
    blocks at a time. *)
Inductive follows (max : Z) : TransactionNonceCheck → C → Prop :=
| follows_start s c c' : ok c → newNonceCheck max c = Some (s, c') → follows max s c'
| follows_update s c c' s1 c1 :
    follows max s c → chain_extends c c' → nonces_fresh max c' →
    updateCache false s c' = Some (s1, c1) → follows max s1 c1.

Lemma follows_ok max s c :
  0 <= max → follows max s c →
  nc_ok s c ∧ nc_endblk s = bci_number c ∧ nc_maxBlockLimit s = max ∧ ok c.
Proof.
  intros Hm. induction 1 as [s c c' Hok Hn|s c c' s1 c1 _ (IH1 & IH2 & IH3 & IH4) He Hf Hu].
  - destruct (newNonceCheck_ok max c Hm Hok) as (s' & c1 & E & G1 & G2 & G3 & _ & _ & G4).
    rewrite Hn in E. injection E as <- <-. done.
  - rewrite <- IH3 in Hf. destruct (updateCache_ok s c c' IH1 He Hf) as (s' & c2 & E & G1 & G2 & G3 & _ & _ & G4).
    rewrite Hu in E. injection E as <- <-. split_and!; [done|done|congruence|done].
Qed.


End nonce_spec.

(** ** The chain as a source of nonces *)

#[export] Instance chain_nonces : NonceSource BlockChainImp := getNonces.

Section instance.
Context `{HC : Crypto} (failed : TransactionReceipt → bool).
#[local] Instance thisChain : BlockChainInterface BlockChainImp := chain_interface failed.

Definition blockNonces (c : BlockChainImp) (n : Z) : list Z :=
  match bc_number2hash c !! n ≫= λ h, bc_hash2block c !! h with Some b => getAllNonces b | None => [] end.

(** The nonce table matches the blocks, and no header hashes to zero. *)
Record nonces_inv (c : BlockChainImp) : Prop := {
  ni_chain : chain_inv c;
  ni_table : ∀ n, 0 <= n <= number c → default [] (bc_block2nonces c !! n) = blockNonces c n;
  ni_genesis : blockNonces c 0 = [];
  ni_hash : ∀ n h, bc_number2hash c !! n = Some h → h ≠ 0 }.

Lemma getBlockByNumber_table n c : bc_block2nonces (getBlockByNumber n c).1 = bc_block2nonces c.
Proof.
  unfold getBlockByNumber, getBlock. repeat break_if; try done. unfold getBlockOfHash.
  destruct (blockCache_get _ _); [done|]. by destruct (bc_hash2block _ !! _).
Qed.

#[export] Instance chain_nonce_spec : @NonceSpec BlockChainImp thisChain _ nonces_inv blockNonces.
Proof.
  split.
  - intros c [Hi _ _ _]. apply (ci_number _ Hi).
  - intros c Hc. apply Hc.
  - intros c n Hc Hn. simpl in Hn. unfold ns_getNonces, chain_nonces, getNonces.
    rewrite (proj2 (Z.ltb_ge _ _)) by apply Hn. by rewrite (ni_table _ Hc n Hn).
  - intros c [Hi Ht Hg Hh]. simpl. pose proof (ci_number _ Hi) as Hn.
    destruct (ci_blocks _ Hi (number c) ltac:(lia)) as (b & Hb & _). pose proof Hb as (B1 & B2 & _).
    pose proof (getBlockByNumber_at (number c) b c Hi Hb ltac:(lia) (Hh _ _ B1)) as Hget.
    destruct (getBlockByNumber_same (number c) c Hi) as [(S1 & _ & S3 & S4) Hi'].
    pose proof (getBlockByNumber_table (number c) c) as Htab.
    destruct (getBlockByNumber (number c) c) as [c' b']. simpl in *. subst b'.
    assert (Hsame : ∀ m, blockNonces c' m = blockNonces c m) by (intros m; unfold blockNonces; by rewrite S3, S4).
    split; [simpl; unfold blockNonces; rewrite B1; simpl; by rewrite B2|]. split; [|done]. split; [done| | |].
    + intros n Hr. rewrite S1 in Hr. rewrite Htab, Hsame. by apply Ht.
    + by rewrite Hsame.
    + intros n h. rewrite S3. apply Hh.
Qed.

(** Committing keeps the table right. *)
Lemma commit_nonces_inv b c c' :
  nonces_inv c → bc_hash2block c !! headerHash (b_header b) = None → headerHash (b_header b) ≠ 0 →
  commitBlock failed true b c = (c', CommitOK) →
  nonces_inv c' ∧ number c' = number c + 1 ∧ blockNonces c' (number c') = getAllNonces b
  ∧ ∀ n, 0 <= n <= number c → blockNonces c' n = blockNonces c n.
Proof.
  intros [Hi Ht Hg Hh] Hf H0 Hc. destruct (commitBlock_ok _ _ _ _ _ Hi Hc) as [Hp Hl].
  pose proof (commit_inv _ _ _ _ _ Hi Hp Hf Hl) as Hi'.
  destruct (commit_appends _ _ _ _ _ Hi Hl) as (Hb & Hn & _ & E1 & E2 & _).
  pose proof (ci_number _ Hi) as Hn0.
  assert (Hnew : blockNonces c' (number c') = getAllNonces b)
    by (unfold blockNonces; rewrite E1, E2, Hn, lookup_insert_eq; simpl; by rewrite lookup_insert_eq).
  assert (Hold : ∀ n, 0 <= n <= number c → blockNonces c' n = blockNonces c n).
  { intros n Hr. destruct (ci_blocks _ Hi n Hr) as (b0 & Hb0 & _).
    destruct (commit_block_at _ _ _ _ _ n b0 Hi Hf Hl (proj2 Hr) Hb0) as (C1 & C2 & _).
    destruct Hb0 as (B1 & B2 & _). unfold blockNonces. rewrite B1, C1. simpl. by rewrite B2, C2. }
  assert (Htab : bc_block2nonces c' = <[number c + 1 := getAllNonces b]> (bc_block2nonces c)).
  { clear -Hl Hb. unfold commit_locked in Hl. repeat break_if; try done. injection Hl as <-. simpl. by rewrite Hb. }
  split_and!; [|done|done|done]. split; [done| | |].
  - intros n Hr. rewrite Htab. destruct (decide (n = number c + 1)) as [->|Hne].
    + by rewrite lookup_insert_eq, <- Hn, Hnew.
    + rewrite lookup_insert_ne by lia. rewrite Hold by lia. apply Ht. lia.
  - rewrite Hold by lia. done.
  - intros n h. rewrite E1. intros [[<- <-]|[_ Hnh]]%lookup_insert_Some; [done|by eapply Hh].
Qed.

Lemma genesis_nonces_inv g :
  m_number (b_header g) = 0 → b_transactions g = [] → headerHash (b_header g) ≠ 0 → nonces_inv (genesisChain g).
Proof.
  intros Hg Ht H0. assert (Hb : blockNonces (genesisChain g) 0 = []).
  { unfold blockNonces. simpl. rewrite Hg, lookup_singleton_eq. simpl. rewrite lookup_singleton_eq.
    unfold getAllNonces. by rewrite Ht. }
  split; [apply (genesis_inv g Hg)| |done|].
  - intros n Hn. assert (number (genesisChain g) = 0) as E by done. assert (n = 0) as -> by lia. by rewrite Hb.
  - simpl. intros n h [_ <-]%lookup_singleton_Some. done.
Qed.

(** A committed block extends the chain, and keeps nonces apart if its own are new. *)
Lemma commit_follows max s c b c' s1 c1 :
  0 <= max → follows nonces_inv blockNonces max s c → nonces_fresh blockNonces max c →
  bc_hash2block c !! headerHash (b_header b) = None → headerHash (b_header b) ≠ 0 →
  commitBlock failed true b c = (c', CommitOK) →
  Forall (λ x, (isNonceOk x false (nc_cache s)).2 = true) (getAllNonces b) →
  updateCache false s c' = Some (s1, c1) →
  nonces_fresh blockNonces max c' ∧ follows nonces_inv blockNonces max s1 c1.
Proof.
  intros Hm Hfl Hfr Hb H0 Hc Hok Hu. destruct (follows_ok _ _ max s c Hm Hfl) as ([_ _ _ _ _ _] & _ & _ & Hinv).
  destruct (commit_nonces_inv b c c' Hinv Hb H0 Hc) as (Hinv' & Hn & Hnew & Hold).
  destruct (follows_ok _ _ max s c Hm Hfl) as ([L1 L2 L3 L4 L5 L6] & Le & Ll & _).
  assert (Hfr' : nonces_fresh blockNonces max c').
  { intros i j x Hij Hj Hd Hx. simpl in Hj. destruct (decide (j = number c')) as [->|Hne].
    - rewrite Hnew. intros Hin. apply (proj1 (Forall_forall _ _) Hok) in Hin. unfold isNonceOk in Hin.
      destruct (bool_decide_reflect (x ∈ nc_cache s)) as [|Hni]; [done|]. apply Hni.
      rewrite L5. apply elem_of_window. exists i. rewrite Le, L4, Le, Ll. simpl. rewrite <- Hold by lia.
      split; [|done]. unfold windowStart. destruct (Z.ltb_spec max (number c)); lia.
    - rewrite Hold by lia. apply (Hfr i j); simpl; [lia|lia|lia|]. by rewrite <- Hold by lia. }
  split; [done|]. eapply (follows_update _ _ max s c c'); [done| |done|done].
  split; [done|]. simpl. split; [lia|done].
Qed.
End instance.

(** ** Concrete instances *)

(** The checker before and after block 1, whose transactions have nonces 8 and 10. *)
Definition sampleChain1 : BlockChainImp := (@commitBlock toyCrypto (λ _, false) true sampleNext (@genesisChain toyCrypto sampleGenesis)).1.
Definition sampleChecker (rebuilt : option (TransactionNonceCheck * BlockChainImp)) : TransactionNonceCheck * BlockChainImp :=
  default (mkNonceCheck ∅ ∅ 0 0 10 0, sampleChain1) rebuilt.
#[local] Instance sampleNonceChain : BlockChainInterface BlockChainImp := @chain_interface toyCrypto (λ _, false).
Definition sampleBefore := sampleChecker (newNonceCheck 10 (@genesisChain toyCrypto sampleGenesis)).
Definition sampleAfter := sampleChecker (updateCache false sampleBefore.1 sampleChain1).

Lemma sampleChecker_Some x : match x with Some _ => true | None => false end = true → x = Some ((sampleChecker x).1, (sampleChecker x).2).
Proof. by destruct x as [[]|]. Qed.

Lemma sample_follows_before : @follows _ sampleNonceChain _ (@nonces_inv toyCrypto) blockNonces 10 sampleBefore.1 sampleBefore.2.
Proof.
  apply (follows_start (@nonces_inv toyCrypto) blockNonces 10 _ (@genesisChain toyCrypto sampleGenesis)).
  - apply (@genesis_nonces_inv toyCrypto sampleGenesis); [done|done|vm_compute; congruence].
  - apply sampleChecker_Some. vm_compute; reflexivity.
Qed.

Lemma sample_chain1 : @commitBlock toyCrypto (λ _, false) true sampleNext sampleBefore.2 = (sampleChain1, CommitOK).
Proof. vm_compute. reflexivity. Qed.

Lemma sample_follows_after : @follows _ sampleNonceChain _ (@nonces_inv toyCrypto) blockNonces 10 sampleAfter.1 sampleAfter.2.
Proof.
  assert (Hn : bci_number sampleBefore.2 = 0) by (vm_compute; reflexivity).
  eapply (@commit_follows toyCrypto (λ _, false) 10 sampleBefore.1 sampleBefore.2 sampleNext sampleChain1).
  - lia.
  - apply sample_follows_before.
  - intros i j x Hij Hj. change (bci_number sampleBefore.2) with (@bci_number _ sampleNonceChain sampleBefore.2) in Hj. lia.
  - vm_compute; reflexivity.
  - vm_compute; congruence.
  - apply sample_chain1.
  - apply (bool_decide_unpack _). vm_compute. exact I.
  - apply sampleChecker_Some. vm_compute; reflexivity.
Qed.


