(* ===== verification/TxPool.v ===== *)
(** * The transaction pool (libtxpool/TxPool.h, TxPool.cpp)

    [m_txsQueue] is a [std::set] ordered by [importTime() <=]: libstdc++ places a new
    element before the first one that is not older, and never rejects it.  An entry of
    [m_txsHash] is an iterator into the queue, here the hash alone; dereferencing it is
    a search by hash.  Each call has a transaction object of its own.  Receipts handed
    to the callbacks are appended to a log.  The tasks handed to the worker pool
    ([removeInvalidTxs], [dropBlockTxsFilter]) are operations of their own. *)
From S2P Require Import Prelude CommonData RLP Crypto BlockHeader TxsParser Block BlockChain NonceCheck.
From stdpp Require Import sorting.
Local Open Scope Z_scope.

(** What the pool reads of a [Transaction]. *)
Record PoolTx := mkPoolTx {
  pt_tx : Transaction;
  pt_blockLimit : Z;
  pt_chainId : Z;
  pt_groupId : Z;
  pt_capacity : Z;
  pt_senderOk : bool;      (* [sender()] does not throw *)
  pt_rpcCallback : bool;
  pt_importTime : Z;
  pt_synced : bool;
  pt_knownBy : gset Z }.
Definition pt_sha3 (t : PoolTx) : Z := tx_sha3 (pt_tx t).
Definition pt_nonce (t : PoolTx) : Z := tx_nonce (pt_tx t).
Definition set_pt_importTime v t := mkPoolTx (pt_tx t) (pt_blockLimit t) (pt_chainId t) (pt_groupId t)
  (pt_capacity t) (pt_senderOk t) (pt_rpcCallback t) v (pt_synced t) (pt_knownBy t).
Definition set_pt_synced v t := mkPoolTx (pt_tx t) (pt_blockLimit t) (pt_chainId t) (pt_groupId t)
  (pt_capacity t) (pt_senderOk t) (pt_rpcCallback t) (pt_importTime t) v (pt_knownBy t).
Definition set_pt_knownBy v t := mkPoolTx (pt_tx t) (pt_blockLimit t) (pt_chainId t) (pt_groupId t)
  (pt_capacity t) (pt_senderOk t) (pt_rpcCallback t) (pt_importTime t) (pt_synced t) v.

Inductive ImportResult :=
| Success | AlreadyInChain | AlreadyKnown | Malformed | TransactionNonceCheckFail | TxPoolNonceCheckFail
| TransactionPoolIsFull | InvalidChainId | InvalidGroupId | BlockLimitCheckFailed | NotBelongToTheGroup
| TransactionRefusedResult | OverGroupMemoryLimit.

Inductive TransactionException :=
| RequestNotBelongToTheGroup | BlockLimitCheckFail | NonceCheckFail | TxPoolIsFull | AlreadyKnownTx
| AlreadyInChainTx | InvalidChainIdTx | InvalidGroupIdTx | MalformedTx | OverGroupMemoryLimitTx
| TransactionRefused.

(** A receipt given to a callback: of the transaction at an index of a block, or an
    exception. *)
Inductive receipt :=
| Localised (blockHash : Z) (index : nat)
| Refused (e : TransactionException).

Record TxPool := mkTxPool {
  tp_limit : Z;
  tp_chainId : Z;
  tp_groupId : Z;
  tp_maxMemoryLimit : Z;
  tp_txNonceCheck : TransactionNonceCheck;
  tp_nonces : gset Z;             (* [m_txpoolNonceChecker] *)
  tp_txsQueue : list PoolTx;
  tp_txsHash : gset Z;
  tp_txsHashFilter : gset Z;
  tp_dropped : gset Z;
  tp_invalidTxs : gmap Z Z;
  tp_usedMemorySize : Z;
  tp_receipts : list (Z * receipt) }.
Definition set_tp_txNonceCheck v (s : TxPool) : TxPool := mkTxPool (tp_limit s) (tp_chainId s)
  (tp_groupId s) (tp_maxMemoryLimit s) v (tp_nonces s) (tp_txsQueue s) (tp_txsHash s)
  (tp_txsHashFilter s) (tp_dropped s) (tp_invalidTxs s) (tp_usedMemorySize s) (tp_receipts s).
Definition set_tp_nonces v (s : TxPool) : TxPool := mkTxPool (tp_limit s) (tp_chainId s)
  (tp_groupId s) (tp_maxMemoryLimit s) (tp_txNonceCheck s) v (tp_txsQueue s) (tp_txsHash s)
  (tp_txsHashFilter s) (tp_dropped s) (tp_invalidTxs s) (tp_usedMemorySize s) (tp_receipts s).
Definition set_tp_txsQueue v (s : TxPool) : TxPool := mkTxPool (tp_limit s) (tp_chainId s)
  (tp_groupId s) (tp_maxMemoryLimit s) (tp_txNonceCheck s) (tp_nonces s) v (tp_txsHash s)
  (tp_txsHashFilter s) (tp_dropped s) (tp_invalidTxs s) (tp_usedMemorySize s) (tp_receipts s).
Definition set_tp_txsHash v (s : TxPool) : TxPool := mkTxPool (tp_limit s) (tp_chainId s)
  (tp_groupId s) (tp_maxMemoryLimit s) (tp_txNonceCheck s) (tp_nonces s) (tp_txsQueue s) v
  (tp_txsHashFilter s) (tp_dropped s) (tp_invalidTxs s) (tp_usedMemorySize s) (tp_receipts s).
Definition set_tp_txsHashFilter v (s : TxPool) : TxPool := mkTxPool (tp_limit s) (tp_chainId s)
  (tp_groupId s) (tp_maxMemoryLimit s) (tp_txNonceCheck s) (tp_nonces s) (tp_txsQueue s)
  (tp_txsHash s) v (tp_dropped s) (tp_invalidTxs s) (tp_usedMemorySize s) (tp_receipts s).
Definition set_tp_dropped v (s : TxPool) : TxPool := mkTxPool (tp_limit s) (tp_chainId s)
  (tp_groupId s) (tp_maxMemoryLimit s) (tp_txNonceCheck s) (tp_nonces s) (tp_txsQueue s)
  (tp_txsHash s) (tp_txsHashFilter s) v (tp_invalidTxs s) (tp_usedMemorySize s) (tp_receipts s).
Definition set_tp_invalidTxs v (s : TxPool) : TxPool := mkTxPool (tp_limit s) (tp_chainId s)
  (tp_groupId s) (tp_maxMemoryLimit s) (tp_txNonceCheck s) (tp_nonces s) (tp_txsQueue s)
  (tp_txsHash s) (tp_txsHashFilter s) (tp_dropped s) v (tp_usedMemorySize s) (tp_receipts s).
Definition set_tp_usedMemorySize v (s : TxPool) : TxPool := mkTxPool (tp_limit s) (tp_chainId s)
  (tp_groupId s) (tp_maxMemoryLimit s) (tp_txNonceCheck s) (tp_nonces s) (tp_txsQueue s)
  (tp_txsHash s) (tp_txsHashFilter s) (tp_dropped s) (tp_invalidTxs s) v (tp_receipts s).
Definition set_tp_receipts v (s : TxPool) : TxPool := mkTxPool (tp_limit s) (tp_chainId s)
  (tp_groupId s) (tp_maxMemoryLimit s) (tp_txNonceCheck s) (tp_nonces s) (tp_txsQueue s)
  (tp_txsHash s) (tp_txsHashFilter s) (tp_dropped s) (tp_invalidTxs s) (tp_usedMemorySize s) v.

(** The constructor, on a chain whose checker is given. *)
Definition newTxPool (limit chainId groupId maxMemoryLimit : Z) (checker : TransactionNonceCheck) : TxPool :=
  mkTxPool limit chainId groupId maxMemoryLimit checker ∅ [] ∅ ∅ ∅ ∅ 0 [].

(** ** The queue *)

(** [m_txsQueue.emplace] under [transactionCompare]. *)
Fixpoint queue_insert (t : PoolTx) (q : list PoolTx) : list PoolTx :=
  match q with
  | [] => [t]
  | x :: q' => if pt_importTime t <=? pt_importTime x then t :: q else x :: queue_insert t q'
  end.
(** Dereferencing and erasing the iterator of a hash. *)
Definition queue_find (h : Z) (q : list PoolTx) : option PoolTx := snd <$> list_find (λ t, pt_sha3 t = h) q.
Fixpoint queue_erase (h : Z) (q : list PoolTx) : list PoolTx :=
  match q with
  | [] => []
  | x :: q' => if pt_sha3 x =? h then q' else x :: queue_erase h q'
  end.
Definition zsize (q : list PoolTx) : Z := zlen q.

(** ** Importing *)

(** [notifyReceipt]. *)
Definition exceptionOf (r : ImportResult) : TransactionException :=
  match r with
  | NotBelongToTheGroup => RequestNotBelongToTheGroup
  | BlockLimitCheckFailed => BlockLimitCheckFail
  | TransactionNonceCheckFail => NonceCheckFail
  | TransactionPoolIsFull => TxPoolIsFull
  | TxPoolNonceCheckFail => NonceCheckFail
  | AlreadyKnown => AlreadyKnownTx
  | AlreadyInChain => AlreadyInChainTx
  | InvalidChainId => InvalidChainIdTx
  | InvalidGroupId => InvalidGroupIdTx
  | Malformed => MalformedTx
  | OverGroupMemoryLimit => OverGroupMemoryLimitTx
  | _ => TransactionRefused
  end.
Definition notifyReceipt (t : PoolTx) (r : ImportResult) (p : TxPool) : TxPool :=
  if pt_rpcCallback t then set_tp_receipts (tp_receipts p ++ [(pt_sha3 t, Refused (exceptionOf r))]) p else p.

(** [verify].  The pool's nonce check inserts the nonce, before the chain and group
    identifiers are looked at. *)
Definition verify (t : PoolTx) (retry : bool) (p : TxPool) : TxPool * ImportResult :=
  let h := pt_sha3 t in
  if bool_decide (h ∈ tp_txsHash p) then (p, AlreadyKnown)
  else if bool_decide (h ∈ tp_dropped p) && negb retry then (p, AlreadyInChain)
  else if (pt_nonce t =? Invalid256) || negb (isNonceOk (pt_nonce t) false (nc_cache (tp_txNonceCheck p))).2
  then (p, TransactionNonceCheckFail)
  else if negb (isBlockLimitOk (pt_blockLimit t) (tp_txNonceCheck p)) then (p, BlockLimitCheckFailed)
  else if negb (pt_senderOk t) then (p, Malformed)
  else let '(nonces, ok) := isNonceOk (pt_nonce t) true (tp_nonces p) in
       let p := set_tp_nonces nonces p in
       if negb ok then (p, TxPoolNonceCheckFail)
       else if negb (tp_chainId p =? pt_chainId t) then (p, InvalidChainId)
       else if negb (tp_groupId p =? pt_groupId t) then (p, InvalidGroupId)
       else (p, Success).

(** [insert]. *)
Definition insert_tx (t : PoolTx) (p : TxPool) : TxPool * bool :=
  if bool_decide (pt_sha3 t ∈ tp_txsHash p) then (p, false)
  else (set_tp_txsHash ({[pt_sha3 t]} ∪ tp_txsHash p) (set_tp_txsQueue (queue_insert t (tp_txsQueue p)) p), true).

(** [import]: the memory test takes no lock, the rest runs under the pool's. *)
Definition import_precheck (t : PoolTx) (p : TxPool) : bool :=
  tp_usedMemorySize p + pt_capacity t <=? tp_maxMemoryLimit p.
Definition import_locked (t : PoolTx) (retry : bool) (p : TxPool) : TxPool * ImportResult :=
  if tp_limit p <=? zsize (tp_txsQueue p) then (p, TransactionPoolIsFull)
  else
    let '(p, ret) := verify t retry p in
    match ret with
    | Success =>
        let '(p, inserted) := insert_tx t p in
        let p := if inserted
                 then set_tp_usedMemorySize (tp_usedMemorySize p + pt_capacity t)
                        (set_tp_nonces (insertNonce (pt_nonce t) (tp_nonces p)) p)
                 else p in
        (set_tp_txsHashFilter ({[pt_sha3 t]} ∪ tp_txsHashFilter p) p, Success)
    | r => (p, r)
    end.
Definition import (now : Z) (t : PoolTx) (retry : bool) (p : TxPool) : TxPool * ImportResult :=
  let t := set_pt_importTime now t in
  if import_precheck t p then import_locked t retry p else (p, OverGroupMemoryLimit).

(** [submit]: the node's membership in the group and the synchroniser's answer are
    arguments. *)
Definition submit (now : Z) (isSealerOrObserver syncOk : bool) (t : PoolTx) (p : TxPool) : TxPool :=
  if isSealerOrObserver then
    if negb syncOk then notifyReceipt t TransactionRefusedResult p
    else match import now t false p with
         | (p, Success) => p
         | (p, r) => notifyReceipt t r p
         end
  else notifyReceipt t NotBelongToTheGroup p.

(** [submitTransactions]: [false] is the exception [TransactionRefused]. *)
Definition submitTransactions (now : Z) (t : PoolTx) (p : TxPool) : TxPool * bool :=
  match import now t false p with (p, Success) => (p, true) | (p, _) => (p, false) end.

(** ** Removing *)

(** [removeTrans], with a callback: the receipt is the block's if it has one. *)
Definition removeTrans (h : Z) (needTriggerCallback : bool) (b : option (Z * nat)) (index : nat) (p : TxPool) : TxPool :=
  if bool_decide (h ∈ tp_txsHash p) then
    match queue_find h (tp_txsQueue p) with
    | None => p
    | Some t =>
        let p := set_tp_usedMemorySize (tp_usedMemorySize p - pt_capacity t)
                   (set_tp_txsHash (tp_txsHash p ∖ {[h]}) (set_tp_txsQueue (queue_erase h (tp_txsQueue p)) p)) in
        if needTriggerCallback && pt_rpcCallback t then
          let r := match b with
                   | Some (blockHash, receipts) =>
                       if bool_decide (index < receipts)%nat then Localised blockHash index else Refused TransactionRefused
                   | None => Refused TransactionRefused
                   end in
          set_tp_receipts (tp_receipts p ++ [(h, r)]) p
        else p
    end
  else p.

(** [drop]: a full set of dropped hashes is emptied. *)
Definition drop_tx (h : Z) (p : TxPool) : TxPool * bool :=
  if negb (bool_decide (h ∈ tp_txsHash p)) then (p, false)
  else
    let p := if Z.of_nat (size (tp_dropped p)) <? tp_limit p
             then set_tp_dropped ({[h]} ∪ tp_dropped p) p else set_tp_dropped ∅ p in
    (removeTrans h true None 0 p, true).

(** [dropTransactions], and the two tasks it hands to the worker pool. *)
Definition dropOne (blockHash : Z) (receipts : nat) (p : TxPool) (it : nat * Transaction) : TxPool :=
  let h := tx_sha3 it.2 in
  let p := removeTrans h true (Some (blockHash, receipts)) it.1 p in
  set_tp_invalidTxs (delete h (tp_invalidTxs p)) p.
Definition dropTransactions (blockHash : Z) (b : Block) (p : TxPool) : TxPool :=
  foldl (dropOne blockHash (length (b_receipts b))) p (imap pair (b_transactions b)).
Definition dropBlockTxsFilter (b : Block) (p : TxPool) : TxPool :=
  set_tp_txsHashFilter (tp_txsHashFilter p ∖ list_to_set (tx_sha3 <$> b_transactions b)) p.

(** [removeInvalidTxs]: the three parallel parts touch different members.  The last
    one erases the nonces, not the hashes, from the hash filter. *)
Definition removeInvalidTxs (p : TxPool) : TxPool :=
  let items := map_to_list (tp_invalidTxs p) in
  let p := foldl (λ p it, let p := removeTrans it.1 true None 0 p in set_tp_dropped ({[it.1]} ∪ tp_dropped p) p) p items in
  let p := set_tp_nonces (foldl (λ m it, delNonce it.2 m) (tp_nonces p) items) p in
  let p := set_tp_txsHashFilter (foldl (λ m it, m ∖ {[it.2]}) (tp_txsHashFilter p) items) p in
  set_tp_invalidTxs ∅ p.

Section with_chain.
Context {C : Type} `{HB : BlockChainInterface C} `{HN : NonceSource C}.

(** [dropBlockTrans]; [None] when updating the checker dereferences null. *)
Definition dropBlockTrans (blockHash : Z) (b : Block) (p : TxPool) (c : C) : option (TxPool * C) :=
  '(s, c) ← updateCache false (tp_txNonceCheck p) c;
  let p := dropTransactions blockHash b (set_tp_txNonceCheck s p) in
  Some (set_tp_nonces (delNonces (b_transactions b) (tp_nonces p)) p, c).
End with_chain.

(** ** Reading *)

(** One iteration of [topTransactions] over the queue; [limit] is what may still be
    taken. *)
Record top_state := mkTop { top_left : Z; top_avoid : gset Z; top_invalid : gmap Z Z; top_ret : list PoolTx }.
Definition top_step (s : TransactionNonceCheck) (updateAvoid : bool) (st : top_state) (t : PoolTx) : top_state :=
  if top_left st <=? 0 then st
  else if bool_decide (is_Some (top_invalid st !! pt_sha3 t)) then st
  else if negb (isNonceOk (pt_nonce t) false (nc_cache s)).2 then st
  else if negb (isBlockLimitOk (pt_blockLimit t) s)
  then mkTop (top_left st) (top_avoid st) (<[pt_sha3 t := pt_nonce t]> (top_invalid st)) (top_ret st)
  else if bool_decide (pt_sha3 t ∈ top_avoid st) then st
  else mkTop (top_left st - 1) (if updateAvoid then {[pt_sha3 t]} ∪ top_avoid st else top_avoid st)
         (top_invalid st) (top_ret st ++ [t]).
Definition topTransactions (limit : Z) (avoid : gset Z) (updateAvoid : bool) (p : TxPool)
  : TxPool * gset Z * list PoolTx :=
  let st := foldl (top_step (tp_txNonceCheck p) updateAvoid)
              (mkTop (Z.min (tp_limit p) limit) avoid (tp_invalidTxs p) []) (tp_txsQueue p) in
  (set_tp_invalidTxs (top_invalid st) p, top_avoid st, top_ret st).

(** [topTransactionsCondition]: unsynchronised transactions, marked as they are
    returned. *)
Fixpoint takeUnsynced (limit : Z) (q : list PoolTx) : list PoolTx * list PoolTx :=
  match q with
  | [] => ([], [])
  | t :: q' =>
      if limit <=? 0 then (q, [])
      else if pt_synced t then let '(q', r) := takeUnsynced limit q' in (t :: q', r)
      else let '(q', r) := takeUnsynced (limit - 1) q' in (set_pt_synced true t :: q', set_pt_synced true t :: r)
  end.
Definition topTransactionsCondition (limit : Z) (p : TxPool) : TxPool * list PoolTx :=
  let '(q, r) := takeUnsynced (Z.min (tp_limit p) limit) (tp_txsQueue p) in (set_tp_txsQueue q p, r).

Definition txExists (h : Z) (p : TxPool) : bool :=
  (tp_limit p <=? zsize (tp_txsQueue p)) || bool_decide (h ∈ tp_txsHash p).
Definition isFull (p : TxPool) : bool := tp_limit p <=? zsize (tp_txsQueue p).
Definition pendingList (p : TxPool) : list PoolTx := tp_txsQueue p.
Definition pendingSize (p : TxPool) : Z := zsize (tp_txsQueue p).
Definition status (p : TxPool) : Z * Z := (zsize (tp_txsQueue p), Z.of_nat (size (tp_dropped p))).
Definition obtainTransactions (reqTxs : list Z) (p : TxPool) : list PoolTx :=
  reqTxs ≫= λ h, if bool_decide (h ∈ tp_txsHash p) then option_list (queue_find h (tp_txsQueue p)) else [].

(** [setTransactionKnownBy] and [filterUnknownTxs]; the set of hashes comes as its
    sorted list. *)
Definition setTransactionKnownBy (hashes : list Z) (peer : Z) (p : TxPool) : TxPool :=
  set_tp_txsQueue
    ((λ t, if bool_decide (pt_sha3 t ∈ hashes) && bool_decide (pt_sha3 t ∈ tp_txsHash p)
           then set_pt_knownBy ({[peer]} ∪ pt_knownBy t) t else t) <$> tp_txsQueue p) p.
Definition filterUnknownTxs (hashes : list Z) (peer : Z) (p : TxPool) : TxPool * list Z :=
  let p := setTransactionKnownBy hashes peer p in
  let unknown := filter (λ h, h ∉ tp_txsHashFilter p) hashes in
  let flt := list_to_set unknown ∪ tp_txsHashFilter p in
  (set_tp_txsHashFilter (if tp_limit p <=? Z.of_nat (size flt) then ∅ else flt) p, unknown).

(** [initPartiallyBlock]: the transactions found, and the missed hashes with their
    indices. *)
Definition initPartiallyBlock (txsHash : list Z) (p : TxPool) : list (option PoolTx) * list (Z * nat) :=
  ((λ h, if bool_decide (h ∈ tp_txsHash p) then queue_find h (tp_txsQueue p) else None) <$> txsHash,
   omap (λ it, if bool_decide (it.2 ∈ tp_txsHash p) then None else Some (it.2, it.1)) (imap pair txsHash)).

(** [freshTxsStatus]. *)
Definition freshTxsStatus (p : TxPool) : TxPool :=
  match tp_txsQueue p with
  | [] => p
  | q => set_tp_txsHashFilter ∅ (set_tp_txsQueue ((λ t, set_pt_knownBy ∅ (set_pt_synced false t)) <$> q) p)
  end.

(** ** The pool's invariant *)

Definition usedBy (q : list PoolTx) : Z := foldr (λ t n, pt_capacity t + n) 0 q.

(** What [verify] establishes once and for all about a transaction. *)
Definition admissible (p : TxPool) (t : PoolTx) : Prop :=
  pt_nonce t ≠ Invalid256 ∧ pt_senderOk t = true ∧ pt_chainId t = tp_chainId p ∧ pt_groupId t = tp_groupId p.

Record pool_wf (p : TxPool) : Prop := {
  pw_hash : tp_txsHash p = list_to_set (pt_sha3 <$> tp_txsQueue p);
  pw_nodup : NoDup (pt_sha3 <$> tp_txsQueue p);
  pw_sorted : StronglySorted (λ x y, pt_importTime x <= pt_importTime y) (tp_txsQueue p);
  pw_memory : tp_usedMemorySize p = usedBy (tp_txsQueue p);
  pw_size : zsize (tp_txsQueue p) <= tp_limit p;
  pw_admissible : Forall (admissible p) (tp_txsQueue p) }.

(** The calls on the pool, one lock-protected section at a time; the chain may grow
    between them. *)
Section steps.
Context {C : Type} `{HB : BlockChainInterface C} `{HN : NonceSource C}.

Inductive pool_step : TxPool * C → TxPool * C → Prop :=
| step_import t retry p c : pool_step (p, c) ((import_locked t retry p).1, c)
| step_notify t r p c : pool_step (p, c) (notifyReceipt t r p, c)
| step_drop h p c : pool_step (p, c) ((drop_tx h p).1, c)
| step_dropBlock h b p c p' c' : dropBlockTrans h b p c = Some (p', c') → pool_step (p, c) (p', c')
| step_dropFilter b p c : pool_step (p, c) (dropBlockTxsFilter b p, c)
| step_removeInvalid p c : pool_step (p, c) (removeInvalidTxs p, c)
| step_top limit avoid upd p c : pool_step (p, c) ((topTransactions limit avoid upd p).1.1, c)
| step_topCondition limit p c : pool_step (p, c) ((topTransactionsCondition limit p).1, c)
| step_filter hs peer p c : pool_step (p, c) ((filterUnknownTxs hs peer p).1, c)
| step_fresh p c : pool_step (p, c) (freshTxsStatus p, c)
| step_chain p c c' : pool_step (p, c) (p, c').
End steps.

(** ** The queue's operations *)

Lemma queue_insert_perm t q : queue_insert t q ≡ₚ t :: q.
Proof. induction q as [|x q IH]; simpl; [done|]. break_if; [done|]. rewrite IH. apply Permutation_swap. Qed.

Lemma queue_insert_sorted t q :
  StronglySorted (λ x y, pt_importTime x <= pt_importTime y) q →
  StronglySorted (λ x y, pt_importTime x <= pt_importTime y) (queue_insert t q).
Proof.
  induction 1 as [|x q Hs IH Hx]; simpl; [by repeat constructor|].
  destruct (Z.leb_spec (pt_importTime t) (pt_importTime x)).
  - constructor; [by constructor|]. constructor; [done|]. eapply Forall_impl; [exact Hx|]. simpl. lia.
  - constructor; [done|]. rewrite queue_insert_perm. constructor; [lia|done].
Qed.

Lemma queue_find_erase h q t :
  queue_find h q = Some t → q ≡ₚ t :: queue_erase h q ∧ pt_sha3 t = h ∧ queue_erase h q `sublist_of` q.
Proof.
  unfold queue_find. induction q as [|x q IH]; simpl; [done|].
  destruct (decide (pt_sha3 x = h)) as [E|E].
  - intros [= <-]. rewrite (proj2 (Z.eqb_eq _ _) E). split_and!; [done|done|by constructor].
  - rewrite (proj2 (Z.eqb_neq _ _) E). destruct (list_find _ q) as [[i y]|]; [|done]. simpl in *.
    intros [= ->]. destruct (IH eq_refl) as (H1 & H2 & H3). split_and!; [|done|by constructor].
    rewrite H1 at 1. apply Permutation_swap.
Qed.

Lemma queue_find_Some h q : h ∈ pt_sha3 <$> q → ∃ t, queue_find h q = Some t.
Proof.
  intros (t & -> & Ht)%list_elem_of_fmap. unfold queue_find.
  destruct (list_find_elem_of (λ x, pt_sha3 x = pt_sha3 t) q t Ht eq_refl) as [[i x] ->]. by exists x.
Qed.

Lemma usedBy_perm q q' : q ≡ₚ q' → usedBy q = usedBy q'.
Proof. induction 1; simpl; lia. Qed.

Lemma Forall_sub {A} (P : A → Prop) l l' : l `sublist_of` l' → Forall P l' → Forall P l.
Proof. induction 1; intros Hl; [done|..]; apply Forall_cons in Hl as [? ?]; auto. Qed.

Lemma sorted_sublist {A} (R : A → A → Prop) l l' : l `sublist_of` l' → StronglySorted R l' → StronglySorted R l.
Proof.
  induction 1 as [|x l l' Hl IH|x l l' Hl IH]; intros Hs; [done| |].
  - apply StronglySorted_inv in Hs as [Hs Hx]. constructor; [auto|]. by eapply Forall_sub.
  - apply StronglySorted_inv in Hs as [Hs _]. auto.
Qed.

(** Removing one element of the queue. *)
Lemma erase_wf h t p p' :
  pool_wf p → queue_find h (tp_txsQueue p) = Some t →
  tp_txsQueue p' = queue_erase h (tp_txsQueue p) → tp_txsHash p' = tp_txsHash p ∖ {[h]} →
  tp_usedMemorySize p' = tp_usedMemorySize p - pt_capacity t →
  tp_limit p' = tp_limit p → tp_chainId p' = tp_chainId p → tp_groupId p' = tp_groupId p → pool_wf p'.
Proof.
  intros [H1 H2 H3 H4 H5 H6] Hf Eq Eh Em El Ec Eg.
  destruct (queue_find_erase _ _ _ Hf) as (Hp & Hh & Hsub).
  set (q := tp_txsQueue p) in *. set (q' := queue_erase h q) in *.
  assert (Hps : pt_sha3 <$> q ≡ₚ h :: (pt_sha3 <$> q')) by (rewrite <- Hh; exact (fmap_Permutation pt_sha3 _ _ Hp)).
  pose proof H2 as H2'. rewrite Hps in H2'. apply NoDup_cons in H2' as [Hni Hnd].
  split; rewrite ?Eq, ?Eh, ?Em, ?El; fold q'.
  - rewrite H1. apply set_eq. intros x. rewrite elem_of_difference, elem_of_singleton, !elem_of_list_to_set, Hps, elem_of_cons.
    split; [tauto|]. intros Hx. split; [by right|]. intros ->. by apply Hni.
  - done.
  - by eapply sorted_sublist.
  - rewrite H4, (usedBy_perm _ _ Hp). simpl. lia.
  - apply Permutation_length in Hp. unfold zsize, zlen in *. simpl in Hp. lia.
  - apply (Forall_sub _ _ _ Hsub). eapply Forall_impl; [exact H6|]. unfold admissible. by rewrite Ec, Eg.
Qed.

(** ** Each operation keeps the invariant *)

(** A change that leaves the queue, the hashes and the used memory alone. *)
Lemma same_wf p p' :
  pool_wf p → tp_txsQueue p' = tp_txsQueue p → tp_txsHash p' = tp_txsHash p →
  tp_usedMemorySize p' = tp_usedMemorySize p → tp_limit p' = tp_limit p →
  tp_chainId p' = tp_chainId p → tp_groupId p' = tp_groupId p → pool_wf p'.
Proof.
  intros [H1 H2 H3 H4 H5 H6] E1 E2 E3 E4 E5 E6. split; rewrite ?E1, ?E2, ?E3, ?E4; try done.
  unfold admissible in *. by rewrite E5, E6.
Qed.

(** Transactions that differ in their marks only. *)
Record same_tx (t t' : PoolTx) : Prop := {
  st_tx : pt_tx t' = pt_tx t;
  st_time : pt_importTime t' = pt_importTime t;
  st_capacity : pt_capacity t' = pt_capacity t;
  st_sender : pt_senderOk t' = pt_senderOk t;
  st_chainId : pt_chainId t' = pt_chainId t;
  st_groupId : pt_groupId t' = pt_groupId t }.

Lemma marks_wf p p' :
  pool_wf p → Forall2 same_tx (tp_txsQueue p) (tp_txsQueue p') → tp_txsHash p' = tp_txsHash p →
  tp_usedMemorySize p' = tp_usedMemorySize p → tp_limit p' = tp_limit p →
  tp_chainId p' = tp_chainId p → tp_groupId p' = tp_groupId p → pool_wf p'.
Proof.
  intros [H1 H2 H3 H4 H5 H6] Hf E2 E3 E4 E5 E6.
  destruct p as [l1 l2 l3 l4 l5 l6 q l8 l9 l10 l11 l12 l13], p' as [m1 m2 m3 m4 m5 m6 q' m8 m9 m10 m11 m12 m13]; simpl in *.
  assert (Hs : pt_sha3 <$> q' = pt_sha3 <$> q).
  { clear -Hf. induction Hf as [|t t' q q' Ht _ IH]; [done|]. rewrite !fmap_cons, IH. unfold pt_sha3. by rewrite (st_tx _ _ Ht). }
  split; simpl; rewrite ?E2, ?E3, ?E4, ?Hs; try done.
  - clear -H3 Hf. induction Hf as [|t t' q q' Ht Hq IH]; [done|]. apply StronglySorted_inv in H3 as [H3 Hx].
    constructor; [auto|]. clear -Hx Ht Hq. induction Hq as [|x x' q q' Hx' _ IH]; [done|].
    apply Forall_cons in Hx as [Hle Hx]. constructor; [|auto]. rewrite (st_time _ _ Ht), (st_time _ _ Hx'). done.
  - rewrite H4. clear -Hf. induction Hf as [|t t' q q' Ht _ IH]; [done|]. simpl. by rewrite <- IH, (st_capacity _ _ Ht).
  - apply Forall2_length in Hf. unfold zsize, zlen in *. lia.
  - clear -Hf H6 E5 E6. induction Hf as [|t t' q q' [T1 T2 T3 T4 T5 T6] _ IH]; [done|].
    apply Forall_cons in H6 as [Ht H6]. constructor; [|auto]. unfold admissible, pt_nonce in *.
    by rewrite T1, T4, T5, T6, E5, E6.
Qed.

Lemma same_tx_refl t : same_tx t t.
Proof. by split. Qed.

Lemma marks_fmap (f : PoolTx → PoolTx) q : (∀ t, same_tx t (f t)) → Forall2 same_tx q (f <$> q).
Proof. intros Hf. induction q; simpl; constructor; auto. Qed.

Lemma takeUnsynced_marks n q : Forall2 same_tx q (takeUnsynced n q).1.
Proof.
  revert n. induction q as [|t q IH]; intros n; simpl; [done|]. destruct (n <=? 0); simpl.
  { constructor; [apply same_tx_refl|]. clear. induction q; constructor; [apply same_tx_refl|done]. }
  destruct (pt_synced t).
  - specialize (IH n). destruct (takeUnsynced n q). constructor; [apply same_tx_refl|done].
  - specialize (IH (n - 1)). destruct (takeUnsynced (n - 1) q). by constructor.
Qed.

Lemma removeTrans_wf h cb b i p : pool_wf p → pool_wf (removeTrans h cb b i p).
Proof.
  intros Hp. unfold removeTrans. break_if; [|done]. destruct (queue_find h (tp_txsQueue p)) as [t|] eqn:Hf; [|done].
  by break_if; apply (erase_wf h t p).
Qed.

Lemma verify_frame t retry p :
  ∃ ns, (verify t retry p).1 = set_tp_nonces ns p.
Proof.
  unfold verify. repeat (break_if; [by exists (tp_nonces p); destruct p|]).
  destruct (isNonceOk _ true _) as [ns ok]. repeat break_if; by exists ns.
Qed.

Lemma verify_Success t retry p p' :
  verify t retry p = (p', Success) →
  pt_sha3 t ∉ tp_txsHash p ∧ (pt_sha3 t ∉ tp_dropped p ∨ retry = true) ∧ pt_nonce t ≠ Invalid256
  ∧ (isNonceOk (pt_nonce t) false (nc_cache (tp_txNonceCheck p))).2 = true
  ∧ isBlockLimitOk (pt_blockLimit t) (tp_txNonceCheck p) = true ∧ pt_senderOk t = true
  ∧ pt_nonce t ∉ tp_nonces p ∧ pt_chainId t = tp_chainId p ∧ pt_groupId t = tp_groupId p
  ∧ p' = set_tp_nonces ({[pt_nonce t]} ∪ tp_nonces p) p.
Proof.
  unfold verify. destruct (bool_decide_reflect (pt_sha3 t ∈ tp_txsHash p)) as [|H1]; [done|].
  destruct (bool_decide _ && _) eqn:H2; [done|]. destruct (_ || _) eqn:H3; [done|].
  destruct (isBlockLimitOk _ _) eqn:H4; [|done]. destruct (pt_senderOk t) eqn:H5; [|done]. simpl.
  unfold isNonceOk at 1. destruct (bool_decide_reflect (pt_nonce t ∈ tp_nonces p)) as [|H6]; [done|]. simpl.
  destruct (tp_chainId p =? pt_chainId t) eqn:H7; [|done]. destruct (tp_groupId p =? pt_groupId t) eqn:H8; [|done].
  intros [= <-]. apply orb_false_iff in H3 as [H3%Z.eqb_neq H3'%negb_false_iff]. apply Z.eqb_eq in H7, H8.
  split_and!; try done. apply andb_false_iff in H2 as [H2%bool_decide_eq_false|H2%negb_false_iff]; auto.
Qed.

(** Under the lock, a transaction that verifies is inserted. *)
Lemma import_locked_cases t retry p :
  let '(p', r) := import_locked t retry p in
  (r = Success ∧ zsize (tp_txsQueue p) < tp_limit p ∧ (verify t retry p).2 = Success
   ∧ p' = mkTxPool (tp_limit p) (tp_chainId p) (tp_groupId p) (tp_maxMemoryLimit p) (tp_txNonceCheck p)
            ({[pt_nonce t]} ∪ tp_nonces p) (queue_insert t (tp_txsQueue p)) ({[pt_sha3 t]} ∪ tp_txsHash p)
            ({[pt_sha3 t]} ∪ tp_txsHashFilter p) (tp_dropped p) (tp_invalidTxs p)
            (tp_usedMemorySize p + pt_capacity t) (tp_receipts p))
  ∨ (r ≠ Success ∧ ((tp_limit p <= zsize (tp_txsQueue p) ∧ r = TransactionPoolIsFull ∧ p' = p)
                    ∨ zsize (tp_txsQueue p) < tp_limit p ∧ verify t retry p = (p', r))).
Proof.
  unfold import_locked. destruct (Z.leb_spec (tp_limit p) (zsize (tp_txsQueue p))); [right; split; [done|by left]|].
  destruct (verify t retry p) as [p1 r] eqn:Hv. destruct r; try (right; split; [done|by right]).
  destruct (verify_Success _ _ _ _ Hv) as (H1 & _ & _ & _ & _ & _ & _ & _ & _ & ->).
  unfold insert_tx. simpl. rewrite bool_decide_false by done. left. split_and!; [done|lia|done|].
  unfold insertNonce, set_tp_nonces at 1. cbn [tp_nonces tp_txsHash tp_txsHashFilter tp_usedMemorySize set_tp_txsHash set_tp_txsQueue set_tp_nonces].
  rewrite (union_assoc_L {[pt_nonce t]} {[pt_nonce t]}), union_idemp_L. reflexivity.
Qed.

Lemma import_locked_wf t retry p : pool_wf p → pool_wf (import_locked t retry p).1.
Proof.
  intros Hp. pose proof (import_locked_cases t retry p) as Hc. destruct (import_locked t retry p) as [p' r]. simpl.
  destruct Hc as [(_ & Hsz & Hv & ->)|(_ & [(_ & _ & ->)|[_ Hv]])]; [|done|].
  - destruct (verify t retry p) as [p1 r1] eqn:Hver. simpl in Hv. subst r1.
    destruct (verify_Success _ _ _ _ Hver) as (Hni & _ & Hn & _ & _ & Hs & _ & Hc & Hg & _).
    destruct Hp as [H1 H2 H3 H4 H5 H6]. pose proof (queue_insert_perm t (tp_txsQueue p)) as Hq.
    pose proof (fmap_Permutation pt_sha3 _ _ Hq) as Hqs. split; simpl.
    + apply set_eq. intros x. rewrite elem_of_list_to_set, Hqs, fmap_cons, elem_of_cons, H1.
      rewrite elem_of_union, elem_of_singleton, elem_of_list_to_set. done.
    + rewrite Hqs, fmap_cons. constructor; [|done]. intros Hin. apply Hni. rewrite H1. by apply elem_of_list_to_set.
    + by apply queue_insert_sorted.
    + rewrite (usedBy_perm _ _ Hq). simpl. lia.
    + apply Permutation_length in Hq. unfold zsize, zlen in *. simpl in Hq. lia.
    + unfold admissible in *. simpl. rewrite Hq. constructor; [by split_and!|done].
  - destruct (verify_frame t retry p) as [ns Hns]. rewrite Hv in Hns. simpl in Hns. subst p'. by eapply same_wf.
Qed.

(** Strips a setter the invariant does not read. *)
Ltac frame_wf := match goal with |- pool_wf (_ _ ?x) => apply (same_wf x); [|done..] end.

Lemma foldl_wf {A} (f : TxPool → A → TxPool) l p :
  (∀ p x, pool_wf p → pool_wf (f p x)) → pool_wf p → pool_wf (foldl f p l).
Proof. intros Hf. revert p. induction l as [|x l IH]; intros p Hp; [done|]. apply IH, Hf, Hp. Qed.

Section invariant.
Context {C : Type} `{HB : BlockChainInterface C} `{HN : NonceSource C}.

Lemma pool_step_wf (w w' : TxPool * C) : pool_step w w' → pool_wf w.1 → pool_wf w'.1.
Proof.
  destruct 1 as [t retry p c|t r p c|h p c|h b p c p' c' Hd|b p c|p c|limit avoid upd p c|limit p c|hs peer p c|p c|p c c'];
    simpl; intros Hp.
  - by apply import_locked_wf.
  - unfold notifyReceipt. break_if; [|done]. by apply (same_wf p).
  - unfold drop_tx. repeat break_if; simpl; [done|..]; apply removeTrans_wf; by apply (same_wf p).
  - unfold dropBlockTrans in Hd. destruct (updateCache false _ c) as [[s c1]|]; [|done]. simpl in Hd.
    injection Hd as <- <-. frame_wf. apply foldl_wf; [|by apply (same_wf p)].
    intros p0 it Hp0. unfold dropOne. frame_wf. by apply removeTrans_wf.
  - by apply (same_wf p).
  - unfold removeInvalidTxs. do 3 frame_wf. apply foldl_wf; [|done].
    intros p0 it Hp0. frame_wf. by apply removeTrans_wf.
  - unfold topTransactions. simpl. by apply (same_wf p).
  - unfold topTransactionsCondition. pose proof (takeUnsynced_marks (Z.min (tp_limit p) limit) (tp_txsQueue p)) as Hm.
    destruct (takeUnsynced _ _) as [q r]. by apply (marks_wf p).
  - eapply (same_wf (setTransactionKnownBy hs peer p)); try done. apply (marks_wf p); try done.
    apply marks_fmap. intros t. break_if; [by split|apply same_tx_refl].
  - unfold freshTxsStatus. destruct (tp_txsQueue p) as [|t q] eqn:Hq; [done|].
    apply (marks_wf p); try done. rewrite Hq. by apply (marks_fmap (λ t, set_pt_knownBy ∅ (set_pt_synced false t))).
  - done.
Qed.

(** C33. The pool is consistent whatever its callers do.  From an empty pool, after any
    sequence of its lock-protected sections and with the chain growing in between: the
    hash index holds exactly the hashes of the queue, which are pairwise distinct; the
    queue is ordered by import time; the memory counter is the sum of the capacities
    of the queued transactions; the queue is no longer than the limit; and every queued
    transaction is signed, of this chain and group, with a valid nonce. *)
Theorem txpool_invariant limit chainId groupId maxMemory checker (c : C) w :
  0 <= limit → rtc pool_step (newTxPool limit chainId groupId maxMemory checker, c) w → pool_wf w.1.
Proof.
  intros Hl Hr. assert (Hw : pool_wf (newTxPool limit chainId groupId maxMemory checker)) by (split; try done; constructor).
  remember (newTxPool limit chainId groupId maxMemory checker, c) as w0 eqn:E.
  assert (Hw0 : pool_wf w0.1) by (by subst w0). clear E Hw. induction Hr; [done|]. eauto using pool_step_wf.
Qed.
End invariant.

(** ** What importing does *)

(** When [verify] says yes, and what it changes when it says no. *)
Lemma verify_accepts t retry p :
  pt_sha3 t ∉ tp_txsHash p → pt_sha3 t ∉ tp_dropped p ∨ retry = true → pt_nonce t ≠ Invalid256 →
  (isNonceOk (pt_nonce t) false (nc_cache (tp_txNonceCheck p))).2 = true →
  isBlockLimitOk (pt_blockLimit t) (tp_txNonceCheck p) = true → pt_senderOk t = true →
  pt_nonce t ∉ tp_nonces p → pt_chainId t = tp_chainId p → pt_groupId t = tp_groupId p →
  (verify t retry p).2 = Success.
Proof.
  intros H1 H2 H3 H4 H5 H6 H7 H8 H9. unfold verify. rewrite (bool_decide_false _ H1).
  destruct (bool_decide _ && _) eqn:E.
  { apply andb_true_iff in E as [E1%bool_decide_eq_true E2%negb_true_iff]. destruct H2; [done|congruence]. }
  rewrite (proj2 (Z.eqb_neq _ _) H3), H4, H5, H6. simpl. unfold isNonceOk. rewrite (bool_decide_false _ H7). simpl.
  by rewrite H8, H9, !Z.eqb_refl.
Qed.

Lemma verify_refuses t retry p p' r :
  verify t retry p = (p', r) → r ≠ Success →
  p' = p ∨ (r = InvalidChainId ∨ r = InvalidGroupId) ∧ p' = set_tp_nonces ({[pt_nonce t]} ∪ tp_nonces p) p.
Proof.
  unfold verify. repeat (break_if; [by intros [= <- <-]; left|]). unfold isNonceOk at 1.
  destruct (bool_decide (pt_nonce t ∈ tp_nonces p)); simpl.
  - intros [= <- <-] _. left. by destruct p.
  - repeat break_if; intros [= <- <-]; try done; intros _; right; split; [|done| |done]; [by left|by right].
Qed.


(** A transaction refused for its chain or group identifier blocks its nonce: the next
    transaction with that nonce does not get in. *)
Lemma foreign_transaction_blocks_nonce now now' t t2 retry p p' r :
  import now t false p = (p', r) → r = InvalidChainId ∨ r = InvalidGroupId → pt_nonce t2 = pt_nonce t →
  (import now' t2 retry p').2 ≠ Success.
Proof.
  intros Hi Hr Hn. assert (Hin : pt_nonce t ∈ tp_nonces p').
  { unfold import in Hi. destruct (import_precheck _ _); [|destruct Hr; congruence].
    pose proof (import_locked_cases (set_pt_importTime now t) false p) as Hc. rewrite Hi in Hc.
    destruct Hc as [(E & _)|(_ & [(_ & E & _)|[_ Hv]])]; [destruct Hr; congruence..|].
    unfold verify, isNonceOk in Hv. simpl in Hv. repeat (break_if; try by (destruct Hr; congruence)).
    all: injection Hv as <- _; simpl; change (pt_nonce (set_pt_importTime now t)) with (pt_nonce t); set_solver. }
  unfold import. destruct (import_precheck _ p'); [|done].
  pose proof (import_locked_cases (set_pt_importTime now' t2) retry p') as Hc.
  destruct (import_locked (set_pt_importTime now' t2) retry p') as [p2 r2]. simpl.
  destruct Hc as [(_ & _ & Hv & _)|(Hne & _)]; [|done].
  destruct (verify (set_pt_importTime now' t2) retry p') as [p1 r1] eqn:Hver. simpl in Hv. subst r1.
  destruct (verify_Success _ _ _ _ Hver) as (_ & _ & _ & _ & _ & _ & Hni & _).
  change (pt_nonce (set_pt_importTime now' t2)) with (pt_nonce t2) in Hni. congruence.
Qed.

(** The hash filter keeps the hashes of transactions removed for their block limit:
    their nonces are erased from it instead. *)
Lemma removeInvalid_keeps_filter h n p :
  tp_invalidTxs p = {[h := n]} → h ≠ n → h ∈ tp_txsHashFilter p → h ∈ tp_txsHashFilter (removeInvalidTxs p).
Proof.
  intros Hi Hne Hh. unfold removeInvalidTxs. rewrite Hi, map_to_list_singleton. simpl.
  assert (Hf : ∀ b i p, tp_txsHashFilter (removeTrans h true b i p) = tp_txsHashFilter p).
  { intros. unfold removeTrans. break_if; [|done]. destruct (queue_find h _); [|done]. by break_if. }
  rewrite Hf. set_solver.
Qed.

(** ** Choosing transactions for a block *)

(** The test [topTransactions] makes. *)
Definition sealable (s : TransactionNonceCheck) (avoid : gset Z) (invalid : gmap Z Z) (t : PoolTx) : bool :=
  negb (bool_decide (is_Some (invalid !! pt_sha3 t))) && (isNonceOk (pt_nonce t) false (nc_cache s)).2
  && isBlockLimitOk (pt_blockLimit t) s && negb (bool_decide (pt_sha3 t ∈ avoid)).

Lemma filter_ext_in {A} (f g : A → bool) (l : list A) :
  (∀ x, x ∈ l → f x = g x) → filter (λ x, f x = true) l = filter (λ x, g x = true) l.
Proof.
  induction l as [|x l IH]; intros Hl; [done|]. rewrite !filter_cons, (Hl x) by constructor.
  rewrite IH; [done|]. intros y Hy. apply Hl. by constructor.
Qed.

Lemma top_fold s upd q st :
  NoDup (pt_sha3 <$> q) →
  let ts := take (Z.to_nat (top_left st)) (filter (λ t, sealable s (top_avoid st) (top_invalid st) t = true) q) in
  let st' := foldl (top_step s upd) st q in
  top_ret st' = top_ret st ++ ts
  ∧ top_avoid st' = (if upd then list_to_set (pt_sha3 <$> ts) ∪ top_avoid st else top_avoid st)
  ∧ top_left st' = top_left st - zlen ts.
Proof.
  revert st. induction q as [|t q IH]; intros st Hnd.
  { rewrite filter_nil, take_nil. cbn. split_and!; [by rewrite app_nil_r|by destruct upd; [set_solver|]|unfold zlen; simpl; lia]. }
  rewrite fmap_cons in Hnd. apply NoDup_cons in Hnd as [Hni Hnd]. cbn [foldl].
  assert (Hext : ∀ a i, (∀ x, x ≠ pt_sha3 t → (x ∈ a ↔ x ∈ top_avoid st) ∧ i !! x = top_invalid st !! x) →
    filter (λ t, sealable s a i t = true) q = filter (λ t, sealable s (top_avoid st) (top_invalid st) t = true) q).
  { intros a i Hai. apply filter_ext_in. intros x Hx. destruct (Hai (pt_sha3 x)) as [H1 H2].
    { intros E. apply Hni. rewrite <- E. by apply list_elem_of_fmap_2. }
    unfold sealable. rewrite H2. by rewrite (bool_decide_ext _ _ H1). }
  destruct (Z.leb_spec (top_left st) 0) as [Hle|Hgt].
  { unfold top_step at 2 4 6. rewrite (proj2 (Z.leb_le _ _) Hle). specialize (IH st Hnd). cbn zeta in IH.
    assert (Z.to_nat (top_left st) = 0%nat) as E by lia. rewrite E in *. exact IH. }
  rewrite filter_cons. destruct (decide (sealable s (top_avoid st) (top_invalid st) t = true)) as [Hs|Hs].
  - set (st1 := top_step s upd st t).
    assert (E1 : st1 = mkTop (top_left st - 1) (if upd then {[pt_sha3 t]} ∪ top_avoid st else top_avoid st)
                         (top_invalid st) (top_ret st ++ [t])).
    { subst st1. unfold sealable in Hs. apply andb_true_iff in Hs as [[[S1%negb_true_iff S2]%andb_true_iff S3]%andb_true_iff S4%negb_true_iff].
      unfold top_step. rewrite (proj2 (Z.leb_gt _ _) Hgt), S1, S2, S3, S4. done. }
    specialize (IH st1 Hnd). clearbody st1. subst st1. cbn zeta in IH.
    cbn [top_left top_avoid top_invalid top_ret] in IH. rewrite Hext in IH.
    2: { intros x Hx. split; [|done]. destruct upd; set_solver. }
    replace (Z.to_nat (top_left st)) with (S (Z.to_nat (top_left st - 1))) by lia. rewrite firstn_cons.
    destruct IH as (I1 & I2 & I3). split_and!.
    + rewrite I1. by rewrite <- app_assoc.
    + rewrite I2. destruct upd; [|done]. rewrite fmap_cons. simpl. set_solver.
    + rewrite I3, zlen_cons. lia.
  - set (st1 := top_step s upd st t).
    assert (E1 : st1 = st ∨ st1 = mkTop (top_left st) (top_avoid st) (<[pt_sha3 t := pt_nonce t]> (top_invalid st)) (top_ret st)).
    { subst st1. unfold sealable in Hs. unfold top_step. rewrite (proj2 (Z.leb_gt _ _) Hgt).
      destruct (bool_decide (is_Some _)); [by left|]. destruct (isNonceOk _ _ _).2; [|by left].
      destruct (isBlockLimitOk _ _); [|by right]. destruct (bool_decide _); [by left|]. by destruct Hs. }
    destruct E1 as [-> | ->]; [by apply IH|].
    specialize (IH (mkTop (top_left st) (top_avoid st) (<[pt_sha3 t := pt_nonce t]> (top_invalid st)) (top_ret st)) Hnd).
    cbn [top_left top_avoid top_invalid top_ret] in IH. rewrite Hext in IH; [done|].
    intros x Hx. split; [done|]. by rewrite lookup_insert_ne.
Qed.

(** The transactions offered for a block.  [topTransactions] returns, in queue order,
    the first [limit] queued transactions that are not marked invalid, whose nonce no
    recent block has, whose block limit holds and that the caller does not avoid; it
    adds exactly these to the avoided ones if asked to, and leaves the queue alone. *)
Theorem topTransactions_spec limit avoid upd p :
  pool_wf p →
  let '(p', avoid', ret) := topTransactions limit avoid upd p in
  ret = take (Z.to_nat (Z.min (tp_limit p) limit))
          (filter (λ t, sealable (tp_txNonceCheck p) avoid (tp_invalidTxs p) t = true) (tp_txsQueue p))
  ∧ avoid' = (if upd then list_to_set (pt_sha3 <$> ret) ∪ avoid else avoid)
  ∧ tp_txsQueue p' = tp_txsQueue p ∧ NoDup (pt_sha3 <$> ret).
Proof.
  intros Hp. unfold topTransactions.
  destruct (top_fold (tp_txNonceCheck p) upd (tp_txsQueue p)
              (mkTop (Z.min (tp_limit p) limit) avoid (tp_invalidTxs p) []) (pw_nodup _ Hp)) as (H1 & H2 & _).
  cbn [top_left top_avoid top_invalid top_ret] in H1, H2. rewrite H1, H2. split_and!; [done|by destruct upd|done|].
  eapply sublist_NoDup; [apply (pw_nodup _ Hp)|]. simpl. apply fmap_sublist.
  etrans; [apply sublist_take|apply sublist_filter].
Qed.

(** ** Concrete instances *)

(** A pool of two transactions, imported at times 20 and 10, on the genesis chain. *)
Definition samplePoolTx (h nonce blockLimit : Z) : PoolTx := mkPoolTx (mkTx h nonce []) blockLimit 1 1 100 true true 0 false ∅.
Definition samplePool0 : TxPool := newTxPool 100 1 1 100000 sampleBefore.1.
Definition samplePool1 : TxPool := (import_locked (set_pt_importTime 20 (samplePoolTx 501 11 5)) false samplePool0).1.
Definition samplePool2 : TxPool := (import_locked (set_pt_importTime 10 (samplePoolTx 502 12 9)) false samplePool1).1.
#[local] Instance samplePoolChain : BlockChainInterface BlockChainImp := @chain_interface toyCrypto (λ _, false).

Lemma sample_pool_run : rtc pool_step (samplePool0, sampleBefore.2) (samplePool2, sampleBefore.2).
Proof.
  apply (rtc_l _ _ (samplePool1, sampleBefore.2)); [unfold samplePool1; apply step_import|].
  apply rtc_once. unfold samplePool2. apply step_import.
Qed.

Lemma txpool_invariant_witness : (pt_sha3 <$> tp_txsQueue samplePool2) = [502; 501] ∧ tp_usedMemorySize samplePool2 = usedBy (tp_txsQueue samplePool2).
Proof.
  split; [vm_compute; reflexivity|].
  apply (pw_memory _ (txpool_invariant 100 1 1 100000 sampleBefore.1 sampleBefore.2 (samplePool2, sampleBefore.2) ltac:(lia) sample_pool_run)).
Defined.

Lemma sample_pool_wf : pool_wf samplePool2.
Proof. unfold samplePool2, samplePool1. do 2 apply import_locked_wf. split; try done; constructor. Qed.

(** With block limit 5 and 9 at number 0, both transactions may be sealed. *)
Lemma topTransactions_spec_witness :
  (pt_sha3 <$> (topTransactions 1 ∅ false samplePool2).2) = [502]
  ∧ NoDup (pt_sha3 <$> (topTransactions 1 ∅ false samplePool2).2).
Proof.
  split; [vm_compute; reflexivity|]. pose proof (topTransactions_spec 1 ∅ false samplePool2 sample_pool_wf) as H.
  destruct (topTransactions 1 ∅ false samplePool2) as [[p' a'] ret]. apply H.
Defined.
