(* ===== verification/EngineBase.v ===== *)
(** * The base of the consensus engines (libconsensus/ConsensusEngineBase.h, .cpp)

    The members [m_x] of [ConsensusEngineBase] are the fields [eb_x].  What the
    system tables hold for the next block is the argument [Ledger]; the time is an
    argument; the chain is reached through [BlockChainInterface]. *)
From S2P Require Import Prelude CommonData RLP Crypto BlockHeader TxsParser Block PBFTMsg BlockChain.
From stdpp Require Import sorting.
Local Open Scope Z_scope.

Inductive NodeAccountType := ObserverAccount | SealerAccount.

#[export] Instance accountType_eq_dec : EqDecision NodeAccountType.
Proof. solve_decision. Defined.

(** What the chain's system tables say: the node lists and two configuration
    values, as [lexical_cast<uint64_t>] reads them if it does. *)
Record Ledger := mkLedger {
  lg_sealerList : list Z; lg_observerList : list Z;
  lg_txCountLimit : option Z; lg_consensusTimeout : option Z }.

(** The exceptions of the engine. *)
Inductive engine_exn :=
| OverThresTransNum | DisabledFutureTime | InvalidBlockHeight | ParentNoneExist | WrongParentHash
| BlockSealerListWrong | EmptySealers | BadLexicalCast | ExecFailed | InvalidTransactions | DecodeFailed.

(** The members, over the type of key pairs. *)
Section members.
Context {K : Type}.

Record EngineBaseOf := mkBase {
  eb_maxBlockTransactions : Z;
  eb_sealerListUpdated : bool;
  eb_lastSealerListUpdateNumber : Z;
  eb_consensusBlockNumber : Z;
  eb_highestBlock : BlockHeader;
  eb_nodeNum : Z;
  eb_f : Z;
  eb_accountType : NodeAccountType;
  eb_idx : Z;
  eb_keyPair : K;
  eb_sealerList : list Z;
  eb_allowFutureBlocks : bool;
  eb_lastNodeList : option (list Z * list Z);
  eb_omitEmptyBlock : bool;
  eb_cfgErr : bool }.
Definition set_eb_maxBlockTransactions v (s : EngineBaseOf) : EngineBaseOf := mkBase v
  (eb_sealerListUpdated s) (eb_lastSealerListUpdateNumber s) (eb_consensusBlockNumber s)
  (eb_highestBlock s) (eb_nodeNum s) (eb_f s) (eb_accountType s) (eb_idx s) (eb_keyPair s)
  (eb_sealerList s) (eb_allowFutureBlocks s) (eb_lastNodeList s) (eb_omitEmptyBlock s)
  (eb_cfgErr s).
Definition set_eb_sealerListUpdated v (s : EngineBaseOf) : EngineBaseOf := mkBase
  (eb_maxBlockTransactions s) v (eb_lastSealerListUpdateNumber s) (eb_consensusBlockNumber s)
  (eb_highestBlock s) (eb_nodeNum s) (eb_f s) (eb_accountType s) (eb_idx s) (eb_keyPair s)
  (eb_sealerList s) (eb_allowFutureBlocks s) (eb_lastNodeList s) (eb_omitEmptyBlock s)
  (eb_cfgErr s).
Definition set_eb_lastSealerListUpdateNumber v (s : EngineBaseOf) : EngineBaseOf := mkBase
  (eb_maxBlockTransactions s) (eb_sealerListUpdated s) v (eb_consensusBlockNumber s)
  (eb_highestBlock s) (eb_nodeNum s) (eb_f s) (eb_accountType s) (eb_idx s) (eb_keyPair s)
  (eb_sealerList s) (eb_allowFutureBlocks s) (eb_lastNodeList s) (eb_omitEmptyBlock s)
  (eb_cfgErr s).
Definition set_eb_consensusBlockNumber v (s : EngineBaseOf) : EngineBaseOf := mkBase
  (eb_maxBlockTransactions s) (eb_sealerListUpdated s) (eb_lastSealerListUpdateNumber s) v
  (eb_highestBlock s) (eb_nodeNum s) (eb_f s) (eb_accountType s) (eb_idx s) (eb_keyPair s)
  (eb_sealerList s) (eb_allowFutureBlocks s) (eb_lastNodeList s) (eb_omitEmptyBlock s)
  (eb_cfgErr s).
Definition set_eb_highestBlock v (s : EngineBaseOf) : EngineBaseOf := mkBase
  (eb_maxBlockTransactions s) (eb_sealerListUpdated s) (eb_lastSealerListUpdateNumber s)
  (eb_consensusBlockNumber s) v (eb_nodeNum s) (eb_f s) (eb_accountType s) (eb_idx s)
  (eb_keyPair s) (eb_sealerList s) (eb_allowFutureBlocks s) (eb_lastNodeList s)
  (eb_omitEmptyBlock s) (eb_cfgErr s).
Definition set_eb_nodeNum v (s : EngineBaseOf) : EngineBaseOf := mkBase (eb_maxBlockTransactions s)
  (eb_sealerListUpdated s) (eb_lastSealerListUpdateNumber s) (eb_consensusBlockNumber s)
  (eb_highestBlock s) v (eb_f s) (eb_accountType s) (eb_idx s) (eb_keyPair s) (eb_sealerList s)
  (eb_allowFutureBlocks s) (eb_lastNodeList s) (eb_omitEmptyBlock s) (eb_cfgErr s).
Definition set_eb_f v (s : EngineBaseOf) : EngineBaseOf := mkBase (eb_maxBlockTransactions s)
  (eb_sealerListUpdated s) (eb_lastSealerListUpdateNumber s) (eb_consensusBlockNumber s)
  (eb_highestBlock s) (eb_nodeNum s) v (eb_accountType s) (eb_idx s) (eb_keyPair s)
  (eb_sealerList s) (eb_allowFutureBlocks s) (eb_lastNodeList s) (eb_omitEmptyBlock s)
  (eb_cfgErr s).
Definition set_eb_accountType v (s : EngineBaseOf) : EngineBaseOf := mkBase (eb_maxBlockTransactions
  s) (eb_sealerListUpdated s) (eb_lastSealerListUpdateNumber s) (eb_consensusBlockNumber s)
  (eb_highestBlock s) (eb_nodeNum s) (eb_f s) v (eb_idx s) (eb_keyPair s) (eb_sealerList s)
  (eb_allowFutureBlocks s) (eb_lastNodeList s) (eb_omitEmptyBlock s) (eb_cfgErr s).
Definition set_eb_idx v (s : EngineBaseOf) : EngineBaseOf := mkBase (eb_maxBlockTransactions s)
  (eb_sealerListUpdated s) (eb_lastSealerListUpdateNumber s) (eb_consensusBlockNumber s)
  (eb_highestBlock s) (eb_nodeNum s) (eb_f s) (eb_accountType s) v (eb_keyPair s) (eb_sealerList
  s) (eb_allowFutureBlocks s) (eb_lastNodeList s) (eb_omitEmptyBlock s) (eb_cfgErr s).
Definition set_eb_keyPair v (s : EngineBaseOf) : EngineBaseOf := mkBase (eb_maxBlockTransactions s)
  (eb_sealerListUpdated s) (eb_lastSealerListUpdateNumber s) (eb_consensusBlockNumber s)
  (eb_highestBlock s) (eb_nodeNum s) (eb_f s) (eb_accountType s) (eb_idx s) v (eb_sealerList s)
  (eb_allowFutureBlocks s) (eb_lastNodeList s) (eb_omitEmptyBlock s) (eb_cfgErr s).
Definition set_eb_sealerList v (s : EngineBaseOf) : EngineBaseOf := mkBase (eb_maxBlockTransactions
  s) (eb_sealerListUpdated s) (eb_lastSealerListUpdateNumber s) (eb_consensusBlockNumber s)
  (eb_highestBlock s) (eb_nodeNum s) (eb_f s) (eb_accountType s) (eb_idx s) (eb_keyPair s) v
  (eb_allowFutureBlocks s) (eb_lastNodeList s) (eb_omitEmptyBlock s) (eb_cfgErr s).
Definition set_eb_allowFutureBlocks v (s : EngineBaseOf) : EngineBaseOf := mkBase
  (eb_maxBlockTransactions s) (eb_sealerListUpdated s) (eb_lastSealerListUpdateNumber s)
  (eb_consensusBlockNumber s) (eb_highestBlock s) (eb_nodeNum s) (eb_f s) (eb_accountType s)
  (eb_idx s) (eb_keyPair s) (eb_sealerList s) v (eb_lastNodeList s) (eb_omitEmptyBlock s)
  (eb_cfgErr s).
Definition set_eb_lastNodeList v (s : EngineBaseOf) : EngineBaseOf := mkBase
  (eb_maxBlockTransactions s) (eb_sealerListUpdated s) (eb_lastSealerListUpdateNumber s)
  (eb_consensusBlockNumber s) (eb_highestBlock s) (eb_nodeNum s) (eb_f s) (eb_accountType s)
  (eb_idx s) (eb_keyPair s) (eb_sealerList s) (eb_allowFutureBlocks s) v (eb_omitEmptyBlock s)
  (eb_cfgErr s).
Definition set_eb_omitEmptyBlock v (s : EngineBaseOf) : EngineBaseOf := mkBase
  (eb_maxBlockTransactions s) (eb_sealerListUpdated s) (eb_lastSealerListUpdateNumber s)
  (eb_consensusBlockNumber s) (eb_highestBlock s) (eb_nodeNum s) (eb_f s) (eb_accountType s)
  (eb_idx s) (eb_keyPair s) (eb_sealerList s) (eb_allowFutureBlocks s) (eb_lastNodeList s) v
  (eb_cfgErr s).
Definition set_eb_cfgErr v (s : EngineBaseOf) : EngineBaseOf := mkBase (eb_maxBlockTransactions s)
  (eb_sealerListUpdated s) (eb_lastSealerListUpdateNumber s) (eb_consensusBlockNumber s)
  (eb_highestBlock s) (eb_nodeNum s) (eb_f s) (eb_accountType s) (eb_idx s) (eb_keyPair s)
  (eb_sealerList s) (eb_allowFutureBlocks s) (eb_lastNodeList s) (eb_omitEmptyBlock s) v.
End members.
Arguments EngineBaseOf : clear implicits.

Section base.
Context `{Crypto}.
Local Abbreviation EngineBase := (EngineBaseOf KeyPair).

(** The constructor, on a chain of the given number. *)
Definition newBase (number : Z) (k : KeyPair) (sealers : list Z) : EngineBase :=
  mkBase 1000 true number 0 emptyHeader 0 0 ObserverAccount 0 k (merge_sort Z.le sealers) true None true false.

(** [minValidNodes]: the quorum, an [IDXTYPE]. *)
Definition minValidNodes (e : EngineBase) : Z := wrapU 16 (eb_nodeNum e - eb_f e).

(** [getSealerByIndex]: zero, the empty [h512], outside the list. *)
Definition getSealerByIndex (i : Z) (e : EngineBase) : Z :=
  if (0 <=? i) && (i <? zlen (eb_sealerList e)) then default 0 (eb_sealerList e !! Z.to_nat i) else 0.

(** [getNodeIDByIndex]. *)
Definition getNodeIDByIndex (i : Z) (e : EngineBase) : option Z :=
  let nodeID := getSealerByIndex i e in if nodeID =? 0 then None else Some nodeID.

(** [getIndexBySealer]: -1 when the node is not a sealer. *)
Definition getIndexBySealer (nodeId : Z) (e : EngineBase) : Z :=
  match list_find (λ s, s = nodeId) (eb_sealerList e) with Some (i, _) => Z.of_nat i | None => -1 end.

(** [checkBlockTimeStamp]: whether the warning is logged; nothing else happens. *)
Definition maxBlockTimeOffset : Z := 30 * 60 * 1000.
Definition timestampWarning (alignedTime : option Z) (b : Block) : bool :=
  match alignedTime with
  | None => false
  | Some t => maxBlockTimeOffset <? Z.abs (wrapS 64 (m_timestamp (b_header b)) - t)
  end.

Section chain.
Context {C : Type} `{BlockChainInterface C}.

(** [checkBlockValid]; [getBlockByHash] may fill the block cache. *)
Definition checkBlockValid (now : Z) (b : Block) (e : EngineBase) (c : C) : C * result engine_exn unit :=
  let h := b_header b in
  if eb_maxBlockTransactions e <? getTransactionSize b then (c, Throw OverThresTransNum)
  else if (now <? m_timestamp h) && negb (eb_allowFutureBlocks e) then (c, Throw DisabledFutureTime)
  else if m_number h <=? bci_number c then (c, Throw InvalidBlockHeight)
  else let '(c, parent) := bci_getBlockByHash (m_parentHash h) c in
       match parent with
       | None => (c, Throw ParentNoneExist)
       | Some _ =>
           if (1 <? m_number h) && negb (bci_numberHash (m_number h - 1) c =? m_parentHash h)
           then (c, Throw WrongParentHash) else (c, Ok tt)
       end.
End chain.

(** The first four bytes of a node id, what [abridged] shows. *)
Definition abridged (n : Z) : Z := n / 2 ^ (60 * 8).

(** [updateConsensusNodeList]: the new state, and the list handed to the P2P
    service, if any. *)
Definition updateConsensusNodeList (number : Z) (lg : Ledger) (e : EngineBase)
  : EngineBase * option (list Z) :=
  let sealerList := merge_sort Z.le (lg_sealerList lg) in
  let e := if bool_decide (sealerList ≠ eb_sealerList e) then
             set_eb_lastSealerListUpdateNumber number
               (set_eb_sealerListUpdated true (set_eb_sealerList sealerList e))
           else if negb (number =? eb_lastSealerListUpdateNumber e)
           then set_eb_sealerListUpdated false e else e in
  let s2 := (abridged <$> eb_sealerList e, abridged <$> lg_observerList lg) in
  if bool_decide (eb_lastNodeList e ≠ Some s2)
  then (set_eb_lastNodeList (Some s2) e, Some (merge_sort Z.le (sealerList ++ lg_observerList lg)))
  else (e, None).

(** [updateMaxBlockTransactions]. *)
Definition updateMaxBlockTransactions (lg : Ledger) (e : EngineBase) : result engine_exn EngineBase :=
  match lg_txCountLimit lg with
  | Some n => Ok (set_eb_maxBlockTransactions n e)
  | None => Throw BadLexicalCast
  end.

(** [resetConfig]: node index, account type, node number, tolerated faults. *)
Definition base_resetConfig (number : Z) (lg : Ledger) (e : EngineBase)
  : result engine_exn (EngineBase * option (list Z)) :=
  e ← updateMaxBlockTransactions lg e;
  let '(e, nodeList) := updateConsensusNodeList number lg (set_eb_accountType ObserverAccount e) in
  let pos := list_find (λ s, s = pub (eb_keyPair e)) (eb_sealerList e) in
  let node_idx := match pos with Some (i, _) => wrapU 16 (Z.of_nat i) | None => MAXIDX end in
  let e := match pos with Some _ => set_eb_accountType SealerAccount e | None => e end in
  let nodeNum := zlen (eb_sealerList e) in
  if nodeNum <? 1 then Throw EmptySealers
  else
    let e := if eb_nodeNum e =? nodeNum then e else set_eb_nodeNum (wrapU 16 nodeNum) e in
    let e := set_eb_f (wrapU 16 (Z.quot (eb_nodeNum e - 1) 3)) e in
    let e := set_eb_cfgErr (node_idx =? MAXIDX) e in
    Ok (set_eb_idx node_idx e, nodeList).
End base.

(** ** Configuration and quorums *)

(** The indices of a configuration with [n] sealers. *)
Definition indices (n : Z) : gset Z := list_to_set (seqZ 0 n).

Lemma size_indices n : 0 <= n → Z.of_nat (size (indices n)) = n.
Proof.
  intros Hn. unfold indices. rewrite size_list_to_set by apply NoDup_seqZ. rewrite length_seqZ. lia.
Qed.

(** Two sets of at least [q] of [n] indices share at least [2 q - n]. *)
Lemma quorums_meet n q (S1 S2 : gset Z) :
  0 <= n → S1 ⊆ indices n → S2 ⊆ indices n →
  q <= Z.of_nat (size S1) → q <= Z.of_nat (size S2) → 2 * q - n <= Z.of_nat (size (S1 ∩ S2)).
Proof.
  intros Hn H1 H2 Hq1 Hq2.
  assert (Hu : (size (S1 ∪ S2) <= size (indices n))%nat) by (apply subseteq_size; set_solver).
  pose proof (size_indices n Hn) as Hi. pose proof (size_union_alt S1 S2) as Ha.
  assert (Hd : size S2 = (size (S2 ∖ S1) + size (S1 ∩ S2))%nat).
  { rewrite <-size_union by set_solver. f_equal. apply set_eq. intros x.
    destruct (decide (x ∈ S1)); set_solver. }
  lia.
Qed.

Section base_props.
Context `{Crypto}.
Local Abbreviation EngineBase := (EngineBaseOf KeyPair).

(** The part of a configuration that resetting it establishes. *)
Record config_ok (e : EngineBase) : Prop := {
  cfg_num : eb_nodeNum e = zlen (eb_sealerList e);
  cfg_range : 1 <= eb_nodeNum e < 2 ^ 16;
  cfg_f : eb_f e = (eb_nodeNum e - 1) / 3;
  cfg_sorted : StronglySorted Z.le (eb_sealerList e) }.

Lemma updateConsensusNodeList_sealers number lg e :
  let e' := (updateConsensusNodeList number lg e).1 in
  eb_sealerList e' = merge_sort Z.le (lg_sealerList lg) ∧ eb_keyPair e' = eb_keyPair e
  ∧ eb_nodeNum e' = eb_nodeNum e.
Proof.
  unfold updateConsensusNodeList. cbn zeta.
  set (e1 := if bool_decide (merge_sort Z.le (lg_sealerList lg) ≠ eb_sealerList e) then _ else _).
  assert (He1 : eb_sealerList e1 = merge_sort Z.le (lg_sealerList lg) ∧ eb_keyPair e1 = eb_keyPair e
                ∧ eb_nodeNum e1 = eb_nodeNum e).
  { subst e1. case_bool_decide as Hne; [done|]. rewrite Hne. by break_if. }
  by case_bool_decide.
Qed.

Lemma faulty_range n : 1 <= n < 2 ^ 16 → wrapU 16 (Z.quot (n - 1) 3) = (n - 1) / 3.
Proof.
  intros Hn. rewrite Z.quot_div_nonneg by lia. apply wrapU_id. split.
  - apply Z.div_pos; lia.
  - apply Z.div_lt_upper_bound; lia.
Qed.

Lemma base_resetConfig_ok number lg e e' nl :
  base_resetConfig number lg e = Ok (e', nl) → zlen (lg_sealerList lg) < 2 ^ 16 →
  config_ok e' ∧ eb_sealerList e' = merge_sort Z.le (lg_sealerList lg) ∧ eb_keyPair e' = eb_keyPair e
  ∧ eb_idx e' = (match list_find (λ s, s = pub (eb_keyPair e')) (eb_sealerList e') with
                 | Some (i, _) => Z.of_nat i | None => MAXIDX end)
  ∧ eb_cfgErr e' = (eb_idx e' =? MAXIDX).
Proof.
  unfold base_resetConfig, updateMaxBlockTransactions. intros Hr Hlen.
  destruct (lg_txCountLimit lg) as [lim|]; [|done]. simpl in Hr.
  match type of Hr with context [updateConsensusNodeList ?a ?b ?c] =>
    pose proof (updateConsensusNodeList_sealers a b c) as Hs; destruct (updateConsensusNodeList a b c) as [e1 nl1]
  end.
  cbn [fst] in Hs. destruct Hs as (Hs & Hk & Hnn). simpl in Hk, Hnn.
  assert (Hz : zlen (eb_sealerList e1) = zlen (lg_sealerList lg)).
  { unfold zlen. by rewrite Hs, (Permutation_length (merge_sort_Permutation Z.le (lg_sealerList lg))). }
  assert (Hsort : StronglySorted Z.le (eb_sealerList e1)) by (rewrite Hs; apply (StronglySorted_merge_sort Z.le)).
  set (n := zlen (eb_sealerList e1)) in *.
  assert (Hwi : ∀ i x, list_find (λ s, s = pub (eb_keyPair e1)) (eb_sealerList e1) = Some (i, x) →
                wrapU 16 (Z.of_nat i) = Z.of_nat i).
  { intros i x (Hl%lookup_lt_Some & _)%list_find_Some. apply wrapU_id. unfold zlen in n. lia. }
  destruct (list_find _ _) as [[i x]|] eqn:Hf; cbn [eb_sealerList set_eb_accountType] in Hr; fold n in Hr;
    (destruct (n <? 1) eqn:H1; [done|]); apply Z.ltb_ge in H1; injection Hr as <- <-;
    assert (Hn : wrapU 16 n = n) by (apply wrapU_id; lia);
    destruct (eb_nodeNum e1 =? n) eqn:H2; cbn in H2 |- *; rewrite ?H2; cbn;
    try (apply Z.eqb_eq in H2); rewrite ?Hf, ?(Hwi i x Hf), ?Hn, ?H2;
    (split_and!; [split; cbn; rewrite ?Hn, ?H2; fold n|..]; try done; try lia;
     try (apply faulty_range; lia); try (eapply Hwi; reflexivity)).
Qed.

(** C32. Resetting the configuration puts all nodes that see the same sealers, in
    whatever order, on the same sealer list.  With [n] sealers (fewer than 2^16)
    and [f] tolerated faults the quorum is [n - f]: it can be reached without the
    [f] faulty nodes, and any two quorums share more than [f] nodes.  The node's
    own index is its position, or [MAXIDX] with [m_cfgErr] set. *)
Theorem resetConfig_quorum number lg e e' nl lg2 e2 e2' nl2 :
  base_resetConfig number lg e = Ok (e', nl) → zlen (lg_sealerList lg) < 2 ^ 16 →
  base_resetConfig number lg2 e2 = Ok (e2', nl2) → lg_sealerList lg ≡ₚ lg_sealerList lg2 →
  let n := zlen (lg_sealerList lg) in
  let f := eb_f e' in
  let q := minValidNodes e' in
  eb_sealerList e' = eb_sealerList e2' ∧ minValidNodes e2' = q
  ∧ q = n - f ∧ 3 * f < n <= 3 * f + 3
  ∧ (∀ S1 S2 : gset Z, S1 ⊆ indices n → S2 ⊆ indices n →
       q <= Z.of_nat (size S1) → q <= Z.of_nat (size S2) → f < Z.of_nat (size (S1 ∩ S2)))
  ∧ (eb_cfgErr e' = false → eb_sealerList e' !! Z.to_nat (eb_idx e') = Some (pub (eb_keyPair e))).
Proof.
  intros Hr Hlen Hr2 Hp. cbn zeta.
  destruct (base_resetConfig_ok _ _ _ _ _ Hr Hlen) as ([C1 C2 C3 C4] & Hs & Hk & Hi & He).
  assert (Hlen2 : zlen (lg_sealerList lg2) < 2 ^ 16) by (unfold zlen in *; by rewrite <-Hp).
  destruct (base_resetConfig_ok _ _ _ _ _ Hr2 Hlen2) as ([D1 D2 D3 D4] & Hs2 & _).
  assert (Hse : eb_sealerList e' = eb_sealerList e2').
  { apply (StronglySorted_unique Z.le); [done|done|]. by rewrite Hs, Hs2, !merge_sort_Permutation. }
  assert (Hn : eb_nodeNum e' = zlen (lg_sealerList lg)).
  { rewrite C1. unfold zlen. by rewrite Hs, (Permutation_length (merge_sort_Permutation Z.le _)). }
  rewrite Hn in *. set (n := zlen (lg_sealerList lg)) in *.
  assert (Hf : 3 * eb_f e' < n <= 3 * eb_f e' + 3) by (rewrite C3; pose proof (Z.div_mod (n - 1) 3); pose proof (Z.mod_pos_bound (n - 1) 3); lia).
  assert (Hq : minValidNodes e' = n - eb_f e') by (unfold minValidNodes; rewrite Hn; apply wrapU_id; lia).
  split_and!; [done| |done|lia|lia| |].
  - unfold minValidNodes. rewrite D3, D1, <-Hse, <-C1, <-C3, Hn. done.
  - intros S1 S2 H1 H2 Hq1 Hq2. pose proof (quorums_meet n _ S1 S2 ltac:(lia) H1 H2 Hq1 Hq2). lia.
  - intros Hc. rewrite He in Hc. apply Z.eqb_neq in Hc. rewrite Hk in Hi.
    destruct (list_find _ _) as [[i x]|] eqn:Hfind; [|done].
    apply list_find_Some in Hfind as (Hl & -> & _). by rewrite Hi, Nat2Z.id.
Qed.
End base_props.

Definition sampleLedger (l : list Z) : Ledger := mkLedger l [] (Some 1000) (Some 3).

(** The configuration of the node with key [k] at index [i] of four sealers. *)
Definition sampleBase (k i : Z) : EngineBaseOf Z :=
  mkBase 1000 true 0 0 emptyHeader 4 1 SealerAccount i k [3; 5; 7; 9] true (Some ([0; 0; 0; 0], [])) true false.

Lemma resetConfig_quorum_witness :
  @base_resetConfig toyCrypto 0 (sampleLedger [5; 3; 9; 7]) (@newBase toyCrypto 0 (3 : Z) [])
  = Ok (sampleBase 3 0, Some [3; 5; 7; 9])
  ∧ @minValidNodes toyCrypto (sampleBase 3 0) = 3 ∧ 3 * 1 < 4 <= 3 * 1 + 3.
Proof.
  assert (H1 : @base_resetConfig toyCrypto 0 (sampleLedger [5; 3; 9; 7]) (@newBase toyCrypto 0 (3 : Z) [])
               = Ok (sampleBase 3 0, Some [3; 5; 7; 9])) by (vm_compute; reflexivity).
  assert (H2 : @base_resetConfig toyCrypto 0 (sampleLedger [9; 7; 5; 3]) (@newBase toyCrypto 0 (7 : Z) [])
               = Ok (sampleBase 7 2, Some [3; 5; 7; 9])) by (vm_compute; reflexivity).
  assert (Hlen : zlen (lg_sealerList (sampleLedger [5; 3; 9; 7])) < 2 ^ 16) by (vm_compute; reflexivity).
  assert (Hp : [5; 3; 9; 7] ≡ₚ [9; 7; 5; 3]) by (apply (bool_decide_unpack _); vm_compute; exact I).
  destruct (@resetConfig_quorum toyCrypto 0 (sampleLedger [5; 3; 9; 7]) (@newBase toyCrypto 0 (3 : Z) [])
    (sampleBase 3 0) (Some [3; 5; 7; 9]) (sampleLedger [9; 7; 5; 3]) (@newBase toyCrypto 0 (7 : Z) [])
    (sampleBase 7 2) (Some [3; 5; 7; 9]) H1 Hlen H2 Hp) as (_ & _ & Hq & Hf & _).
  split; [exact H1|]. split; [exact Hq|exact Hf].
Defined.
