(* ===== verification/Engine.v ===== *)
(** * The PBFT engine (libconsensus/pbft/PBFTEngine.h, PBFTEngine.cpp)

    The members [m_x] of [PBFTEngine] are the fields [pe_x] of a record that also
    holds the base class's members, the chain, and a log of the calls the engine
    makes on other modules.  Each handler is a function on that record.  What a
    handler reads of the other modules while it runs is the argument [Env]; the
    block executor is an argument too.  The tasks handed to the thread pool (the
    leader's broadcast of a prepare, the backup of the committed prepare) run at the
    point where they are enqueued.  The option [m_enablePrepareWithTxsHash] is off,
    its default. *)
From S2P Require Import Prelude CommonData RLP Crypto BlockHeader TxsParser Block PBFTMsg MsgCache.
From S2P Require Import TimeManager ReqCache BlockChain EngineBase.
From stdpp Require Import sorting.
Local Open Scope Z_scope.

Inductive CheckResult := VALID | INVALID | FUTURE.

#[export] Instance checkResult_eq_dec : EqDecision CheckResult.
Proof. solve_decision. Defined.

(** What the other modules answer while a handler runs: the synchroniser's state,
    the connected peers, the clocks, whether the database accepts a commit, and
    the system tables. *)
Record Env := mkEnv {
  en_farBehind : bool; en_isSyncing : bool; en_knownHighest : Z; en_sessions : list Z;
  en_utcTime : Z; en_steadyTime : Z; en_dbOk : bool; en_ledger : Ledger }.

(** The calls the engine makes on the network, the synchroniser, the transaction
    pool, the sealer, the backup database and the chain. *)
Inductive event :=
| EvMulticast (targets : list Z) (p2pType : Z) (data : bytes)
| EvSend (node : Z) (data : bytes)
| EvNoteSealing (number : Z)
| EvNodeList (nodes : list Z)
| EvOnTimeout (txs : Z)
| EvOnCommitBlock (number txs cycle : Z)
| EvOnViewChange
| EvNextLeaderReset (filter : list Z)
| EvDropTxs (b : Block)
| EvBadBlock (b : Block)
| EvBackup (r : PrepareReq)
| EvCommit (b : Block) (r : CommitResult).

Section members.
Context {K C : Type}.

Record PBFTEngineOf := mkEngine {
  pe_base : EngineBaseOf K;
  pe_view : Z;
  pe_toView : Z;
  pe_leaderFailed : bool;
  pe_notifyNextLeaderSeal : bool;
  pe_broadCastCache : PBFTBroadcastCache;
  pe_reqCache : PBFTReqCache;
  pe_timeManager : TimeManager;
  pe_msgQueue : list PBFTMsgPacket;
  pe_fastViewChange : bool;
  pe_maxTTL : Z;
  pe_viewMap : gmap Z Z;
  pe_sealingNumber : Z;
  pe_consensusSet : gset Z;
  pe_connectedNode : Z;
  pe_enableTTLOptimize : bool;
  pe_supportTimeAdjust : bool;
  pe_backupDB : option bytes;
  pe_chain : C;
  pe_nextId : Z;
  pe_events : list event }.
Definition set_pe_base v (s : PBFTEngineOf) : PBFTEngineOf := mkEngine v (pe_view s) (pe_toView
  s) (pe_leaderFailed s) (pe_notifyNextLeaderSeal s) (pe_broadCastCache s) (pe_reqCache s)
  (pe_timeManager s) (pe_msgQueue s) (pe_fastViewChange s) (pe_maxTTL s) (pe_viewMap s)
  (pe_sealingNumber s) (pe_consensusSet s) (pe_connectedNode s) (pe_enableTTLOptimize s)
  (pe_supportTimeAdjust s) (pe_backupDB s) (pe_chain s) (pe_nextId s) (pe_events s).
Definition set_pe_view v (s : PBFTEngineOf) : PBFTEngineOf := mkEngine (pe_base s) v (pe_toView
  s) (pe_leaderFailed s) (pe_notifyNextLeaderSeal s) (pe_broadCastCache s) (pe_reqCache s)
  (pe_timeManager s) (pe_msgQueue s) (pe_fastViewChange s) (pe_maxTTL s) (pe_viewMap s)
  (pe_sealingNumber s) (pe_consensusSet s) (pe_connectedNode s) (pe_enableTTLOptimize s)
  (pe_supportTimeAdjust s) (pe_backupDB s) (pe_chain s) (pe_nextId s) (pe_events s).
Definition set_pe_toView v (s : PBFTEngineOf) : PBFTEngineOf := mkEngine (pe_base s) (pe_view s)
  v (pe_leaderFailed s) (pe_notifyNextLeaderSeal s) (pe_broadCastCache s) (pe_reqCache s)
  (pe_timeManager s) (pe_msgQueue s) (pe_fastViewChange s) (pe_maxTTL s) (pe_viewMap s)
  (pe_sealingNumber s) (pe_consensusSet s) (pe_connectedNode s) (pe_enableTTLOptimize s)
  (pe_supportTimeAdjust s) (pe_backupDB s) (pe_chain s) (pe_nextId s) (pe_events s).
Definition set_pe_leaderFailed v (s : PBFTEngineOf) : PBFTEngineOf := mkEngine (pe_base s)
  (pe_view s) (pe_toView s) v (pe_notifyNextLeaderSeal s) (pe_broadCastCache s) (pe_reqCache s)
  (pe_timeManager s) (pe_msgQueue s) (pe_fastViewChange s) (pe_maxTTL s) (pe_viewMap s)
  (pe_sealingNumber s) (pe_consensusSet s) (pe_connectedNode s) (pe_enableTTLOptimize s)
  (pe_supportTimeAdjust s) (pe_backupDB s) (pe_chain s) (pe_nextId s) (pe_events s).
Definition set_pe_notifyNextLeaderSeal v (s : PBFTEngineOf) : PBFTEngineOf := mkEngine (pe_base
  s) (pe_view s) (pe_toView s) (pe_leaderFailed s) v (pe_broadCastCache s) (pe_reqCache s)
  (pe_timeManager s) (pe_msgQueue s) (pe_fastViewChange s) (pe_maxTTL s) (pe_viewMap s)
  (pe_sealingNumber s) (pe_consensusSet s) (pe_connectedNode s) (pe_enableTTLOptimize s)
  (pe_supportTimeAdjust s) (pe_backupDB s) (pe_chain s) (pe_nextId s) (pe_events s).
Definition set_pe_broadCastCache v (s : PBFTEngineOf) : PBFTEngineOf := mkEngine (pe_base s)
  (pe_view s) (pe_toView s) (pe_leaderFailed s) (pe_notifyNextLeaderSeal s) v (pe_reqCache s)
  (pe_timeManager s) (pe_msgQueue s) (pe_fastViewChange s) (pe_maxTTL s) (pe_viewMap s)
  (pe_sealingNumber s) (pe_consensusSet s) (pe_connectedNode s) (pe_enableTTLOptimize s)
  (pe_supportTimeAdjust s) (pe_backupDB s) (pe_chain s) (pe_nextId s) (pe_events s).
Definition set_pe_reqCache v (s : PBFTEngineOf) : PBFTEngineOf := mkEngine (pe_base s) (pe_view
  s) (pe_toView s) (pe_leaderFailed s) (pe_notifyNextLeaderSeal s) (pe_broadCastCache s) v
  (pe_timeManager s) (pe_msgQueue s) (pe_fastViewChange s) (pe_maxTTL s) (pe_viewMap s)
  (pe_sealingNumber s) (pe_consensusSet s) (pe_connectedNode s) (pe_enableTTLOptimize s)
  (pe_supportTimeAdjust s) (pe_backupDB s) (pe_chain s) (pe_nextId s) (pe_events s).
Definition set_pe_timeManager v (s : PBFTEngineOf) : PBFTEngineOf := mkEngine (pe_base s)
  (pe_view s) (pe_toView s) (pe_leaderFailed s) (pe_notifyNextLeaderSeal s) (pe_broadCastCache
  s) (pe_reqCache s) v (pe_msgQueue s) (pe_fastViewChange s) (pe_maxTTL s) (pe_viewMap s)
  (pe_sealingNumber s) (pe_consensusSet s) (pe_connectedNode s) (pe_enableTTLOptimize s)
  (pe_supportTimeAdjust s) (pe_backupDB s) (pe_chain s) (pe_nextId s) (pe_events s).
Definition set_pe_msgQueue v (s : PBFTEngineOf) : PBFTEngineOf := mkEngine (pe_base s) (pe_view
  s) (pe_toView s) (pe_leaderFailed s) (pe_notifyNextLeaderSeal s) (pe_broadCastCache s)
  (pe_reqCache s) (pe_timeManager s) v (pe_fastViewChange s) (pe_maxTTL s) (pe_viewMap s)
  (pe_sealingNumber s) (pe_consensusSet s) (pe_connectedNode s) (pe_enableTTLOptimize s)
  (pe_supportTimeAdjust s) (pe_backupDB s) (pe_chain s) (pe_nextId s) (pe_events s).
Definition set_pe_fastViewChange v (s : PBFTEngineOf) : PBFTEngineOf := mkEngine (pe_base s)
  (pe_view s) (pe_toView s) (pe_leaderFailed s) (pe_notifyNextLeaderSeal s) (pe_broadCastCache
  s) (pe_reqCache s) (pe_timeManager s) (pe_msgQueue s) v (pe_maxTTL s) (pe_viewMap s)
  (pe_sealingNumber s) (pe_consensusSet s) (pe_connectedNode s) (pe_enableTTLOptimize s)
  (pe_supportTimeAdjust s) (pe_backupDB s) (pe_chain s) (pe_nextId s) (pe_events s).
Definition set_pe_maxTTL v (s : PBFTEngineOf) : PBFTEngineOf := mkEngine (pe_base s) (pe_view s)
  (pe_toView s) (pe_leaderFailed s) (pe_notifyNextLeaderSeal s) (pe_broadCastCache s)
  (pe_reqCache s) (pe_timeManager s) (pe_msgQueue s) (pe_fastViewChange s) v (pe_viewMap s)
  (pe_sealingNumber s) (pe_consensusSet s) (pe_connectedNode s) (pe_enableTTLOptimize s)
  (pe_supportTimeAdjust s) (pe_backupDB s) (pe_chain s) (pe_nextId s) (pe_events s).
Definition set_pe_viewMap v (s : PBFTEngineOf) : PBFTEngineOf := mkEngine (pe_base s) (pe_view
  s) (pe_toView s) (pe_leaderFailed s) (pe_notifyNextLeaderSeal s) (pe_broadCastCache s)
  (pe_reqCache s) (pe_timeManager s) (pe_msgQueue s) (pe_fastViewChange s) (pe_maxTTL s) v
  (pe_sealingNumber s) (pe_consensusSet s) (pe_connectedNode s) (pe_enableTTLOptimize s)
  (pe_supportTimeAdjust s) (pe_backupDB s) (pe_chain s) (pe_nextId s) (pe_events s).
Definition set_pe_sealingNumber v (s : PBFTEngineOf) : PBFTEngineOf := mkEngine (pe_base s)
  (pe_view s) (pe_toView s) (pe_leaderFailed s) (pe_notifyNextLeaderSeal s) (pe_broadCastCache
  s) (pe_reqCache s) (pe_timeManager s) (pe_msgQueue s) (pe_fastViewChange s) (pe_maxTTL s)
  (pe_viewMap s) v (pe_consensusSet s) (pe_connectedNode s) (pe_enableTTLOptimize s)
  (pe_supportTimeAdjust s) (pe_backupDB s) (pe_chain s) (pe_nextId s) (pe_events s).
Definition set_pe_consensusSet v (s : PBFTEngineOf) : PBFTEngineOf := mkEngine (pe_base s)
  (pe_view s) (pe_toView s) (pe_leaderFailed s) (pe_notifyNextLeaderSeal s) (pe_broadCastCache
  s) (pe_reqCache s) (pe_timeManager s) (pe_msgQueue s) (pe_fastViewChange s) (pe_maxTTL s)
  (pe_viewMap s) (pe_sealingNumber s) v (pe_connectedNode s) (pe_enableTTLOptimize s)
  (pe_supportTimeAdjust s) (pe_backupDB s) (pe_chain s) (pe_nextId s) (pe_events s).
Definition set_pe_connectedNode v (s : PBFTEngineOf) : PBFTEngineOf := mkEngine (pe_base s)
  (pe_view s) (pe_toView s) (pe_leaderFailed s) (pe_notifyNextLeaderSeal s) (pe_broadCastCache
  s) (pe_reqCache s) (pe_timeManager s) (pe_msgQueue s) (pe_fastViewChange s) (pe_maxTTL s)
  (pe_viewMap s) (pe_sealingNumber s) (pe_consensusSet s) v (pe_enableTTLOptimize s)
  (pe_supportTimeAdjust s) (pe_backupDB s) (pe_chain s) (pe_nextId s) (pe_events s).
Definition set_pe_enableTTLOptimize v (s : PBFTEngineOf) : PBFTEngineOf := mkEngine (pe_base s)
  (pe_view s) (pe_toView s) (pe_leaderFailed s) (pe_notifyNextLeaderSeal s) (pe_broadCastCache
  s) (pe_reqCache s) (pe_timeManager s) (pe_msgQueue s) (pe_fastViewChange s) (pe_maxTTL s)
  (pe_viewMap s) (pe_sealingNumber s) (pe_consensusSet s) (pe_connectedNode s) v
  (pe_supportTimeAdjust s) (pe_backupDB s) (pe_chain s) (pe_nextId s) (pe_events s).
Definition set_pe_supportTimeAdjust v (s : PBFTEngineOf) : PBFTEngineOf := mkEngine (pe_base s)
  (pe_view s) (pe_toView s) (pe_leaderFailed s) (pe_notifyNextLeaderSeal s) (pe_broadCastCache
  s) (pe_reqCache s) (pe_timeManager s) (pe_msgQueue s) (pe_fastViewChange s) (pe_maxTTL s)
  (pe_viewMap s) (pe_sealingNumber s) (pe_consensusSet s) (pe_connectedNode s)
  (pe_enableTTLOptimize s) v (pe_backupDB s) (pe_chain s) (pe_nextId s) (pe_events s).
Definition set_pe_backupDB v (s : PBFTEngineOf) : PBFTEngineOf := mkEngine (pe_base s) (pe_view
  s) (pe_toView s) (pe_leaderFailed s) (pe_notifyNextLeaderSeal s) (pe_broadCastCache s)
  (pe_reqCache s) (pe_timeManager s) (pe_msgQueue s) (pe_fastViewChange s) (pe_maxTTL s)
  (pe_viewMap s) (pe_sealingNumber s) (pe_consensusSet s) (pe_connectedNode s)
  (pe_enableTTLOptimize s) (pe_supportTimeAdjust s) v (pe_chain s) (pe_nextId s) (pe_events s).
Definition set_pe_chain v (s : PBFTEngineOf) : PBFTEngineOf := mkEngine (pe_base s) (pe_view s)
  (pe_toView s) (pe_leaderFailed s) (pe_notifyNextLeaderSeal s) (pe_broadCastCache s)
  (pe_reqCache s) (pe_timeManager s) (pe_msgQueue s) (pe_fastViewChange s) (pe_maxTTL s)
  (pe_viewMap s) (pe_sealingNumber s) (pe_consensusSet s) (pe_connectedNode s)
  (pe_enableTTLOptimize s) (pe_supportTimeAdjust s) (pe_backupDB s) v (pe_nextId s) (pe_events
  s).
Definition set_pe_nextId v (s : PBFTEngineOf) : PBFTEngineOf := mkEngine (pe_base s) (pe_view s)
  (pe_toView s) (pe_leaderFailed s) (pe_notifyNextLeaderSeal s) (pe_broadCastCache s)
  (pe_reqCache s) (pe_timeManager s) (pe_msgQueue s) (pe_fastViewChange s) (pe_maxTTL s)
  (pe_viewMap s) (pe_sealingNumber s) (pe_consensusSet s) (pe_connectedNode s)
  (pe_enableTTLOptimize s) (pe_supportTimeAdjust s) (pe_backupDB s) (pe_chain s) v (pe_events
  s).
Definition set_pe_events v (s : PBFTEngineOf) : PBFTEngineOf := mkEngine (pe_base s) (pe_view s)
  (pe_toView s) (pe_leaderFailed s) (pe_notifyNextLeaderSeal s) (pe_broadCastCache s)
  (pe_reqCache s) (pe_timeManager s) (pe_msgQueue s) (pe_fastViewChange s) (pe_maxTTL s)
  (pe_viewMap s) (pe_sealingNumber s) (pe_consensusSet s) (pe_connectedNode s)
  (pe_enableTTLOptimize s) (pe_supportTimeAdjust s) (pe_backupDB s) (pe_chain s) (pe_nextId s)
  v.

Definition emit (ev : event) (e : PBFTEngineOf) : PBFTEngineOf := set_pe_events (pe_events e ++ [ev]) e.
Definition on_cache (f : PBFTReqCache → PBFTReqCache) (e : PBFTEngineOf) : PBFTEngineOf :=
  set_pe_reqCache (f (pe_reqCache e)) e.
Definition on_timer (f : TimeManager → TimeManager) (e : PBFTEngineOf) : PBFTEngineOf :=
  set_pe_timeManager (f (pe_timeManager e)) e.
Definition on_base (f : EngineBaseOf K → EngineBaseOf K) (e : PBFTEngineOf) : PBFTEngineOf :=
  set_pe_base (f (pe_base e)) e.
Definition nodeIdx (e : PBFTEngineOf) : Z := eb_idx (pe_base e).
Definition highestNumber (e : PBFTEngineOf) : Z := m_number (eb_highestBlock (pe_base e)).
Definition consensusNumber (e : PBFTEngineOf) : Z := eb_consensusBlockNumber (pe_base e).
End members.
Arguments PBFTEngineOf : clear implicits.

Section engine.
Context `{Crypto} `{UnorderedIter} {C : Type} `{BlockChainInterface C}.
Local Abbreviation PBFTEngine := (PBFTEngineOf KeyPair C).

(** The block decoder's transaction parser, and the executor: it runs a block on
    its parent and returns the executed block (roots and receipts set) with a
    handle to the result, or fails. *)
Context (decodeTx : bytes → option Transaction)
        (executeBlock : Block → BlockHeader → option (Block * option Z)).

(** ** Leaders, signatures, request checks (PBFTEngine.h) *)

(** [getLeader] and [getNextLeader]. *)
Definition getLeader (e : PBFTEngine) : bool * Z :=
  let b := pe_base e in
  if eb_cfgErr b || pe_leaderFailed e || (m_sealer (eb_highestBlock b) =? Invalid256) || (eb_nodeNum b =? 0)
  then (false, MAXIDX)
  else (true, wrapU 16 (Z.rem (wrapS 64 (pe_view e + highestNumber e)) (eb_nodeNum b))).
Definition getNextLeader (e : PBFTEngine) : Z :=
  wrapU 16 (Z.rem (wrapS 64 (highestNumber e + 1)) (eb_nodeNum (pe_base e))).

(** [reachMinBlockGenTime], [reachBlockIntervalTime] and
    [canHandleBlockForNextLeader]. *)
Definition reachMinBlockGenTime (now : Z) (e : PBFTEngine) : bool :=
  tm_minBlockGenTime (pe_timeManager e) <=? wrapU 64 (now - tm_lastConsensusTime (pe_timeManager e)).
Definition reachBlockIntervalTime (now : Z) (e : PBFTEngine) : bool :=
  tm_emptyBlockGenTime (pe_timeManager e) <=? wrapU 64 (now - tm_lastConsensusTime (pe_timeManager e)).
Definition canHandleBlockForNextLeader (e : PBFTEngine) : bool :=
  if negb (getLeader e).1 then false
  else if (getLeader e).2 =? nodeIdx e then true
  else negb (pe_notifyNextLeaderSeal e && (getNextLeader e =? nodeIdx e)).

(** [checkSign] of a request, and of a block signature. *)
Definition checkSign (req : PBFTMsg) (e : PBFTEngine) : bool :=
  match getNodeIDByIndex (idx req) (pe_base e) with
  | Some n => Verify n (sig req) (block_hash req) && Verify n (sig2 req) (fieldsWithoutBlock req)
  | None => false
  end.
Definition checkBlockSign (i hash : Z) (sg : bytes) (e : PBFTEngine) : bool :=
  match getNodeIDByIndex i (pe_base e) with Some n => Verify n sg hash | None => false end.

(** [hasConsensused], [isSyncingHigherBlock], [isFutureBlock], [isFuturePrepare],
    [isHashSavedAfterCommit], [isValidLeader]. *)
Definition hasConsensused (req : PBFTMsg) (e : PBFTEngine) : bool :=
  (height req <? consensusNumber e) || ((height req =? consensusNumber e) && (view req <? pe_view e)).
Definition isSyncingHigherBlock (env : Env) (req : PBFTMsg) : bool :=
  en_farBehind env || (en_isSyncing env && (height req <=? en_knownHighest env)).
Definition isFutureBlock (req : PBFTMsg) (e : PBFTEngine) : bool :=
  (consensusNumber e <=? height req) || (pe_view e <? view req).
Definition isFuturePrepare (req : PBFTMsg) (e : PBFTEngine) : bool :=
  (consensusNumber e <? height req) || ((height req =? consensusNumber e) && (pe_view e <? view req)).
Definition isHashSavedAfterCommit (req : PBFTMsg) (e : PBFTEngine) : bool :=
  let committed := m_committedPrepareCache (pe_reqCache e) in
  negb ((height req =? height committed) && negb (block_hash req =? block_hash committed)).
Definition isValidLeader (req : PBFTMsg) (e : PBFTEngine) : bool :=
  (getLeader e).1 && (idx req =? (getLeader e).2).

(** [updateViewMap] and [changeViewForFastViewChange]. *)
Definition updateViewMap (i v : Z) (e : PBFTEngine) : PBFTEngine := set_pe_viewMap (<[i := v]> (pe_viewMap e)) e.
Definition changeViewForFastViewChange (e : PBFTEngine) : PBFTEngine :=
  set_pe_fastViewChange true (on_timer tm_changeView e).

(** [isValidPrepare]. *)
Definition isValidPrepare (env : Env) (req : PrepareReq) (e : PBFTEngine) : CheckResult :=
  if isExistPrepare req (pe_reqCache e) then INVALID
  else if isSyncingHigherBlock env req then INVALID
  else if hasConsensused req e then INVALID
  else if negb (isEmptyReq req) && negb (isHashSavedAfterCommit req e) then INVALID
  else if isFuturePrepare req e then FUTURE
  else if negb (isValidLeader req e) then INVALID
  else if negb (checkSign req e) then INVALID
  else VALID.

(** [checkReq]: a future request is marked before it is returned. *)
Definition checkReq (env : Env) (req : PBFTMsg) (e : PBFTEngine) : PBFTMsg * CheckResult :=
  let prepare := m_prepareCache (pe_reqCache e) in
  if isSyncingHigherBlock env req then (req, INVALID)
  else if negb (block_hash prepare =? block_hash req) then
    if isFutureBlock req e then (set_signChecked false (set_isFuture true req), FUTURE)
    else (req, INVALID)
  else if idx req =? nodeIdx e then (req, INVALID)
  else if negb (view prepare =? view req) then (req, INVALID)
  else if negb (checkSign req e) then (req, INVALID)
  else (req, VALID).

(** [isValidSignReq] and [isValidCommitReq]: a future request is cached at once. *)
Definition isValidSignReq (env : Env) (req : PBFTMsg) (e : PBFTEngine) : PBFTEngine * PBFTMsg * CheckResult :=
  if isExistSign req (pe_reqCache e) then (e, req, INVALID)
  else if hasConsensused req e then (e, req, INVALID)
  else let '(req, r) := checkReq env req e in
       (match r with FUTURE => on_cache (addSignReq req) e | _ => e end, req, r).
Definition isValidCommitReq (env : Env) (req : PBFTMsg) (e : PBFTEngine) : PBFTEngine * PBFTMsg * CheckResult :=
  if isExistCommit req (pe_reqCache e) then (e, req, INVALID)
  else if hasConsensused req e then (e, req, INVALID)
  else let '(req, r) := checkReq env req e in
       (match r with FUTURE => on_cache (addCommitReq req) e | _ => e end, req, r).

(** ** Sending *)

(** [broadcastFilter] and [broadcastMark]. *)
Definition broadcastFilter (nodeId packetType : Z) (key : string) (b : PBFTBroadcastCache) : bool :=
  keyExists nodeId packetType key b.
Definition broadcastMark (nodeId packetType : Z) (key : string) (b : PBFTBroadcastCache) : PBFTBroadcastCache :=
  if keyExists nodeId packetType key b then b else (insertKey nodeId packetType key b).1.

(** [getForwardNodes]: the consensus nodes that are neither connected nor this
    node, in the order of the set. *)
Definition getForwardNodes (env : Env) (e : PBFTEngine) : option (list Z) :=
  let nodes := pe_consensusSet e ∖ list_to_set (en_sessions env) ∖ {[pub (eb_keyPair (pe_base e))]} in
  if (size nodes =? 0)%nat then None else Some (merge_sort Z.le (elements nodes)).

(** [createPBFTMsgPacket]; only the packets of the optimised factory encode
    forward nodes. *)
Definition createPBFTMsgPacket (now : Z) (data : bytes) (packetType ttl : Z) (forward : option (list Z))
    (e : PBFTEngine) : PBFTMsgPacket :=
  let p := set_ttl (wrapU 8 (if ttl =? 0 then pe_maxTTL e else ttl))
             (set_packet_id packetType (set_pkt_data data (defaultPacket (pe_enableTTLOptimize e) now))) in
  match forward with
  | Some l => if pe_enableTTLOptimize e && (0 <? zlen l) then set_forwardNodes (Some l) p else p
  | None => p
  end.

(** The loop of [broadcastMsg] over the sessions: the marks and the targets. *)
Definition broadcast_one (e : PBFTEngine) (packetType : Z) (key : string) (filter : list Z)
    (acc : PBFTBroadcastCache * list Z) (session : Z) : PBFTBroadcastCache * list Z :=
  if getIndexBySealer session (pe_base e) <? 0 then acc
  else if bool_decide (session ∈ filter) then (broadcastMark session packetType key acc.1, acc.2)
  else if broadcastFilter session packetType key acc.1 then acc
  else (broadcastMark session packetType key acc.1, acc.2 ++ [session]).

(** [broadcastMsg]; it always returns true. *)
Definition broadcastMsg (env : Env) (packetType : Z) (msg : PBFTMsg) (data : bytes) (p2pType : Z)
    (filter : list Z) (ttl : Z) (e : PBFTEngine) : PBFTEngine :=
  let e := set_pe_connectedNode (wrapU 16 (zlen (en_sessions env))) e in
  let '(cache, targets) :=
    foldl (broadcast_one e packetType (uniqueKey msg) filter) (pe_broadCastCache e, []) (en_sessions env) in
  let e := set_pe_broadCastCache cache e in
  let forward := if pe_enableTTLOptimize e then getForwardNodes env e else None in
  let p := createPBFTMsgPacket (en_utcTime env) data packetType ttl forward e in
  let p := if isEmptyReq msg then set_prepareWithEmptyBlock true p else p in
  match packet_encode p with
  | Ok (_, d) => emit (EvMulticast targets p2pType d) e
  | Throw _ => e
  end.

(** Sending an encoded message, or nothing when the encoder fails. *)
Definition broadcastEncoded (env : Env) (packetType : Z) (msg : PBFTMsg) (d : result dev_exn bytes)
    (e : PBFTEngine) : PBFTEngine :=
  match d with Ok d => broadcastMsg env packetType msg d 0 [] 0 e | Throw _ => e end.

(** [sendMsg] to one node. *)
Definition sendMsg (env : Env) (nodeId packetType : Z) (key : string) (data : bytes) (ttl : Z)
    (forward : option (list Z)) (e : PBFTEngine) : PBFTEngine * bool :=
  if getIndexBySealer nodeId (pe_base e) <? 0 then (e, true)
  else if broadcastFilter nodeId packetType key (pe_broadCastCache e) then (e, true)
  else if bool_decide (nodeId ∈ en_sessions env) then
    let e := match packet_encode (createPBFTMsgPacket (en_utcTime env) data packetType ttl forward e) with
             | Ok (_, d) => emit (EvSend nodeId d) e
             | Throw _ => e
             end in
    (set_pe_broadCastCache (broadcastMark nodeId packetType key (pe_broadCastCache e)) e, true)
  else (e, false).

(** [needForwardMsg]. *)
Definition needForwardMsg (valid : bool) (p : PBFTMsgPacket) (msg : PBFTMsg) (e : PBFTEngine) : bool :=
  if match forwardNodes p with Some l => zlen l =? 0 | None => false end then false
  else if negb valid || (Z.of_nat (String.length (uniqueKey msg)) =? 0) then false
  else if negb (pe_enableTTLOptimize e) && (ttl p =? 1) then false
  else (highestNumber e <? height msg) || (highestNumber e - height msg <? 10).

(** [forwardMsgByTTL]: [ttl - 1] as [unsigned]. *)
Definition forwardMsgByTTL (env : Env) (p : PBFTMsgPacket) (msg : PBFTMsg) (e : PBFTEngine) : PBFTEngine :=
  let genNodeId := getSealerByIndex (idx msg) (pe_base e) in
  let filter := node_id p :: (if genNodeId =? 0 then [] else [genNodeId]) in
  broadcastMsg env (packet_id p) msg (pkt_data p) 0 filter (wrapU 32 (ttl p - 1)) e.

(** [forwardMsgByNodeInfo]. *)
Definition forwardMsgByNodeInfo (env : Env) (key : string) (p : PBFTMsgPacket) (e : PBFTEngine) : PBFTEngine :=
  match forwardNodes p with
  | None | Some [] => e
  | Some nodes =>
      let remaining : gset Z :=
        list_to_set nodes ∖ list_to_set (en_sessions env) ∖ {[pub (eb_keyPair (pe_base e))]} in
      let rest := if (size remaining =? 0)%nat then None else Some (merge_sort Z.le (elements remaining)) in
      foldl (λ e n, (sendMsg env n (packet_id p) key (pkt_data p) 1 rest e).1) e nodes
  end.

(** [forwardMsg]. *)
Definition forwardMsg (env : Env) (p : PBFTMsgPacket) (msg : PBFTMsg) (e : PBFTEngine) : PBFTEngine :=
  if pe_enableTTLOptimize e then forwardMsgByNodeInfo env (uniqueKey msg) p e else forwardMsgByTTL env p msg e.

(** [broadcastSignReq] and [broadcastCommitReq]. *)
Definition broadcastSignReq (env : Env) (req : PrepareReq) (e : PBFTEngine) : PBFTEngine :=
  let sign_req := newSignReq (eb_keyPair (pe_base e)) (en_utcTime env) req (nodeIdx e) in
  on_cache (addSignReq sign_req) (broadcastEncoded env SignReqPacket sign_req (msg_encode sign_req) e).
Definition broadcastCommitReq (env : Env) (req : PrepareReq) (e : PBFTEngine) : PBFTEngine :=
  let commit_req := newCommitReq (eb_keyPair (pe_base e)) (en_utcTime env) req (nodeIdx e) in
  on_cache (addCommitReq commit_req) (broadcastEncoded env CommitReqPacket commit_req (msg_encode commit_req) e).

(** The view-change request of this node, [sendViewChangeMsg] and
    [broadcastViewChangeReq]. *)
Definition ownViewChange (env : Env) (e : PBFTEngine) : PBFTMsg :=
  newViewChangeReq (eb_keyPair (pe_base e)) (en_utcTime env) (highestNumber e) (pe_toView e) (nodeIdx e)
    (headerHash (eb_highestBlock (pe_base e))).
Definition sendViewChangeMsg (env : Env) (nodeId : Z) (e : PBFTEngine) : PBFTEngine :=
  let req := ownViewChange env e in
  match msg_encode req with
  | Ok d => (sendMsg env nodeId ViewChangeReqPacket (uniqueKey req) d 1 None e).1
  | Throw _ => e
  end.
Definition broadcastViewChangeReq (env : Env) (e : PBFTEngine) : PBFTEngine :=
  let req := ownViewChange env e in broadcastEncoded env ViewChangeReqPacket req (msg_encode req) e.

(** ** Committing *)

(** [generateAndSetSigList] and [commitBlock] on the prepared block; the cached
    request shares the block object, so the signature list is set there too. *)
Definition commitPrepared (env : Env) (e : PBFTEngine) : PBFTEngine :=
  let prepare := m_prepareCache (pe_reqCache e) in
  match pBlock prepare with
  | None => e
  | Some b =>
      let b := (generateAndSetSigList b (minValidNodes (pe_base e)) (pe_reqCache e)).1 in
      let e := on_cache (set_prepareCache (set_pBlock (Some b) prepare)) e in
      let '(c, ret) := bci_commitBlock (en_dbOk env) b (pe_chain e) in
      let e := emit (EvCommit b ret) (set_pe_chain c e) in
      match ret with
      | CommitOK =>
          let e := emit (EvNoteSealing (height prepare)) (emit (EvDropTxs b) e) in
          on_cache (delCache (m_number (b_header b)) (headerHash (b_header b))) e
      | _ => emit (EvBadBlock b) (emit (EvNoteSealing (bci_number (pe_chain e))) e)
      end
  end.

(** [checkAndSave]. *)
Definition checkAndSave (env : Env) (e : PBFTEngine) : PBFTEngine :=
  let minValid := minValidNodes (pe_base e) in
  let hash e := block_hash (m_prepareCache (pe_reqCache e)) in
  let '(cache, sign_size) := getSigCacheSize (λ r, checkSign r e) (hash e) minValid (pe_reqCache e) in
  let e := set_pe_reqCache cache e in
  let '(cache, commit_size) := getCommitCacheSize (λ r, checkSign r e) (hash e) minValid (pe_reqCache e) in
  let e := set_pe_reqCache cache e in
  if (minValid <=? sign_size) && (minValid <=? commit_size) then
    if negb (view (m_prepareCache (pe_reqCache e)) =? pe_view e) then e
    else if highestNumber e <? height (m_prepareCache (pe_reqCache e)) then commitPrepared env e
    else e
  else e.

(** [backupMsg] of the committed prepare. *)
Definition backupCommitted (e : PBFTEngine) : PBFTEngine :=
  match prepare_encode (m_committedPrepareCache (pe_reqCache e)) with
  | Ok d => emit (EvBackup (m_committedPrepareCache (pe_reqCache e))) (set_pe_backupDB (Some d) e)
  | Throw _ => e
  end.

(** [checkAndCommit]. *)
Definition checkAndCommit (env : Env) (e : PBFTEngine) : PBFTEngine :=
  let minValid := minValidNodes (pe_base e) in
  let '(cache, sign_size) :=
    getSigCacheSize (λ r, checkSign r e) (block_hash (m_prepareCache (pe_reqCache e))) minValid (pe_reqCache e) in
  let e := set_pe_reqCache cache e in
  if sign_size =? minValid then
    if negb (view (m_prepareCache (pe_reqCache e)) =? pe_view e) then e
    else
      let e := backupCommitted (on_cache updateCommittedPrepare e) in
      let e := broadcastCommitReq env (m_prepareCache (pe_reqCache e)) e in
      let e := on_timer (set_tm_lastSignTime (en_steadyTime env)) e in
      checkAndSave env e
  else e.

(** ** Handling a prepare *)

(** [checkSealerList]. *)
Definition checkSealerList (b : Block) (e : PBFTEngine) : bool :=
  bool_decide (eb_sealerList (pe_base e) = m_sealerList (b_header b)).

(** [notifySealing]. *)
Definition notifySealing (b : Block) (e : PBFTEngine) : PBFTEngine :=
  if (getLeader e).1 && negb ((getLeader e).2 =? nodeIdx e) && (nodeIdx e =? getNextLeader e)
  then emit (EvNextLeaderReset (tx_sha3 <$> b_transactions b)) (set_pe_notifyNextLeaderSeal true e)
  else e.

(** The block of a prepare: the local object, or the decoded bytes. *)
Definition prepareBlock (req : PrepareReq) : result engine_exn Block :=
  match pBlock req with
  | Some b => Ok b
  | None => match block_decode decodeTx (λ _, None) false emptyBlock (req_block req) with
            | Ok b => Ok b | Throw _ => Throw DecodeFailed end
  end.

(** [execBlock]: the block and the execution result, or the exception. *)
Definition execBlock (env : Env) (req : PrepareReq) (e : PBFTEngine)
  : PBFTEngine * result engine_exn (Block * option Z) :=
  match prepareBlock req with
  | Throw x => (e, Throw x)
  | Ok b =>
      let e := set_pe_sealingNumber (getTransactionSize b) e in
      if (getTransactionSize b =? 0) && eb_omitEmptyBlock (pe_base e) then (e, Ok (b, None))
      else
        let '(c, valid) := checkBlockValid (en_utcTime env) b (pe_base e) (pe_chain e) in
        let e := set_pe_chain c e in
        match valid with
        | Throw x => (e, Throw x)
        | Ok _ =>
            if negb (checkSealerList b e) then (e, Throw BlockSealerListWrong)
            else
              let e := if idx req =? nodeIdx e then e else notifySealing b e in
              let e := emit (EvNoteSealing (m_number (b_header b))) e in
              let '(c, parent) := bci_getBlockByNumber (bci_number (pe_chain e)) (pe_chain e) in
              let e := set_pe_chain c e in
              match parent with
              | None => (e, Throw ExecFailed)
              | Some p =>
                  match executeBlock b (b_header p) with
                  | Some r => (e, Ok r)
                  | None => (e, Throw ExecFailed)
                  end
              end
        end
  end.

(** [execPrepareAndGenerateSignMsg].  A block generated here is executed in place,
    so the raw prepare sees the executed block. *)
Definition execPrepareAndGenerateSignMsg (env : Env) (req : PrepareReq) (e : PBFTEngine) : PBFTEngine * bool :=
  let e := on_timer (set_tm_lastAddRawPrepareTime (en_steadyTime env)) e in
  match execBlock env req e with
  | (e, Throw _) => (e, true)
  | (e, Ok (b, ctx)) =>
      let e := match pBlock req with
               | Some _ => on_cache (λ c, set_rawPrepareCache (set_pBlock (Some b) (m_rawPrepareCache c)) c) e
               | None => e
               end in
      let e := on_timer (set_tm_lastExecTime (en_steadyTime env)) e in
      if match ctx with None => 0 <? getTransactionSize b | Some _ => false end then (e, false)
      else if (getTransactionSize b =? 0) && eb_omitEmptyBlock (pe_base e) then
        (on_timer (set_tm_changeCycle 0) (changeViewForFastViewChange e), true)
      else
        let sign_prepare := newPrepareExecuted (eb_keyPair (pe_base e)) (en_utcTime env) req b ctx in
        let e := on_cache (addPrepareReq sign_prepare) e in
        (checkAndCommit env (broadcastSignReq env sign_prepare e), true)
  end.

(** [handlePrepareMsg] of a decoded request. *)
Definition handlePrepare (env : Env) (req : PrepareReq) (e : PBFTEngine) : PBFTEngine * bool :=
  match isValidPrepare env req e with
  | INVALID => (e, false)
  | FUTURE => (on_cache (addFuturePrepareCache req) (updateViewMap (idx req) (view req) e), true)
  | VALID =>
      execPrepareAndGenerateSignMsg env req
        (on_cache (addRawPrepare req) (updateViewMap (idx req) (view req) e))
  end.

(** [handlePrepareMsg] of a packet: the empty-block mark comes from the packet. *)
Definition decodePrepare (p : PBFTMsgPacket) : option PrepareReq :=
  match prepare_decode defaultPrepare (pkt_data p) 0 with
  | Ok req => Some (if prepareWithEmptyBlock p then set_req_msg (set_isEmptyReq true req) req else req)
  | Throw _ => None
  end.
Definition handlePrepareMsg (env : Env) (p : PBFTMsgPacket) (e : PBFTEngine)
  : PBFTEngine * bool * option PBFTMsg :=
  match decodePrepare p with
  | Some req => let '(e, ok) := handlePrepare env req e in (e, ok, Some (req_msg req))
  | None => (e, false, None)
  end.

(** ** Handling sign and commit requests *)

Definition decodeReq (p : PBFTMsgPacket) : option PBFTMsg :=
  match msg_decode defaultMsg (pkt_data p) 0 with Ok r => Some r | Throw _ => None end.

(** [handleSignMsg] and [handleCommitMsg] of a decoded request. *)
Definition handleSign (env : Env) (req : PBFTMsg) (e : PBFTEngine) : PBFTEngine * bool :=
  match isValidSignReq env req e with
  | (e, req, INVALID) => (e, false)
  | (e, req, FUTURE) => (updateViewMap (idx req) (view req) e, true)
  | (e, req, VALID) => (checkAndCommit env (on_cache (addSignReq req) (updateViewMap (idx req) (view req) e)), true)
  end.
Definition handleCommit (env : Env) (req : PBFTMsg) (e : PBFTEngine) : PBFTEngine * bool :=
  match isValidCommitReq env req e with
  | (e, req, INVALID) => (e, false)
  | (e, req, FUTURE) => (updateViewMap (idx req) (view req) e, true)
  | (e, req, VALID) => (checkAndSave env (on_cache (addCommitReq req) (updateViewMap (idx req) (view req) e)), true)
  end.

(** A handler of decoded requests, on a packet. *)
Definition onPacket (h : PBFTMsg → PBFTEngine → PBFTEngine * bool) (p : PBFTMsgPacket) (e : PBFTEngine)
  : PBFTEngine * bool * option PBFTMsg :=
  match decodeReq p with Some req => let '(e, ok) := h req e in (e, ok, Some req) | None => (e, false, None) end.
Definition handleSignMsg (env : Env) := onPacket (handleSign env).
Definition handleCommitMsg (env : Env) := onPacket (handleCommit env).

(** ** View changes *)

(** [checkAndChangeView]. *)
Definition checkAndChangeView (env : Env) (e : PBFTEngine) : PBFTEngine :=
  let count := wrapU 16 (getViewChangeSize (pe_toView e) (pe_reqCache e)) in
  if minValidNodes (pe_base e) - 1 <=? count then
    let e := if tm_lastSignTime (pe_timeManager e) =? 0 then set_pe_fastViewChange false e else e in
    let e := set_pe_leaderFailed false e in
    let e := on_timer (set_tm_lastConsensusTime (en_steadyTime env)) e in
    let e := set_pe_notifyNextLeaderSeal false (set_pe_view (pe_toView e) e) in
    let e := on_cache (triggerViewChange (pe_view e) (bci_number (pe_chain e))) e in
    emit (EvNoteSealing (bci_number (pe_chain e))) e
  else e.

(** [catchupView]. *)
Definition catchupView (env : Env) (req : PBFTMsg) (e : PBFTEngine) : PBFTEngine :=
  if wrapS 64 (view req + 1) <? pe_toView e then
    match getNodeIDByIndex (idx req) (pe_base e) with
    | Some n => on_cache (eraseLatestViewChangeCacheForNodeUpdated req) (sendViewChangeMsg env n e)
    | None => e
    end
  else e.

(** [isValidViewChangeReq]. *)
Definition isValidViewChangeReq (env : Env) (req : PBFTMsg) (source : Z) (e : PBFTEngine) : PBFTEngine * bool :=
  if isExistViewChange req (pe_reqCache e) then (e, false)
  else if idx req =? nodeIdx e then (e, false)
  else if height req <? highestNumber e then (e, false)
  else
    let e := if (wrapS 64 (view req + 1) <? pe_toView e) && (idx req =? source) then catchupView env req e else e in
    if view req <=? pe_view e then (e, false)
    else if (height req =? highestNumber e)
            && negb (block_hash req =? headerHash (eb_highestBlock (pe_base e))) then (e, false)
    else let '(c, b) := bci_getBlockByNumber (height req) (pe_chain e) in
         let e := set_pe_chain c e in
         match b with
         | None => (e, false)
         | Some _ => (e, checkSign req e)
         end.

(** [handleViewChangeMsg]; the request becomes an object of its own. *)
Definition handleViewChange (env : Env) (source : Z) (req : PBFTMsg) (e : PBFTEngine) : PBFTEngine * bool :=
  let '(e, valid) := isValidViewChangeReq env req source e in
  if negb valid then (e, false)
  else
    let e := on_cache (addViewChangeReq (mkVC (pe_nextId e) req) (bci_number (pe_chain e)))
               (set_pe_nextId (pe_nextId e + 1) e) in
    if view req =? pe_toView e then (checkAndChangeView env e, true)
    else
      let '(should_trigger, min_view) :=
        canTriggerViewChange (eb_f (pe_base e)) (pe_toView e) (highestNumber e) (consensusNumber e) (pe_reqCache e) in
      (if should_trigger then changeViewForFastViewChange (set_pe_toView (min_view - 1) e) else e, true).
Definition handleViewChangeMsg (env : Env) (p : PBFTMsgPacket) := onPacket (handleViewChange env (node_idx p)) p.

(** [checkTimeout]. *)
Definition checkTimeout (env : Env) (e : PBFTEngine) : PBFTEngine :=
  if isTimeout (en_steadyTime env) (pe_timeManager e) then
    let e := if negb (tm_lastConsensusTime (pe_timeManager e) =? 0) then
               let e := set_pe_fastViewChange false e in
               if highestNumber e <? height (m_prepareCache (pe_reqCache e))
               then emit (EvOnTimeout (pe_sealingNumber e)) e else e
             else e in
    let e := on_timer updateChangeCycle e in
    let e := set_pe_leaderFailed true (set_pe_toView (wrapS 64 (pe_toView e + 1)) e) in
    let e := emit (EvNoteSealing (bci_number (pe_chain e))) e in
    let e := on_timer (set_tm_lastConsensusTime (en_steadyTime env)) e in
    let e := on_cache (removeInvalidViewChange (pe_toView e) (highestNumber e)
                         (headerHash (eb_highestBlock (pe_base e)))) e in
    emit EvOnViewChange (checkAndChangeView env (broadcastViewChangeReq env e))
  else e.

(** ** Configuration, new blocks, garbage *)

(** [resetConsensusTimeout]. *)
Definition resetConsensusTimeout (lg : Ledger) (e : PBFTEngine) : result engine_exn PBFTEngine :=
  if negb (pe_supportTimeAdjust e) then Ok e
  else match lg_consensusTimeout lg with
       | None => Throw BadLexicalCast
       | Some n =>
           let consensusTimeout := wrapU 64 (n * 1000) in
           let e := if consensusTimeout <? tm_emptyBlockGenTime (pe_timeManager e)
                    then on_timer (set_tm_emptyBlockGenTime (wrapU 32 (consensusTimeout / 3))) e else e in
           Ok (if tm_viewTimeout (pe_timeManager e) =? consensusTimeout then e
               else on_timer (tm_resetConsensusTimeout consensusTimeout) e)
       end.

(** [resetConfig]. *)
Definition resetConfig (lg : Ledger) (e : PBFTEngine) : result engine_exn PBFTEngine :=
  '(b, nodeList) ← base_resetConfig (bci_number (pe_chain e)) lg (pe_base e);
  let e := set_pe_base b e in
  let e := match nodeList with Some l => emit (EvNodeList l) e | None => e end in
  e ← resetConsensusTimeout lg e;
  Ok (if eb_sealerListUpdated (pe_base e) then set_pe_consensusSet (list_to_set (eb_sealerList (pe_base e))) e else e).

(** [reportBlockWithoutLock]. *)
Definition reportBlock (env : Env) (b : Block) (e : PBFTEngine) : result engine_exn PBFTEngine :=
  if (bci_number (pe_chain e) =? 0) || (highestNumber e <? m_number (b_header b)) then
    let e := on_base (set_eb_highestBlock (b_header b)) e in
    let number := highestNumber e in
    let hash := headerHash (b_header b) in
    let e := if consensusNumber e <=? number then
               let e := set_pe_leaderFailed false (set_pe_toView 0 (set_pe_view 0 e)) in
               let e := on_timer (λ t, set_tm_changeCycle 0 (set_tm_lastConsensusTime (en_steadyTime env) t)) e in
               let e := on_base (set_eb_consensusBlockNumber (number + 1)) e in
               on_cache (λ c, set_recvViewChangeReq
                          (removeInvalidEntryFromCache vc_msg number hash (m_recvViewChangeReq c)) c) e
             else e in
    e ← resetConfig (en_ledger env) e;
    let e := emit (EvOnCommitBlock (m_number (b_header b)) (getTransactionSize b)
                     (tm_changeCycle (pe_timeManager e))) e in
    Ok (on_cache (delCache number hash) e)
  else Ok e.

(** [collectGarbage]; the interval is in seconds. *)
Definition collectGarbage (env : Env) (e : PBFTEngine) : PBFTEngine :=
  if negb (headerSet (eb_highestBlock (pe_base e))) then e
  else if CollectInterval * 1000 <? en_steadyTime env - tm_lastGarbageCollection (pe_timeManager e) then
    on_timer (set_tm_lastGarbageCollection (en_steadyTime env))
      (on_cache (reqCache_collectGarbage (highestNumber e) (headerHash (eb_highestBlock (pe_base e)))) e)
  else e.

(** The constructor, with the members' initialisers; the options and what the backup
    database holds are arguments. *)
Definition newEngine (k : KeyPair) (sealers : list Z) (ttlOptimize timeAdjust : bool) (db : option bytes) (c : C)
  : PBFTEngine :=
  mkEngine (newBase (bci_number c) k sealers) 0 0 false false ∅ emptyReqCache defaultTimeManager [] false MAXTTL
    ∅ 0 ∅ 0 ttlOptimize timeAdjust db c 0 [].

(** [initPBFTEnv], [initBackupDB] and [reloadMsg]: the committed prepare is read
    back from the backup. *)
Definition reloadMsg (e : PBFTEngine) : PBFTEngine :=
  match pe_backupDB e with
  | None => e
  | Some d =>
      if zlen d =? 0 then e
      else match prepare_decode (m_committedPrepareCache (pe_reqCache e)) d 0 with
           | Ok r => on_cache (set_committedPrepareCache r) e
           | Throw _ => e
           end
  end.
Definition initPBFTEnv (env : Env) (view_timeout : Z) (e : PBFTEngine) : result engine_exn PBFTEngine :=
  let e := on_base (set_eb_consensusBlockNumber 0) e in
  let e := set_pe_leaderFailed false (set_pe_toView 0 (set_pe_view 0 e)) in
  let '(c, b) := bci_getBlockByNumber (bci_number (pe_chain e)) (pe_chain e) in
  let e := on_timer (initTimerManager (en_steadyTime env) view_timeout) (set_pe_chain c e) in
  match b with
  | None => Throw ParentNoneExist
  | Some b => e ← reportBlock env b e; Ok (reloadMsg e)
  end.

(** ** Proposing *)

(** [constructPrepareReq]: the request, broadcast to the sealers. *)
Definition constructPrepareReq (env : Env) (b : Block) (e : PBFTEngine) : result eth_exn (PBFTEngine * PrepareReq) :=
  '(b, proposal) ← block_encode b;
  let req := newPrepareFromBlock (eb_keyPair (pe_base e)) (en_utcTime env) b proposal (pe_view e) (nodeIdx e) in
  let req := if zlen (b_transactions b) =? 0 then set_req_msg (set_isEmptyReq true req) req else req in
  Ok (broadcastEncoded env PrepareReqPacket req (prepare_encode req) e, req).

(** [generatePrepare]. *)
Definition generatePrepare (env : Env) (b : Block) (e : PBFTEngine) : PBFTEngine :=
  let e := set_pe_notifyNextLeaderSeal false e in
  match constructPrepareReq env b e with
  | Throw _ => e
  | Ok (e, req) =>
      if (getTransactionSize b =? 0) && eb_omitEmptyBlock (pe_base e) then
        on_timer (set_tm_changeCycle 0) (changeViewForFastViewChange (set_pe_leaderFailed true e))
      else (handlePrepare env req e).1
  end.

(** [rehandleCommitedPrepareCache]. *)
Definition rehandleCommitedPrepareCache (env : Env) (e : PBFTEngine) : PBFTEngine :=
  let req := newPrepareForView (eb_keyPair (pe_base e)) (en_utcTime env)
               (m_committedPrepareCache (pe_reqCache e)) (pe_view e) (nodeIdx e) in
  let e := set_pe_broadCastCache (broadcast_clearAll (pe_broadCastCache e)) e in
  let e := broadcastEncoded env PrepareReqPacket req (prepare_encode req) e in
  let e := (handlePrepare env req e).1 in
  emit (EvNoteSealing (bci_number (pe_chain e))) e.

(** [shouldSeal]. *)
Definition shouldSeal (env : Env) (e : PBFTEngine) : PBFTEngine * bool :=
  if eb_cfgErr (pe_base e) || bool_decide (eb_accountType (pe_base e) ≠ SealerAccount) then (e, false)
  else if negb (getLeader e).1 then (e, false)
  else if negb ((getLeader e).2 =? nodeIdx e) then
    (e, pe_notifyNextLeaderSeal e && (getNextLeader e =? nodeIdx e))
  else if height (m_committedPrepareCache (pe_reqCache e)) =? consensusNumber e then
    (if height (m_rawPrepareCache (pe_reqCache e)) =? consensusNumber e then e
     else rehandleCommitedPrepareCache env e, false)
  else (e, true).

(** ** Blocks received by synchronisation *)

(** [checkBlock]: the signatures and the sealers of a downloaded block.  The index
    of a signature is truncated to [IDXTYPE]. *)
Definition checkSigList (b : Block) (e : PBFTEngine) : bool :=
  forallb (λ s, checkBlockSign (wrapU 16 s.1) (headerHash (b_header b)) s.2 e) (b_sigList b).
Definition checkBlock (env : Env) (b : Block) (e : PBFTEngine) : result engine_exn (PBFTEngine * bool) :=
  if m_number (b_header b) <=? bci_number (pe_chain e) then Ok (e, false)
  else
    e ← resetConfig (en_ledger env) e;
    Ok (e, if m_number (b_header b) =? 0 then true
           else if negb (checkSealerList b e) then false
           else if getSealerByIndex (wrapU 64 (m_sealer (b_header b))) (pe_base e) =? 0 then false
           else if zlen (b_sigList b) <? minValidNodes (pe_base e) then false
           else if negb (checkSigList b e) then false
           else negb (eb_maxBlockTransactions (pe_base e) <? zlen (b_transactions b))).

(** ** Messages from the network, and the work loop *)

(** [isValidReq]: the index of the sending peer, if its message is accepted. *)
Definition isValidReq (data : bytes) (peer : Z) (e : PBFTEngine) : option Z :=
  if zlen data <=? 0 then None
  else
    let peerIndex := getIndexBySealer peer (pe_base e) in
    if peerIndex <? 0 then None
    else match getNodeIDByIndex (nodeIdx e) (pe_base e) with
         | None => None
         | Some n => if peer =? n then None else Some peerIndex
         end.

(** [onRecvPBFTMessage] ([pushValidPBFTMsgIntoQueue], [decodePBFTMsgPacket]). *)
Definition onRecvPBFTMessage (env : Env) (data : bytes) (peer : Z) (ep : string) (e : PBFTEngine) : PBFTEngine :=
  if nodeIdx e =? MAXIDX then e
  else match isValidReq data peer e with
       | None => e
       | Some i =>
           match packet_decode (defaultPacket (pe_enableTTLOptimize e) (en_utcTime env)) data with
           | Throw _ => e
           | Ok p =>
               let p := setOtherField (wrapU 16 i) peer ep (en_utcTime env) p in
               if packet_id p <=? ViewChangeReqPacket then set_pe_msgQueue (pe_msgQueue e ++ [p]) e else e
           end
       end.

(** [handleMsg]. *)
Definition handleMsg (env : Env) (p : PBFTMsgPacket) (e : PBFTEngine) : PBFTEngine :=
  let handled :=
    if packet_id p =? PrepareReqPacket then Some (handlePrepareMsg env p e)
    else if packet_id p =? SignReqPacket then Some (handleSignMsg env p e)
    else if packet_id p =? CommitReqPacket then Some (handleCommitMsg env p e)
    else if packet_id p =? ViewChangeReqPacket then Some (handleViewChangeMsg env p e)
    else None in
  match handled with
  | Some (e, ok, Some msg) => if needForwardMsg ok p msg e then forwardMsg env p msg e else e
  | Some (e, _, None) => e
  | None => e
  end.

(** [handleFutureBlock]. *)
Definition handleFutureBlock (env : Env) (e : PBFTEngine) : PBFTEngine :=
  match futurePrepareCache (consensusNumber e) (pe_reqCache e) with
  | Some req =>
      if view (req_msg req) =? pe_view e
      then on_cache (eraseHandledFutureReq (height (req_msg req))) (handlePrepare env req e).1
      else e
  | None => e
  end.

(** One round of [workLoop]. *)
Definition workLoop (env : Env) (e : PBFTEngine) : PBFTEngine :=
  if nodeIdx e =? MAXIDX then e
  else
    let e := match pe_msgQueue e with
             | p :: q => handleMsg env p (set_pe_msgQueue q e)
             | [] => e
             end in
    collectGarbage env (handleFutureBlock env (checkTimeout env e)).

(** The entry points, one call at a time: the parts of a round of the work loop and
    the calls of the sealer, the chain and the synchroniser each run under the
    engine's mutex, in any interleaving.  An exception is left to the caller; the
    state is then the one before the call. *)
Inductive input :=
| InReceive (data : bytes) (peer : Z) (ep : string)
| InPop
| InTimeout
| InFuture
| InGarbage
| InReport (b : Block)
| InGenerate (b : Block)
| InShouldSeal
| InCheckBlock (b : Block).

Definition engine_step (env : Env) (i : input) (e : PBFTEngine) : PBFTEngine :=
  match i with
  | InReceive data peer ep => onRecvPBFTMessage env data peer ep e
  | InPop => match pe_msgQueue e with p :: q => handleMsg env p (set_pe_msgQueue q e) | [] => e end
  | InTimeout => checkTimeout env e
  | InFuture => handleFutureBlock env e
  | InGarbage => collectGarbage env e
  | InReport b => match reportBlock env b e with Ok e => e | Throw _ => e end
  | InGenerate b => generatePrepare env b e
  | InShouldSeal => (shouldSeal env e).1
  | InCheckBlock b => match checkBlock env b e with Ok (e, _) => e | Throw _ => e end
  end.
End engine.
