(* ===== verification/EngineSample.v ===== *)
(** * A sample engine

    A node with its chain, clocks and peers given, on which the statements about the
    engine are evaluated.  Keys, signatures and hashes are [toyCrypto]'s. *)
From S2P Require Import Prelude CommonData RLP Crypto BlockHeader TxsParser Block PBFTMsg MsgCache.
From S2P Require Import TimeManager ReqCache BlockChain EngineBase Engine.
Local Open Scope Z_scope.

(** The other modules' answers, [time] milliseconds after the start. *)
Definition sampleEnv (sealers : list Z) (time : Z) (dbOk : bool) : Env :=
  mkEnv false false 0 [] (1600000000000 + time) (1000000 + time) dbOk (sampleLedger sealers).

#[local] Instance sampleChain : BlockChainInterface BlockChainImp := @chain_interface toyCrypto (λ _, false).
Definition sampleDecodeTx (data : bytes) : option Transaction := None.
Definition sampleExecute (b : Block) (parent : BlockHeader) : option (Block * option Z) := Some (b, Some 0).
Abbreviation SampleEngine := (PBFTEngineOf Z BlockChainImp).

(** The engine of the node with key [k] after [initPBFTEnv] on the genesis chain. *)
Definition sampleNew (k : Z) : SampleEngine :=
  @newEngine toyCrypto _ sampleChain k [] false false None (@genesisChain toyCrypto sampleGenesis).
Definition sampleStart (sealers : list Z) (k : Z) : result engine_exn SampleEngine :=
  @initPBFTEnv toyCrypto _ sampleChain (sampleEnv sealers 0 true) 3000 (sampleNew k).
Definition sampleEngine (sealers : list Z) (k : Z) : SampleEngine :=
  result_get (sampleNew k) (sampleStart sealers k).
Definition sampleStep (env : Env) (i : input) (e : SampleEngine) : SampleEngine :=
  @engine_step toyCrypto canonicalIter _ sampleChain sampleDecodeTx sampleExecute env i e.

(** A proposal for height 1, and with the signatures of some of the keys. *)
Definition sampleProposal (sealers : list Z) : Block :=
  set_b_header (setSealerList sealers (b_header sampleNext)) sampleNext.
Definition signedBy (signers : list (Z * Z)) (b : Block) : Block :=
  set_b_sigList ((λ s, (s.1, @Sign toyCrypto s.2 (@headerHash toyCrypto (b_header b)))) <$> signers) b.

(** A run of a lone sealer: it proposes and locks, its database refuses the block, it
    times out and changes the view, and as the leader of the new view it takes up
    the prepare it is locked on. *)
Definition sampleRun0 : SampleEngine := sampleEngine [3] 3.
Definition sampleRun1 : SampleEngine := sampleStep (sampleEnv [3] 10 false) (InGenerate (sampleProposal [3])) sampleRun0.
Definition sampleRun2 : SampleEngine := sampleStep (sampleEnv [3] 10000 false) InTimeout sampleRun1.
Definition sampleRun3 : SampleEngine := sampleStep (sampleEnv [3] 10010 false) InShouldSeal sampleRun2.

(** Four sealers: the signed proposal with the votes of three of them cached. *)
Definition sampleSealers : list Z := [3; 5; 7; 9].
Definition sampleVote (i k h : Z) : PBFTMsg := @newMsg toyCrypto k 1600000000000 1 0 i h.
Definition sampleVotes : PBFTReqCache :=
  let b := sampleProposal sampleSealers in
  let h := @headerHash toyCrypto (b_header b) in
  let p := mkPrepare (sampleVote 0 3 h) [] (Some b) None in
  let votes := [sampleVote 0 3 h; sampleVote 1 5 h; sampleVote 2 7 h] in
  foldl (λ c v, addCommitReq v (addSignReq v c)) (addPrepareReq p (addRawPrepare p emptyReqCache)) votes.
Definition sampleVoting : SampleEngine := set_pe_reqCache sampleVotes (sampleEngine sampleSealers 3).
