(* ===== verification/Sealer.v ===== *)
(** * The sealer (libconsensus/Sealer.h, Sealer.cpp, pbft/PBFTSealer.h, PBFTSealer.cpp)

    The sealer's thread takes transactions from the pool into the sealing block and
    hands the block to the engine when this node leads.  It runs on the engine and its
    chain ([pe_chain]) and on the pool; the engine keeps a copy of the block it is
    handed, so the two do not share it.  Dereferencing the highest block when the chain
    does not have it ends the process: the operation has no result.  The dynamic block
    size is [BlockSize]. *)
From S2P Require Import Prelude CommonData RLP Crypto BlockHeader TxsParser Block PBFTMsg MsgCache.
From S2P Require Import TimeManager BlockSize ReqCache BlockChain NonceCheck TxPool EngineBase Engine EngineSample.
Local Open Scope Z_scope.

Record Sealer := mkSealer {
  se_block : Block;                 (* [m_sealing.block] *)
  se_transactionSet : gset Z;       (* [m_sealing.m_transactionSet] *)
  se_extraData : list bytes;
  se_syncTxPool : bool;
  se_syncBlock : bool;
  se_startConsensus : bool;
  se_enableDynamicBlockSize : bool;
  se_size : BlockSize }.
Definition set_se_block v (s : Sealer) : Sealer := mkSealer v (se_transactionSet s)
  (se_extraData s) (se_syncTxPool s) (se_syncBlock s) (se_startConsensus s)
  (se_enableDynamicBlockSize s) (se_size s).
Definition set_se_transactionSet v (s : Sealer) : Sealer := mkSealer (se_block s) v
  (se_extraData s) (se_syncTxPool s) (se_syncBlock s) (se_startConsensus s)
  (se_enableDynamicBlockSize s) (se_size s).
Definition set_se_extraData v (s : Sealer) : Sealer := mkSealer (se_block s) (se_transactionSet
  s) v (se_syncTxPool s) (se_syncBlock s) (se_startConsensus s) (se_enableDynamicBlockSize s)
  (se_size s).
Definition set_se_syncTxPool v (s : Sealer) : Sealer := mkSealer (se_block s) (se_transactionSet
  s) (se_extraData s) v (se_syncBlock s) (se_startConsensus s) (se_enableDynamicBlockSize s)
  (se_size s).
Definition set_se_syncBlock v (s : Sealer) : Sealer := mkSealer (se_block s) (se_transactionSet
  s) (se_extraData s) (se_syncTxPool s) v (se_startConsensus s) (se_enableDynamicBlockSize s)
  (se_size s).
Definition set_se_startConsensus v (s : Sealer) : Sealer := mkSealer (se_block s)
  (se_transactionSet s) (se_extraData s) (se_syncTxPool s) (se_syncBlock s) v
  (se_enableDynamicBlockSize s) (se_size s).
Definition set_se_enableDynamicBlockSize v (s : Sealer) : Sealer := mkSealer (se_block s)
  (se_transactionSet s) (se_extraData s) (se_syncTxPool s) (se_syncBlock s) (se_startConsensus
  s) v (se_size s).
Definition set_se_size v (s : Sealer) : Sealer := mkSealer (se_block s) (se_transactionSet s)
  (se_extraData s) (se_syncTxPool s) (se_syncBlock s) (se_startConsensus s)
  (se_enableDynamicBlockSize s) v.

(** A new sealer: [current] is the size of the pool's queue. *)
Definition newSealer (current : Z) : Sealer :=
  mkSealer emptyBlock ∅ [] (0 <? current) false false true defaultBlockSize.

(** [onTransactionQueueReady], [onBlockChanged] and [stop]. *)
Definition onTransactionQueueReady (s : Sealer) : Sealer := set_se_syncTxPool true s.
Definition onBlockChanged (s : Sealer) : Sealer := set_se_syncBlock true s.
Definition sealer_stop (s : Sealer) : Sealer := set_se_startConsensus false s.
Definition maxBlockCanSeal (s : Sealer) : Z := bs_maxBlockCanSeal (se_size s).

(** [loadTransactions]. *)
Definition loadTransactions (transToFetch : Z) (s : Sealer) (p : TxPool) : Sealer * TxPool :=
  let '(p, avoid, ret) := topTransactions transToFetch (se_transactionSet s) true p in
  (set_se_transactionSet avoid (set_se_block (appendTransactions (pt_tx <$> ret) (se_block s)) s), p).

Section sealer.
Context `{Crypto} `{UnorderedIter} {C : Type} `{BlockChainInterface C}.
Context (decodeTx : bytes → option Transaction)
        (executeBlock : Block → BlockHeader → option (Block * option Z)).
Local Abbreviation PBFTEngine := (PBFTEngineOf KeyPair C).

(** The highest block, read through the chain's cache. *)
Definition readHighest (e : PBFTEngine) : PBFTEngine * option Block :=
  let '(c, b) := bci_getBlockByNumber (bci_number (pe_chain e)) (pe_chain e) in (set_pe_chain c e, b).
Definition highestBlock (e : PBFTEngine) : option (PBFTEngine * Block) :=
  let '(e, b) := readHighest e in b ← b; Some (e, b).

(** [resetBlock]. *)
Definition resetBlock (resetNextLeader : bool) (b : Block) (e : PBFTEngine) : option (PBFTEngine * Block) :=
  if resetNextLeader then
    let b := resetCurrentBlock emptyHeader b in
    Some (e, set_b_header (setNumber (wrapS 64 (bci_number (pe_chain e) + 2)) (b_header b)) b)
  else '(e, highest) ← highestBlock e; Some (e, resetCurrentBlock (b_header highest) b).

(** [resetSealingBlock]. *)
Definition resetSealingBlock (filter : gset Z) (resetNextLeader : bool) (s : Sealer) (e : PBFTEngine)
  : option (Sealer * PBFTEngine) :=
  let e := emit (EvNoteSealing (bci_number (pe_chain e))) e in
  '(e, b) ← resetBlock resetNextLeader (se_block s) e;
  Some (set_se_transactionSet filter (set_se_block b s), e).

(** [resetCurrentTime], on the header of the sealing block. *)
Definition resetCurrentTime (alignedTime : Z) (h : BlockHeader) (e : PBFTEngine)
  : option (PBFTEngine * BlockHeader) :=
  '(e, highest) ← highestBlock e;
  let parentTime := wrapS 64 (m_timestamp (b_header highest)) in
  Some (e, setTimestamp (wrapU 64 (Z.max (wrapS 64 (parentTime + 1)) alignedTime)) h).

(** [resetSealingHeader]. *)
Definition resetSealingHeader (alignedTime : Z) (extraData : list bytes) (h : BlockHeader) (e : PBFTEngine)
  : option (PBFTEngine * BlockHeader) :=
  '(e, h) ← resetCurrentTime alignedTime h e;
  let h := setSealerList (eb_sealerList (pe_base e)) h in
  let h := setSealer (nodeIdx e) h in
  Some (e, setExtraData extraData (setGasUsed 0 (setLogBloom 0 h))).

(** [setBlock]. *)
Definition setBlock (alignedTime : Z) (s : Sealer) (e : PBFTEngine) : option (Sealer * PBFTEngine) :=
  '(e, highest) ← highestBlock e;
  let h := populateFromParent (b_header highest) (b_header (se_block s)) in
  '(e, h) ← resetSealingHeader alignedTime (se_extraData s) h e;
  Some (set_se_block (calTransactionRoot true (set_b_header h (se_block s))) s, e).

(** [shouldHandleBlock], [shouldResetSealing], [reachBlockIntervalTime],
    [checkTxsEnough] and [shouldReset]. *)
Definition shouldHandleBlock (s : Sealer) (e : PBFTEngine) : bool :=
  (m_number (b_header (se_block s)) =? bci_number (pe_chain e) + 1)
  && ((getLeader e).1 && ((getLeader e).2 =? nodeIdx e)).
Definition shouldResetSealing (s : Sealer) (e : PBFTEngine) : bool :=
  if isSealed (se_block s) && shouldHandleBlock s e then false
  else (isSealed (se_block s) || (m_number (b_header (se_block s)) <=? bci_number (pe_chain e)))
       && ((getLeader e).2 =? nodeIdx e).
Definition sealer_reachBlockIntervalTime (env : Env) (s : Sealer) (e : PBFTEngine) : bool :=
  reachBlockIntervalTime (en_steadyTime env) e
  || ((0 <? getTransactionSize (se_block s)) && reachMinBlockGenTime (en_steadyTime env) e).
Definition checkTxsEnough (env : Env) (maxTxsCanSeal : Z) (s : Sealer) (e : PBFTEngine) : bool :=
  canHandleBlockForNextLeader e
  && ((maxTxsCanSeal <=? getTransactionSize (se_block s)) || sealer_reachBlockIntervalTime env s e).
Definition shouldReset (b : Block) (e : PBFTEngine) : bool :=
  (getTransactionSize b =? 0) && eb_omitEmptyBlock (pe_base e).

(** [handleBlock]. *)
Definition handleBlock (env : Env) (alignedTime : Z) (s : Sealer) (e : PBFTEngine) : option (Sealer * PBFTEngine) :=
  if eb_maxBlockTransactions (pe_base e) <? getTransactionSize (se_block s) then resetSealingBlock ∅ false s e
  else
    '(s, e) ← setBlock alignedTime s e;
    let e := generatePrepare decodeTx executeBlock env (se_block s) e in
    if shouldReset (se_block s) e then resetSealingBlock ∅ false s e else Some (s, e).

(** [resetBlockForViewChange] and [resetBlockForNextLeader], the engine's callbacks. *)
Definition resetBlockForViewChange (s : Sealer) (e : PBFTEngine) : option (Sealer * PBFTEngine) :=
  if isSealed (se_block s) && shouldHandleBlock s e then Some (s, e) else resetSealingBlock ∅ false s e.
Definition resetBlockForNextLeader (filter : gset Z) (s : Sealer) (e : PBFTEngine) : option (Sealer * PBFTEngine) :=
  resetSealingBlock filter true s e.

(** [Sealer::shouldSeal] and [PBFTSealer::shouldSeal]; the synchroniser is idle unless
    [en_isSyncing]. *)
Definition sealer_shouldSeal (env : Env) (s : Sealer) (e : PBFTEngine) : PBFTEngine * bool :=
  if negb (isSealed (se_block s)) && se_startConsensus s
     && bool_decide (eb_accountType (pe_base e) = SealerAccount) && negb (en_isSyncing env)
  then shouldSeal decodeTx executeBlock env e else (e, false).

(** The engine's report of a block, with the callback it makes on the sealer when the
    dynamic block size is enabled. *)
Definition reportBlock_callback (env : Env) (b : Block) (s : Sealer) (e : PBFTEngine)
  : result engine_exn (Sealer * PBFTEngine) :=
  e' ← reportBlock env b e;
  Ok (foldl (λ s ev,
        match ev with
        | EvOnCommitBlock n txs cycle =>
            if se_enableDynamicBlockSize s then
              set_se_size (onCommitBlock (eb_maxBlockTransactions (pe_base e')) (en_isSyncing env)
                             (en_knownHighest env) (bci_number (pe_chain e')) n txs cycle (se_size s)) s
            else s
        | _ => s
        end) s (drop (length (pe_events e)) (pe_events e')), e').

(** [reportNewBlock]; an exception of the engine leaves the worker's loop. *)
Definition reportNewBlock (env : Env) (s : Sealer) (e : PBFTEngine) : option (Sealer * PBFTEngine) :=
  if negb (se_syncBlock s) then Some (s, e)
  else
    let s := set_se_syncBlock false s in
    let '(e, b) := readHighest e in
    match b with
    | None => Some (s, e)
    | Some b =>
        match reportBlock_callback env b s e with
        | Throw _ => None
        | Ok (s, e) => if shouldResetSealing s e then resetSealingBlock ∅ false s e else Some (s, e)
        end
    end.

(** [doWork]; the waits apart. *)
Definition doWork (env : Env) (alignedTime : Z) (s : Sealer) (p : TxPool) (e : PBFTEngine)
  : option (Sealer * TxPool * PBFTEngine) :=
  '(s, e) ← reportNewBlock env s e;
  let '(e, seal) := sealer_shouldSeal env s e in
  if negb (seal && se_startConsensus s) then Some (s, p, e)
  else
    let tx_num := getTransactionSize (se_block s) in
    let s := set_se_syncTxPool (negb ((status p).1 =? 0)) s in
    let maxTxsPerBlock := maxBlockCanSeal s in
    let '(s, p) := if (tx_num <? maxTxsPerBlock) && se_syncTxPool s && negb (sealer_reachBlockIntervalTime env s e)
                   then loadTransactions (maxTxsPerBlock - tx_num) s p else (s, p) in
    if negb (checkTxsEnough env maxTxsPerBlock s e) then Some (s, p, e)
    else if shouldHandleBlock s e then '(s, e) ← handleBlock env alignedTime s e; Some (s, p, e)
    else Some (s, p, e).

(** [PBFTSealer::start] and [Sealer::start], after the engine's start. *)
Definition sealer_start (env : Env) (s : Sealer) (e : PBFTEngine) : option (Sealer * PBFTEngine) :=
  if se_startConsensus s then Some (s, e)
  else
    '(s, e) ← resetSealingBlock ∅ false s e;
    '(e, b) ← highestBlock e;
    match reportBlock_callback env b s e with
    | Throw _ => None
    | Ok (s, e) =>
        Some (set_se_startConsensus true (set_se_syncBlock false
                (set_se_size (set_bs_maxBlockCanSeal (eb_maxBlockTransactions (pe_base e)) (se_size s)) s)), e)
    end.
Definition pbftSealer_start (env : Env) (s : Sealer) (e : PBFTEngine) : option (Sealer * PBFTEngine) :=
  let s := if se_enableDynamicBlockSize s
           then set_se_size (set_bs_lastBlockNumber (wrapU 64 (bci_number (pe_chain e))) (se_size s)) s else s in
  sealer_start env s e.
End sealer.

(** ** The transactions of the sealing block *)

Abbreviation sealing_hashes s := (tx_sha3 <$> b_transactions (se_block s)).

(** The hashes of the sealing block are distinct, and all in the set that keeps them
    from being fetched again. *)
Definition sealing_wf (s : Sealer) : Prop :=
  NoDup (sealing_hashes s) ∧ ∀ h, h ∈ sealing_hashes s → h ∈ se_transactionSet s.

(** The transactions are kept, with the set and the size, or dropped. *)
Definition kept_or_reset (s s' : Sealer) : Prop :=
  b_transactions (se_block s') = [] ∨
  b_transactions (se_block s') = b_transactions (se_block s) ∧ se_transactionSet s' = se_transactionSet s.

(** The transactions fetched since [s] were not excluded there. *)
Definition fetched_outside (s s' : Sealer) : Prop :=
  ∀ h, h ∈ se_transactionSet s → h ∈ sealing_hashes s' → h ∈ sealing_hashes s.

Lemma empty_sealing_wf s : b_transactions (se_block s) = [] → sealing_wf s.
Proof. intros E. unfold sealing_wf. rewrite E. split; [constructor|by intros ? ?%elem_of_nil]. Qed.

Lemma kept_or_reset_wf s s' :
  kept_or_reset s s' → sealing_wf s →
  sealing_wf s' ∧ getTransactionSize (se_block s') <= getTransactionSize (se_block s).
Proof.
  intros Hk [H1 H2]. unfold sealing_wf, getTransactionSize, zlen.
  destruct Hk as [->|[-> ->]]; [|by split_and!]. split_and!; [constructor|by intros ? ?%elem_of_nil|simpl; lia].
Qed.

Lemma kept_or_reset_trans s1 s2 s3 : kept_or_reset s1 s2 → kept_or_reset s2 s3 → kept_or_reset s1 s3.
Proof. unfold kept_or_reset. intros [E|[E E']] [F|[F F']]; rewrite ?F, ?F', ?E, ?E'; auto. Qed.

Lemma kept_or_reset_fetched s1 s2 s3 : fetched_outside s1 s2 → kept_or_reset s2 s3 → fetched_outside s1 s3.
Proof.
  intros H1 [E|[E _]] h Hh; rewrite E; [by intros ?%elem_of_nil|]. by apply H1.
Qed.

Lemma loadTransactions_wf n s p :
  pool_wf p → 0 <= n → sealing_wf s →
  let '(s', _) := loadTransactions n s p in
  sealing_wf s' ∧ getTransactionSize (se_block s') <= getTransactionSize (se_block s) + n
  ∧ se_size s' = se_size s ∧ fetched_outside s s'.
Proof.
  intros Hp Hn [H1 H2]. unfold loadTransactions, topTransactions.
  destruct (top_fold (tp_txNonceCheck p) true (tp_txsQueue p)
    (mkTop (Z.min (tp_limit p) n) (se_transactionSet s) (tp_invalidTxs p) []) (pw_nodup _ Hp))
    as (Hr & Ha & _). cbn [top_ret top_avoid top_left top_invalid] in Hr, Ha.
  set (st := foldl _ _ _) in *. clearbody st. set (ts := take _ _) in *.
  rewrite app_nil_l in Hr. unfold sealing_wf, getTransactionSize. simpl. rewrite Hr, Ha. clear Hr Ha st.
  assert (Hts : NoDup (pt_sha3 <$> ts) ∧ ∀ h, h ∈ pt_sha3 <$> ts → h ∉ se_transactionSet s).
  { split.
    - eapply sublist_NoDup; [apply (pw_nodup _ Hp)|]. apply fmap_sublist.
      subst ts. etrans; [apply sublist_take|apply sublist_filter].
    - intros h (t & -> & Ht)%list_elem_of_fmap. subst ts. apply elem_of_take in Ht as (i & Hi & _).
      apply list_elem_of_lookup_2, list_elem_of_filter in Hi as [Hi _].
      unfold sealable in Hi. apply andb_true_iff in Hi as [_ Hi]. by rewrite negb_true_iff, bool_decide_eq_false in Hi. }
  assert (Hlen : zlen ts <= n) by (subst ts; unfold zlen; rewrite length_take; lia).
  clearbody ts. destruct Hts as [T1 T2]. rewrite fmap_app, <- list_fmap_compose.
  change (tx_sha3 ∘ pt_tx) with pt_sha3. split_and!; [| |unfold zlen in *; rewrite length_app, length_fmap; lia|done|].
  - apply NoDup_app. split_and!; [done| |done]. intros h Hh Ht. by apply (T2 h Ht), H2.
  - intros h [Hh|Hh]%elem_of_app; [|]; apply elem_of_union; [right; auto|left]. by apply elem_of_list_to_set.
  - intros h Hh. simpl. rewrite fmap_app, <- list_fmap_compose. intros [Ht|Ht]%elem_of_app; [done|].
    by destruct (T2 h Ht).
Qed.

Section sealer_props.
Context `{HC : Crypto} `{HU : UnorderedIter} {C : Type} `{HB : BlockChainInterface C}.
Context (decodeTx : bytes → option Transaction)
        (executeBlock : Block → BlockHeader → option (Block * option Z)).
Local Abbreviation PBFTEngine := (PBFTEngineOf KeyPair C).

Lemma resetCurrentBlock_txs parent b : b_transactions (resetCurrentBlock parent b) = [].
Proof. done. Qed.

Lemma calTransactionRoot_txs upd b : b_transactions (calTransactionRoot upd b) = b_transactions b.
Proof. unfold calTransactionRoot. by repeat case_match. Qed.

Lemma resetSealingBlock_reset f nl s (e : PBFTEngine) s' e' :
  resetSealingBlock f nl s e = Some (s', e') → b_transactions (se_block s') = [] ∧ se_size s' = se_size s.
Proof.
  unfold resetSealingBlock, resetBlock. intros Hr. destruct nl; simpl in Hr; [by simplify_eq/=|].
  destruct (highestBlock _) as [[e1 b]|]; simpl in Hr; [|done]. by simplify_eq/=.
Qed.

Lemma setBlock_kept t s (e : PBFTEngine) s' e' :
  setBlock t s e = Some (s', e') → kept_or_reset s s' ∧ se_size s' = se_size s.
Proof.
  unfold setBlock. intros Hs. repeat (apply bind_Some in Hs as ([? ?] & _ & Hs)). apply (inj Some), pair_eq in Hs as [<- _].
  split; [right; split; [exact (calTransactionRoot_txs _ (set_b_header _ _))|]|]; done.
Qed.

Lemma handleBlock_kept env t s (e : PBFTEngine) s' e' :
  handleBlock decodeTx executeBlock env t s e = Some (s', e') → kept_or_reset s s' ∧ se_size s' = se_size s.
Proof.
  unfold handleBlock. intros Hh. break_if.
  { apply resetSealingBlock_reset in Hh as []. split; [by left|done]. }
  apply bind_Some in Hh as ([s1 e1] & [Hk Hz]%setBlock_kept & Hh). cbv zeta in Hh. break_if; [|by simplify_eq].
  apply resetSealingBlock_reset in Hh as [? ->]. split; [by left|done].
Qed.

Lemma reportBlock_callback_kept env b s (e : PBFTEngine) s' e' :
  reportBlock_callback env b s e = Ok (s', e') → se_block s' = se_block s ∧ se_transactionSet s' = se_transactionSet s.
Proof.
  unfold reportBlock_callback. destruct (reportBlock env b e) as [e1|]; [|done]. simpl. intros [= <- _].
  generalize (drop (length (pe_events e)) (pe_events e1)) as evs. intros evs. revert s.
  induction evs as [|ev evs IH]; intros s; [done|]. cbn [foldl]. rewrite !(proj1 (IH _)), !(proj2 (IH _)).
  by repeat case_match.
Qed.

Lemma reportNewBlock_kept env s (e : PBFTEngine) s' e' :
  reportNewBlock env s e = Some (s', e') → kept_or_reset s s' ∧ (se_syncBlock s = false → s' = s).
Proof.
  unfold reportNewBlock. intros Hr. break_if; [by simplify_eq/=; split; [right|]|].
  split; [|by intros E; rewrite E in *].
  destruct (readHighest e) as [e1 [b|]]; [|simplify_eq/=; by right].
  destruct (reportBlock_callback _ _ _ _) as [[s1 e2]|] eqn:Hc; [|done].
  apply reportBlock_callback_kept in Hc as [E1 E2]. simpl in E1, E2. break_if.
  - apply resetSealingBlock_reset in Hr as []. by left.
  - simplify_eq. right. by rewrite E1, E2.
Qed.

(** A round of the sealer's thread never puts a transaction twice in the sealing
    block: the block's hashes stay distinct and within the set excluded from
    fetching, and the block does not grow past the current maximum.  While no new
    block is reported, no transaction excluded before, such as those of the current
    leader's proposal, enters the block. *)
Theorem doWork_sealing env t s p (e : PBFTEngine) s' p' e' :
  pool_wf p → sealing_wf s → doWork decodeTx executeBlock env t s p e = Some (s', p', e') →
  sealing_wf s' ∧
  getTransactionSize (se_block s') <= Z.max (getTransactionSize (se_block s)) (maxBlockCanSeal s')
  ∧ (se_syncBlock s = false → fetched_outside s s').
Proof.
  intros Hp Hs Hd. unfold doWork in Hd. apply bind_Some in Hd as ([s1 e1] & H1%reportNewBlock_kept & Hd).
  destruct H1 as [H1 Hq]. destruct (kept_or_reset_wf _ _ H1 Hs) as [Hs1 Hz1]. destruct (sealer_shouldSeal _ _ _ _ _) as [e2 seal].
  break_if; [simplify_eq; split_and!; [done|lia|by intros ->%Hq ?]|]. cbv zeta in Hd.
  set (s2 := set_se_syncTxPool _ s1) in *. assert (Hs2 : sealing_wf s2) by done.
  assert (Hq2 : se_syncBlock s = false → se_block s2 = se_block s ∧ se_transactionSet s2 = se_transactionSet s)
    by (by intros Hb%Hq; subst).
  assert (Hz2 : getTransactionSize (se_block s2) <= getTransactionSize (se_block s)) by done.
  change (getTransactionSize (se_block s1)) with (getTransactionSize (se_block s2)) in Hd. clearbody s2.
  match type of Hd with context [if ?b then loadTransactions ?n s2 p else _] =>
    destruct (if b then loadTransactions n s2 p else (s2, p)) as [s3 p3] eqn:Hl end.
  assert (H3 : sealing_wf s3 ∧ getTransactionSize (se_block s3)
                 <= Z.max (getTransactionSize (se_block s)) (maxBlockCanSeal s3)
               ∧ (se_syncBlock s = false → fetched_outside s s3)).
  { clear Hd. break_if; [|simplify_eq; split_and!; [done|lia|intros [E _]%Hq2 h; by rewrite E]].
    pose proof (loadTransactions_wf (maxBlockCanSeal s2 - getTransactionSize (se_block s2)) s2 p Hp) as Hw.
    rewrite Hl in Hw. destruct Hw as (? & ? & E & Hf); [lia|done|]. unfold maxBlockCanSeal in *. rewrite E.
    split_and!; [done|lia|]. intros [E1 E2]%Hq2. unfold fetched_outside. rewrite <- E1, <- E2. exact Hf. }
  break_if; [by simplify_eq|]. break_if; [|by simplify_eq].
  apply bind_Some in Hd as ([s4 e4] & [Hk Hz]%handleBlock_kept & Hd). simplify_eq.
  destruct H3 as (H3 & H4 & H5). destruct (kept_or_reset_wf _ _ Hk H3). unfold maxBlockCanSeal in *. rewrite Hz.
  split_and!; [done|lia|]. intros Hb. eapply kept_or_reset_fetched; eauto.
Qed.
End sealer_props.

(** ** The block handed to the engine *)

Section sealed.
Context `{HC : Crypto} (failed : TransactionReceipt → bool).
#[local] Instance sealed_chain : BlockChainInterface BlockChainImp := chain_interface failed.
Local Abbreviation PBFTEngine := (PBFTEngineOf KeyPair BlockChainImp).

(** The root of the transactions, as [verify] recomputes it. *)
Definition transactionRoot (txs : list Transaction) : Z :=
  getHash256 (imap (λ i tx, merkle_leaf i (hashBytes 32 (tx_sha3 tx))) txs).

Lemma block_at_same c c' n b : same_blocks c c' → block_at c n b → block_at c' n b.
Proof. intros (_ & _ & E1 & E2) Hb. unfold block_at. by rewrite E1, E2. Qed.

Lemma highestBlock_at (e : PBFTEngine) g :
  chain_inv (pe_chain e) → block_at (pe_chain e) (number (pe_chain e)) g → headerHash (b_header g) ≠ 0 →
  ∃ c', highestBlock e = Some (set_pe_chain c' e, g) ∧ same_blocks (pe_chain e) c' ∧ chain_inv c'.
Proof.
  intros Hi Hg H0. unfold highestBlock, readHighest. cbn [bci_number bci_getBlockByNumber sealed_chain chain_interface].
  destruct (getBlockByNumber_same (number (pe_chain e)) _ Hi) as [Hs Hi'].
  pose proof (getBlockByNumber_at _ g _ Hi Hg ltac:(lia) H0) as Hb.
  destruct (getBlockByNumber _ _) as [c' b]. simpl in *. subst b. eauto.
Qed.

(** The header [setBlock] makes on the parent [parent]. *)
Definition sealedHeader (t : Z) (s : Sealer) (parent : BlockHeader) (e : PBFTEngine) : BlockHeader :=
  setExtraData (se_extraData s) (setGasUsed 0 (setLogBloom 0 (setSealer (nodeIdx e)
    (setSealerList (eb_sealerList (pe_base e))
      (setTimestamp (wrapU 64 (Z.max (wrapS 64 (wrapS 64 (m_timestamp parent) + 1)) t))
        (populateFromParent parent (b_header (se_block s)))))))).

Lemma setBlock_at t s (e : PBFTEngine) g :
  chain_inv (pe_chain e) → block_at (pe_chain e) (number (pe_chain e)) g → headerHash (b_header g) ≠ 0 →
  ∃ c', same_blocks (pe_chain e) c' ∧ chain_inv c' ∧
  setBlock t s e = Some (set_se_block (calTransactionRoot true
    (set_b_header (sealedHeader t s (b_header g) e) (se_block s))) s, set_pe_chain c' e).
Proof.
  intros Hi Hg H0. destruct (highestBlock_at e g Hi Hg H0) as (c1 & E1 & Hs1 & Hi1).
  destruct (highestBlock_at (set_pe_chain c1 e) g) as (c2 & E2 & Hs2 & Hi2); [done| |done|].
  { cbn [pe_chain set_pe_chain]. rewrite (proj1 Hs1). by eapply block_at_same. }
  exists c2. split_and!; [by eapply same_blocks_trans|done|].
  unfold setBlock. rewrite E1. cbn [mbind option_bind]. unfold resetSealingHeader, resetCurrentTime.
  rewrite E2. reflexivity.
Qed.

(** A chain as the sealer finds it: [g] is its highest block. *)
Record sealing_chain (c : BlockChainImp) (g : Block) : Prop := {
  sc_inv : chain_inv c;
  sc_highest : block_at c (number c) g;
  sc_hash : headerHash (b_header g) ≠ 0;
  sc_number : number c + 1 < MaxBlockNumber;
  sc_time : 0 <= m_timestamp (b_header g) < INT64_MAX;
  sc_gas : 0 <= m_gasLimit (b_header g) }.

(** The header of the next block, on [g]. *)
Definition next_header (h : BlockHeader) (g : Block) (e : PBFTEngine) : Prop :=
  m_number h = number (pe_chain e) + 1 ∧ m_parentHash h = headerHash (b_header g)
  ∧ m_timestamp (b_header g) < m_timestamp h ∧ m_gasUsed h = 0 ∧ m_gasLimit h = m_gasLimit (b_header g)
  ∧ m_sealer h = nodeIdx e ∧ m_sealerList h = eb_sealerList (pe_base e).

Lemma sealedHeader_fields t s g (e : PBFTEngine) :
  sealing_chain (pe_chain e) g → t < 2 ^ 63 → next_header (sealedHeader t s (b_header g) e) g e.
Proof.
  intros [Hi (_ & _ & En) _ Hn Ht _] Hlt. pose proof (ci_number _ Hi) as H0. unfold MaxBlockNumber, INT64_MAX in *.
  unfold next_header. split_and!; [|reflexivity| |reflexivity..].
  - change (wrapS 64 (m_number (b_header g) + 1) = number (pe_chain e) + 1). rewrite En. apply wrapS_id; lia.
  - change (m_timestamp (b_header g) < wrapU 64 (Z.max (wrapS 64 (wrapS 64 (m_timestamp (b_header g)) + 1)) t)).
    rewrite (wrapS_id 64 (m_timestamp _)), (wrapS_id 64 (_ + 1)), wrapU_id; lia.
Qed.

Lemma calTransactionRoot_sealed b :
  b_txsCache b = [] →
  b_header (calTransactionRoot true b) = setTransactionsRoot (transactionRoot (b_transactions b)) (b_header b).
Proof. intros E. unfold calTransactionRoot. by rewrite E. Qed.

(** A block on the highest one passes [checkBlockValid]. *)
Lemma checkBlockValid_next now b g (base : EngineBaseOf KeyPair) c :
  sealing_chain c g → m_number (b_header b) = number c + 1 → m_parentHash (b_header b) = headerHash (b_header g) →
  getTransactionSize b <= eb_maxBlockTransactions base →
  m_timestamp (b_header b) <= now ∨ eb_allowFutureBlocks base = true →
  (checkBlockValid now b base c).2 = Ok tt.
Proof.
  intros [Hi (E1 & E2 & _) _ _ _ _] En Ep Hm Hnow. unfold checkBlockValid.
  cbn [bci_number bci_getBlockByHash bci_numberHash sealed_chain chain_interface].
  destruct (Z.ltb_spec (eb_maxBlockTransactions base) (getTransactionSize b)); [lia|].
  replace (_ && negb (eb_allowFutureBlocks base)) with false.
  2: { destruct Hnow as [?| ->]; [|by rewrite andb_false_r]. by rewrite (proj2 (Z.ltb_ge now _)) by done. }
  rewrite (proj2 (Z.leb_gt _ _)) by lia.
  destruct (getBlockOfHash_same (m_parentHash (b_header b)) c Hi) as [(_ & _ & N & _) _].
  assert (Hf : (getBlockOfHash (m_parentHash (b_header b)) c).2 ≠ None).
  { unfold getBlockOfHash. rewrite Ep, E2. by destruct (blockCache_get _ _). }
  unfold getBlockByHash. destruct (getBlockOfHash _ _) as [c' [p|]]; [|done]. simpl in N |- *.
  unfold numberHash. rewrite N, En, Ep. replace (number c + 1 - 1) with (number c) by lia.
  rewrite E1. cbn [default from_option id]. by rewrite Z.eqb_refl, andb_false_r.
Qed.

(** What is asked of a proposal [b] on the highest block [g]. *)
Definition proposal_ok (b g : Block) (e : PBFTEngine) : Prop :=
  header_verify true (b_header g) (Some (transactionRoot (b_transactions b))) (b_header b) = Ok tt
  ∧ m_sealer (b_header b) = nodeIdx e ∧ checkSealerList b e = true
  ∧ commit_precheck b (pe_chain e) = None
  ∧ ∀ now, m_timestamp (b_header b) <= now ∨ eb_allowFutureBlocks (pe_base e) = true →
    (checkBlockValid now b (pe_base e) (pe_chain e)).2 = Ok tt.

Lemma next_block_ok b g (e : PBFTEngine) :
  sealing_chain (pe_chain e) g → next_header (b_header b) g e →
  m_transactionsRoot (b_header b) = transactionRoot (b_transactions b) →
  getTransactionSize b <= eb_maxBlockTransactions (pe_base e) → proposal_ok b g e.
Proof.
  intros Hsc (F1 & F2 & F3 & F4 & F5 & F6 & F7) Hr Hsize. pose proof Hsc as [Hi Hat H0 Hn Htime Hgas].
  pose proof (ci_number _ Hi) as Hn0. pose proof Hat as (A1 & _ & A3). unfold MaxBlockNumber, INT64_MAX in *.
  unfold proposal_ok. split_and!; [|done|unfold checkSealerList; by rewrite F7, bool_decide_true| |].
  - unfold header_verify, MaxBlockNumber, INT64_MAX. rewrite F1, F2, F4, F5, Hr.
    rewrite A3, Z.eqb_refl, (wrapS_id 64 (number (pe_chain e) + 1)), Z.eqb_refl, Z.eqb_refl by lia.
    rewrite !(proj2 (Z.leb_gt _ _)), !(proj2 (Z.ltb_ge _ _)) by lia.
    rewrite andb_false_r. by destruct (headerSet _).
  - unfold commit_precheck, isBlockShouldCommit. rewrite F1, F2, Z.eqb_refl. unfold numberHash. rewrite A1.
    cbn [default from_option id]. by rewrite Z.eqb_refl.
  - intros now Hnow. by eapply checkBlockValid_next.
Qed.

Lemma sealed_block_ok r h c' s g (e : PBFTEngine) :
  r = Some (set_se_block (calTransactionRoot true (set_b_header h (se_block s))) s, set_pe_chain c' e) →
  sealing_chain (pe_chain e) g → next_header h g e → b_txsCache (se_block s) = [] →
  getTransactionSize (se_block s) <= eb_maxBlockTransactions (pe_base e) →
  ∃ s' e', r = Some (s', e') ∧
    b_transactions (se_block s') = b_transactions (se_block s) ∧ proposal_ok (se_block s') g e.
Proof.
  intros E Hsc Hf Hcache Hsize. do 2 eexists. split; [exact E|].
  pose proof (calTransactionRoot_txs true (set_b_header h (se_block s))) as Etx.
  pose proof (calTransactionRoot_sealed (set_b_header h (se_block s)) Hcache) as Eh.
  cbn [se_block set_se_block]. generalize dependent (calTransactionRoot true (set_b_header h (se_block s))).
  intros b _ Etx Eh. cbn [b_header b_transactions set_b_header] in Etx, Eh. split; [exact Etx|].
  apply next_block_ok; [done|rewrite Eh; exact Hf| |].
  - rewrite Eh, Etx. reflexivity.
  - unfold getTransactionSize. rewrite Etx. exact Hsize.
Qed.

(** C30. The block the sealer hands to the engine is a valid proposal: it keeps the
    transactions loaded, its header extends the highest block and verifies against
    it (number, parent hash, increasing timestamp, gas, transaction root), it names the
    current sealers and this node, passes the receivers' [checkBlockValid] and
    [checkSealerList], and the chain's commit does not refuse it. *)
Theorem sealed_block_valid t s (e : PBFTEngine) g :
  sealing_chain (pe_chain e) g → t < 2 ^ 63 → b_txsCache (se_block s) = [] →
  getTransactionSize (se_block s) <= eb_maxBlockTransactions (pe_base e) →
  ∃ s' e', setBlock t s e = Some (s', e') ∧
    b_transactions (se_block s') = b_transactions (se_block s) ∧ proposal_ok (se_block s') g e.
Proof.
  intros Hsc Ht Hcache Hsize. pose proof Hsc as [Hi Hat H0 _ _ _].
  destruct (setBlock_at t s e g Hi Hat H0) as (c' & _ & _ & E).
  eapply (sealed_block_ok _ (sealedHeader t s (b_header g) e)); [exact E|done| |done..].
  by apply sealedHeader_fields.
Qed.
End sealed.

(** ** Concrete instances *)

#[local] Instance sealerChain : BlockChainInterface BlockChainImp := @chain_interface toyCrypto (λ _, false).

(** The sealer of a lone node, started, and after a round that loads the pool's two
    transactions. *)
Definition sampleSealing : Sealer * SampleEngine :=
  default (newSealer 2, sampleRun0)
    (@pbftSealer_start toyCrypto _ sealerChain (sampleEnv [3] 5 true) (newSealer 2) sampleRun0).
Local Abbreviation sampleRound :=
  (@doWork toyCrypto canonicalIter _ sealerChain sampleDecodeTx sampleExecute (sampleEnv [3] 10 true) 1600000000010
    sampleSealing.1 samplePool2 sampleSealing.2).

Lemma doWork_sealing_witness :
  match sampleRound with
  | Some (s', _, _) => sealing_hashes s' = [502; 501] ∧ sealing_wf s'
  | None => False
  end.
Proof.
  assert (H1 : (λ r, sealing_hashes r.1.1) <$> sampleRound = Some [502; 501]) by (vm_compute; reflexivity).
  assert (H3 : sealing_wf sampleSealing.1) by (apply empty_sealing_wf; vm_compute; reflexivity).
  assert (Hd : ∀ s' p' e', sampleRound = Some (s', p', e') → sealing_wf s').
  { intros s' p' e' E. exact (proj1 (@doWork_sealing toyCrypto canonicalIter _ sealerChain sampleDecodeTx sampleExecute
      (sampleEnv [3] 10 true) 1600000000010 sampleSealing.1 samplePool2 sampleSealing.2 s' p' e'
      sample_pool_wf H3 E)). }
  destruct sampleRound as [[[s' p'] e']|]; [|discriminate H1].
  injection H1 as H1. split; [exact H1|exact (Hd _ _ _ eq_refl)].
Defined.

Lemma sealed_block_valid_witness :
  ∃ s' e', @setBlock toyCrypto _ (@sealed_chain toyCrypto (λ _, false)) 1600000000000 (newSealer 0) (sampleNew 3) = Some (s', e')
    ∧ @proposal_ok toyCrypto (λ _, false) (se_block s') sampleGenesis (sampleNew 3).
Proof.
  destruct (@sealed_block_valid toyCrypto (λ _, false) 1600000000000 (newSealer 0) (sampleNew 3) sampleGenesis)
    as (s' & e' & E & _ & Hp); [|lia|reflexivity|by apply Z.leb_le; vm_compute|exists s', e'; exact (conj E Hp)].
  split.
  - exact (proj1 (@genesis_inv toyCrypto sampleGenesis eq_refl)).
  - split_and!; vm_compute; reflexivity.
  - apply Z.eqb_neq. vm_compute. reflexivity.
  - vm_compute. reflexivity.
  - by split; vm_compute.
  - by vm_compute.
Defined.
