(* ===== verification/EngineProps.v ===== *)
(** * Properties of single engine operations

    Which prepares a node accepts, who leads, when a block is committed, and which
    downloaded blocks pass [checkBlock]. *)
From S2P Require Import Prelude CommonData RLP Crypto BlockHeader TxsParser Block PBFTMsg MsgCache.
From S2P Require Import TimeManager ReqCache BlockChain EngineBase Engine EngineSample.
Local Open Scope Z_scope.

(** The commits a log records. *)
Definition commits (l : list event) : list (Block * CommitResult) :=
  omap (λ ev, match ev with EvCommit b r => Some (b, r) | _ => None end) l.

Lemma commits_app l l' : commits (l ++ l') = commits l ++ commits l'.
Proof. apply omap_app. Qed.

Section props.
Context `{HC : Crypto} `{HU : UnorderedIter} {C : Type} `{HB : BlockChainInterface C}.
Local Abbreviation PBFTEngine := (PBFTEngineOf KeyPair C).
Implicit Types e : PBFTEngine.

(** ** Prepares *)

Lemma valid_prepare_tests env req e :
  isValidPrepare env req e = VALID →
  isExistPrepare req (pe_reqCache e) = false ∧ hasConsensused req e = false
  ∧ isEmptyReq req || isHashSavedAfterCommit req e = true ∧ isFuturePrepare req e = false
  ∧ isValidLeader req e = true ∧ checkSign req e = true.
Proof.
  unfold isValidPrepare.
  destruct (isExistPrepare _ _); [done|]. destruct (isSyncingHigherBlock _ _); [done|].
  destruct (hasConsensused _ _); [done|].
  destruct (isEmptyReq req), (isHashSavedAfterCommit req e); simpl; try done;
    (destruct (isFuturePrepare _ _); [done|]); (destruct (isValidLeader _ _); [|done]);
    destruct (checkSign _ _); done.
Qed.

(** A prepare found valid is for the height and the view being agreed on, comes
    from the leader, and is signed by it. *)
Lemma valid_prepare_current env req e :
  isValidPrepare env req e = VALID →
  height req = consensusNumber e ∧ view req = pe_view e
  ∧ (getLeader e).1 = true ∧ idx req = (getLeader e).2 ∧ checkSign req e = true.
Proof.
  intros (_ & Hc & _ & Hf & Hl & Hs)%valid_prepare_tests.
  unfold hasConsensused in Hc. unfold isFuturePrepare in Hf. unfold isValidLeader in Hl.
  apply orb_false_iff in Hc as [Hc1%Z.ltb_ge Hc2], Hf as [Hf1%Z.ltb_ge Hf2].
  apply andb_true_iff in Hl as [Hl1 Hl2%Z.eqb_eq].
  assert (Hh : height req = consensusNumber e) by lia. apply Z.eqb_eq in Hh as Hh'.
  rewrite Hh' in Hc2, Hf2. simpl in Hc2, Hf2. apply Z.ltb_ge in Hc2, Hf2. split_and!; try done. lia.
Qed.

(** The commit lock.  While a prepare of height [h] is held as committed, a node
    accepts, for now or for later, a prepare of that height only for the same
    block hash, provided the request is not marked as empty. *)
Theorem prepare_lock env req e :
  isValidPrepare env req e ≠ INVALID → isEmptyReq req = false →
  height req = height (m_committedPrepareCache (pe_reqCache e)) →
  block_hash req = block_hash (m_committedPrepareCache (pe_reqCache e)).
Proof.
  unfold isValidPrepare, isHashSavedAfterCommit. intros Hv He Hh. rewrite He, Hh, Z.eqb_refl in Hv.
  destruct (isExistPrepare _ _); [done|]. destruct (isSyncingHigherBlock _ _); [done|].
  destruct (hasConsensused _ _); [done|]. simpl in Hv.
  destruct (block_hash req =? _) eqn:Hb; [by apply Z.eqb_eq|done].
Qed.

(** What the lock does not cover.  The verdict on a prepare does not depend on the
    block it carries, only on the hash it claims; and for a request marked as
    empty, a mark the packet's sender sets, it does not depend on the committed
    prepare at all. *)
Theorem prepare_lock_bypass env req e :
  (∀ data b, isValidPrepare env (set_pBlock b (set_req_block data req)) e = isValidPrepare env req e)
  ∧ (∀ committed, isEmptyReq req = true →
       isValidPrepare env req (on_cache (set_committedPrepareCache committed) e) = isValidPrepare env req e)
  ∧ (∀ p, decodePrepare (set_prepareWithEmptyBlock true p)
          = (λ r : PrepareReq, set_req_msg (set_isEmptyReq true r) r) <$> decodePrepare p).
Proof.
  split_and!.
  - intros data b. reflexivity.
  - intros committed He. unfold isValidPrepare. rewrite He. reflexivity.
  - intros p. unfold decodePrepare. simpl. destruct (prepare_decode defaultPrepare (pkt_data p) 0); [|done].
    by destruct (prepareWithEmptyBlock p).
Qed.

(** ** Leaders *)

(** Every sealer gets its turn: from any view, among as many consecutive views as
    there are nodes each index is the leader's exactly once. *)
Theorem leader_rotates e i :
  let n := eb_nodeNum (pe_base e) in
  (getLeader e).1 = true → n < 2 ^ 16 → 0 <= pe_view e → 0 <= highestNumber e →
  pe_view e + highestNumber e + n < 2 ^ 63 → 0 <= i < n →
  ∃ k, 0 <= k < n ∧ ∀ k', 0 <= k' < n →
    ((getLeader (set_pe_view (pe_view e + k') e)).2 = i ↔ k' = k).
Proof.
  intros n Hl Hn Hv Hh Hb Hi.
  assert (Hlead : ∀ k', 0 <= k' < n →
    (getLeader (set_pe_view (pe_view e + k') e)).2 = (pe_view e + highestNumber e + k') mod n).
  { intros k' Hk'. unfold getLeader in *. simpl. destruct (_ || _); [done|]. cbn [snd].
    change (highestNumber (set_pe_view (pe_view e + k') e)) with (highestNumber e). fold n.
    rewrite wrapS_id by lia. rewrite Z.rem_mod_nonneg by lia.
    replace (pe_view e + k' + highestNumber e) with (pe_view e + highestNumber e + k') by lia.
    apply wrapU_id. pose proof (Z.mod_pos_bound (pe_view e + highestNumber e + k') n). lia. }
  set (a := pe_view e + highestNumber e) in *. exists ((i - a) mod n).
  split; [apply Z.mod_pos_bound; lia|]. intros k' Hk'. rewrite Hlead by done. split.
  - intros <-. rewrite Zminus_mod_idemp_l. replace (a + k' - a) with k' by lia. by rewrite Z.mod_small.
  - intros ->. rewrite Zplus_mod_idemp_r. replace (a + (i - a)) with i by lia. by rewrite Z.mod_small.
Qed.

(** ** Downloaded blocks *)

Lemma resetConfig_inv lg e e' :
  resetConfig lg e = Ok e' →
  (∃ nl, base_resetConfig (bci_number (pe_chain e)) lg (pe_base e) = Ok (pe_base e', nl))
  ∧ pe_reqCache e' = pe_reqCache e ∧ pe_view e' = pe_view e ∧ pe_toView e' = pe_toView e
  ∧ pe_chain e' = pe_chain e ∧ pe_msgQueue e' = pe_msgQueue e.
Proof.
  unfold resetConfig. destruct (base_resetConfig _ _ _) as [[b nl]|]; [|done]. simpl.
  set (e1 := match nl with Some l => _ | None => _ end).
  assert (He1 : pe_base e1 = b ∧ pe_reqCache e1 = pe_reqCache e ∧ pe_view e1 = pe_view e
                ∧ pe_toView e1 = pe_toView e ∧ pe_chain e1 = pe_chain e ∧ pe_msgQueue e1 = pe_msgQueue e)
    by (subst e1; by destruct nl).
  clearbody e1. destruct He1 as (<- & <- & <- & <- & <- & <-).
  unfold resetConsensusTimeout. destruct (negb (pe_supportTimeAdjust e1)); simpl.
  - intros [= <-]. destruct (eb_sealerListUpdated (pe_base e1)); (split; [by exists nl|done]).
  - destruct (lg_consensusTimeout lg); [|done]. simpl. intros [= <-]. repeat break_if; (split; [by exists nl|done]).
Qed.

(** The indices a signature list names, as the check reads them. *)
Definition signers (b : Block) : list Z := (λ s, wrapU 16 s.1) <$> b_sigList b.

(** What a positive answer of [checkBlock] has established. *)
Lemma checkBlock_true env b e e' :
  checkBlock env b e = Ok (e', true) → m_number (b_header b) ≠ 0 →
  resetConfig (en_ledger env) e = Ok e' ∧ bci_number (pe_chain e) < m_number (b_header b)
  ∧ eb_sealerList (pe_base e') = m_sealerList (b_header b)
  ∧ minValidNodes (pe_base e') <= zlen (b_sigList b)
  ∧ ∀ i sg, (i, sg) ∈ b_sigList b → checkBlockSign (wrapU 16 i) (headerHash (b_header b)) sg e' = true.
Proof.
  unfold checkBlock. intros Hc H0. destruct (m_number (b_header b) <=? _) eqn:Hn; [done|]. apply Z.leb_gt in Hn.
  destruct (resetConfig (en_ledger env) e) as [e1|]; [|done]. simpl in Hc. injection Hc as <- Hc.
  apply Z.eqb_neq in H0. rewrite H0 in Hc. unfold checkSealerList in Hc.
  destruct (bool_decide_reflect (eb_sealerList (pe_base e1) = m_sealerList (b_header b))) as [Hs|]; [|done].
  simpl in Hc. destruct (getSealerByIndex _ _ =? 0); [done|].
  destruct (zlen (b_sigList b) <? _) eqn:Hq; [done|]. apply Z.ltb_ge in Hq.
  destruct (checkSigList b e1) eqn:Hl; [|done]. split_and!; try done.
  intros i sg Hin. unfold checkSigList in Hl. rewrite forallb_forall in Hl.
  apply (Hl (i, sg)). by apply list_elem_of_In.
Qed.

Lemma checkBlockSign_index i hash sg e :
  checkBlockSign i hash sg e = true →
  0 <= i < zlen (eb_sealerList (pe_base e))
  ∧ ∃ k, eb_sealerList (pe_base e) !! Z.to_nat i = Some k ∧ Verify k sg hash = true.
Proof.
  unfold checkBlockSign, getNodeIDByIndex, getSealerByIndex.
  destruct ((0 <=? i) && (i <? zlen (eb_sealerList (pe_base e)))) eqn:E; [|done].
  apply andb_true_iff in E as [E1%Z.leb_le E2%Z.ltb_lt].
  destruct (eb_sealerList (pe_base e) !! Z.to_nat i) as [k|] eqn:Hk; cbn [default from_option id].
  2: { apply lookup_ge_None in Hk. unfold zlen in E2. lia. }
  destruct (k =? 0); [done|]. intros Hv. split; [lia|]. by exists k.
Qed.

(** Distinct signatures of one hash come from distinct indices. *)
Lemma signers_NoDup b e `{!UniqueSignatures} :
  NoDup (b_sigList b).*2 →
  (∀ i sg, (i, sg) ∈ b_sigList b → checkBlockSign (wrapU 16 i) (headerHash (b_header b)) sg e = true) →
  NoDup (signers b).
Proof.
  unfold signers. induction (b_sigList b) as [|[i sg] l IH]; intros Hd Hv; [constructor|].
  rewrite fmap_cons in *. apply NoDup_cons in Hd as [Hn Hd]. constructor.
  - intros ([j sg'] & Hj & Hin)%list_elem_of_fmap. simpl in Hj. apply Hn. apply list_elem_of_fmap.
    exists (j, sg'). split; [|done]. simpl.
    destruct (checkBlockSign_index _ _ _ _ (Hv i sg (list_elem_of_here _ _))) as (_ & k & Hk & V1).
    destruct (checkBlockSign_index _ _ _ _ (Hv j sg' (list_elem_of_further _ _ _ Hin))) as (_ & k' & Hk' & V2).
    rewrite <-Hj, Hk in Hk'. injection Hk' as <-. by apply (unique_signatures k _ _ _ V1 V2).
  - apply IH; [done|]. intros i' sg' Hin. apply Hv. by apply list_elem_of_further.
Qed.

(** Enough distinct signers of a block. *)
Lemma checkBlock_signers env b e e' `{!UniqueSignatures} :
  checkBlock env b e = Ok (e', true) → m_number (b_header b) ≠ 0 → NoDup (b_sigList b).*2 →
  ∃ S : gset Z, S ⊆ indices (zlen (eb_sealerList (pe_base e')))
    ∧ minValidNodes (pe_base e') <= Z.of_nat (size S)
    ∧ ∀ i, i ∈ S → ∃ k sg, eb_sealerList (pe_base e') !! Z.to_nat i = Some k
                          ∧ Verify k sg (headerHash (b_header b)) = true.
Proof.
  intros Hc H0 Hd. destruct (checkBlock_true _ _ _ _ Hc H0) as (_ & _ & _ & Hq & Hv).
  pose proof (signers_NoDup b e' Hd Hv) as Hn. exists (list_to_set (signers b)).
  assert (Hin : ∀ i, i ∈ signers b → ∃ sg, checkBlockSign i (headerHash (b_header b)) sg e' = true).
  { intros i ([j sg] & -> & Hj)%list_elem_of_fmap. exists sg. by apply Hv. }
  split_and!.
  - intros i Hi%elem_of_list_to_set. destruct (Hin i Hi) as (sg & [Hr _]%checkBlockSign_index).
    apply elem_of_list_to_set, elem_of_seqZ. lia.
  - rewrite size_list_to_set by done. unfold signers. rewrite length_fmap. done.
  - intros i Hi%elem_of_list_to_set. destruct (Hin i Hi) as (sg & [_ (k & Hk & V)]%checkBlockSign_index).
    by exists k, sg.
Qed.


(** The signatures of a downloaded block need not come from different sealers:
    one sealer's signature, repeated as often as the quorum asks, passes. *)
Theorem checkBlock_one_signer env b e e' i sg :
  resetConfig (en_ledger env) e = Ok e' → bci_number (pe_chain e) < m_number (b_header b) →
  eb_sealerList (pe_base e') = m_sealerList (b_header b) →
  getSealerByIndex (wrapU 64 (m_sealer (b_header b))) (pe_base e') ≠ 0 →
  zlen (b_transactions b) <= eb_maxBlockTransactions (pe_base e') →
  checkBlockSign (wrapU 16 i) (headerHash (b_header b)) sg e' = true →
  checkBlock env (set_b_sigList (replicate (Z.to_nat (minValidNodes (pe_base e'))) (i, sg)) b) e = Ok (e', true).
Proof.
  intros Hr Hn Hs Hsealer Htx Hsig. unfold checkBlock. simpl. rewrite (proj2 (Z.leb_gt _ _) Hn), Hr. simpl.
  unfold checkSealerList. simpl. rewrite (bool_decide_true _ Hs), (proj2 (Z.eqb_neq _ _) Hsealer). simpl.
  assert (Hq : 0 <= minValidNodes (pe_base e')) by (unfold minValidNodes; apply wrapU_range; lia).
  unfold zlen at 1. rewrite length_replicate, Z2Nat.id, Z.ltb_irrefl by done.
  assert (Hall : checkSigList (set_b_sigList (replicate (Z.to_nat (minValidNodes (pe_base e'))) (i, sg)) b) e' = true).
  { unfold checkSigList. simpl. apply forallb_forall. intros x Hx%list_elem_of_In%elem_of_replicate_inv. by subst x. }
  rewrite Hall. simpl. rewrite (proj2 (Z.ltb_ge _ _) Htx). by destruct (m_number (b_header b) =? 0).
Qed.

(** ** Committing a block *)

Lemma commitPrepared_commits env e b :
  pBlock (m_prepareCache (pe_reqCache e)) = Some b →
  ∃ r, commits (pe_events (commitPrepared env e))
       = commits (pe_events e)
         ++ [((generateAndSetSigList b (minValidNodes (pe_base e)) (pe_reqCache e)).1, r)].
Proof.
  intros Hb. unfold commitPrepared. rewrite Hb. simpl.
  destruct (bci_commitBlock _ _ _) as [c ret]. exists ret.
  destruct ret; simpl; rewrite !commits_app; simpl; rewrite ?app_nil_r; done.
Qed.

Lemma getSigCacheSize_frame check h t c :
  m_prepareCache (getSigCacheSize check h t c).1 = m_prepareCache c
  ∧ m_commitCache (getSigCacheSize check h t c).1 = m_commitCache c.
Proof. unfold getSigCacheSize. break_if; [|done]. by destruct (checkAndRemoveInvalidFutureReq _ _ _ _ _). Qed.

Lemma getCommitCacheSize_count check h t c c' :
  m_commitCache c = m_commitCache c' → (getCommitCacheSize check h t c).2 = (getCommitCacheSize check h t c').2.
Proof.
  intros E. unfold getCommitCacheSize. rewrite E. break_if; [|done].
  by destruct (checkAndRemoveInvalidFutureReq _ _ _ _ _).
Qed.

(** C2. A block goes to the chain only with a quorum behind it.  When [checkAndSave]
    commits a block, at least [minValidNodes] sign requests and as many commit
    requests for its hash were counted, its prepare is of the current view and
    above the highest block, and the signature list on it has at least
    [minValidNodes] entries, pairwise distinct, each the index and signature of a
    cached commit request for that hash. *)
Theorem checkAndSave_quorum env e :
  let p := m_prepareCache (pe_reqCache e) in
  let q := minValidNodes (pe_base e) in
  let check := λ r, checkSign r e in
  cache_wf (pe_reqCache e) → 1 <= q →
  commits (pe_events (checkAndSave env e)) = commits (pe_events e)
  ∨ ∃ b l r, commits (pe_events (checkAndSave env e)) = commits (pe_events e) ++ [(set_b_sigList l b, r)]
    ∧ pBlock p = Some b ∧ view p = pe_view e ∧ highestNumber e < height p
    ∧ q <= (getSigCacheSize check (block_hash p) q (pe_reqCache e)).2
    ∧ q <= (getCommitCacheSize check (block_hash p) q (pe_reqCache e)).2
    ∧ q <= zlen l ∧ NoDup l.*2
    ∧ ∀ i sg, (i, sg) ∈ l → ∃ k m, cached (m_commitCache (pe_reqCache e)) (block_hash p) k m
                             ∧ idx m = i ∧ sig m = sg ∧ block_hash m = block_hash p.
Proof.
  intros p q check Hwf Hq. unfold checkAndSave. fold p q check.
  pose proof (wf_countSigns check (block_hash p) q _ Hwf) as Hwf1.
  destruct (getSigCacheSize_frame check (block_hash p) q (pe_reqCache e)) as [Hp1 Hc1].
  destruct (getSigCacheSize check (block_hash p) q (pe_reqCache e)) as [c1 n1]. simpl in Hwf1, Hp1, Hc1.
  cbn [pe_reqCache set_pe_reqCache]. rewrite Hp1. fold p.
  change (λ r, checkSign r (set_pe_reqCache c1 e)) with check.
  pose proof (wf_countCommits check (block_hash p) q _ Hwf1) as Hwf2.
  pose proof (getCommitCacheSize_keeps check (block_hash p) q c1 Hq) as Hk.
  rewrite (getCommitCacheSize_count check _ _ (pe_reqCache e) c1) by done.
  destruct (getCommitCacheSize check (block_hash p) q c1) as [c2 n2]. simpl in Hwf2. destruct Hk as (Hp2 & _ & Hk).
  cbn [pe_reqCache set_pe_reqCache snd pe_view]. rewrite Hp2, Hp1. fold p.
  destruct ((q <=? n1) && (q <=? n2)) eqn:E; [|by left]. apply andb_true_iff in E as [E1%Z.leb_le E2%Z.leb_le].
  destruct (Hk E2) as (m & Hm & Hqm & Hold). destruct (negb (view p =? pe_view e)) eqn:E3; [by left|].
  apply negb_false_iff, Z.eqb_eq in E3. simpl. change (highestNumber (set_pe_reqCache c2 (set_pe_reqCache c1 e))) with (highestNumber e).
  destruct (highestNumber e <? height p) eqn:E4; [apply Z.ltb_lt in E4|by left].
  set (e2 := set_pe_reqCache c2 (set_pe_reqCache c1 e)).
  assert (Hpe : m_prepareCache (pe_reqCache e2) = p) by exact (eq_trans Hp2 Hp1).
  destruct (pBlock p) as [b|] eqn:Hb.
  2: { left. unfold commitPrepared. by rewrite Hpe, Hb. }
  right. destruct (commitPrepared_commits env e2 b) as [r Hr]; [by rewrite Hpe|].
  pose proof (generateAndSetSigList_spec b q (pe_reqCache e2) (wf_commit _ Hwf2)) as Hg.
  change (minValidNodes (pe_base e2)) with q in Hr.
  destruct (generateAndSetSigList b q (pe_reqCache e2)) as [b' []].
  - destruct Hg as (m' & l & Hm' & -> & _ & Hl & Hd & Hin). exists b, l, r.
    split_and!; try done. intros i sg (k & x & Hx & <- & <-)%Hin. cbn [pe_reqCache e2 set_pe_reqCache] in Hm'.
    rewrite Hp2, Hp1 in Hm'. fold p in Hm'. rewrite Hm in Hm'. injection Hm' as <-.
    destruct (Hold k x Hx) as (y & Hy & Hxy). exists k, y. rewrite Hc1 in Hy.
    destruct (wf_commit _ Hwf2 _ _ _ _ Hm Hx) as [Hbh _].
    destruct Hxy as [-> | ->]; split_and!; done.
  - exfalso. destruct Hg as [_ Hg]. cbn [pe_reqCache e2 set_pe_reqCache] in Hg. rewrite Hp2, Hp1 in Hg. fold p in Hg.
    specialize (Hg m Hm). lia.
Qed.
(** C31. A sign request is as good as a commit request: the constructors sign the same
    fields, and the packet type is not among them.  So a packet with a sign request
    that the receiver would accept, sent on with the type of a commit request, enters
    the commit cache and counts for the commit quorum, although its author may never
    have seen a quorum of sign requests. *)
Theorem sign_replayed_as_commit k now (req : PrepareReq) i env p e r :
  packet_id p = SignReqPacket → decodeReq p = Some r → (isValidSignReq env r e).2 = VALID →
  isExistCommit r (pe_reqCache e) = false →
  newSignReq k now req i = newCommitReq k now req i
  ∧ handleCommitMsg env (set_packet_id CommitReqPacket p) e
    = (checkAndSave env (on_cache (addCommitReq r) (updateViewMap (idx r) (view r) e)), true, Some r).
Proof.
  intros _ Hd Hv Hx. split; [done|]. unfold handleCommitMsg, onPacket.
  change (decodeReq (set_packet_id CommitReqPacket p)) with (decodeReq p). rewrite Hd.
  unfold handleCommit, isValidCommitReq. rewrite Hx. unfold isValidSignReq in Hv.
  destruct (isExistSign r (pe_reqCache e)); [done|]. destruct (hasConsensused r e); [done|].
  destruct (checkReq env r e) as [r' []] eqn:Hc; [|done..]. cbn [snd] in Hv.
  assert (r' = r) as ->; [|done]. unfold checkReq in Hc. repeat break_if; by simplify_eq.
Qed.
End props.

(** ** Witnesses *)

(** The lone sealer of the sample run takes up, in view 1, the prepare it is locked on. *)
Lemma prepare_lock_witness :
  let locked := m_committedPrepareCache (pe_reqCache sampleRun2) in
  let req := @newPrepareForView toyCrypto (3 : Z) 1600000010010 locked 1 0 in
  height locked = 1 ∧ block_hash req = block_hash locked.
Proof.
  intros locked req. split; [vm_compute; reflexivity|].
  apply (@prepare_lock toyCrypto _ (sampleEnv [3] 10010 false) req sampleRun2).
  - assert (H : @isValidPrepare toyCrypto _ (sampleEnv [3] 10010 false) req sampleRun2 = VALID) by (vm_compute; reflexivity).
    by rewrite H.
  - vm_compute; reflexivity.
  - vm_compute; reflexivity.
Defined.

Lemma leader_rotates_witness :
  ∃ k, 0 <= k < 4 ∧ ∀ k', 0 <= k' < 4 → ((@getLeader toyCrypto _ (set_pe_view (0 + k') (sampleEngine sampleSealers 3))).2 = 2 ↔ k' = k).
Proof.
  apply (@leader_rotates toyCrypto _ (sampleEngine sampleSealers 3) 2).
  - vm_compute; reflexivity.
  - apply Z.ltb_lt. vm_compute; reflexivity.
  - apply Z.leb_le. vm_compute; reflexivity.
  - apply Z.leb_le. vm_compute; reflexivity.
  - apply Z.ltb_lt. vm_compute; reflexivity.
  - split; [lia|]. apply Z.ltb_lt. vm_compute; reflexivity.
Defined.


(** One signature of sealer 5, three times. *)
Lemma checkBlock_one_signer_witness :
  let e := sampleEngine sampleSealers 3 in
  let b := sampleProposal sampleSealers in
  let sg := @Sign toyCrypto (5 : Z) (@headerHash toyCrypto (b_header b)) in
  ∃ e', @checkBlock toyCrypto _ sampleChain (sampleEnv sampleSealers 0 true) (set_b_sigList [(1, sg); (1, sg); (1, sg)] b) e
        = Ok (e', true).
Proof.
  intros e b sg. set (env := sampleEnv sampleSealers 0 true).
  set (r := @resetConfig toyCrypto _ sampleChain (en_ledger env) e).
  assert (Hr : r = Ok (result_get e r)) by (apply result_get_Ok; vm_compute; reflexivity).
  assert (Hq : replicate (Z.to_nat (@minValidNodes toyCrypto (pe_base (result_get e r)))) (1, sg) = [(1, sg); (1, sg); (1, sg)])
    by (vm_compute; reflexivity).
  exists (result_get e r). rewrite <- Hq. apply (@checkBlock_one_signer toyCrypto _ sampleChain env b e (result_get e r) 1 sg Hr).
  - apply Z.ltb_lt. vm_compute; reflexivity.
  - vm_compute; reflexivity.
  - vm_compute; congruence.
  - apply Z.leb_le. vm_compute; reflexivity.
  - vm_compute; reflexivity.
Defined.

(** Three votes of four sealers: the proposal is committed with three signatures. *)
Lemma votes_wf l c : cache_wf c → cache_wf (foldl (λ c v, addCommitReq v (addSignReq v c)) c l).
Proof.
  revert c. induction l as [|v l IH]; intros c Hc; [done|]. cbn [foldl]. apply IH.
  apply (@cache_run_wf canonicalIter (λ _, false) (OpAddCommit v) (addSignReq v c)), (@cache_run_wf canonicalIter (λ _, false) (OpAddSign v) c), Hc.
Qed.

Lemma prepared_wf p : cache_wf (addPrepareReq p (addRawPrepare p emptyReqCache)).
Proof.
  apply (@cache_run_wf canonicalIter (λ _, false) (OpAddPrepare p) (addRawPrepare p emptyReqCache)),
    (@cache_run_wf canonicalIter (λ _, false) (OpAddRaw p) emptyReqCache), wf_empty.
Qed.

Lemma sampleVotes_wf : cache_wf sampleVotes.
Proof. unfold sampleVotes. cbv zeta. apply votes_wf, prepared_wf. Qed.

Lemma checkAndSave_quorum_witness :
  let e := sampleVoting in
  let env := sampleEnv sampleSealers 0 true in
  ∃ b l r, commits (pe_events (@checkAndSave toyCrypto canonicalIter _ sampleChain env e)) = [(set_b_sigList l b, r)]
    ∧ pBlock (m_prepareCache (pe_reqCache e)) = Some b ∧ 3 <= zlen l ∧ NoDup l.*2.
Proof.
  intros e env.
  assert (H0 : commits (pe_events e) = []) by (vm_compute; reflexivity).
  assert (H1 : length (commits (pe_events (@checkAndSave toyCrypto canonicalIter _ sampleChain env e))) = 1%nat)
    by (vm_compute; reflexivity).
  assert (Hq : @minValidNodes toyCrypto (pe_base e) = 3) by (vm_compute; reflexivity).
  assert (Hq1 : 1 <= @minValidNodes toyCrypto (pe_base e)) by (rewrite Hq; lia).
  destruct (@checkAndSave_quorum toyCrypto canonicalIter _ sampleChain env e sampleVotes_wf Hq1)
    as [H|(b & l & r & H & Hb & _ & _ & _ & _ & Hl & Hd & _)].
  - pose proof (eq_trans (eq_sym H1) (f_equal length (eq_trans H H0))). done.
  - exists b, l, r. split; [exact (eq_trans H (f_equal (λ x, x ++ [(set_b_sigList l b, r)]) H0))|].
    split; [exact Hb|]. split; [rewrite <- Hq; exact Hl|exact Hd].
Defined.

(** Node 3's sign request, passed on as its commit request. *)
Definition sampleSigned : PBFTMsg := sampleVote 3 9 (block_hash (m_prepareCache sampleVotes)).
Definition sampleSignPacket : PBFTMsgPacket :=
  set_packet_id SignReqPacket (set_pkt_data (result_get [] (msg_encode sampleSigned)) (defaultPacket false 0)).

Lemma sign_replayed_as_commit_witness :
  (@isValidSignReq toyCrypto _ (sampleEnv sampleSealers 0 true) sampleSigned sampleVoting).2 = VALID
  ∧ (@handleCommitMsg toyCrypto canonicalIter _ sampleChain (sampleEnv sampleSealers 0 true)
       (set_packet_id CommitReqPacket sampleSignPacket) sampleVoting).2 = Some sampleSigned.
Proof.
  assert (H1 : (@isValidSignReq toyCrypto _ (sampleEnv sampleSealers 0 true) sampleSigned sampleVoting).2
               = VALID) by (vm_compute; reflexivity).
  assert (H2 : decodeReq sampleSignPacket = Some sampleSigned) by (vm_compute; reflexivity).
  assert (H3 : isExistCommit sampleSigned (pe_reqCache sampleVoting) = false) by (vm_compute; reflexivity).
  split; [exact H1|].
  exact (f_equal snd (proj2 (@sign_replayed_as_commit toyCrypto canonicalIter _ sampleChain 3 0 defaultPrepare 0
    (sampleEnv sampleSealers 0 true) sampleSignPacket sampleVoting sampleSigned eq_refl H2 H1 H3))).
Defined.
