(* ===== verification/EngineRun.v ===== *)
(** * Runs of the engine

    Invariants of every sequence of entry-point calls: the caches stay well formed,
    the view never overtakes the view headed for, and the node commits itself to at
    most one proposal per height. *)
From S2P Require Import Prelude CommonData RLP Crypto BlockHeader TxsParser Block PBFTMsg MsgCache.
From S2P Require Import TimeManager ReqCache BlockChain EngineBase Engine EngineSample EngineProps.
Local Open Scope Z_scope.

(** The prepares a log records as backed up: the node has sent a commit request for
    each. *)
Definition backups (l : list event) : list PrepareReq :=
  omap (λ ev, match ev with EvBackup r => Some r | _ => None end) l.

Lemma backups_app l l' : backups (l ++ l') = backups l ++ backups l'.
Proof. apply omap_app. Qed.

Section run.
Context `{HC : Crypto} `{HU : UnorderedIter} {C : Type} `{HB : BlockChainInterface C}.
Context (decodeTx : bytes → option Transaction)
        (executeBlock : Block → BlockHeader → option (Block * option Z)).
Local Abbreviation PBFTEngine := (PBFTEngineOf KeyPair C).
Implicit Types e : PBFTEngine.

(** A request marked as empty carries an empty block. *)
Definition flag_honest (req : PrepareReq) : Prop :=
  isEmptyReq req = true →
  match prepareBlock decodeTx req with Ok b => getTransactionSize b = 0 | Throw _ => True end.
Definition packet_honest (p : PBFTMsgPacket) : Prop :=
  match decodePrepare p with Some req => flag_honest req | None => True end.

(** Two requests that are not for different proposals of one height. *)
Definition agree (r r' : PrepareReq) : Prop := height r = height r' → block_hash r = block_hash r'.

(** The backed-up prepares agree with each other and with the committed one, which
    is the highest. *)
Definition backups_agree (l : list PrepareReq) (com : PrepareReq) : Prop :=
  (∀ r : PrepareReq, r ∈ l → height r <= height com ∧ agree r com)
  ∧ ∀ r r' : PrepareReq, r ∈ l → r' ∈ l → agree r r'.

Lemma backups_agree_le l (com com' : PrepareReq) :
  backups_agree l com → height com <= height com' → agree com com' → backups_agree l com'.
Proof.
  intros [Hl Hp] Hh Ha. split; [|done]. intros r Hr. destruct (Hl r Hr) as [H1 H2]. split; [lia|].
  unfold agree in *. intros E. rewrite H2 by lia. apply Ha. lia.
Qed.

(** A later committed prepare that agrees with the earlier one may be added. *)
Lemma backups_agree_snoc l (com com' : PrepareReq) :
  backups_agree l com → height com <= height com' → agree com com' → backups_agree (l ++ [com']) com'.
Proof.
  intros H Hh Ha. destruct (backups_agree_le _ _ _ H Hh Ha) as [Hl' Hp]. split.
  - intros r [Hr| ->%list_elem_of_singleton]%elem_of_app; [by apply Hl'|by split].
  - intros r r' [Hr| ->%list_elem_of_singleton]%elem_of_app [Hr'| ->%list_elem_of_singleton]%elem_of_app;
      [by apply Hp|by apply Hl'| |done]. intros E. symmetry. by apply Hl'.
Qed.

(** The prepare the node is locked on when it starts, read back from its backup. *)
Context (start : PrepareReq).

(** The invariant. *)
Record engine_ok e : Prop := {
  ok_cache : cache_wf (pe_reqCache e);
  ok_view : 0 <= pe_view e <= pe_toView e;
  ok_omit : eb_omitEmptyBlock (pe_base e) = true;
  ok_queue : Forall packet_honest (pe_msgQueue e);
  ok_future : ∀ k r, m_futurePrepareCache (pe_reqCache e) !! k = Some r → flag_honest r;
  ok_committed : height (m_committedPrepareCache (pe_reqCache e)) <= consensusNumber e;
  ok_prepare : let c := pe_reqCache e in
    view (m_prepareCache c) = MAXVIEW
    ∨ height (m_committedPrepareCache c) <= height (m_rawPrepareCache c) <= consensusNumber e
      ∧ view (m_rawPrepareCache c) = view (m_prepareCache c)
      ∧ (height (m_committedPrepareCache c) = height (m_rawPrepareCache c) →
         block_hash (m_committedPrepareCache c) = block_hash (m_rawPrepareCache c));
  ok_backups : backups_agree (start :: backups (pe_events e)) (m_committedPrepareCache (pe_reqCache e)) }.

(** States that differ only in what the invariant does not read. *)
Record same_core e e' : Prop := {
  sc_base : pe_base e' = pe_base e;
  sc_view : pe_view e' = pe_view e;
  sc_toView : pe_toView e' = pe_toView e;
  sc_cache : pe_reqCache e' = pe_reqCache e;
  sc_queue : pe_msgQueue e' = pe_msgQueue e;
  sc_backups : backups (pe_events e') = backups (pe_events e) }.

Lemma same_core_refl e : same_core e e.
Proof. by split. Qed.

Lemma same_core_trans e1 e2 e3 : same_core e1 e2 → same_core e2 e3 → same_core e1 e3.
Proof. intros [] []. split; congruence. Qed.

Lemma same_core_ok e e' : same_core e e' → engine_ok e → engine_ok e'.
Proof.
  intros [E1 E2 E3 E4 E5 E6] [H1 H2 H3 H4 H5 H6 H7 H8]. unfold consensusNumber in *.
  split; unfold consensusNumber; rewrite ?E1, ?E2, ?E3, ?E4, ?E5, ?E6; done.
Qed.

(** ** Sending keeps the core *)

Lemma broadcastMsg_core env ty msg d p2p flt ttl e : same_core e (broadcastMsg env ty msg d p2p flt ttl e).
Proof.
  unfold broadcastMsg. destruct (foldl _ _ _) as [cache targets].
  destruct (packet_encode _) as [[p d']|]; [|by split].
  split; try done. simpl. by rewrite backups_app, app_nil_r.
Qed.

Lemma broadcastEncoded_core env ty msg d e : same_core e (broadcastEncoded env ty msg d e).
Proof. destruct d; [apply broadcastMsg_core|apply same_core_refl]. Qed.

Lemma sendMsg_core env n ty key d ttl fw e : same_core e (sendMsg env n ty key d ttl fw e).1.
Proof.
  unfold sendMsg. repeat break_if; try apply same_core_refl.
  destruct (packet_encode _) as [[p d']|]; simpl; split; try done. simpl. by rewrite backups_app, app_nil_r.
Qed.

Lemma foldl_core {A} (f : PBFTEngine → A → PBFTEngine) l e :
  (∀ e x, same_core e (f e x)) → same_core e (foldl f e l).
Proof.
  intros Hf. revert e. induction l as [|x l IH]; intros e; [apply same_core_refl|].
  eapply same_core_trans; [apply (Hf e x)|apply IH].
Qed.

Lemma forwardMsg_core env p msg e : same_core e (forwardMsg env p msg e).
Proof.
  unfold forwardMsg. break_if; [|apply broadcastMsg_core]. unfold forwardMsgByNodeInfo.
  destruct (forwardNodes p) as [[|n l]|]; [apply same_core_refl| |apply same_core_refl].
  apply foldl_core. intros. apply sendMsg_core.
Qed.

Lemma sendViewChangeMsg_core env n e : same_core e (sendViewChangeMsg env n e).
Proof. unfold sendViewChangeMsg. destruct (msg_encode _); [apply sendMsg_core|apply same_core_refl]. Qed.

(** ** What a change of the request cache must keep *)

(** Cache operations that leave the committed prepare, add no future prepare, and
    either clear the prepare or leave it and the raw prepare. *)
Record cache_quiet (c c' : PBFTReqCache) : Prop := {
  cq_wf : cache_wf c → cache_wf c';
  cq_committed : m_committedPrepareCache c' = m_committedPrepareCache c;
  cq_prepare : view (m_prepareCache c') = MAXVIEW
    ∨ req_msg (m_prepareCache c') = req_msg (m_prepareCache c)
      ∧ req_msg (m_rawPrepareCache c') = req_msg (m_rawPrepareCache c);
  cq_future : m_futurePrepareCache c' ⊆ m_futurePrepareCache c }.

(** A step that changes the cache quietly and nothing else the invariant reads. *)
Lemma quiet_ok e e' :
  engine_ok e → cache_quiet (pe_reqCache e) (pe_reqCache e') →
  0 <= pe_view e' <= pe_toView e' → eb_omitEmptyBlock (pe_base e') = true →
  consensusNumber e <= consensusNumber e' → pe_msgQueue e' = pe_msgQueue e →
  backups (pe_events e') = backups (pe_events e) → engine_ok e'.
Proof.
  intros [H1 H2 H3 H4 H5 H6 H7 H8] [Q1 Q3 Q4 Q5] Hv Ho Hc Hq Hb.
  split; try done.
  - by apply Q1.
  - by rewrite Hq.
  - intros k r Hk. eapply H5. by eapply lookup_weaken.
  - rewrite Q3. lia.
  - cbn zeta in *. destruct Q4 as [Q4|[Q4 Q2]]; [by left|]. rewrite Q3, Q2, Q4.
    destruct H7 as [H7|(H7 & H7' & H7'')]; [by left|right]. split_and!; [lia|lia|done|done].
  - by rewrite Hb, Q3.
Qed.

Lemma quiet_refl c : cache_quiet c c.
Proof. split; try done. by right. Qed.

Lemma quiet_trans c1 c2 c3 : cache_quiet c1 c2 → cache_quiet c2 c3 → cache_quiet c1 c3.
Proof.
  intros [A1 A3 A4 A5] [B1 B3 B4 B5]. split; [auto|congruence| |by etrans].
  destruct B4 as [B4|[B4 B2]]; [by left|]. rewrite B4, B2. done.
Qed.

Lemma quiet_countSigns check h t c : cache_quiet c (getSigCacheSize check h t c).1.
Proof.
  split; [apply wf_countSigns| | |]; unfold getSigCacheSize; (break_if; [|by try right]);
    destruct (checkAndRemoveInvalidFutureReq _ _ _ _ _); by try right.
Qed.

Lemma quiet_countCommits check h t c : cache_quiet c (getCommitCacheSize check h t c).1.
Proof.
  split; [apply wf_countCommits| | |]; unfold getCommitCacheSize; (break_if; [|by try right]);
    destruct (checkAndRemoveInvalidFutureReq _ _ _ _ _); by try right.
Qed.

Lemma quiet_addSign r c : cache_quiet c (addSignReq r c).
Proof. split; try done; [apply (cache_run_wf (λ _, false) (OpAddSign r))|by right]. Qed.

Lemma quiet_addCommit r c : cache_quiet c (addCommitReq r c).
Proof. split; try done; [apply (cache_run_wf (λ _, false) (OpAddCommit r))|by right]. Qed.

Lemma keep_if_subseteq {K V} `{Countable K} (f : K → V → bool) (m : gmap K V) : keep_if f m ⊆ m.
Proof. apply map_filter_subseteq. Qed.

Lemma quiet_delCache n h c : cache_quiet c (delCache n h c).
Proof.
  split; [apply (cache_run_wf (λ _, false) (OpDelCache n h))| | |];
    unfold delCache, removeInvalidFutureCache; simpl.
  - by break_if.
  - break_if; simpl; [by left|by right].
  - break_if; simpl; apply keep_if_subseteq.
Qed.

Lemma quiet_collectGarbage n h c : cache_quiet c (reqCache_collectGarbage n h c).
Proof.
  split; try done; [apply (cache_run_wf (λ _, false) (OpCollectGarbage n h))|by right|apply keep_if_subseteq].
Qed.

Lemma quiet_addViewChange r n c : cache_quiet c (addViewChangeReq r n c).
Proof.
  assert (He : ∀ q c, m_rawPrepareCache (eraseExpiredViewChange q c) = m_rawPrepareCache c
    ∧ m_committedPrepareCache (eraseExpiredViewChange q c) = m_committedPrepareCache c
    ∧ m_prepareCache (eraseExpiredViewChange q c) = m_prepareCache c
    ∧ m_futurePrepareCache (eraseExpiredViewChange q c) = m_futurePrepareCache c).
  { intros q c'. unfold eraseExpiredViewChange. repeat break_match; by repeat break_if. }
  split; [apply (cache_run_wf (λ _, false) (OpAddViewChange r n))| | |];
    unfold addViewChangeReq; destruct (checkViewChangeReq_cases r n c) as [[-> _]|(_ & [-> | (l & _ & _ & ->)] & _)];
    simpl; repeat match goal with |- context [eraseExpiredViewChange ?q ?x] =>
      destruct (He q x) as (-> & -> & -> & ->) || rewrite ?(proj1 (He q x)), ?(proj1 (proj2 (He q x))),
        ?(proj1 (proj2 (proj2 (He q x)))), ?(proj2 (proj2 (proj2 (He q x)))) end; try done; by right.
Qed.

Lemma quiet_eraseLatest r c : cache_quiet c (eraseLatestViewChangeCacheForNodeUpdated r c).
Proof. split; try done; [apply (cache_run_wf (λ _, false) (OpEraseLatest r))|by right]. Qed.

Lemma quiet_removeViewChange v n h c : cache_quiet c (removeInvalidViewChange v n h c).
Proof.
  split; [apply (cache_run_wf (λ _, false) (OpRemoveViewChange v n h))| | |];
    unfold removeInvalidViewChange; break_match; try done; by right.
Qed.

Lemma quiet_trigger v n c : cache_quiet c (triggerViewChange v n c).
Proof.
  split; [apply (cache_run_wf (λ _, false) (OpTrigger v n))|done|by left|].
  simpl. etrans; apply keep_if_subseteq.
Qed.

Lemma quiet_eraseFuture n c : cache_quiet c (eraseHandledFutureReq n c).
Proof.
  split; try done; [apply (cache_run_wf (λ _, false) (OpEraseFuture n))|by right|apply delete_subseteq].
Qed.

Lemma quiet_delInvalidViewChange n h c :
  cache_quiet c (set_recvViewChangeReq (removeInvalidEntryFromCache vc_msg n h (m_recvViewChangeReq c)) c).
Proof.
  split; try done; [|by right]. intros [H1 H2 H3 H4 H5 H6]. split; try done. simpl.
  by apply all_keep, all_fmap_keep.
Qed.

(** ** The handlers keep the invariant *)

(** A quiet change of the cache alone. *)
Lemma on_cache_ok f e : engine_ok e → cache_quiet (pe_reqCache e) (f (pe_reqCache e)) → engine_ok (on_cache f e).
Proof. intros Hok Hq. pose proof Hok as [_ Hv Ho _ _ _ _ _]. eapply quiet_ok; try done. Qed.

Lemma on_timer_ok f e : engine_ok e → engine_ok (on_timer f e).
Proof. intros Hok. eapply same_core_ok; [|exact Hok]. by split. Qed.

Lemma emit_ok ev e : engine_ok e → backups [ev] = [] → engine_ok (emit ev e).
Proof.
  intros Hok Hev. eapply same_core_ok; [|exact Hok]. split; try done. simpl.
  by rewrite backups_app, Hev, app_nil_r.
Qed.

Lemma commitPrepared_ok env e : engine_ok e → engine_ok (commitPrepared env e).
Proof.
  intros Hok. unfold commitPrepared. destruct (pBlock _) as [b|]; [|done].
  set (b' := (generateAndSetSigList b _ _).1). set (p' := set_pBlock (Some b') _).
  assert (H1 : engine_ok (on_cache (set_prepareCache p') e)).
  { apply on_cache_ok; [done|]. split; try done; [|by right]. intros []. by split. }
  destruct (bci_commitBlock _ _ _) as [c ret].
  assert (H2 : engine_ok (emit (EvCommit b' ret) (set_pe_chain c (on_cache (set_prepareCache p') e)))).
  { apply emit_ok; [|done]. eapply same_core_ok; [|exact H1]. by split. }
  destruct ret; [apply on_cache_ok; [|apply quiet_delCache]|..];
    (apply emit_ok; [|done]); (apply emit_ok; [|done]); exact H2.
Qed.

Lemma set_cache_ok c e : engine_ok e → cache_quiet (pe_reqCache e) c → engine_ok (set_pe_reqCache c e).
Proof. apply (on_cache_ok (λ _, c)). Qed.

Lemma checkAndSave_ok env e : engine_ok e → engine_ok (checkAndSave env e).
Proof.
  intros Hok. unfold checkAndSave.
  match goal with |- context [getSigCacheSize ?a ?b ?c ?d] =>
    pose proof (quiet_countSigns a b c d) as Hq1; destruct (getSigCacheSize a b c d) as [c1 n1] end.
  pose proof (set_cache_ok c1 e Hok Hq1) as Hok1.
  match goal with |- context [getCommitCacheSize ?a ?b ?c ?d] =>
    pose proof (quiet_countCommits a b c d) as Hq2; destruct (getCommitCacheSize a b c d) as [c2 n2] end.
  pose proof (set_cache_ok c2 _ Hok1 Hq2) as Hok2.
  repeat break_if; try done. by apply commitPrepared_ok.
Qed.

(** Locking: the raw prepare becomes the committed one and is backed up. *)
Lemma lock_ok e :
  engine_ok e → pe_view e < MAXVIEW → view (m_prepareCache (pe_reqCache e)) = pe_view e →
  engine_ok (backupCommitted (on_cache updateCommittedPrepare e)).
Proof.
  intros Hok Hv Hp. pose proof Hok as [H1 H2 H3 H4 H5 H6 H7 H8]. cbn zeta in H7.
  destruct H7 as [H7|(H7 & H7' & H7'')]; [rewrite Hp in H7; lia|].
  assert (Hok' : engine_ok (on_cache updateCommittedPrepare e)).
  { split; try done; simpl.
    - by apply (cache_run_wf (λ _, false) OpUpdateCommitted).
    - change (height (m_rawPrepareCache (pe_reqCache e)) <= consensusNumber e). lia.
    - right. change (consensusNumber (on_cache updateCommittedPrepare e)) with (consensusNumber e).
      split_and!; [lia|lia|done|done].
    - apply (backups_agree_le _ (m_committedPrepareCache (pe_reqCache e))); [done|simpl; lia|done]. }
  unfold backupCommitted. destruct (prepare_encode _); [|done].
  destruct Hok' as [G1 G2 G3 G4 G5 G6 G7 G8]. split; try done. simpl. rewrite backups_app.
  by apply (backups_agree_snoc (start :: _) (m_committedPrepareCache (pe_reqCache e))); [|lia|].
Qed.

Lemma broadcastSignReq_ok env r e : engine_ok e → engine_ok (broadcastSignReq env r e).
Proof.
  intros Hok. apply on_cache_ok; [|apply quiet_addSign]. eapply same_core_ok; [apply broadcastEncoded_core|done].
Qed.

Lemma broadcastSignReq_view env r e : pe_view (broadcastSignReq env r e) = pe_view e.
Proof. simpl. apply broadcastEncoded_core. Qed.

Lemma broadcastCommitReq_ok env r e : engine_ok e → engine_ok (broadcastCommitReq env r e).
Proof.
  intros Hok. apply on_cache_ok; [|apply quiet_addCommit]. eapply same_core_ok; [apply broadcastEncoded_core|done].
Qed.

Lemma checkAndCommit_ok env e : engine_ok e → pe_view e < MAXVIEW → engine_ok (checkAndCommit env e).
Proof.
  intros Hok Hv. unfold checkAndCommit.
  match goal with |- context [getSigCacheSize ?a ?b ?c ?d] =>
    pose proof (quiet_countSigns a b c d) as Hq1; destruct (getSigCacheSize a b c d) as [c1 n1] end.
  pose proof (set_cache_ok c1 e Hok Hq1) as Hok1. break_if; [|done].
  destruct (negb (view (m_prepareCache (pe_reqCache (set_pe_reqCache c1 e))) =? pe_view (set_pe_reqCache c1 e))) eqn:E;
    [done|]. apply negb_false_iff, Z.eqb_eq in E.
  apply checkAndSave_ok, on_timer_ok, broadcastCommitReq_ok. by apply lock_ok.
Qed.

Lemma notifySealing_core b e : same_core e (notifySealing b e).
Proof. unfold notifySealing. break_if; [|apply same_core_refl]. split; try done. simpl. by rewrite backups_app, app_nil_r. Qed.

Lemma execBlock_core env req e : same_core e (execBlock decodeTx executeBlock env req e).1.
Proof.
  unfold execBlock. destruct (prepareBlock decodeTx req) as [b|]; [|apply same_core_refl].
  break_if; [by split|]. destruct (checkBlockValid _ _ _ _) as [c [?|?]]; [|by split].
  break_if; [by split|]. set (e1 := set_pe_chain c _).
  assert (H1 : same_core e e1) by (by split).
  assert (H2 : same_core e1 (if idx req =? nodeIdx e1 then e1 else notifySealing b e1))
    by (break_if; [apply same_core_refl|apply notifySealing_core]).
  destruct (bci_getBlockByNumber _ _) as [c' par].
  assert (H3 : same_core e (set_pe_chain c' (emit (EvNoteSealing (m_number (b_header b)))
     (if idx req =? nodeIdx e1 then e1 else notifySealing b e1)))).
  { pose proof (same_core_trans _ _ _ H1 H2) as []. split; try done. simpl. by rewrite backups_app, app_nil_r. }
  destruct par; [|done]. by destruct (executeBlock _ _).
Qed.

(** The block of an execution that is not omitted was not empty. *)
Lemma execBlock_flag env req e e1 b ctx :
  execBlock decodeTx executeBlock env req e = (e1, Ok (b, ctx)) → flag_honest req →
  eb_omitEmptyBlock (pe_base e) = true → (getTransactionSize b =? 0) = false → isEmptyReq req = false.
Proof.
  unfold execBlock, flag_honest. intros He Hf Ho Hb. destruct (isEmptyReq req) eqn:E; [|done].
  specialize (Hf eq_refl). destruct (prepareBlock decodeTx req) as [b0|]; [|done].
  cbn [pe_base set_pe_sealingNumber] in He. rewrite Hf, Ho in He. simpl in He.
  injection He as _ <- _. by rewrite Hf in Hb.
Qed.

(** Installing the executed prepare of the raw prepare. *)
Lemma addPrepare_ok p e :
  engine_ok e → height (m_rawPrepareCache (pe_reqCache e)) = consensusNumber e →
  view (m_rawPrepareCache (pe_reqCache e)) = view (req_msg p) →
  (height (m_committedPrepareCache (pe_reqCache e)) = consensusNumber e →
   block_hash (m_committedPrepareCache (pe_reqCache e)) = block_hash (m_rawPrepareCache (pe_reqCache e))) →
  engine_ok (on_cache (addPrepareReq p) e).
Proof.
  intros [H1 H2 H3 H4 H5 H6 H7 H8] Hh Hv Hl. split; try done; simpl.
  - by apply (cache_run_wf (λ _, false) (OpAddPrepare p)).
  - right. change (consensusNumber (on_cache (addPrepareReq p) e)) with (consensusNumber e).
    split_and!; [lia|lia|done|]. intros E. apply Hl. lia.
Qed.

Lemma exec_ok env req e :
  engine_ok e → pe_view e < MAXVIEW → flag_honest req →
  req_msg (m_rawPrepareCache (pe_reqCache e)) = req_msg req →
  height req = consensusNumber e → view req = pe_view e →
  (isEmptyReq req = false → height req = height (m_committedPrepareCache (pe_reqCache e)) →
   block_hash req = block_hash (m_committedPrepareCache (pe_reqCache e))) →
  engine_ok (execPrepareAndGenerateSignMsg decodeTx executeBlock env req e).1.
Proof.
  intros Hok Hv Hf Hraw Hh Hvw Hlock. unfold execPrepareAndGenerateSignMsg.
  set (e0 := on_timer _ e). pose proof (on_timer_ok (set_tm_lastAddRawPrepareTime (en_steadyTime env)) e Hok) as Hok0.
  fold e0 in Hok0. pose proof (execBlock_core env req e0) as Hc.
  destruct (execBlock decodeTx executeBlock env req e0) as [e1 [[b ctx]|x]] eqn:He; simpl in Hc.
  2: { by eapply same_core_ok. }
  pose proof (same_core_ok _ _ Hc Hok0) as Hok1.
  set (e2 := match pBlock req with Some _ => _ | None => e1 end).
  assert (H2 : engine_ok e2 ∧ pe_base e2 = pe_base e ∧ pe_view e2 = pe_view e
    ∧ req_msg (m_rawPrepareCache (pe_reqCache e2)) = req_msg req
    ∧ m_committedPrepareCache (pe_reqCache e2) = m_committedPrepareCache (pe_reqCache e)).
  { destruct Hc as [E1 E2 E3 E4 E5 E6]. subst e2. destruct (pBlock req).
    - split; [apply on_cache_ok; [done|]|simpl; rewrite E1, E2, E4; done].
      split; try done; [intros []; by split|by right].
    - split; [done|]. rewrite E1, E2, E4. done. }
  clearbody e2. destruct H2 as (Hok2 & Hb2 & Hv2 & Hr2 & Hc2).
  pose proof (on_timer_ok (set_tm_lastExecTime (en_steadyTime env)) e2 Hok2) as Hok3.
  set (e3 := on_timer _ e2) in *.
  destruct (match ctx with Some _ => false | None => 0 <? getTransactionSize b end); [done|].
  destruct ((getTransactionSize b =? 0) && eb_omitEmptyBlock (pe_base e3)) eqn:Hom.
  { apply on_timer_ok. eapply same_core_ok; [|apply (on_timer_ok tm_changeView e3 Hok3)]. by split. }
  assert (Hnf : isEmptyReq req = false).
  { eapply execBlock_flag; [exact He|done|apply Hok0|].
    change (eb_omitEmptyBlock (pe_base e3)) with (eb_omitEmptyBlock (pe_base e2)) in Hom.
    rewrite (ok_omit _ Hok2), andb_true_r in Hom. done. }
  apply checkAndCommit_ok.
  - apply broadcastSignReq_ok, addPrepare_ok; [done| | |]; simpl; rewrite ?Hr2, ?Hc2.
    + unfold consensusNumber in *. simpl. by rewrite Hb2.
    + done.
    + intros E. symmetry. apply Hlock; [done|]. unfold consensusNumber in *. simpl in E. rewrite Hb2 in E. lia.
  - rewrite broadcastSignReq_view. simpl. by rewrite Hv2.
Qed.

Lemma future_ok req e :
  engine_ok e → flag_honest req → engine_ok (on_cache (addFuturePrepareCache req) e).
Proof.
  intros [H1 H2 H3 H4 H5 H6 H7 H8] Hf. unfold on_cache.
  pose proof (wf_addFuture req _ H1) as Hwf. unfold addFuturePrepareCache in *.
  repeat (break_if || break_match); try (by split).
  split; try done. simpl. intros k r [[<- <-]|[_ Hk]]%lookup_insert_Some; [done|by apply (H5 k)].
Qed.

Lemma updateViewMap_ok i v e : engine_ok e → engine_ok (updateViewMap i v e).
Proof. intros Hok. eapply same_core_ok; [|exact Hok]. by split. Qed.

Lemma addRaw_ok req e : engine_ok e → engine_ok (on_cache (addRawPrepare req) e).
Proof.
  intros [H1 H2 H3 H4 H5 H6 H7 H8]. split; try done; simpl; [|by left].
  by apply (cache_run_wf (λ _, false) (OpAddRaw req)).
Qed.

Lemma handlePrepare_ok env req e :
  engine_ok e → pe_view e < MAXVIEW → flag_honest req →
  engine_ok (handlePrepare decodeTx executeBlock env req e).1.
Proof.
  intros Hok Hv Hf. unfold handlePrepare. destruct (isValidPrepare env req e) eqn:Hval; [|done|].
  - destruct (valid_prepare_current env req e Hval) as (Hh & Hvw & _).
    apply exec_ok; try done.
    + by apply addRaw_ok, updateViewMap_ok.
    + intros Hem Hcm. simpl in *. destruct (valid_prepare_tests env req e Hval) as (_ & _ & Hl & _).
      rewrite Hem in Hl. simpl in Hl. unfold isHashSavedAfterCommit in Hl. rewrite Hcm, Z.eqb_refl in Hl.
      simpl in Hl. by apply negb_true_iff, negb_false_iff, Z.eqb_eq in Hl.
  - simpl. by apply future_ok, Hf; apply updateViewMap_ok.
Qed.

Lemma handleSign_ok env req e : engine_ok e → pe_view e < MAXVIEW → engine_ok (handleSign env req e).1.
Proof.
  intros Hok Hv. unfold handleSign, isValidSignReq. repeat (break_if; [done|]).
  destruct (checkReq env req e) as [req' []]; simpl; [|done|].
  - apply checkAndCommit_ok; [|done]. apply on_cache_ok; [by apply updateViewMap_ok|apply quiet_addSign].
  - apply updateViewMap_ok, on_cache_ok; [done|apply quiet_addSign].
Qed.

Lemma handleCommit_ok env req e : engine_ok e → engine_ok (handleCommit env req e).1.
Proof.
  intros Hok. unfold handleCommit, isValidCommitReq. repeat (break_if; [done|]).
  destruct (checkReq env req e) as [req' []]; simpl; [|done|].
  - apply checkAndSave_ok, on_cache_ok; [by apply updateViewMap_ok|apply quiet_addCommit].
  - apply updateViewMap_ok, on_cache_ok; [done|apply quiet_addCommit].
Qed.

Lemma checkAndChangeView_ok env e : engine_ok e → engine_ok (checkAndChangeView env e).
Proof.
  intros Hok. unfold checkAndChangeView. break_if; [|done]. apply emit_ok; [|done].
  apply on_cache_ok; [|apply quiet_trigger]. pose proof Hok as [H1 H2 H3 H4 H5 H6 H7 H8].
  eapply (quiet_ok e); try (by break_if); [done|break_if; apply quiet_refl|break_if; simpl; lia].
Qed.

Lemma catchupView_ok env req e : engine_ok e → engine_ok (catchupView env req e).
Proof.
  intros Hok. unfold catchupView. break_if; [|done]. break_match; [|done].
  apply on_cache_ok; [|apply quiet_eraseLatest]. eapply same_core_ok; [apply sendViewChangeMsg_core|done].
Qed.

Lemma catchupView_toView env req e : pe_toView (catchupView env req e) = pe_toView e.
Proof.
  unfold catchupView. break_if; [|done]. break_match; [|done]. simpl. apply sendViewChangeMsg_core.
Qed.

Lemma isValidViewChangeReq_ok env req src e :
  engine_ok e → engine_ok (isValidViewChangeReq env req src e).1
  ∧ pe_toView (isValidViewChangeReq env req src e).1 = pe_toView e.
Proof.
  intros Hok. unfold isValidViewChangeReq. do 3 (break_if; [done|]).
  set (e1 := if _ && _ then catchupView env req e else e).
  assert (H1 : engine_ok e1 ∧ pe_toView e1 = pe_toView e)
    by (subst e1; break_if; [split; [by apply catchupView_ok|apply catchupView_toView]|done]).
  clearbody e1. do 2 (break_if; [done|]). destruct (bci_getBlockByNumber _ _) as [c b].
  assert (H2 : engine_ok (set_pe_chain c e1)) by (eapply same_core_ok; [|apply H1]; by split).
  destruct b; (split; [done|apply H1]).
Qed.

Lemma handleViewChange_ok env src req e :
  engine_ok e → pe_toView e < MAXVIEW → engine_ok (handleViewChange env src req e).1.
Proof.
  intros Hok Ht. unfold handleViewChange. destruct (isValidViewChangeReq_ok env req src e Hok) as [H1 H2].
  destruct (isValidViewChangeReq env req src e) as [e1 valid]. simpl in H1, H2. break_if; [done|].
  set (e2 := on_cache _ _). assert (Hok2 : engine_ok e2).
  { apply on_cache_ok; [|apply quiet_addViewChange]. eapply same_core_ok; [|exact H1]. by split. }
  assert (Ht2 : pe_toView e2 = pe_toView e) by done. clearbody e2.
  break_if; [by apply checkAndChangeView_ok|].
  match goal with |- context [canTriggerViewChange ?a ?b ?c ?d ?x] =>
    pose proof (canTrigger_minView a b c d x) as Hm; destruct (canTriggerViewChange a b c d x) as [yes mv] end.
  specialize (Hm ltac:(lia)). simpl in Hm. destruct yes; [|done]. simpl.
  pose proof Hok2 as [G1 G2 G3 G4 G5 G6 G7 G8].
  eapply (quiet_ok e2); try done; [apply quiet_refl|simpl; lia].
Qed.

Lemma checkTimeout_ok env e : engine_ok e → pe_toView e < MAXVIEW → engine_ok (checkTimeout env e).
Proof.
  intros Hok Ht. unfold checkTimeout. break_if; [|done]. apply emit_ok; [|done].
  set (e1 := if negb (tm_lastConsensusTime (pe_timeManager e) =? 0) then _ else e).
  assert (H1 : same_core e e1).
  { subst e1. repeat break_if; try apply same_core_refl; split; try done. simpl. by rewrite backups_app, app_nil_r. }
  pose proof (same_core_ok _ _ H1 Hok) as Hok1.
  assert (Ht1 : 0 <= pe_view e1 <= pe_toView e1 ∧ pe_toView e1 < MAXVIEW)
    by (split; [apply Hok1|by rewrite (sc_toView _ _ H1)]). clearbody e1.
  apply checkAndChangeView_ok. eapply same_core_ok; [apply broadcastEncoded_core|].
  apply on_cache_ok; [|apply quiet_removeViewChange]. apply on_timer_ok, emit_ok; [|done].
  eapply (quiet_ok e1); try done; [apply quiet_refl| |apply Hok1].
  cbn [pe_view pe_toView emit set_pe_events set_pe_leaderFailed set_pe_toView on_timer set_pe_timeManager].
  rewrite wrapS_id; [lia|lia|]. change (2 ^ (64 - 1)) with (MAXVIEW + 1). unfold MAXVIEW in *. lia.
Qed.

(** Reading the configuration keeps the number to agree on, the policy on empty
    blocks, and the backups. *)
Lemma base_resetConfig_frame n lg b b' nl :
  base_resetConfig n lg b = Ok (b', nl) →
  eb_omitEmptyBlock b' = eb_omitEmptyBlock b ∧ eb_consensusBlockNumber b' = eb_consensusBlockNumber b.
Proof.
  unfold base_resetConfig, updateMaxBlockTransactions. destruct (lg_txCountLimit lg) as [k|]; [|done]. simpl.
  set (b0 := set_eb_accountType _ _).
  assert (H0 : eb_omitEmptyBlock (updateConsensusNodeList n lg b0).1 = eb_omitEmptyBlock b
    ∧ eb_consensusBlockNumber (updateConsensusNodeList n lg b0).1 = eb_consensusBlockNumber b)
    by (unfold updateConsensusNodeList; repeat break_if; by destruct b).
  destruct (updateConsensusNodeList n lg b0) as [b1 nl1]. simpl in H0. break_if; [done|].
  intros [= <- _]. destruct (list_find _ _) as [[i ?]|], (_ =? zlen _); exact H0.
Qed.

Lemma resetConfig_backups lg e e' : resetConfig lg e = Ok e' → backups (pe_events e') = backups (pe_events e).
Proof.
  unfold resetConfig. destruct (base_resetConfig _ _ _) as [[b nl]|]; [|done]. simpl.
  set (e1 := match nl with Some l => _ | None => _ end).
  assert (He1 : backups (pe_events e1) = backups (pe_events e))
    by (subst e1; destruct nl; [simpl; by rewrite backups_app, app_nil_r|done]).
  clearbody e1. rewrite <- He1. unfold resetConsensusTimeout. break_if; simpl; [intros [= <-]; by break_if|].
  destruct (lg_consensusTimeout lg); [|done]. simpl. intros [= <-]. by repeat break_if.
Qed.

Lemma resetConfig_ok lg e e' : engine_ok e → resetConfig lg e = Ok e' → engine_ok e'.
Proof.
  intros Hok Hr. pose proof (resetConfig_backups _ _ _ Hr) as Hb.
  destruct (resetConfig_inv _ _ _ Hr) as ([nl Hbase] & Hc & Hv & Ht & _ & Hq).
  destruct (base_resetConfig_frame _ _ _ _ _ Hbase) as [Ho Hn].
  eapply (quiet_ok e); try done.
  - rewrite Hc. apply quiet_refl.
  - rewrite Hv, Ht. apply Hok.
  - rewrite Ho. apply Hok.
  - unfold consensusNumber. by rewrite Hn.
Qed.

Lemma reportBlock_ok env b e e' : engine_ok e → reportBlock env b e = Ok e' → engine_ok e'.
Proof.
  intros Hok. unfold reportBlock. break_if; [|by intros [= <-]].
  set (e1 := on_base _ e). set (e2 := if consensusNumber e1 <=? highestNumber e1 then _ else e1).
  assert (Hok2 : engine_ok e2).
  { assert (Hok1 : engine_ok e1) by (eapply (quiet_ok e); try done; [apply quiet_refl|apply Hok|apply Hok]).
    subst e2. destruct (Z.leb_spec (consensusNumber e1) (highestNumber e1)); [|done].
    apply on_cache_ok; [|apply quiet_delInvalidViewChange].
    eapply (quiet_ok e1); try done; [apply quiet_refl|apply Hok1|]. unfold consensusNumber in *. simpl in *. lia. }
  clearbody e2. destruct (resetConfig _ e2) as [e3|] eqn:Hr; [|done]. simpl. intros [= <-].
  apply on_cache_ok; [|apply quiet_delCache]. apply emit_ok; [|done]. by eapply resetConfig_ok.
Qed.

Lemma checkBlock_ok env b e e' v : engine_ok e → checkBlock env b e = Ok (e', v) → engine_ok e'.
Proof.
  intros Hok. unfold checkBlock. break_if; [by intros [= <- _]|].
  destruct (resetConfig _ e) as [e1|] eqn:Hr; [|done]. simpl. intros [= <- _]. by eapply resetConfig_ok.
Qed.

Lemma collectGarbage_ok env e : engine_ok e → engine_ok (collectGarbage env e).
Proof.
  intros Hok. unfold collectGarbage. repeat break_if; try done.
  apply on_timer_ok, on_cache_ok; [done|apply quiet_collectGarbage].
Qed.

Lemma view_below e : engine_ok e → pe_toView e < MAXVIEW → pe_view e < MAXVIEW.
Proof. intros Hok Ht. pose proof (ok_view _ Hok). lia. Qed.

Lemma generatePrepare_ok env b e :
  engine_ok e → pe_toView e < MAXVIEW → engine_ok (generatePrepare decodeTx executeBlock env b e).
Proof.
  intros Hok Ht. unfold generatePrepare, constructPrepareReq.
  assert (Hok1 : engine_ok (set_pe_notifyNextLeaderSeal false e)) by (eapply same_core_ok; [|exact Hok]; by split).
  destruct (block_encode b) as [[b' d]|]; [|done]. simpl.
  set (req := if zlen (b_transactions b') =? 0 then _ else _).
  assert (Hf : flag_honest req).
  { subst req. destruct (zlen (b_transactions b') =? 0) eqn:E; [|done]. intros _. simpl.
    unfold getTransactionSize. by apply Z.eqb_eq. }
  pose proof (broadcastEncoded_core env PrepareReqPacket req (prepare_encode req) (set_pe_notifyNextLeaderSeal false e)) as Hc.
  clearbody req. set (e1 := broadcastEncoded _ _ _ _ _) in *. pose proof (same_core_ok _ _ Hc Hok1) as Hok2.
  assert (Ht1 : pe_toView e1 = pe_toView e) by apply Hc. clearbody e1. break_if.
  - eapply same_core_ok; [|exact Hok2]. by split.
  - apply handlePrepare_ok; [done| |done]. apply view_below; [done|lia].
Qed.

Lemma shouldSeal_ok env e :
  engine_ok e → pe_toView e < MAXVIEW → engine_ok (shouldSeal decodeTx executeBlock env e).1.
Proof.
  intros Hok Ht. unfold shouldSeal. repeat (break_if; try done). unfold rehandleCommitedPrepareCache. simpl.
  apply emit_ok; [|done]. match goal with |- context [broadcastEncoded ?a ?b ?c ?d ?x] =>
    pose proof (broadcastEncoded_core a b c d x) as Hc; set (e1 := broadcastEncoded a b c d x) in * end.
  assert (Hok1 : engine_ok e1) by (eapply same_core_ok; [exact Hc|]; eapply same_core_ok; [|exact Hok]; by split).
  apply handlePrepare_ok; [done| |done]. apply view_below; [done|]. by rewrite (sc_toView _ _ Hc).
Qed.

Lemma onRecv_ok env data peer ep e :
  engine_ok e → (∀ o t p, packet_decode (defaultPacket o t) data = Ok p → packet_honest p) →
  engine_ok (onRecvPBFTMessage env data peer ep e).
Proof.
  intros Hok Hh. unfold onRecvPBFTMessage. break_if; [done|]. destruct (isValidReq _ _ _); [|done].
  destruct (packet_decode _ _) as [p|] eqn:Hp; [|done]. break_if; [|done]. specialize (Hh _ _ _ Hp).
  destruct Hok as [H1 H2 H3 H4 H5 H6 H7 H8]. split; try done. simpl. apply Forall_app. split; [done|]. by repeat constructor.
Qed.

Lemma handleFutureBlock_ok env e :
  engine_ok e → pe_toView e < MAXVIEW → engine_ok (handleFutureBlock decodeTx executeBlock env e).
Proof.
  intros Hok Ht. unfold handleFutureBlock. destruct (futurePrepareCache _ _) as [req|] eqn:Hf; [|done]. break_if; [|done].
  apply on_cache_ok; [|apply quiet_eraseFuture]. apply handlePrepare_ok; [done|by apply view_below|].
  by eapply (ok_future _ Hok).
Qed.

Lemma handleMsg_ok env p e :
  engine_ok e → pe_toView e < MAXVIEW → packet_honest p → engine_ok (handleMsg decodeTx executeBlock env p e).
Proof.
  intros Hok Ht Hp. pose proof (view_below _ Hok Ht) as Hv. unfold handleMsg.
  set (h := if packet_id p =? PrepareReqPacket then _ else _).
  assert (Hh : ∀ e' ok m, h = Some (e', ok, m) → engine_ok e').
  { assert (Hon : ∀ (f : PBFTMsg → PBFTEngine → PBFTEngine * bool) e' ok m,
      (∀ r, engine_ok (f r e).1) → Some (onPacket f p e) = Some (e', ok, m) → engine_ok e').
    { intros f e' ok m Hf. unfold onPacket. destruct (decodeReq p) as [r|]; [|by intros [= <- _ _]].
      specialize (Hf r). destruct (f r e). by intros [= <- _ _]. }
    intros e' ok m. subst h. repeat break_if; [| | | |done]; [|apply Hon; intros r..].
    - unfold packet_honest in Hp. unfold handlePrepareMsg. destruct (decodePrepare p) as [r|]; [|by intros [= <- _ _]].
      pose proof (handlePrepare_ok env r e Hok Hv Hp) as H1. destruct (handlePrepare _ _ _ _ _).
      by intros [= <- _ _].
    - by apply handleSign_ok.
    - by apply handleCommit_ok.
    - by apply handleViewChange_ok. }
  clearbody h. destruct h as [[[e' ok] [m|]]|]; [|by eapply Hh|done].
  specialize (Hh _ _ _ eq_refl). break_if; [|done]. eapply same_core_ok; [apply forwardMsg_core|done].
Qed.

(** ** Runs *)

(** The peers mark as empty only prepares whose block is empty. *)
Definition input_honest (i : input) : Prop :=
  match i with
  | InReceive data _ _ => ∀ o t p, packet_decode (defaultPacket o t) data = Ok p → packet_honest p
  | _ => True
  end.

(** One call of an entry point, before the 64-bit view is exhausted. *)
Definition run_step e e' : Prop :=
  ∃ env i, input_honest i ∧ pe_toView e < MAXVIEW ∧ e' = engine_step decodeTx executeBlock env i e.

Lemma engine_step_ok e e' : run_step e e' → engine_ok e → engine_ok e'.
Proof.
  intros (env & i & Hi & Ht & ->) Hok. destruct i; simpl.
  - by apply onRecv_ok.
  - destruct (pe_msgQueue e) as [|p q] eqn:Hq; [done|]. pose proof Hok as [H1 H2 H3 H4 H5 H6 H7 H8].
    rewrite Hq in H4. apply Forall_cons in H4 as [Hp H4]. apply handleMsg_ok; [by split|done|done].
  - by apply checkTimeout_ok.
  - by apply handleFutureBlock_ok.
  - by apply collectGarbage_ok.
  - destruct (reportBlock env b e) eqn:Hr; [|done]. by eapply reportBlock_ok.
  - by apply generatePrepare_ok.
  - by apply shouldSeal_ok.
  - destruct (checkBlock env b e) as [[e' v]|] eqn:Hr; [|done]. by eapply checkBlock_ok.
Qed.

(** Reporting a block changes the cache quietly and backs nothing up. *)
Lemma reportBlock_quiet env b e e' :
  reportBlock env b e = Ok e' →
  cache_quiet (pe_reqCache e) (pe_reqCache e') ∧ backups (pe_events e') = backups (pe_events e).
Proof.
  unfold reportBlock. break_if; [|by intros [= <-]; split; [apply quiet_refl|]].
  set (e2 := if consensusNumber _ <=? _ then _ else _).
  assert (H2 : cache_quiet (pe_reqCache e) (pe_reqCache e2) ∧ backups (pe_events e2) = backups (pe_events e))
    by (subst e2; break_if; (split; [|done]); [apply quiet_delInvalidViewChange|apply quiet_refl]).
  clearbody e2. destruct H2 as [Hq Hb]. destruct (resetConfig _ e2) as [e3|] eqn:Hr; [|done]. simpl.
  intros [= <-]. simpl. rewrite backups_app, app_nil_r, (resetConfig_backups _ _ _ Hr). split; [|done].
  eapply quiet_trans; [exact Hq|]. destruct (resetConfig_inv _ _ _ Hr) as (_ & -> & _). apply quiet_delCache.
Qed.

Lemma engine_run_ok e e' : rtc run_step e e' → engine_ok e → engine_ok e'.
Proof. induction 1; [done|]. eauto using engine_step_ok. Qed.
End run.

Section start.
Context `{HC : Crypto} `{HU : UnorderedIter} {C : Type} `{HB : BlockChainInterface C}.
Context (decodeTx : bytes → option Transaction)
        (executeBlock : Block → BlockHeader → option (Block * option Z)).
Local Abbreviation PBFTEngine := (PBFTEngineOf KeyPair C).
Implicit Types e : PBFTEngine.

(** A node that has just started, locked on [start], the default request if its
    backup is empty or unreadable. *)
Definition started (start : PrepareReq) e : Prop :=
  (∃ env timeout k sealers o a db c, initPBFTEnv env timeout (newEngine k sealers o a db c) = Ok e)
  ∧ m_committedPrepareCache (pe_reqCache e) = start ∧ height start <= consensusNumber e.

Lemma started_ok start e : started start e → engine_ok decodeTx start e.
Proof.
  intros ((env & t & k & sealers & o & a & db & c & Hi) & Hs & Hh). unfold initPBFTEnv in Hi.
  destruct (bci_getBlockByNumber _ _) as [c' b']. destruct b' as [b'|]; [|done].
  match type of Hi with context [reportBlock env b' ?x] => set (e0 := x) in *; destruct (reportBlock env b' e0) as [e1|] eqn:Hr end; [|done].
  simpl in Hi. injection Hi as Hi.
  assert (Hok0 : engine_ok decodeTx defaultPrepare e0).
  { split; try done; [by left|]. split; [|intros r r' ->%list_elem_of_singleton ->%list_elem_of_singleton; done].
    intros r ->%list_elem_of_singleton. done. }
  destruct (reportBlock_quiet _ _ _ _ Hr) as [[_ _ Hq _] Hb].
  pose proof (reportBlock_ok _ _ _ _ _ _ Hok0 Hr) as [H1 H2 H3 H4 H5 H6 H7 H8].
  assert (Hv : view (m_prepareCache (pe_reqCache e1)) = MAXVIEW) by (destruct Hq as [Hq|[-> _]]; done).
  assert (He : pe_view e = pe_view e1 ∧ pe_toView e = pe_toView e1 ∧ pe_base e = pe_base e1 ∧ pe_msgQueue e = pe_msgQueue e1
    ∧ pe_events e = pe_events e1
    ∧ (pe_reqCache e = pe_reqCache e1 ∨ ∃ r, pe_reqCache e = set_committedPrepareCache r (pe_reqCache e1))).
  { subst e. unfold reloadMsg. repeat (break_match || break_if); split_and!; try done; eauto. }
  destruct He as (E1 & E2 & E3 & E4 & E5 & E6).
  assert (Hbk : backups (pe_events e) = []) by (by rewrite E5, Hb).
  split; rewrite ?E1, ?E2, ?E3, ?E4; try done.
  - destruct E6 as [->|[r ->]]; [done|]. destruct H1. by split.
  - intros i r. destruct E6 as [->|[r' ->]]; apply H5.
  - by rewrite Hs.
  - left. destruct E6 as [->|[r ->]]; exact Hv.
  - rewrite Hs, Hbk. split; [intros r ->%list_elem_of_singleton; by split|].
    by intros r r' ->%list_elem_of_singleton ->%list_elem_of_singleton.
Qed.


End start.

(** ** The sample run *)

Abbreviation sample_run_step := (@run_step toyCrypto canonicalIter _ sampleChain sampleDecodeTx sampleExecute).

Lemma sample_start_started l k e :
  sampleStart l k = Ok e → height (m_committedPrepareCache (pe_reqCache e)) <= consensusNumber e →
  @started toyCrypto _ sampleChain (m_committedPrepareCache (pe_reqCache e)) e.
Proof.
  intros He Hh. split; [|by split].
  exists (sampleEnv l 0 true), 3000, k, [], false, false, None, (@genesisChain toyCrypto sampleGenesis).
  unfold sampleStart, sampleNew in He. exact He.
Qed.

Lemma sample_step env i e :
  (pe_toView e <? MAXVIEW) = true → match i with InReceive _ _ _ => false | _ => true end = true →
  sample_run_step e (sampleStep env i e).
Proof. intros Ht%Z.ltb_lt Hi. exists env, i. split; [by destruct i|]. by split. Qed.

Lemma sample_started : ∃ start, @started toyCrypto _ sampleChain start sampleRun0.
Proof.
  eexists. apply (sample_start_started [3] 3).
  - unfold sampleRun0, sampleEngine. apply result_get_Ok. vm_compute; reflexivity.
  - apply Z.leb_le. vm_compute; reflexivity.
Qed.

Lemma sample_run : rtc sample_run_step sampleRun0 sampleRun3.
Proof.
  apply (rtc_l _ _ sampleRun1); [|apply (rtc_l _ _ sampleRun2); [|apply rtc_once]].
  - unfold sampleRun1. apply sample_step; vm_compute; reflexivity.
  - unfold sampleRun2. apply sample_step; vm_compute; reflexivity.
  - unfold sampleRun3. apply sample_step; vm_compute; reflexivity.
Qed.


