(* ===== verification/TxDAG.v ===== *)
(** * Parallel execution order (libblockverifier/DAG.h, DAG.cpp, TxDAG.h, TxDAG.cpp)

    The transactions of a block are executed by several threads along a graph of
    their conflicts.  A transaction is either bound to critical fields, and conflicts
    with those that share one, or conflicts with every other.  An [ID] is an index, and
    [INVALID_ID] is [None]; identifiers and degrees stay far below 2^32.  Reading a
    vertex out of range is undefined behaviour; here nothing changes.  The threads run
    in any interleaving: a step is one atomic access to the shared graph, or one
    execution of a transaction. *)
From stdpp Require Import sorting.
From S2P Require Import Prelude.
Local Open Scope nat_scope.

(** ** [DAG] *)

Record Vertex := mkVertex { inDegree : nat; outEdge : list nat }.
Record DAG := mkDAG {
  m_vtxs : list Vertex;
  m_topLevel : list nat;
  m_totalVtxs : nat;
  m_totalConsume : nat }.

Definition inDeg (d : DAG) (i : nat) : nat := default 0 (inDegree <$> m_vtxs d !! i).
Definition outs (d : DAG) (i : nat) : list nat := default [] (outEdge <$> m_vtxs d !! i).
Definition set_vtxs v (d : DAG) := mkDAG v (m_topLevel d) (m_totalVtxs d) (m_totalConsume d).
Definition set_topLevel v (d : DAG) := mkDAG (m_vtxs d) v (m_totalVtxs d) (m_totalConsume d).
Definition set_totalConsume v (d : DAG) := mkDAG (m_vtxs d) (m_topLevel d) (m_totalVtxs d) v.
Definition on_vertex (f : Vertex → Vertex) (i : nat) (d : DAG) : DAG := set_vtxs (alter f i (m_vtxs d)) d.

(** The constructor, and [init]; the queue is not cleared. *)
Definition newDAG : DAG := mkDAG [] [] 0 0.
Definition dag_init (maxSize : nat) (d : DAG) : DAG :=
  mkDAG (replicate maxSize (mkVertex 0 [])) (m_topLevel d) maxSize 0.

(** [addEdge]. *)
Definition addEdge (f t : nat) (d : DAG) : DAG :=
  if (length (m_vtxs d) <=? f) && (length (m_vtxs d) <=? t) then d
  else on_vertex (λ v, mkVertex (inDegree v + 1) (outEdge v)) t
         (on_vertex (λ v, mkVertex (inDegree v) (outEdge v ++ [t])) f d).

(** [generate]. *)
Definition generate (d : DAG) : DAG :=
  set_topLevel (m_topLevel d ++ filter (λ i, inDeg d i = 0) (seq 0 (length (m_vtxs d)))) d.

(** The pop of [waitPop]: nothing when the queue stays empty for the time waited. *)
Definition waitPop (d : DAG) : DAG * option nat :=
  match m_topLevel d with [] => (d, None) | i :: q => (set_topLevel q d, Some i) end.

(** One round of the loop of [consume], on the edge to [t]: the first vertex that
    becomes free is kept for this thread, the others are queued. *)
Definition consume_edge (t : nat) (nextId : option nat) (d : DAG) : DAG * option nat :=
  let lastDegree := inDeg d t in
  let d := on_vertex (λ v, mkVertex (inDegree v - 1) (outEdge v)) t d in
  if lastDegree =? 1 then
    match nextId with
    | None => (d, Some t)
    | Some _ => (set_topLevel (m_topLevel d ++ [t]) d, nextId)
    end
  else (d, nextId).

(** ** [CriticalField] *)

Record CriticalField := mkCritical { m_criticals : gmap string nat; m_criticalAll : option nat }.
Definition crit_get (c : string) (l : CriticalField) : option nat :=
  match m_criticals l !! c with Some i => Some i | None => m_criticalAll l end.
Definition crit_update (c : string) (i : nat) (l : CriticalField) : CriticalField :=
  mkCritical (<[c := i]> (m_criticals l)) (m_criticalAll l).
Definition setCriticalAll (i : nat) (l : CriticalField) : CriticalField := mkCritical ∅ (Some i).

(** The identifiers [foreachField] visits; the order makes no difference to the graph. *)
Definition crit_ids (l : CriticalField) : list nat :=
  (map_to_list (m_criticals l)).*2 ++ option_list (m_criticalAll l).

(** ** [TxDAG::init] *)

(** What [getTxCriticals] returns for a transaction: [None] is the null pointer. *)
Abbreviation criticals := (option (list string)).

Definition init_step (w : CriticalField * DAG) (tx : nat * criticals) : CriticalField * DAG :=
  let '(l, d) := w in
  let '(id, cs) := tx in
  match cs with
  | Some cs =>
      let d := foldl (λ d c, match crit_get c l with Some p => addEdge p id d | None => d end) d cs in
      (foldl (λ l c, crit_update c id l) l cs, d)
  | None => (setCriticalAll id l, foldl (λ d p, addEdge p id d) d (crit_ids l))
  end.
Definition init_edges (txs : list criticals) : CriticalField * DAG :=
  foldl init_step (mkCritical ∅ None, dag_init (length txs) newDAG) (imap pair txs).
Definition txDAG_init (txs : list criticals) : DAG := generate (init_edges txs).2.

(** Transactions that must not run at the same time or change places. *)
Definition conflict (a b : criticals) : Prop :=
  match a, b with
  | Some a, Some b => ∃ c, c ∈ a ∧ c ∈ b
  | Some a, None | None, Some a => a ≠ []
  | None, None => True
  end.

(** ** The threads ([executeUnit], in the loop of [parallelExecuteBlock]) *)

Inductive worker :=
| WCheck                                                    (* while (!hasFinished()) *)
| WPop (exeCnt : nat)                                       (* id = waitPop() *)
| WExec (exeCnt id : nat)                                   (* f_executeTx(id) *)
| WConsume (exeCnt : nat) (edges : list nat) (nextId : option nat)
| WAdd (exeCnt : nat)                                       (* m_exeCnt += exeCnt *)
| WDone.

Section system.
Context {S : Type} (exec : nat → S → S).

(** The graph, [m_exeCnt], the threads, the state, and the transactions executed. *)
Record system := mkSystem {
  sys_dag : DAG; sys_exeCnt : nat; sys_workers : list worker; sys_state : S; sys_ran : list nat }.

Definition worker_step (w : worker) (s : system) : option (worker * system) :=
  let '(mkSystem d n ws st ran) := s in
  match w with
  | WCheck => Some (if m_totalVtxs d <=? n then WDone else WPop 0, s)
  | WPop cnt =>
      match waitPop d with
      | (d, Some id) => Some (WExec cnt id, mkSystem d n ws st ran)
      | (d, None) => Some (WAdd cnt, mkSystem d n ws st ran)
      end
  | WExec cnt id => Some (WConsume (cnt + 1) (outs d id) None, mkSystem d n ws (exec id st) (ran ++ [id]))
  | WConsume cnt (t :: rest) next =>
      let '(d, next) := consume_edge t next d in Some (WConsume cnt rest next, mkSystem d n ws st ran)
  | WConsume cnt [] next =>
      let d := set_totalConsume (m_totalConsume d + 1) d in
      Some (match next with Some id => WExec cnt id | None => WPop cnt end, mkSystem d n ws st ran)
  | WAdd cnt => Some (WCheck, mkSystem d (n + cnt) ws st ran)
  | WDone => None
  end.

(** A step of the [k]-th thread. *)
Definition sys_step (k : nat) (s : system) : option system :=
  w ← sys_workers s !! k;
  '(w, s') ← worker_step w s;
  Some (mkSystem (sys_dag s') (sys_exeCnt s') (<[k := w]> (sys_workers s')) (sys_state s') (sys_ran s')).

Definition sys_next (s s' : system) : Prop := ∃ k, sys_step k s = Some s'.

(** The start of [threads] threads on the transactions of a block. *)
Definition sys_start (threads : nat) (txs : list criticals) (st : S) : system :=
  mkSystem (txDAG_init txs) 0 (replicate threads WCheck) st [].

(** All threads have left their loops. *)
Definition finished (s : system) : Prop := ∀ w, w ∈ sys_workers s → w = WDone.
End system.

(** ** The graph of a block *)

(** Occurrences of [t] in a list. *)
Definition occ (t : nat) (l : list nat) : nat := length (filter (λ x, x = t) l).
Definition edge (d : DAG) (f t : nat) : Prop := t ∈ outs d f.

(** Edges go forward, and the in-degree of a vertex counts the edges to it. *)
Record dag_wf (n : nat) (d : DAG) : Prop := {
  dw_size : length (m_vtxs d) = n;
  dw_total : m_totalVtxs d = n;
  dw_forward : ∀ f t, edge d f t → f < t < n;
  dw_degree : ∀ t, inDeg d t = sum_list_with (λ f, occ t (outs d f)) (seq 0 n) }.

Lemma occ_nil t : occ t [] = 0.
Proof. done. Qed.

Lemma occ_app t l l' : occ t (l ++ l') = occ t l + occ t l'.
Proof. unfold occ. by rewrite filter_app, length_app. Qed.

Lemma occ_cons t x l : occ t (x :: l) = (if decide (x = t) then 1 else 0) + occ t l.
Proof. unfold occ. rewrite filter_cons. by destruct (decide (x = t)). Qed.

Lemma occ_pos t l : t ∈ l ↔ 0 < occ t l.
Proof.
  unfold occ. destruct (filter (λ x, x = t) l) as [|y l'] eqn:E; simpl; split; try lia.
  - intros Hl. assert (t ∈ filter (λ x, x = t) l) as Hin by (by apply list_elem_of_filter). rewrite E in Hin.
    by apply elem_of_nil in Hin.
  - intros _. assert (y ∈ filter (λ x, x = t) l) as Hin by (rewrite E; by left).
    apply list_elem_of_filter in Hin as [-> ?]. done.
Qed.

Lemma sum_list_with_zero {A} (f : A → nat) l : sum_list_with f l = 0 ↔ ∀ x, x ∈ l → f x = 0.
Proof.
  induction l as [|y l IH]; simpl; [split; [by intros _ ? ?%elem_of_nil|done]|].
  setoid_rewrite elem_of_cons. split.
  - intros H x [->|Hx]; [lia|]. apply IH; [lia|done].
  - intros H. rewrite (H y) by auto. apply IH. auto.
Qed.

Lemma sum_list_with_ext {A} (f g : A → nat) l : (∀ x, x ∈ l → f x = g x) → sum_list_with f l = sum_list_with g l.
Proof.
  induction l as [|y l IH]; [done|]. intros H. simpl. rewrite H, IH; [done| |by left].
  intros x Hx. apply H. by right.
Qed.

(** Changing the summand at one element of a duplicate-free list. *)
Lemma sum_list_with_change {A} (f g : A → nat) x l :
  NoDup l → x ∈ l → (∀ y, y ≠ x → f y = g y) → sum_list_with f l + g x = sum_list_with g l + f x.
Proof.
  induction l as [|y l IH]; [by intros _ ?%elem_of_nil|]. intros [Hy Hl]%NoDup_cons [->|Hx]%elem_of_cons Hfg; simpl.
  - rewrite (sum_list_with_ext f g l); [lia|]. intros z Hz. apply Hfg. by intros ->.
  - specialize (IH Hl Hx Hfg). rewrite (Hfg y); [lia|]. by intros ->.
Qed.

Lemma lookup_on_vertex f i d j :
  m_vtxs (on_vertex f i d) !! j = if decide (i = j) then f <$> m_vtxs d !! j else m_vtxs d !! j.
Proof. simpl. rewrite list_lookup_alter. by case_decide; subst. Qed.

Lemma addEdge_spec f t d :
  f < length (m_vtxs d) → t < length (m_vtxs d) → f ≠ t →
  (∀ i, outs (addEdge f t d) i = if decide (i = f) then outs d f ++ [t] else outs d i)
  ∧ (∀ i, inDeg (addEdge f t d) i = if decide (i = t) then inDeg d t + 1 else inDeg d i)
  ∧ length (m_vtxs (addEdge f t d)) = length (m_vtxs d)
  ∧ m_topLevel (addEdge f t d) = m_topLevel d ∧ m_totalVtxs (addEdge f t d) = m_totalVtxs d.
Proof.
  intros Hf Ht Hne. unfold addEdge.
  rewrite (proj2 (Nat.leb_gt _ _) Hf). simpl. rewrite !length_alter.
  destruct (lookup_lt_is_Some_2 _ _ Hf) as [vf Evf]. destruct (lookup_lt_is_Some_2 _ _ Ht) as [vt Evt].
  split_and!; try done; intros i; unfold outs, inDeg; rewrite !lookup_on_vertex;
    repeat case_decide; simplify_eq; rewrite ?Evf, ?Evt; try done; by destruct (m_vtxs d !! i).
Qed.

Lemma addEdge_wf n f t d : dag_wf n d → f < t < n → dag_wf n (addEdge f t d).
Proof.
  intros [H1 H2 H3 H4] Hft. destruct (addEdge_spec f t d) as (Ho & Hi & Hl & _ & Hn); [lia..|].
  split; [lia|lia| |].
  - intros g u. unfold edge. rewrite Ho. case_decide as Hg; [|apply H3]. subst g.
    intros [?| ->%list_elem_of_singleton]%elem_of_app; [by apply H3|lia].
  - intros u. rewrite Hi.
    pose proof (sum_list_with_change (λ g, occ u (outs (addEdge f t d) g)) (λ g, occ u (outs d g)) f (seq 0 n)
      (NoDup_seq 0 n)) as Hs. rewrite elem_of_seq in Hs. specialize (Hs ltac:(lia)).
    cbv beta in Hs. rewrite (Ho f), decide_True, occ_app, occ_cons, occ_nil in Hs by done.
    specialize (Hs ltac:(intros y Hy; by rewrite Ho, decide_False)).
    pose proof (H4 u) as H4u. repeat case_decide; simplify_eq; lia.
Qed.

Lemma addEdge_edge f t d g u :
  f < length (m_vtxs d) → t < length (m_vtxs d) → f ≠ t → edge (addEdge f t d) g u ↔ edge d g u ∨ (g = f ∧ u = t).
Proof.
  intros Hf Ht Hne. destruct (addEdge_spec f t d Hf Ht Hne) as (Ho & _). unfold edge. rewrite Ho.
  case_decide; subst; [|naive_solver]. rewrite elem_of_app, list_elem_of_singleton. naive_solver.
Qed.

Abbreviation addEdges ps t d := (foldl (λ d p, addEdge p t d) d ps).

Lemma addEdges_spec n ps t d :
  dag_wf n d → (∀ p, p ∈ ps → p < t) → t < n →
  dag_wf n (addEdges ps t d) ∧ m_topLevel (addEdges ps t d) = m_topLevel d
  ∧ ∀ g u, edge (addEdges ps t d) g u ↔ edge d g u ∨ (g ∈ ps ∧ u = t).
Proof.
  revert d. induction ps as [|p ps IH]; intros d Hw Hp Ht; simpl.
  - split_and!; [done|done|]. intros g u. rewrite elem_of_nil. naive_solver.
  - assert (p < t) by (apply Hp; by left). pose proof (dw_size _ _ Hw) as Hs.
    destruct (IH (addEdge p t d)) as (H1 & H2 & H3); [by apply addEdge_wf|intros q Hq; apply Hp; by right|done|].
    destruct (addEdge_spec p t d) as (_ & _ & _ & H4 & _); [lia..|].
    split_and!; [done|by rewrite H2|]. intros g u. rewrite H3, addEdge_edge, elem_of_cons by lia. naive_solver.
Qed.

(** The edges to a transaction bound to fields come from the last ones on its fields. *)
Lemma field_edges cs l t d :
  foldl (λ d c, match crit_get c l with Some p => addEdge p t d | None => d end) d cs
  = addEdges (omap (λ c, crit_get c l) cs) t d.
Proof. revert d. induction cs as [|c cs IH]; intros d; [done|]. simpl. rewrite IH. by destruct (crit_get c l). Qed.

Lemma crit_get_ids c l p : crit_get c l = Some p → p ∈ crit_ids l.
Proof.
  unfold crit_get, crit_ids. intros H. apply elem_of_app. destruct (m_criticals l !! c) as [i|] eqn:E; simplify_eq.
  - left. apply list_elem_of_fmap. exists (c, p). split; [done|]. by apply elem_of_map_to_list.
  - right. rewrite H. by left.
Qed.

Lemma crit_ids_get p l : p ∈ crit_ids l → (∃ c, crit_get c l = Some p) ∨ m_criticalAll l = Some p.
Proof.
  unfold crit_ids. intros [Hp|Hp]%elem_of_app.
  - apply list_elem_of_fmap in Hp as ([c i] & -> & Hc%elem_of_map_to_list). left. exists c. unfold crit_get. by rewrite Hc.
  - right. destruct (m_criticalAll l); simpl in Hp; [by apply list_elem_of_singleton in Hp as ->|by apply elem_of_nil in Hp].
Qed.

Lemma crit_updates cs t l :
  m_criticalAll (foldl (λ l c, crit_update c t l) l cs) = m_criticalAll l
  ∧ ∀ c, crit_get c (foldl (λ l c, crit_update c t l) l cs) = if decide (c ∈ cs) then Some t else crit_get c l.
Proof.
  revert l. induction cs as [|x cs IH]; intros l; [split; [done|]; intros c; rewrite decide_False; [done|apply not_elem_of_nil]|].
  simpl. destruct (IH (crit_update x t l)) as [-> H]. split; [done|]. intros c. rewrite H.
  destruct (decide (c ∈ cs)) as [Hc|Hc]; [by rewrite decide_True by (by right)|].
  unfold crit_get, crit_update. simpl. destruct (decide (c = x)) as [->|Hne].
  - by rewrite lookup_insert_eq, decide_True by (by left).
  - rewrite lookup_insert_ne by done. rewrite decide_False; [done|]. by intros [?|?]%elem_of_cons.
Qed.

(** After the first [k] transactions: each transaction reaches the last one recorded
    on its fields, one that conflicts with all reaches every recorded one, and
    conflicting transactions are connected. *)
Record init_inv (txs : list criticals) (k : nat) (l : CriticalField) (d : DAG) : Prop := {
  ii_wf : dag_wf (length txs) d;
  ii_top : m_topLevel d = [];
  ii_ids : ∀ p, p ∈ crit_ids l → p < k;
  ii_field : ∀ i cs c, i < k → txs !! i = Some (Some cs) → c ∈ cs → ∃ p, crit_get c l = Some p ∧ rtc (edge d) i p;
  ii_all : ∀ i c, i < k → txs !! i = Some None →
    (∃ p, crit_get c l = Some p ∧ rtc (edge d) i p) ∧ ∃ q, m_criticalAll l = Some q ∧ rtc (edge d) i q;
  ii_conflict : ∀ i j a b, i < j < k → txs !! i = Some a → txs !! j = Some b → conflict a b → tc (edge d) i j }.

Lemma init_start txs : init_inv txs 0 (mkCritical ∅ None) (dag_init (length txs) newDAG).
Proof.
  split; try (intros; lia); [|done|].
  - split; [apply length_replicate|done| |].
    + intros f t. unfold edge, outs. simpl. destruct (decide (f < length txs)).
      * rewrite lookup_replicate_2 by done. by intros ?%elem_of_nil.
      * rewrite lookup_ge_None_2 by (rewrite length_replicate; lia). by intros ?%elem_of_nil.
    + intros t. symmetry. rewrite (proj2 (sum_list_with_zero _ _)).
      * unfold inDeg. simpl. destruct (replicate _ _ !! t) as [v|] eqn:E; [|done].
        by apply lookup_replicate in E as [-> _].
      * intros f [_ Hf]%elem_of_seq. unfold outs. simpl. by rewrite lookup_replicate_2.
  - intros p. unfold crit_ids. simpl. rewrite map_to_list_empty. by intros ?%elem_of_nil.
Qed.

Lemma tc_mono {A} (R R' : relation A) : (∀ x y, R x y → R' x y) → ∀ x y, tc R x y → tc R' x y.
Proof. intros H x y. induction 1; [apply tc_once; auto|eapply tc_l; eauto]. Qed.

Lemma rtc_mono {A} (R R' : relation A) : (∀ x y, R x y → R' x y) → ∀ x y, rtc R x y → rtc R' x y.
Proof. intros H x y. induction 1; [apply rtc_refl|eapply rtc_l; eauto]. Qed.

Lemma init_step_fields txs k cs l d :
  init_inv txs k l d → txs !! k = Some (Some cs) →
  let w := init_step (l, d) (k, Some cs) in init_inv txs (k + 1) w.1 w.2.
Proof.
  intros [Hw Htop Hids Hf Ha Hc] Hk. pose proof (lookup_lt_Some _ _ _ Hk) as Hlt. simpl. rewrite field_edges.
  set (ps := omap (λ c, crit_get c l) cs).
  assert (Hps : ∀ p, p ∈ ps → p < k).
  { intros p (c & _ & Hp)%list_elem_of_omap. eapply Hids, crit_get_ids, Hp. }
  destruct (addEdges_spec (length txs) ps k d Hw Hps Hlt) as (Hw' & Htop' & He).
  destruct (crit_updates cs k l) as [Hall Hget].
  assert (Hnew : ∀ c p, c ∈ cs → crit_get c l = Some p → edge (addEdges ps k d) p k).
  { intros c p Hin Hg. apply He. right. split; [|done]. apply list_elem_of_omap. eauto. }
  assert (Hold : ∀ x y, edge d x y → edge (addEdges ps k d) x y) by (intros; apply He; by left).
  set (l' := foldl _ l cs) in *. set (d' := addEdges ps k d) in *. clearbody l' d' ps.
  pose proof (rtc_mono _ _ Hold) as Hr.
  assert (Hreach : ∀ i c p, crit_get c l = Some p → rtc (edge d) i p → ∃ q, crit_get c l' = Some q ∧ rtc (edge d') i q).
  { intros i c p Hg Hip. rewrite Hget. destruct (decide (c ∈ cs)); [|by eauto].
    exists k. split; [done|]. eapply rtc_r; [by apply Hr|by eapply Hnew]. }
  split; [done|by rewrite Htop'| | | |].
  - intros p [[c Hp]|Hp]%crit_ids_get.
    + rewrite Hget in Hp. case_decide; simplify_eq; [lia|]. apply crit_get_ids, Hids in Hp. lia.
    + rewrite Hall in Hp. assert (p ∈ crit_ids l) as Hin by (apply elem_of_app; right; rewrite Hp; by left).
      apply Hids in Hin. lia.
  - intros i cs' c Hi Hti Hin. destruct (decide (i = k)) as [->|].
    + replace cs' with cs in Hin by congruence. exists k. by rewrite Hget, decide_True.
    + destruct (Hf i cs' c) as (p & Hp & Hip); [lia|done|done|]. by eapply Hreach.
  - intros i c Hi Hti. destruct (Ha i c) as [(p & Hp & Hip) (q & Hq & Hiq)];
      [destruct (decide (i = k)); [congruence|lia]|done|].
    split; [by eapply Hreach|]. exists q. rewrite Hall. auto.
  - intros i j a b Hij Hi Hj Hab. destruct (decide (j = k)) as [->|]; [|apply (tc_mono _ _ Hold); eapply Hc; eauto; lia].
    assert (Hvia : ∀ c p, c ∈ cs → crit_get c l = Some p → rtc (edge d) i p → tc (edge d') i k).
    { intros c p Hin Hg Hip. eapply tc_rtc_l; [by apply Hr|]. apply tc_once. by eapply Hnew. }
    replace b with (Some cs) in Hab by congruence. destruct a as [a|]; simpl in Hab.
    + destruct Hab as (c & Hca & Hcb). destruct (Hf i a c) as (p & Hp & Hip); [lia|done|done|]. by eapply Hvia.
    + destruct cs as [|c cs]; [done|]. destruct (Ha i c) as [(p & Hp & Hip) _]; [lia|done|]. eapply Hvia; [by left|done..].
Qed.

Lemma init_step_all txs k l d :
  init_inv txs k l d → txs !! k = Some None →
  let w := init_step (l, d) (k, None) in init_inv txs (k + 1) w.1 w.2.
Proof.
  intros [Hw Htop Hids Hf Ha Hc] Hk. pose proof (lookup_lt_Some _ _ _ Hk) as Hlt. simpl.
  destruct (addEdges_spec (length txs) (crit_ids l) k d Hw Hids Hlt) as (Hw' & Htop' & He).
  assert (Hnew : ∀ p, p ∈ crit_ids l → edge (addEdges (crit_ids l) k d) p k) by (intros; apply He; auto).
  assert (Hold : ∀ x y, edge d x y → edge (addEdges (crit_ids l) k d) x y) by (intros; apply He; by left).
  set (d' := addEdges _ k d) in *. clearbody d'. pose proof (rtc_mono _ _ Hold) as Hr.
  assert (Hlast : ∀ i a, i < k → txs !! i = Some a → conflict a None → tc (edge d') i k).
  { intros i a Hi Hti Hcf. assert (∃ p, p ∈ crit_ids l ∧ rtc (edge d) i p) as (p & Hp & Hip).
    { destruct a as [[|c a]|]; [done| |].
      - destruct (Hf i (c :: a) c) as (p & Hp & Hip); [done|done|by left|]. eauto using crit_get_ids.
      - destruct (Ha i EmptyString) as [(p & Hp & Hip) _]; [done|done|]. eauto using crit_get_ids. }
    eapply tc_rtc_l; [by apply Hr|]. apply tc_once. auto. }
  assert (Hreach : ∀ i a, i < k + 1 → txs !! i = Some a → conflict a None → rtc (edge d') i k).
  { intros i a Hi Hti Hcf. destruct (decide (i = k)) as [->|]; [done|]. apply tc_rtc. eapply Hlast; eauto. lia. }
  split; [done|by rewrite Htop'| | | |].
  - intros p [[c Hp]|Hp]%crit_ids_get; simpl in Hp; [unfold crit_get in Hp; simpl in Hp; rewrite lookup_empty in Hp|]; simplify_eq; lia.
  - intros i cs c Hi Hti Hin. exists k. split; [done|]. eapply Hreach; [done|done|]. simpl. intros ->. by apply elem_of_nil in Hin.
  - intros i c Hi Hti. split; exists k; (split; [done|]); by eapply Hreach.
  - intros i j a b Hij Hi Hj Hab. destruct (decide (j = k)) as [->|]; [|apply (tc_mono _ _ Hold); eapply Hc; eauto; lia].
    replace b with (@None (list string)) in Hab by congruence. eapply Hlast; eauto. lia.
Qed.

(** The graph that [init] builds. *)
Lemma init_edges_inv txs : init_inv txs (length txs) (init_edges txs).1 (init_edges txs).2.
Proof.
  assert (H : ∀ k, k <= length txs → let w := foldl init_step (mkCritical ∅ None, dag_init (length txs) newDAG)
    (take k (imap pair txs)) in init_inv txs k w.1 w.2).
  { induction k as [|k IH]; intros Hk; [rewrite take_0; apply init_start|].
    destruct (lookup_lt_is_Some_2 txs k) as [cs Hcs]; [lia|].
    rewrite (take_S_r _ _ (k, cs)) by (by rewrite list_lookup_imap, Hcs). rewrite foldl_app. simpl.
    specialize (IH ltac:(lia)). destruct (foldl _ _ (take k _)) as [l d]. rewrite <- Nat.add_1_r.
    destruct cs; [by apply init_step_fields|by apply init_step_all]. }
  specialize (H (length txs) ltac:(lia)). rewrite take_ge in H by (by rewrite length_imap). done.
Qed.

(** ** The threads' invariant *)

(** The edges a thread still has to release, the transaction it holds, and the
    executions it has not reported yet. *)
Definition rest (w : worker) : list nat := match w with WConsume _ es _ => es | _ => [] end.
Definition held (w : worker) : list nat :=
  match w with WExec _ i => [i] | WConsume _ _ next => option_list next | _ => [] end.
Definition count (w : worker) : nat :=
  match w with WPop c | WExec c _ | WConsume c _ _ | WAdd c => c | _ => 0 end.

Lemma sum_list_with_insert {A} (f : A → nat) k w w' ws :
  ws !! k = Some w → sum_list_with f (<[k := w']> ws) + f w = sum_list_with f ws + f w'.
Proof.
  intros Hk. rewrite <- (take_drop_middle _ _ _ Hk) at 2.
  rewrite insert_take_drop by (by eapply lookup_lt_Some). rewrite !sum_list_with_app. simpl. lia.
Qed.

Lemma held_split k w ws :
  ws !! k = Some w → ∃ R, ws ≫= held ≡ₚ held w ++ R ∧ ∀ w', <[k := w']> ws ≫= held ≡ₚ held w' ++ R.
Proof.
  intros Hk. exists ((take k ws ≫= held) ++ (drop (S k) ws ≫= held)).
  assert (H : ∀ w', <[k := w']> ws ≫= held ≡ₚ held w' ++ (take k ws ≫= held) ++ (drop (S k) ws ≫= held)).
  { intros w'. rewrite insert_take_drop by (by eapply lookup_lt_Some). rewrite bind_app. simpl.
    by rewrite Permutation_app_swap_app. }
  split; [|done]. rewrite <- (H w), list_insert_id by done. done.
Qed.

Lemma sum_ran_snoc (g : nat → nat) m ran i :
  i < m → i ∉ ran →
  sum_list_with (λ f, if decide (f ∈ ran) then 0 else g f) (seq 0 m)
  = sum_list_with (λ f, if decide (f ∈ ran ++ [i]) then 0 else g f) (seq 0 m) + g i.
Proof.
  intros Hi Hr. pose proof (sum_list_with_change (λ f, if decide (f ∈ ran) then 0 else g f)
    (λ f, if decide (f ∈ ran ++ [i]) then 0 else g f) i (seq 0 m) (NoDup_seq 0 m)
    ltac:(apply elem_of_seq; lia)) as Hc. cbv beta in Hc.
  rewrite (decide_False (P := i ∈ ran)), (decide_True (P := i ∈ ran ++ [i])) in Hc by set_solver.
  rewrite <- Hc; [lia|]. intros y Hy. destruct (decide (y ∈ ran)), (decide (y ∈ ran ++ [i])); set_solver.
Qed.

Section order.
Context (txs : list criticals).
Local Abbreviation n := (length txs).
Local Abbreviation d0 := (txDAG_init txs).

(** The edges to [t] not released yet: those of the transactions that have not run,
    and those the threads are releasing. *)
Definition pending (ws : list worker) (ran : list nat) (t : nat) : nat :=
  sum_list_with (λ f, if decide (f ∈ ran) then 0 else occ t (outs d0 f)) (seq 0 n)
  + sum_list_with (λ w, occ t (rest w)) ws.

(** A transaction with no edge left to it is queued, held by a thread, or has run. *)
Record dag_inv (d : DAG) (ws : list worker) (ran : list nat) : Prop := {
  di_outs : ∀ f, outs d f = outs d0 f;
  di_size : length (m_vtxs d) = n;
  di_total : m_totalVtxs d = n;
  di_degree : ∀ t, inDeg d t = pending ws ran t;
  di_nodup : NoDup (m_topLevel d ++ (ws ≫= held) ++ ran);
  di_tokens : ∀ t, t ∈ m_topLevel d ++ (ws ≫= held) ++ ran ↔ t < n ∧ inDeg d t = 0 }.

Lemma d0_wf : dag_wf n d0.
Proof. destruct (ii_wf _ _ _ _ (init_edges_inv txs)) as [H1 H2 H3 H4]. split; [exact H1|exact H2|exact H3|exact H4]. Qed.

Lemma d0_conflict i j a b :
  i < j → txs !! i = Some a → txs !! j = Some b → conflict a b → tc (edge d0) i j.
Proof. intros Hij Hi Hj. eapply (ii_conflict _ _ _ _ (init_edges_inv txs)); [|done..]. apply lookup_lt_Some in Hj. lia. Qed.

Lemma edge_lt i j : tc (edge d0) i j → i < j < n.
Proof. induction 1 as [i j H|i x j H _ IH]; apply (dw_forward _ _ d0_wf) in H; lia. Qed.

Lemma dag_inv_start k : dag_inv d0 (replicate k WCheck) [].
Proof.
  assert (Hh : replicate k WCheck ≫= held = []) by (induction k; [done|by simpl]).
  assert (Htop : m_topLevel d0 = filter (λ i, inDeg d0 i = 0) (seq 0 n)).
  { pose proof (ii_wf _ _ _ _ (init_edges_inv txs)) as Hw. unfold txDAG_init, generate. simpl.
    by rewrite (ii_top _ _ _ _ (init_edges_inv txs)), (dw_size _ _ Hw). }
  split; try apply d0_wf; [done| | |].
  - intros t. unfold pending. rewrite (dw_degree _ _ d0_wf). rewrite (proj2 (sum_list_with_zero (λ w, occ t (rest w)) _)).
    + rewrite Nat.add_0_r. apply sum_list_with_ext. intros f _. by rewrite decide_False by apply not_elem_of_nil.
    + intros w [-> _]%elem_of_replicate. done.
  - rewrite Hh, !app_nil_r, Htop. apply NoDup_filter, NoDup_seq.
  - intros t. rewrite Hh, !app_nil_r, Htop, list_elem_of_filter, elem_of_seq. lia.
Qed.

(** A step that releases no edge: the vertices and the tokens stay. *)
Lemma dag_inv_same d ws ran d' k w w' :
  dag_inv d ws ran → ws !! k = Some w → m_vtxs d' = m_vtxs d → m_totalVtxs d' = m_totalVtxs d →
  m_topLevel d ++ held w ≡ₚ m_topLevel d' ++ held w' → rest w = rest w' → dag_inv d' (<[k := w']> ws) ran.
Proof.
  intros [Ho Hs Ht Hd Hn Htok] Hk Hv Hv' Hp Hr. destruct (held_split k w ws Hk) as (R & HR & HR').
  assert (Hperm : m_topLevel d ++ (ws ≫= held) ++ ran ≡ₚ m_topLevel d' ++ (<[k := w']> ws ≫= held) ++ ran).
  { rewrite HR, HR', <- !app_assoc, (app_assoc (m_topLevel d)), Hp. by rewrite <- !app_assoc. }
  assert (Hi : ∀ t, inDeg d' t = inDeg d t) by (intros; unfold inDeg; by rewrite Hv).
  split; [intros f; rewrite <- Ho; unfold outs; by rewrite Hv|by rewrite Hv|by rewrite Hv'| | |].
  - intros t. rewrite Hi, Hd. unfold pending.
    pose proof (sum_list_with_insert (λ w, occ t (rest w)) k w w' ws Hk) as Hsum. cbv beta in Hsum. rewrite Hr in Hsum. lia.
  - by rewrite <- Hperm.
  - intros t. by rewrite <- Hperm, Hi.
Qed.

(** The transaction a thread holds is free, and has not run. *)
Lemma held_fresh d ws ran k c i :
  dag_inv d ws ran → ws !! k = Some (WExec c i) → i < n ∧ inDeg d i = 0 ∧ i ∉ ran.
Proof.
  intros [_ _ _ _ Hn Htok] Hk. destruct (held_split k _ ws Hk) as (R & HR & _). rewrite HR in Hn. simpl in Hn.
  destruct (proj1 (Htok i)) as [??]; [rewrite HR; simpl; rewrite elem_of_app; right; by left|].
  split_and!; [done|done|]. apply NoDup_app in Hn as (_ & _ & [Hn _]%NoDup_cons).
  intros Hin. apply Hn, elem_of_app. by right.
Qed.

(** Executing the transaction a thread holds. *)
Lemma dag_inv_exec d ws ran k c i :
  dag_inv d ws ran → ws !! k = Some (WExec c i) →
  dag_inv d (<[k := WConsume (c + 1) (outs d i) None]> ws) (ran ++ [i]).
Proof.
  intros Hinv Hk. destruct (held_fresh _ _ _ _ _ _ Hinv Hk) as (Hlt & _ & Hnr).
  destruct Hinv as [Ho Hs Ht Hd Hn Htok]. destruct (held_split k _ ws Hk) as (R & HR & HR').
  assert (Hperm : m_topLevel d ++ (ws ≫= held) ++ ran
    ≡ₚ m_topLevel d ++ (<[k := WConsume (c + 1) (outs d i) None]> ws ≫= held) ++ ran ++ [i]).
  { rewrite HR, HR'. simpl. f_equiv. by rewrite app_assoc, (Permutation_app_comm (R ++ ran)). }
  split; [done|done|done| |by rewrite <- Hperm|intros t; by rewrite <- Hperm].
  intros t. rewrite Hd. unfold pending.
  pose proof (sum_list_with_insert (λ w, occ t (rest w)) k _ (WConsume (c + 1) (outs d i) None) ws Hk) as Hsum.
  simpl in Hsum. rewrite occ_nil, Ho in Hsum. rewrite Ho.
  rewrite (sum_ran_snoc (λ f, occ t (outs d0 f)) n ran i) by done. lia.
Qed.

Lemma consume_edge_spec t next d :
  t < length (m_vtxs d) →
  let w := consume_edge t next d in
  (∀ f, outs w.1 f = outs d f) ∧ length (m_vtxs w.1) = length (m_vtxs d) ∧ m_totalVtxs w.1 = m_totalVtxs d
  ∧ (∀ u, inDeg w.1 u = if decide (u = t) then inDeg d t - 1 else inDeg d u)
  ∧ m_topLevel w.1 ++ option_list w.2 ≡ₚ (if decide (inDeg d t = 1) then [t] else []) ++ m_topLevel d ++ option_list next.
Proof.
  intros Ht. destruct (lookup_lt_is_Some_2 _ _ Ht) as [v Ev].
  set (d' := on_vertex (λ v, mkVertex (inDegree v - 1) (outEdge v)) t d).
  assert (Ho : ∀ f, outs d' f = outs d f).
  { intros f. unfold outs, d'. rewrite lookup_on_vertex. case_decide; subst; [by rewrite Ev|done]. }
  assert (Hi : ∀ u, inDeg d' u = if decide (u = t) then inDeg d t - 1 else inDeg d u).
  { intros u. unfold inDeg, d'. rewrite lookup_on_vertex. repeat case_decide; simplify_eq; [by rewrite Ev|done]. }
  assert (Hl : length (m_vtxs d') = length (m_vtxs d)) by (unfold d'; simpl; by rewrite length_alter).
  unfold consume_edge. fold d'. destruct (inDeg d t =? 1) eqn:E.
  - apply Nat.eqb_eq in E. rewrite (decide_True (P := inDeg d t = 1)) by done.
    destruct next as [x|]; simpl; (split_and!; [done|done|done|done|]); simpl; [solve_Permutation|].
    rewrite app_nil_r. by rewrite Permutation_app_comm.
  - apply Nat.eqb_neq in E. rewrite (decide_False (P := inDeg d t = 1)) by done. simpl. by split_and!.
Qed.

(** Releasing one edge. *)
Lemma dag_inv_consume d ws ran k c t es next :
  dag_inv d ws ran → ws !! k = Some (WConsume c (t :: es) next) →
  let w := consume_edge t next d in dag_inv w.1 (<[k := WConsume c es w.2]> ws) ran.
Proof.
  intros [Ho Hs Ht Hd Hn Htok] Hk w. destruct (held_split k _ ws Hk) as (R & HR & HR').
  assert (Hpos : 0 < inDeg d t).
  { rewrite Hd. unfold pending. rewrite <- (take_drop_middle _ _ _ Hk), sum_list_with_app. simpl.
    rewrite occ_cons, decide_True by done. lia. }
  assert (Hlt : t < length (m_vtxs d)).
  { unfold inDeg in Hpos. destruct (m_vtxs d !! t) eqn:E; [by eapply lookup_lt_Some|simpl in Hpos; lia]. }
  destruct (consume_edge_spec t next d Hlt) as (Ho' & Hs' & Ht' & Hi' & Hp). fold w in Ho', Hs', Ht', Hi', Hp.
  clearbody w. destruct w as [d' next']. simpl in *.
  assert (Hperm : m_topLevel d' ++ (<[k := WConsume c es next']> ws ≫= held) ++ ran
    ≡ₚ (if decide (inDeg d t = 1) then [t] else []) ++ m_topLevel d ++ (ws ≫= held) ++ ran).
  { rewrite HR, HR'. simpl. by rewrite <- !app_assoc, app_assoc, Hp, <- !app_assoc. }
  assert (Hnt : t ∉ m_topLevel d ++ (ws ≫= held) ++ ran) by (rewrite Htok; lia).
  split; [intros f; by rewrite Ho'|lia|lia| | |].
  - intros u. rewrite Hi'. pose proof (sum_list_with_insert (λ w, occ u (rest w)) k _ (WConsume c es next') ws Hk) as Hsum.
    simpl in Hsum. rewrite occ_cons in Hsum. pose proof (Hd u) as Hdu. unfold pending in *.
    repeat case_decide; simplify_eq; lia.
  - rewrite Hperm. case_decide; [by apply NoDup_cons|done].
  - intros u. rewrite Hperm, Hi', elem_of_app, Htok. repeat case_decide; subst; simpl;
      rewrite ?list_elem_of_singleton, ?elem_of_nil; lia.
Qed.

(** ** Runs *)

Context {S : Type} (exec : nat → S → S) (st0 : S).
Local Abbreviation run_txs := (foldl (λ st i, exec i st)).

Record sys_inv (s : system) : Prop := {
  si_dag : dag_inv (sys_dag s) (sys_workers s) (sys_ran s);
  si_count : sys_exeCnt s + sum_list_with count (sys_workers s) = length (sys_ran s);
  si_done : WDone ∈ sys_workers s → n ≤ sys_exeCnt s;
  si_state : sys_state s = run_txs st0 (sys_ran s);
  si_order : ∀ l1 j l2, sys_ran s = l1 ++ j :: l2 → ∀ i, edge d0 i j → i ∈ l1 }.

Lemma sys_inv_start threads : sys_inv (sys_start threads txs st0).
Proof.
  split; simpl; [apply dag_inv_start| | |done|].
  - apply sum_list_with_zero. by intros w [-> _]%elem_of_replicate.
  - by intros [? _]%elem_of_replicate.
  - intros l1 j l2 H. by apply app_cons_not_nil in H.
Qed.

(** A transaction held by a thread comes after those with an edge to it. *)
Lemma held_before d ws ran k c i :
  dag_inv d ws ran → ws !! k = Some (WExec c i) → ∀ f, edge d0 f i → f ∈ ran.
Proof.
  intros Hinv Hk f Hf. destruct (held_fresh _ _ _ _ _ _ Hinv Hk) as (_ & Hz & _).
  rewrite (di_degree _ _ _ Hinv) in Hz. unfold pending in Hz.
  assert (Hz' := proj1 (sum_list_with_zero (λ f, if decide (f ∈ ran) then 0 else occ i (outs d0 f)) (seq 0 n)) ltac:(lia) f).
  rewrite elem_of_seq in Hz'. pose proof (dw_forward _ _ d0_wf f i Hf).
  specialize (Hz' ltac:(lia)). cbv beta in Hz'. apply occ_pos in Hf. case_decide; [done|lia].
Qed.

Lemma order_snoc ran i :
  (∀ l1 j l2, ran = l1 ++ j :: l2 → ∀ f, edge d0 f j → f ∈ l1) → (∀ f, edge d0 f i → f ∈ ran) →
  ∀ l1 j l2, ran ++ [i] = l1 ++ j :: l2 → ∀ f, edge d0 f j → f ∈ l1.
Proof.
  intros Hold Hi l1 j l2 He f Hf. destruct l2 as [|x l2 _] using rev_ind.
  - apply app_inj_tail in He as [-> ->]. auto.
  - rewrite app_comm_cons, app_assoc in He. apply app_inj_tail in He as [He _]. eauto.
Qed.

Lemma sys_inv_step s s' : sys_inv s → sys_next exec s s' → sys_inv s'.
Proof.
  intros [Hd Hc Hf Hs Ho] [k Hk]. destruct s as [d m ws st ran]. simpl in *. unfold sys_step in Hk. simpl in Hk.
  apply bind_Some in Hk as (w & Hw & Hk). apply bind_Some in Hk as ([w' s1] & Hstep & Hk). simplify_eq.
  pose proof (sum_list_with_insert count k w w' ws Hw) as Hsum.
  assert (Hdone : w' ≠ WDone → WDone ∈ <[k := w']> ws → n ≤ m).
  { intros Hne Hin. apply Hf. apply list_elem_of_lookup in Hin as [j Hj].
    destruct (decide (j = k)) as [->|]; [rewrite list_lookup_insert_eq in Hj by (by eapply lookup_lt_Some); by simplify_eq|].
    rewrite list_lookup_insert_ne in Hj by done. by eapply list_elem_of_lookup_2. }
  destruct w as [|c|c i|c [|t es] next|c|]; simpl in Hstep; simplify_eq; simpl in *.
  - split; simpl; [|destruct (_ <=? _); simpl in Hsum; lia| |done|done].
    + eapply dag_inv_same; [done..| |]; by destruct (_ <=? _).
    + destruct (_ <=? _) eqn:E; [|by apply Hdone]. intros _. apply Nat.leb_le in E. by rewrite <- (di_total _ _ _ Hd).
  - unfold waitPop in Hstep. destruct (m_topLevel d) as [|i q] eqn:E; simplify_eq; simpl in *.
    + split; simpl; [|lia|by apply Hdone|done|done]. by eapply dag_inv_same.
    + split; simpl; [|lia|by apply Hdone|done|done]. eapply dag_inv_same; [done..| |done]. simpl. rewrite E. solve_Permutation.
  - split; simpl; [by apply dag_inv_exec|rewrite length_app; simpl; lia|by apply Hdone|by rewrite foldl_app|].
    apply order_snoc; [done|]. by eapply held_before.
  - split; simpl; [|destruct next; simpl in Hsum; lia|apply Hdone; by destruct next|done|done].
    eapply dag_inv_same; [done..| |]; by destruct next.
  - destruct (consume_edge t next d) as [d' next'] eqn:E. simplify_eq. simpl in *.
    split; simpl; [|lia|by apply Hdone|done|done].
    pose proof (dag_inv_consume _ _ _ _ _ _ _ _ Hd Hw) as H. simpl in H. by rewrite E in H.
  - split; simpl; [|lia|intros H; specialize (Hdone ltac:(done) H); lia|done|done]. by eapply dag_inv_same.
Qed.

Lemma sys_inv_reachable threads s : rtc (sys_next exec) (sys_start threads txs st0) s → sys_inv s.
Proof. apply rtc_ind_r; [apply sys_inv_start|]. intros; by eapply sys_inv_step. Qed.

Lemma ran_before s : sys_inv s → ∀ l1 j l2, sys_ran s = l1 ++ j :: l2 → ∀ i, tc (edge d0) i j → i ∈ l1.
Proof.
  intros Hi l1 j l2 He i H. revert l1 l2 He. induction H as [i j H|i x j H _ IH]; intros l1 l2 He.
  - by eapply (si_order _ Hi).
  - pose proof (IH _ _ He) as Hx. apply list_elem_of_split in Hx as (a & b & ->).
    rewrite <- app_assoc in He. simpl in He. pose proof (si_order _ Hi _ _ _ He _ H). apply elem_of_app. by left.
Qed.

Lemma ran_nodup s : sys_inv s → NoDup (sys_ran s) ∧ ∀ i, i ∈ sys_ran s → i < n.
Proof.
  intros [[_ _ _ _ Hn Ht] _ _ _ _]. split.
  - by apply NoDup_app in Hn as (_ & _ & (_ & _ & ?)%NoDup_app).
  - intros i Hi. apply (Ht i). rewrite !elem_of_app. auto.
Qed.

Lemma ran_submseteq s : sys_inv s → sys_ran s ⊆+ seq 0 n.
Proof.
  intros Hi. destruct (ran_nodup s Hi) as [Hn Hlt]. apply NoDup_submseteq; [done|].
  intros i H%Hlt. apply elem_of_seq. lia.
Qed.

Lemma ran_all s : sys_inv s → n ≤ length (sys_ran s) → sys_ran s ≡ₚ seq 0 n.
Proof. intros Hi Hl. apply submseteq_length_Permutation; [by apply ran_submseteq|]. by rewrite length_seq. Qed.

Lemma finished_ran s : sys_inv s → sys_workers s ≠ [] → finished s → sys_ran s ≡ₚ seq 0 n.
Proof.
  intros Hi Hne Hf. apply ran_all; [done|]. rewrite <- (si_count _ Hi).
  destruct (sys_workers s) as [|w ws] eqn:E; [done|]. assert (w = WDone) as -> by (apply Hf; rewrite E; by left).
  assert (n ≤ sys_exeCnt s) by (apply (si_done _ Hi); rewrite E; by left). lia.
Qed.

Lemma next_workers s s' : sys_next exec s s' → length (sys_workers s') = length (sys_workers s).
Proof.
  intros [k Hk]. destruct s as [d m ws st ran]. unfold sys_step in Hk. simpl in Hk.
  apply bind_Some in Hk as (w & Hw & Hk). apply bind_Some in Hk as ([w' s1] & Hstep & Hk). simplify_eq. simpl.
  rewrite length_insert. destruct w as [|c|c i|c [|t es] next|c|]; simpl in Hstep; simplify_eq; try done;
    [destruct (waitPop d) as [? []]|destruct (consume_edge t next d)]; by simplify_eq.
Qed.

Lemma reachable_workers threads s :
  rtc (sys_next exec) (sys_start threads txs st0) s → length (sys_workers s) = threads.
Proof.
  apply (rtc_ind_r (λ s, length (sys_workers s) = threads)); [apply length_replicate|].
  intros x y _ Hxy <-. by apply next_workers.
Qed.
End order.

(** Executing in any order that keeps the conflicting pairs gives the serial result. *)
Abbreviation keeps C := (StronglySorted (λ j i : nat, i < j → ¬ C i j)).

Lemma keeps_split C l1 x l2 : keeps C (l1 ++ x :: l2) → keeps C (l1 ++ l2) ∧ ∀ i, i ∈ l2 → i < x → ¬ C i x.
Proof.
  induction l1 as [|y l1 IH]; simpl.
  - intros [H1 H2]%StronglySorted_inv. split; [done|]. rewrite Forall_forall in H2. exact H2.
  - intros [[H1 H2]%IH H3]%StronglySorted_inv. split; [|done]. constructor; [done|].
    rewrite Forall_app, Forall_cons in H3. apply Forall_app. tauto.
Qed.

Lemma keeps_before C l :
  NoDup l → (∀ l1 j l2, l = l1 ++ j :: l2 → ∀ i, i < j → C i j → i ∈ l1) → keeps C l.
Proof.
  intros Hn H. assert (Hs : ∀ l1 l2, l = l1 ++ l2 → keeps C l2); [|by apply (Hs [])].
  intros l1 l2. revert l1. induction l2 as [|j l2 IH]; intros l1 He; constructor.
  - apply (IH (l1 ++ [j])). by rewrite <- app_assoc.
  - apply Forall_forall. intros i Hi Hij HC. pose proof (H _ _ _ He i Hij HC) as Hin.
    rewrite He in Hn. apply NoDup_app in Hn as (_ & Hn & _). apply (Hn i Hin). by right.
Qed.

Lemma reorder_serial {S} (exec : nat → S → S) (C : nat → nat → Prop) m l st :
  l ≡ₚ seq 0 m → keeps C l →
  (∀ i j, i < j < m → ¬ C i j → ∀ st, exec j (exec i st) = exec i (exec j st)) →
  foldl (λ st i, exec i st) st l = foldl (λ st i, exec i st) st (seq 0 m).
Proof.
  revert l. induction m as [|m IH]; intros l Hp Ho Hc; [by apply Permutation_nil_r in Hp as ->|].
  rewrite seq_S in *. simpl in *.
  assert (m ∈ l) as (l1 & l2 & ->)%list_elem_of_split by (rewrite Hp; apply elem_of_app; right; by left).
  assert (Hp' : l1 ++ l2 ≡ₚ seq 0 m).
  { apply (inj (m ::.)). rewrite Permutation_middle, Hp. by rewrite Permutation_app_comm. }
  apply keeps_split in Ho as [Ho Hm].
  assert (Hmove : ∀ l st, (∀ i, i ∈ l → i < m ∧ ¬ C i m) →
    foldl (λ st i, exec i st) (exec m st) l = exec m (foldl (λ st i, exec i st) st l)).
  { induction l as [|i l IHl]; intros st' Hl; [done|]. simpl. destruct (Hl i) as [Hi HC]; [by left|].
    rewrite <- (Hc i m) by (done || lia). apply IHl. intros j Hj. apply Hl. by right. }
  rewrite !foldl_app. simpl. rewrite Hmove, <- foldl_app.
  - f_equal. apply IH; [done|done|]. intros; apply Hc; [lia|done].
  - intros i Hi. assert (i < m) by (enough (i ∈ seq 0 m) as ?%elem_of_seq by lia; rewrite <- Hp'; apply elem_of_app; by right).
    split; [done|]. by apply Hm.
Qed.

(** ** Termination under a fair schedule *)

(** The threads scheduled one after the other; a thread that has left its loop does nothing. *)
Definition sys_run {S} (exec : nat → S → S) (sched : list nat) (s : system) : system :=
  foldl (λ s k, default s (sys_step exec k s)) s sched.

Definition weight (w : worker) : nat :=
  match w with WExec _ _ | WDone => 0 | WConsume _ es _ => length es + 2 | WCheck | WPop _ | WAdd _ => 1 end.

(** What is left to do. *)
Definition work {S} (txs : list criticals) (s : @system S) : nat :=
  sum_list_with (λ f, if decide (f ∈ sys_ran s) then 0 else length (outs (txDAG_init txs) f) + 4) (seq 0 (length txs))
  + sum_list_with weight (sys_workers s) + (length txs - sys_exeCnt s).

#[global] Instance worker_eq_dec : EqDecision worker.
Proof. solve_decision. Defined.

Section termination.
Context {S : Type} (exec : nat → S → S) (txs : list criticals) (st0 : S).
Local Abbreviation inv := (sys_inv txs exec st0).
Local Abbreviation with_worker k w s :=
  (mkSystem (sys_dag s) (sys_exeCnt s) (<[k := w]> (sys_workers s)) (sys_state s) (sys_ran s)).

(** A step that leaves the work as it is only waits. *)
Lemma step_work s k s' w :
  inv s → sys_workers s !! k = Some w → sys_step exec k s = Some s' →
  work txs s' < work txs s
  ∨ work txs s' = work txs s ∧ ∃ w', s' = with_worker k w' s
    ∧ ((w = WCheck ∧ w' = WPop 0 ∧ sys_exeCnt s < length txs)
       ∨ (∃ c, w = WPop c ∧ w' = WAdd c ∧ m_topLevel (sys_dag s) = []) ∨ (w = WAdd 0 ∧ w' = WCheck)).
Proof.
  intros Hi Hw Hs. pose proof (si_count _ _ _ _ Hi) as Hc. pose proof (submseteq_length _ _ (ran_submseteq _ _ _ _ Hi)) as Hn.
  rewrite length_seq in Hn. pose proof (ran_nodup _ _ _ _ Hi) as [Hnd _]. pose proof (si_dag _ _ _ _ Hi) as Hd.
  destruct s as [d m ws st ran]. unfold sys_step in Hs. simpl in *. rewrite Hw in Hs. simpl in Hs.
  apply bind_Some in Hs as ([w' s1] & Hstep & Hk).
  pose proof (sum_list_with_insert weight k w w' ws Hw) as Hsum.
  pose proof (sum_list_with_insert count k w WCheck ws Hw) as Hcnt. simplify_eq. unfold work. simpl.
  destruct w as [|c|c i|c [|t es] next|c|]; simpl in Hstep; simplify_eq; simpl in *.
  - destruct (m_totalVtxs d <=? m) eqn:E; simpl in Hsum; [left; lia|]. right. split; [lia|]. eexists. split; [done|].
    left. split_and!; [done|done|]. apply Nat.leb_gt in E. by rewrite (di_total _ _ _ _ Hd) in E.
  - unfold waitPop in Hstep. destruct (m_topLevel d) as [|i q] eqn:E; simplify_eq; simpl in *; [|left; lia].
    right. split; [lia|]. eexists. split; [done|]. eauto 10.
  - left. rewrite (di_outs _ _ _ _ Hd) in Hsum.
    destruct (held_fresh _ _ _ _ _ _ _ Hd Hw) as (Hlt & _ & Hnr).
    rewrite (sum_ran_snoc (λ f, length (outs (txDAG_init txs) f) + 4) _ ran i), (di_outs _ _ _ _ Hd) by done. lia.
  - left. destruct next; simpl in Hsum; lia.
  - destruct (consume_edge t next d). simplify_eq. simpl in *. left. lia.
  - destruct c as [|c]; [|left; lia]. right. rewrite Nat.add_0_r. split; [lia|]. eexists. split; [done|]. auto.
Qed.

Definition busy (w : worker) : Prop := match w with WExec _ _ | WConsume _ _ _ => True | _ => False end.

#[local] Instance busy_dec w : Decision (busy w).
Proof. destruct w; simpl; apply _. Defined.

(** After [δ] waiting steps thread [j] makes the work smaller. *)
Definition drives (s : @system S) (j δ : nat) : Prop := ∃ w, sys_workers s !! j = Some w ∧
  (busy w
   ∨ (m_topLevel (sys_dag s) ≠ [] ∧ match w with WPop _ => True | WCheck => 1 ≤ δ | WAdd _ => 2 ≤ δ | _ => False end)
   ∨ match w with WPop c => 0 < c ∧ 1 ≤ δ | WAdd c => 0 < c | _ => False end
   ∨ (length txs ≤ sys_exeCnt s ∧ match w with WCheck => True | WAdd _ => 1 ≤ δ | WPop _ => 2 ≤ δ | _ => False end)).

Lemma drives_step s j δ k :
  inv s → drives s j δ →
  let s' := default s (sys_step exec k s) in
  work txs s' < work txs s
  ∨ work txs s' = work txs s ∧ if decide (k = j) then 1 ≤ δ ∧ drives s' j (δ - 1) else drives s' j δ.
Proof.
  intros Hi (w & Hw & Hd) s'. unfold s'. clear s'.
  destruct (sys_step exec k s) as [s'|] eqn:E; simpl; [|right; split; [done|]].
  - destruct (sys_workers s !! k) as [wk|] eqn:Ek; [|unfold sys_step in E; by rewrite Ek in E].
    destruct (step_work s k s' wk Hi Ek E) as [?|(He & w' & -> & Hk)]; [by left|]. right. split; [done|].
    case_decide as Hkj; subst; unfold drives; simpl.
    + rewrite list_lookup_insert_eq by (by eapply lookup_lt_Some). simplify_eq.
      destruct Hk as [(-> & -> & Hlt)|[(c & -> & -> & Ht)|[-> ->]]]; simpl in Hd.
      * destruct Hd as [[]|[[Hq Hd]|[[]|[Hd _]]]]; [|lia]. split; [lia|]. eexists. split; [done|]. auto.
      * destruct Hd as [[]|[[Hq Hd]|[[Hc Hd]|[Hl Hd]]]]; [done| |]; (split; [lia|]); eexists; (split; [done|]).
        { auto. } { right; right; right. split; [done|lia]. }
      * destruct Hd as [[]|[[Hq Hd]|[Hc|[Hl Hd]]]]; [|lia|]; (split; [lia|]); eexists; (split; [done|]).
        { right; left. split; [done|lia]. } { auto. }
    + rewrite list_lookup_insert_ne by done. eauto.
  - case_decide as Hkj; subst; [|by exists w]. exfalso. unfold sys_step in E. rewrite Hw in E. simpl in E.
    destruct s as [d m ws st ran]. destruct w as [|c|c i|c [|t es] next|c|]; simpl in *; try done.
    + destruct (waitPop d) as [? []]; done.
    + destruct (consume_edge t next d); done.
    + naive_solver.
Qed.

Lemma run_inv sched s : inv s → inv (sys_run exec sched s).
Proof.
  revert s. induction sched as [|k sched IH]; intros s Hi; [done|]. apply IH.
  destruct (sys_step exec k s) as [s'|] eqn:E; simpl; [|done]. eapply sys_inv_step; [done|]. by exists k.
Qed.

Lemma run_work sched s : inv s → work txs (sys_run exec sched s) ≤ work txs s.
Proof.
  revert s. induction sched as [|k sched IH]; intros s Hi; [done|]. change (sys_run exec (k :: sched) s)
    with (sys_run exec sched (default s (sys_step exec k s))). destruct (sys_step exec k s) as [s'|] eqn:E; simpl; [|auto].
  pose proof (IH s' ltac:(eapply sys_inv_step; [done|by exists k])).
  destruct (sys_workers s !! k) as [w|] eqn:Ek; [|unfold sys_step in E; by rewrite Ek in E].
  destruct (step_work s k s' w Hi Ek E) as [?|[? _]]; lia.
Qed.

Lemma drives_run sched s j δ :
  inv s → drives s j δ → δ < occ j sched → work txs (sys_run exec sched s) < work txs s.
Proof.
  revert s δ. induction sched as [|k sched IH]; intros s δ Hi Hd Ho; [rewrite occ_nil in Ho; lia|].
  change (sys_run exec (k :: sched) s) with (sys_run exec sched (default s (sys_step exec k s))).
  pose proof (drives_step s j δ k Hi Hd) as Hs. rewrite occ_cons in Ho. cbv zeta in Hs.
  assert (Hi' : inv (default s (sys_step exec k s))) by (apply (run_inv [k] s Hi)).
  set (s' := default s (sys_step exec k s)) in *. clearbody s'.
  destruct Hs as [Hs|[He Hs]]; [pose proof (run_work sched s' Hi'); lia|]. rewrite <- He.
  case_decide; [destruct Hs as [? Hs]|]; eapply IH; try done; lia.
Qed.

(** No wake-up is lost: when the queue is empty and no thread is busy, all has run. *)
Lemma idle_all s :
  inv s → (∀ w, w ∈ sys_workers s → ¬ busy w) → m_topLevel (sys_dag s) = [] → length txs ≤ length (sys_ran s).
Proof.
  intros Hi Hb Hq. pose proof (si_dag _ _ _ _ Hi) as Hd.
  assert (Hidle : ∀ w, w ∈ sys_workers s → held w = [] ∧ rest w = []).
  { intros w Hw. specialize (Hb w Hw). by destruct w. }
  assert (Hh : sys_workers s ≫= held = []).
  { clear -Hidle. induction (sys_workers s) as [|w ws IH]; [done|]. simpl.
    rewrite (proj1 (Hidle w ltac:(by left))). apply IH. intros w' Hw'. apply Hidle. by right. }
  assert (Hall : ∀ t, t < length txs → t ∈ sys_ran s).
  { intros t. induction (lt_wf t) as [t _ IH]. intros Ht.
    enough (Htok : t ∈ m_topLevel (sys_dag s) ++ (sys_workers s ≫= held) ++ sys_ran s) by (by rewrite Hq, Hh in Htok).
    apply (di_tokens _ _ _ _ Hd). split; [done|]. rewrite (di_degree _ _ _ _ Hd). unfold pending.
    rewrite (proj2 (sum_list_with_zero _ (seq 0 _))), (proj2 (sum_list_with_zero _ (sys_workers s))); [done| |].
    - intros w [_ ->]%Hidle. done.
    - intros f [_ Hf]%elem_of_seq. case_decide as Hr; [done|]. destruct (decide (occ t (outs (txDAG_init txs) f) = 0)) as [|Ho]; [done|].
      exfalso. apply Hr, IH; [|done]. apply (dw_forward _ _ (d0_wf txs) f t), occ_pos. lia. }
  rewrite <- (length_seq (length txs) 0). apply submseteq_length, NoDup_submseteq; [apply NoDup_seq|].
  intros t Ht%elem_of_seq. apply Hall. lia.
Qed.

Lemma drives_exists s : inv s → ¬ finished s → ∃ j, j < length (sys_workers s) ∧ drives s j 2.
Proof.
  intros Hi Hf.
  assert (Hex : ∀ P : worker → Prop, (∃ w, w ∈ sys_workers s ∧ P w) →
    (∀ j w, sys_workers s !! j = Some w → P w → drives s j 2) → ∃ j, j < length (sys_workers s) ∧ drives s j 2).
  { intros P (w & [j Hj]%list_elem_of_lookup & HP) H. exists j. split; [by eapply lookup_lt_Some|eauto]. }
  destruct (decide (Exists busy (sys_workers s))) as [H|H].
  { apply Exists_exists in H. apply (Hex busy H). intros j w Hj Hw. exists w. auto. }
  assert (Hb : ∀ w, w ∈ sys_workers s → ¬ busy w) by (intros w Hw Hbw; apply H, Exists_exists; eauto).
  assert (Hlive : ∃ w, w ∈ sys_workers s ∧ w ≠ WDone).
  { destruct (decide (Exists (λ w, w ≠ WDone) (sys_workers s))) as [Hl|Hl]; [by apply Exists_exists in Hl|].
    exfalso. apply Hf. intros w Hw. destruct (decide (w = WDone)); [done|]. exfalso. apply Hl, Exists_exists. eauto. }
  destruct (decide (m_topLevel (sys_dag s) = [])) as [Hq|Hq].
  - pose proof (idle_all s Hi Hb Hq) as Hn. pose proof (si_count _ _ _ _ Hi) as Hc.
    destruct (decide (length txs ≤ sys_exeCnt s)) as [Hl|Hl].
    + apply (Hex _ Hlive). intros j w Hj Hw. exists w. split; [done|]. right; right; right. split; [done|].
      pose proof (Hb w (list_elem_of_lookup_2 _ _ _ Hj)). destruct w; simpl in *; try done; lia.
    + apply (Hex (λ w, 0 < count w)).
      * destruct (decide (Exists (λ w, 0 < count w) (sys_workers s))) as [He|He]; [by apply Exists_exists in He|].
        exfalso. enough (sum_list_with count (sys_workers s) = 0) by lia. apply sum_list_with_zero. intros w Hw.
        destruct (decide (count w = 0)); [done|]. exfalso. apply He, Exists_exists. exists w. split; [done|lia].
      * intros j w Hj Hw. exists w. split; [done|]. right; right; left.
        pose proof (Hb w (list_elem_of_lookup_2 _ _ _ Hj)). destruct w; simpl in *; try done; lia.
  - apply (Hex _ Hlive). intros j w Hj Hw. exists w. split; [done|]. right; left. split; [done|].
    pose proof (Hb w (list_elem_of_lookup_2 _ _ _ Hj)). destruct w; simpl in *; try done; lia.
Qed.

Lemma occ_concat j ps : (∀ p, p ∈ ps → j ∈ p) → length ps ≤ occ j (concat ps).
Proof.
  induction ps as [|p ps IH]; intros H; [done|]. simpl. rewrite occ_app.
  assert (0 < occ j p) by (apply occ_pos, H; by left). specialize (IH ltac:(intros q Hq; apply H; by right)). lia.
Qed.

Lemma run_length sched s : length (sys_workers (sys_run exec sched s)) = length (sys_workers s).
Proof.
  revert s. induction sched as [|k sched IH]; intros s; [done|]. change (sys_run exec (k :: sched) s)
    with (sys_run exec sched (default s (sys_step exec k s))). rewrite IH.
  destruct (sys_step exec k s) as [s'|] eqn:E; [|done]. eapply (next_workers exec). by exists k.
Qed.

Lemma run_finished sched s : finished s → sys_run exec sched s = s.
Proof.
  intros Hf. induction sched as [|k sched IH]; [done|]. unfold sys_run. simpl. unfold sys_step at 2.
  destruct (sys_workers s !! k) as [w|] eqn:E; [|done].
  assert (w = WDone) as -> by (by eapply Hf, list_elem_of_lookup_2). simpl. destruct s. done.
Qed.

(** Three passes over the threads for each unit of work are enough. *)
Lemma passes_finish m passes s :
  inv s → work txs s ≤ m → 3 * m ≤ length passes →
  (∀ p k, p ∈ passes → k < length (sys_workers s) → k ∈ p) → finished (sys_run exec (concat passes) s).
Proof.
  revert passes s. induction m as [|m IH]; intros passes s Hi Hm Hl Hp;
    destruct (decide (Forall (λ w, w = WDone) (sys_workers s))) as [Hf|Hf].
  1,3: rewrite Forall_forall in Hf; by rewrite run_finished.
  all: assert (Hnf : ¬ finished s) by (intros H; apply Hf, Forall_forall, H).
  all: destruct (drives_exists s Hi Hnf) as (j & Hj & Hd).
  - pose proof (drives_run [j; j; j] s j 2 Hi Hd). rewrite !occ_cons, !decide_True in H by done. lia.
  - rewrite <- (take_drop 3 passes), concat_app. unfold sys_run. rewrite foldl_app.
    fold (sys_run exec (concat (take 3 passes)) s). fold (sys_run exec (concat (drop 3 passes))
      (sys_run exec (concat (take 3 passes)) s)).
    pose proof (drives_run (concat (take 3 passes)) s j 2 Hi Hd) as H.
    pose proof (occ_concat j (take 3 passes)) as Ho. rewrite length_take in Ho.
    assert (Hj' : ∀ p, p ∈ take 3 passes → j ∈ p).
    { intros p (i & Hin & _)%elem_of_take. by eapply Hp; [eapply list_elem_of_lookup_2|]. }
    specialize (Ho Hj').
    apply IH; [by apply run_inv|lia|rewrite length_drop; lia|].
    intros p k Hin. rewrite run_length. apply Hp.
    rewrite <- (take_drop 3 passes). apply elem_of_app. by right.
Qed.
End termination.

Lemma run_reachable {S} (exec : nat → S → S) sched s : rtc (sys_next exec) s (sys_run exec sched s).
Proof.
  revert s. induction sched as [|k sched IH]; intros s; [done|].
  change (sys_run exec (k :: sched) s) with (sys_run exec sched (default s (sys_step exec k s))).
  destruct (sys_step exec k s) as [s'|] eqn:E; [|apply IH]. eapply rtc_l; [by exists k|apply IH].
Qed.

(** The state of a finished run is that of the serial execution. *)
Lemma finished_serial {S} (exec : nat → S → S) txs st0 s :
  sys_inv txs exec st0 s → sys_workers s ≠ [] → finished s →
  (∀ i j a b, i < j → txs !! i = Some a → txs !! j = Some b → ¬ conflict a b →
     ∀ st, exec j (exec i st) = exec i (exec j st)) →
  sys_state s = foldl (λ st i, exec i st) st0 (seq 0 (length txs)).
Proof.
  intros Hi Hw Hf Hc. rewrite (si_state _ _ _ _ Hi).
  set (C i j := ∃ a b, txs !! i = Some a ∧ txs !! j = Some b ∧ conflict a b).
  apply (reorder_serial exec C); [by eapply finished_ran| |].
  - apply keeps_before; [by eapply ran_nodup|]. intros l1 j l2 He i Hij (a & b & Ha & Hb & Hab).
    eapply ran_before; [done..|]. by eapply d0_conflict.
  - intros i j Hij HC st. destruct (lookup_lt_is_Some_2 txs i) as [a Ha]; [lia|].
    destruct (lookup_lt_is_Some_2 txs j) as [b Hb]; [lia|].
    eapply Hc; [lia|done|done|]. intros Hab. apply HC. by exists a, b.
Qed.

Lemma reachable_nonempty {S} (exec : nat → S → S) txs threads st0 s :
  0 < threads → rtc (sys_next exec) (sys_start threads txs st0) s → sys_workers s ≠ [].
Proof. intros Ht Hr E. apply reachable_workers in Hr. rewrite E in Hr. simpl in Hr. lia. Qed.

(** ** The execution of a block *)

(** C26. In every interleaving of the threads no transaction is executed twice, the
    state is that of the transactions executed so far in the order of their execution,
    and a transaction is executed only after every earlier one of the block that
    conflicts with it. *)
Theorem parallel_order {S} (exec : nat → S → S) txs threads st0 s :
  rtc (sys_next exec) (sys_start threads txs st0) s →
  NoDup (sys_ran s) ∧ (∀ i, i ∈ sys_ran s → i < length txs)
  ∧ sys_state s = foldl (λ st i, exec i st) st0 (sys_ran s)
  ∧ ∀ l1 j l2, sys_ran s = l1 ++ j :: l2 → ∀ i a b,
      i < j → txs !! i = Some a → txs !! j = Some b → conflict a b → i ∈ l1.
Proof.
  intros Hi%sys_inv_reachable. destruct (ran_nodup _ _ _ _ Hi) as [Hn Hlt].
  split_and!; [done|done|apply Hi|]. intros l1 j l2 He i a b Hij Ha Hb Hab.
  eapply ran_before; [done..|]. by eapply d0_conflict.
Qed.

(** When all the threads have left their loops, every transaction of the block has
    been executed once, and if transactions that do not conflict commute, the state is
    the one that executing them one after the other in the order of the block gives,
    whatever the interleaving was. *)
Theorem parallel_serial {S} (exec : nat → S → S) txs threads st0 s :
  0 < threads → rtc (sys_next exec) (sys_start threads txs st0) s → finished s →
  (∀ i j a b, i < j → txs !! i = Some a → txs !! j = Some b → ¬ conflict a b →
     ∀ st, exec j (exec i st) = exec i (exec j st)) →
  sys_ran s ≡ₚ seq 0 (length txs) ∧ sys_state s = foldl (λ st i, exec i st) st0 (seq 0 (length txs)).
Proof.
  intros Ht Hr Hf Hc. pose proof (sys_inv_reachable _ _ _ _ _ Hr) as Hi.
  pose proof (reachable_nonempty _ _ _ _ _ Ht Hr). split; [by eapply finished_ran|by eapply finished_serial].
Qed.


(** Three transactions, of which the first and the last share a field. *)
Definition sampleCriticals : list criticals := [Some ["a"%string]; Some ["b"%string]; Some ["a"%string]].
Definition sampleExec (i : nat) (st : nat * nat) : nat * nat :=
  let '(a, b) := st in if i =? 0 then (a + 1, b) else if i =? 1 then (a, b + 1) else (2 * a, b).
Definition samplePasses : list (list nat) := replicate 54 [1; 0].

Lemma parallel_order_witness :
  sys_ran (sys_run sampleExec [1; 1; 1; 0; 0; 0; 1; 1; 1] (sys_start 2 sampleCriticals (1, 1))) = [0; 1; 2]
  ∧ 0 ∈ [0; 1].
Proof.
  split; [vm_compute; reflexivity|].
  destruct (parallel_order sampleExec sampleCriticals 2 (1, 1)
    (sys_run sampleExec [1; 1; 1; 0; 0; 0; 1; 1; 1] (sys_start 2 sampleCriticals (1, 1)))
    (run_reachable _ _ _)) as (_ & _ & _ & H).
  apply (H [0; 1] 2 [] ltac:(vm_compute; reflexivity) 0 (Some ["a"%string]) (Some ["a"%string]));
    [lia|reflexivity|reflexivity|]. exists "a"%string. split; by left.
Defined.

Lemma sample_commute i j a b :
  i < j → sampleCriticals !! i = Some a → sampleCriticals !! j = Some b → ¬ conflict a b →
  ∀ st, sampleExec j (sampleExec i st) = sampleExec i (sampleExec j st).
Proof.
  intros Hij Ha Hb Hc [x y]. apply lookup_lt_Some in Hb as Hj. simpl in Hj.
  destruct j as [|[|[|]]]; [lia|destruct i as [|]; [done|lia]|destruct i as [|[|]]; [|done|lia]|lia].
  simpl in *. simplify_eq. destruct Hc. exists "a"%string. split; by left.
Qed.

Lemma parallel_serial_witness :
  sys_state (sys_run sampleExec (concat samplePasses) (sys_start 2 sampleCriticals (1, 1))) = (4, 2).
Proof.
  apply (parallel_serial sampleExec sampleCriticals 2 (1, 1)
    (sys_run sampleExec (concat samplePasses) (sys_start 2 sampleCriticals (1, 1))));
    [lia|apply run_reachable| |exact sample_commute].
  intros w Hw. vm_compute in Hw. set_solver.
Defined.


(** A transaction with no critical field is not ordered after a normal one, although a
    normal transaction is meant to conflict with all. *)
Lemma empty_criticals_unordered : m_topLevel (txDAG_init [None; Some []; None]) = [0; 1].
Proof. vm_compute. reflexivity. Qed.
