(* ===== verification/ABI.v ===== *)
(** * The contract ABI (libethcore/ABI.h, ABI.cpp; libprecompiled/Common.cpp)

    Arguments and results of contract calls as byte strings.  The overloads of
    [serialise] and [deserialise] are one function by recursion on the type; the
    templates' type functions are functions of the type.  Offsets are [size_t] and wrap
    at 64 bits; a [u256] cast to [size_t] keeps its low bits.  A [std::string] is a
    [string], an [Address] the integer of its bytes, a [string32] its bytes. *)
From stdpp Require Import pretty.
From S2P Require Import Prelude CommonData RLP Crypto.
Local Open Scope Z_scope.

(** ** Types and values *)

Inductive abi_type :=
| TUint | TInt | TBool | TAddress | TString32 | TString
| TArray (n : nat) (t : abi_type)        (* std::array<T, N> *)
| TVector (t : abi_type).                (* std::vector<T> *)

Fixpoint val (t : abi_type) : Type :=
  match t with
  | TUint | TInt | TAddress => Z
  | TBool => bool
  | TString32 => bytes
  | TString => string
  | TArray _ t | TVector t => list (val t)
  end.

(** [ABIDynamicType<T>] and [Offset<T>] ([Length<T>]). *)
Fixpoint isDynamic (t : abi_type) : bool :=
  match t with TString | TVector _ => true | TArray _ t => isDynamic t | _ => false end.
Fixpoint offsetOf (t : abi_type) : Z :=
  match t with TArray n t' => if isDynamic t' then 1 else Z.of_nat n * offsetOf t' | _ => 1 end.

(** An argument with its type. *)
Abbreviation arg := (sigT val).

Definition MAX_BYTE_LENGTH : Z := 32.

(** [std::size_t] arithmetic. *)
Definition size_t (z : Z) : Z := wrapU 64 z.

Definition stringBytes (s : string) : bytes := String.list_byte_of_string s.

(** ** [serialise] *)

(** [h256(u).asBytes()]. *)
Definition serialise_u256 (u : Z) : bytes := hashBytes 32 (wrapU 256 u).

(** The loop of both array overloads, from [length]. *)
Definition serialise_elements (dyn : bool) (length : Z) (outs : list bytes) : bytes * bytes :=
  let '(offset_bytes, content, _) :=
    foldl (λ '(o, c, length) out,
      if dyn then (o ++ serialise_u256 length, c ++ out, size_t (length + zlen out)) else (o, c ++ out, length))
      ([], [], length) outs in
  (offset_bytes, content).

Fixpoint serialise (t : abi_type) : val t → bytes :=
  match t with
  | TUint => λ u, serialise_u256 u
  | TInt => λ s, serialise_u256 (wrapU 256 s)
  | TBool => λ b, serialise_u256 (if b : bool then 1 else 0)
  | TAddress => λ a, replicate 12 Byte.x00 ++ hashBytes 20 a
  | TString32 => λ s, s
  | TString => λ s,
      let b := stringBytes s in
      take (Z.to_nat (32 + (zlen b + 31) / MAX_BYTE_LENGTH * MAX_BYTE_LENGTH))
        (serialise_u256 (zlen b) ++ b ++ replicate 32 Byte.x00)
  | TArray n t => λ l,
      let '(o, c) := serialise_elements (isDynamic t) (Z.of_nat n * MAX_BYTE_LENGTH) (serialise t <$> l) in o ++ c
  | TVector t => λ l,
      let '(o, c) := serialise_elements (isDynamic t) (@zlen (val t) l * MAX_BYTE_LENGTH) (serialise t <$> l) in
      serialise_u256 (@zlen (val t) l) ++ o ++ c
  end.

(** ** [deserialise] *)

(** The exceptions: [std::length_error]. *)
Inductive abi_exn := LengthError.

Section deserialise.
Context (data : bytes).

Definition validOffset (offset : Z) : result abi_exn unit := throw_if (zlen data <=? size_t offset) LengthError.

Definition read_word (offset : Z) : result abi_exn Z :=
  _ ← validOffset (offset + MAX_BYTE_LENGTH - 1);
  Ok (fromBigEndian T_u256 (cropped data offset MAX_BYTE_LENGTH)).

Definition deserialise_int (u : Z) : Z :=
  if u >? 0x8fffffffffffffffffffffffffffffffffffffffffffffffffffffffffffffff
  then - wrapU 256 (0xffffffffffffffffffffffffffffffffffffffffffffffffffffffffffffffff - u + 1)
  else u.

(** [thisOffset] of the element [u]. *)
Definition elementOffset (dyn : bool) (stride offset u : Z) : result abi_exn Z :=
  if dyn then
    thisEleOffset ← read_word (size_t (offset + u * stride * MAX_BYTE_LENGTH));
    Ok (size_t (offset + size_t thisEleOffset))
  else Ok (size_t (offset + u * stride * MAX_BYTE_LENGTH)).

(** The loop of both array overloads, from the index [u], with [n] rounds left. *)
Fixpoint deserialise_elements {A} (dyn : bool) (stride : Z) (elem : Z → result abi_exn A) (offset u : Z) (n : nat)
  : result abi_exn (list A) :=
  match n with
  | O => Ok []
  | S n =>
      thisOffset ← elementOffset dyn stride offset u;
      v ← elem thisOffset;
      vs ← deserialise_elements dyn stride elem offset (u + 1) n;
      Ok (v :: vs)
  end.

Fixpoint deserialise (t : abi_type) (offset : Z) : result abi_exn (val t) :=
  match t as t return result abi_exn (val t) with
  | TUint => read_word offset
  | TInt => u ← read_word offset; Ok (deserialise_int u)
  | TBool => u ← read_word offset; Ok (u >? 0)
  | TAddress =>
      _ ← validOffset (offset + MAX_BYTE_LENGTH - 1);
      Ok (fromBigEndian T_u160 (cropped data (size_t (offset + MAX_BYTE_LENGTH - 20)) 20))
  | TString32 =>
      _ ← validOffset (offset + MAX_BYTE_LENGTH - 1);
      Ok (take 32 (cropped data offset MAX_BYTE_LENGTH ++ replicate 32 Byte.x00))
  | TString =>
      len ← read_word offset;
      _ ← validOffset (offset + MAX_BYTE_LENGTH + size_t len - 1);
      Ok (String.string_of_list_byte (cropped data (size_t (offset + MAX_BYTE_LENGTH)) (size_t len)))
  | TArray n t => deserialise_elements (isDynamic t) (offsetOf t) (deserialise t) offset 0 n
  | TVector t =>
      length ← read_word offset;
      deserialise_elements (isDynamic t) (offsetOf t) (deserialise t) (size_t (offset + MAX_BYTE_LENGTH)) 0
        (Z.to_nat (size_t length))
  end.

(** ** [abiOut] *)

(** The value a variable of the type starts with. *)
Fixpoint initial (t : abi_type) : val t :=
  match t as t return val t with
  | TUint | TInt | TAddress => 0
  | TBool => false
  | TString32 => replicate 32 Byte.x00
  | TString => EmptyString
  | TArray n t => replicate n (initial t)
  | TVector t => []
  end.

(** [abiOutAux] from [offset]; after an exception the arguments left keep the value they
    had (an array may be left partly filled; here it is not). *)
Fixpoint abiOutAux (ts : list abi_type) (offset : Z) : bool * list arg :=
  match ts with
  | [] => (true, [])
  | t :: ts' =>
      match
        (offset' ← (if isDynamic t then d ← read_word offset; Ok (size_t d) else Ok offset);
         deserialise t offset')
      with
      | Ok v =>
          let '(b, vs) := abiOutAux ts' (size_t (offset + offsetOf t * MAX_BYTE_LENGTH)) in
          (b, existT t v :: vs)
      | Throw _ => (false, (λ t, existT t (initial t)) <$> ts)
      end
  end.
Definition abiOut (ts : list abi_type) : bool * list arg := abiOutAux ts 0.

(** [abiOutByFuncSelector]: a failed read throws, an unknown type gives [false]. *)
Fixpoint abiOutBy (ts : list string) (offset : Z) (out : list string) : result abi_exn (bool * list string) :=
  match ts with
  | [] => Ok (true, out)
  | type :: ts' =>
      let next s := abiOutBy ts' (size_t (offset + MAX_BYTE_LENGTH)) (out ++ [s]) in
      if bool_decide (type = "int" ∨ type = "int256")%string then
        s ← deserialise TInt offset; next (pretty s)
      else if bool_decide (type = "uint" ∨ type = "uint256")%string then
        u ← deserialise TUint offset; next (pretty u)
      else if bool_decide (type = "address")%string then
        a ← deserialise TAddress offset; next (toHex (hashBytes 20 a))
      else if bool_decide (type = "string")%string then
        stringOffset ← read_word offset;
        str ← deserialise TString (size_t stringOffset); next str
      else Ok (false, out)
  end.
Definition abiOutByFuncSelector (ts : list string) : result abi_exn (bool * list string) := abiOutBy ts 0 [].
End deserialise.

(** ** [abiIn] *)

(** [abiInAux] on the members [offset], [fixed] and [dynamic]. *)
Definition abiInAux (args : list arg) (w : Z * bytes * bytes) : Z * bytes * bytes :=
  foldl (λ '(offset, fixed, dynamic) (a : arg),
    let out := serialise (projT1 a) (projT2 a) in
    if isDynamic (projT1 a)
    then (size_t (offset + zlen out), fixed ++ serialise_u256 offset, dynamic ++ out)
    else (offset, fixed ++ out, dynamic)) w args.

(** [Offset<T...>]. *)
Definition offsets (ts : list abi_type) : Z := foldr (λ t n, offsetOf t + n) 0 ts.

Section crypto.
Context `{Crypto}.

(** [abiIn]; the function selector is the first four bytes of the hash of the signature. *)
Definition abiIn (sig : string) (args : list arg) : bytes :=
  let '(_, fixed, dynamic) := abiInAux args (offsets (projT1 <$> args) * MAX_BYTE_LENGTH, [], []) in
  if bool_decide (sig = EmptyString) then fixed ++ dynamic
  else take 4 (hashBytes 32 (Hash (stringBytes sig))) ++ fixed ++ dynamic.

(** ** Function selectors (libprecompiled/Common.cpp) *)

(** A [uint32_t] read from memory in the order of the machine. *)
Definition read32 (b : bytes) : Z := foldr (λ x n, byte.unsigned x + n * 256) 0 b.

Definition swap32 (func : Z) : Z :=
  Z.lor (Z.lor (Z.lor (wrapU 32 (Z.shiftl (Z.land func 0x000000FF) 24)) (wrapU 32 (Z.shiftl (Z.land func 0x0000FF00) 8)))
    (Z.shiftr (Z.land func 0x00FF0000) 8)) (Z.shiftr (Z.land func 0xFF000000) 24).

(** [getParamFunc]; when the data is shorter than four bytes [cropped] gives a null
    reference and the code reads through it, which is [None]. *)
Definition getParamFunc (param : bytes) : option Z :=
  match cropped param 0 4 with
  | [] => None
  | b => Some (swap32 (read32 b))
  end.
Definition getParamData (param : bytes) : bytes := croppedFrom param 4.
Definition getFuncSelectorByFunctionName (name : string) : Z :=
  swap32 (read32 (take 4 (hashBytes 32 (Hash (stringBytes name))))).
End crypto.

(** ** Layout *)

(** The values the encoding can carry; integers below [-7 * 2^252] are read back wrong. *)
Fixpoint val_ok (t : abi_type) : val t → Prop :=
  match t with
  | TUint => λ u, 0 ≤ u < 2 ^ 256
  | TInt => λ s, - (7 * 2 ^ 252) ≤ s < 2 ^ 255
  | TBool => λ _, True
  | TAddress => λ a, 0 ≤ a < 2 ^ 160
  | TString32 => λ s, length s = 32%nat
  | TString => λ _, True
  | TArray n t => λ l, @length (val t) l = n ∧ Forall (val_ok t) l
  | TVector t => λ l, @zlen (val t) l < 2 ^ 64 ∧ Forall (val_ok t) l
  end.

Lemma size_t_id z : 0 ≤ z < 2 ^ 64 → size_t z = z.
Proof. apply wrapU_id. Qed.

Lemma zlen_word u : zlen (serialise_u256 u) = 32.
Proof. apply zlen_toBigEndian. Qed.

Lemma cropped_mid a b c : cropped (a ++ b ++ c) (zlen a) (zlen b) = b.
Proof.
  unfold cropped. zsize. replace (_ && _ && _) with true by (symmetry; lia).
  by rewrite !zlen_to_nat, drop_app_length, take_app_length.
Qed.

Lemma validOffset_ok data o : 0 ≤ o < zlen data → zlen data < 2 ^ 64 → validOffset data o = Ok tt.
Proof. intros Ho Hd. unfold validOffset. rewrite size_t_id by lia. unfold throw_if. by rewrite (proj2 (Z.leb_gt _ _)) by lia. Qed.

Lemma read_word_at pre u post :
  zlen (pre ++ serialise_u256 u ++ post) < 2 ^ 64 →
  read_word (pre ++ serialise_u256 u ++ post) (zlen pre) = Ok (wrapU 256 u).
Proof.
  intros Hl. pose proof (zlen_word u) as Hw. unfold read_word. rewrite validOffset_ok.
  - cbn [mbind result_bind]. f_equal. change MAX_BYTE_LENGTH with 32. rewrite <- Hw, cropped_mid, fromBigEndian_val.
    unfold serialise_u256, hashBytes. rewrite be_val_toBigEndian. cbn [castT]. change (256 ^ Z.of_nat 32) with (2 ^ 256).
    fold (wrapU 256 (wrapU 256 u)). by rewrite !wrapU_idemp.
  - unfold MAX_BYTE_LENGTH. rewrite !zlen_app, Hw. zsize.
  - done.
Qed.

Lemma isDynamic_offset t : isDynamic t = true → offsetOf t = 1.
Proof. induction t; simpl; try done. by intros ->. Qed.

Lemma offsetOf_nonneg t : 0 ≤ offsetOf t.
Proof. induction t; simpl; try lia. destruct (isDynamic t); lia. Qed.

Lemma elements_static L outs : serialise_elements false L outs = ([], concat outs).
Proof.
  unfold serialise_elements. assert (H : ∀ o c, foldl (λ '(o, c, length) out,
    if false then (o ++ serialise_u256 length, c ++ out, size_t (length + zlen out)) else (o, c ++ out, length)) (o, c, L) outs
    = (o, c ++ concat outs, L)).
  { induction outs as [|x outs IH]; intros o c; simpl; [by rewrite app_nil_r|]. by rewrite IH, app_assoc. }
  by rewrite H.
Qed.

(** The offset words of an array with dynamic elements. *)
Fixpoint offset_words (L : Z) (outs : list bytes) : bytes :=
  match outs with [] => [] | x :: r => serialise_u256 L ++ offset_words (size_t (L + zlen x)) r end.

Lemma elements_dynamic L outs : serialise_elements true L outs = (offset_words L outs, concat outs).
Proof.
  unfold serialise_elements. assert (H : ∀ outs L o c, ∃ L', foldl (λ '(o, c, length) out,
    if true then (o ++ serialise_u256 length, c ++ out, size_t (length + zlen out)) else (o, c ++ out, length)) (o, c, L) outs
    = (o ++ offset_words L outs, c ++ concat outs, L')).
  { clear. induction outs as [|x outs IH]; intros L o c; simpl; [exists L; by rewrite !app_nil_r|].
    destruct (IH (size_t (L + zlen x)) (o ++ serialise_u256 L) (c ++ x)) as [L' ->]. exists L'. by rewrite <- !app_assoc. }
  destruct (H outs L [] []) as [L' ->]. done.
Qed.

Lemma zlen_offset_words L outs : zlen (offset_words L outs) = zlen outs * 32.
Proof.
  revert L. induction outs as [|x outs IH]; intros L; cbn [offset_words]; [done|].
  rewrite zlen_app, zlen_word, IH, zlen_cons. lia.
Qed.

Lemma offset_words_app L a b :
  0 ≤ L → L + zlen (concat a) < 2 ^ 64 →
  offset_words L (a ++ b) = offset_words L a ++ offset_words (L + zlen (concat a)) b.
Proof.
  revert L. induction a as [|x a IH]; intros L HL Hb; cbn [offset_words app concat] in *; [by rewrite zlen_nil, Z.add_0_r|].
  rewrite zlen_app in Hb. pose proof (zlen_nonneg x). pose proof (zlen_nonneg (concat a)).
  rewrite size_t_id by lia. rewrite IH by lia. rewrite <- !app_assoc, zlen_app, Z.add_assoc. done.
Qed.

Lemma zlen_concat_const {A} (outs : list (list A)) k : Forall (λ o, zlen o = k) outs → zlen (concat outs) = zlen outs * k.
Proof. induction 1 as [|o outs Ho _ IH]; [done|]. cbn [concat]. rewrite zlen_app, zlen_cons, IH. lia. Qed.

(** A value of a static type takes its words. *)
Lemma zlen_static t v : isDynamic t = false → val_ok t v → zlen (serialise t v) = 32 * offsetOf t.
Proof.
  induction t as [| | | | | |n t IH|t IH]; intros Hd Hv; cbn [serialise isDynamic offsetOf val val_ok] in *; try done; try apply zlen_word.
  - unfold zlen. rewrite (Hv : length (v : bytes) = 32%nat). done.
  - destruct Hv as [Hn Hv]. rewrite Hd, elements_static. cbn [app].
    rewrite (zlen_concat_const _ (32 * offsetOf t)).
    + unfold zlen. rewrite length_fmap, Hn. lia.
    + apply Forall_fmap. eapply Forall_impl; [exact Hv|]. auto.
Qed.

Lemma elements_read {A} data dyn stride (elem : Z → result abi_exn A) offset u vs :
  (∀ k v, vs !! k = Some v → ∃ o, elementOffset data dyn stride offset (u + Z.of_nat k) = Ok o ∧ elem o = Ok v) →
  deserialise_elements data dyn stride elem offset u (length vs) = Ok vs.
Proof.
  revert u. induction vs as [|v vs IH]; intros u H; [done|]. cbn [length deserialise_elements].
  destruct (H 0%nat v eq_refl) as (o & Ho & Hv). rewrite Z.add_0_r in Ho. rewrite Ho. cbn [mbind result_bind]. rewrite Hv.
  cbn [mbind result_bind]. rewrite IH; [done|]. intros k w Hk. destruct (H (S k) w Hk) as (o' & Ho' & Hw).
  exists o'. split; [|done]. rewrite <- Ho'. replace (u + Z.of_nat (S k)) with (u + 1 + Z.of_nat k) by lia. done.
Qed.

(** Reading back an array whose elements read back. *)
Lemma elements_static_read t vs pre post :
  isDynamic t = false → Forall (val_ok t) vs →
  (∀ v pre post, v ∈ vs → zlen (pre ++ serialise t v ++ post) < 2 ^ 64 →
     deserialise (pre ++ serialise t v ++ post) t (zlen pre) = Ok v) →
  zlen (pre ++ concat (serialise t <$> vs) ++ post) < 2 ^ 64 →
  deserialise_elements (pre ++ concat (serialise t <$> vs) ++ post) false (offsetOf t)
    (deserialise (pre ++ concat (serialise t <$> vs) ++ post) t) (zlen pre) 0 (length vs) = Ok vs.
Proof.
  intros Hd Hok Hel Hl. apply elements_read. intros k v Hk. eexists. split; [done|].
  assert (Hsz : zlen (concat (serialise t <$> take k vs)) = Z.of_nat k * (32 * offsetOf t)).
  { rewrite (zlen_concat_const _ (32 * offsetOf t)).
    - unfold zlen. rewrite length_fmap, length_take. apply lookup_lt_Some in Hk. f_equal. lia.
    - apply Forall_fmap, Forall_take. eapply Forall_impl; [exact Hok|]. intros x. by apply zlen_static. }
  assert (Hsplit : concat (serialise t <$> vs)
    = concat (serialise t <$> take k vs) ++ serialise t v ++ concat (serialise t <$> drop (S k) vs)).
  { rewrite <- (take_drop_middle _ _ _ Hk) at 1. by rewrite fmap_app, concat_app. }
  rewrite Hsplit in *. rewrite <- !app_assoc in *.
  rewrite (app_assoc pre). unfold MAX_BYTE_LENGTH.
  replace (zlen pre + (0 + Z.of_nat k) * offsetOf t * 32) with (zlen (pre ++ concat (serialise t <$> take k vs)))
    by (rewrite zlen_app, Hsz; lia).
  rewrite size_t_id by (split; [apply zlen_nonneg|]; rewrite !zlen_app in *; zsize).
  apply Hel; [by eapply list_elem_of_lookup_2|]. by rewrite <- app_assoc.
Qed.

Lemma elements_dynamic_read t vs pre post :
  isDynamic t = true →
  (∀ v pre post, v ∈ vs → zlen (pre ++ serialise t v ++ post) < 2 ^ 64 →
     deserialise (pre ++ serialise t v ++ post) t (zlen pre) = Ok v) →
  let outs := serialise t <$> vs in
  let data := pre ++ offset_words (zlen vs * 32) outs ++ concat outs ++ post in
  zlen data < 2 ^ 64 →
  deserialise_elements data true (offsetOf t) (deserialise data t) (zlen pre) 0 (length vs) = Ok vs.
Proof.
  intros Hd Hel outs data Hl. apply elements_read. intros k v Hk. rewrite (isDynamic_offset t Hd), Z.add_0_l.
  assert (Houts : outs = (serialise t <$> take k vs) ++ serialise t v :: (serialise t <$> drop (S k) vs)).
  { unfold outs. rewrite <- (take_drop_middle _ _ _ Hk) at 1. by rewrite fmap_app. }
  set (a := serialise t <$> take k vs) in *. set (b := serialise t <$> drop (S k) vs) in *.
  assert (Ha : zlen a = Z.of_nat k).
  { unfold a, zlen. rewrite length_fmap, length_take. apply lookup_lt_Some in Hk. lia. }
  assert (Hn : zlen (offset_words (zlen vs * 32) outs) = zlen vs * 32).
  { rewrite zlen_offset_words. unfold outs, zlen. by rewrite length_fmap. }
  assert (Hc : zlen (concat outs) = zlen (concat a) + zlen (serialise t v) + zlen (concat b)).
  { rewrite Houts, concat_app. cbn [concat]. rewrite !zlen_app. lia. }
  assert (Hb : zlen pre + zlen vs * 32 + zlen (concat a) + zlen (serialise t v) + zlen (concat b) + zlen post < 2 ^ 64)
    by (unfold data in Hl; rewrite !zlen_app, Hn, Hc in Hl; lia).
  pose proof (zlen_nonneg pre). pose proof (zlen_nonneg vs). pose proof (zlen_nonneg (concat a)).
  pose proof (zlen_nonneg (serialise t v)). pose proof (zlen_nonneg (concat b)). pose proof (zlen_nonneg post).
  assert (Hword : read_word data (size_t (zlen pre + Z.of_nat k * MAX_BYTE_LENGTH)) = Ok (zlen vs * 32 + zlen (concat a))).
  { assert (Hsplit : data = (pre ++ offset_words (zlen vs * 32) a) ++ serialise_u256 (zlen vs * 32 + zlen (concat a))
      ++ offset_words (size_t (zlen vs * 32 + zlen (concat a) + zlen (serialise t v))) b ++ concat outs ++ post).
    { unfold data. rewrite Houts at 1. rewrite offset_words_app by lia. cbn [offset_words]. by rewrite <- !app_assoc. }
    assert (Hp : zlen (pre ++ offset_words (zlen vs * 32) a) = zlen pre + Z.of_nat k * MAX_BYTE_LENGTH)
      by (rewrite zlen_app, zlen_offset_words, Ha; done).
    pose proof (lookup_lt_Some _ _ _ Hk). assert (Z.of_nat k < zlen vs) by (unfold zlen; lia). unfold MAX_BYTE_LENGTH in *.
    rewrite size_t_id by lia. rewrite <- Hp, Hsplit, read_word_at by (by rewrite <- Hsplit). f_equal. apply wrapU_id. lia. }
  exists (zlen (pre ++ offset_words (zlen vs * 32) outs ++ concat a)). split.
  - unfold elementOffset. rewrite Z.mul_1_r, Hword. cbn [mbind result_bind]. f_equal. rewrite !zlen_app, Hn, (size_t_id (_ * 32 + _)) by lia.
    rewrite size_t_id by lia. lia.
  - assert (Hsplit : data = (pre ++ offset_words (zlen vs * 32) outs ++ concat a) ++ serialise t v ++ concat b ++ post).
    { unfold data. rewrite Houts at 2. rewrite concat_app. cbn [concat]. by rewrite <- !app_assoc. }
    rewrite Hsplit in *. apply Hel; [by eapply list_elem_of_lookup_2|done].
Qed.

Lemma deserialise_int_wrap s : - (7 * 2 ^ 252) ≤ s < 2 ^ 255 → deserialise_int (wrapU 256 s) = s.
Proof.
  intros Hs. unfold deserialise_int. rewrite Z.gtb_ltb.
  destruct (decide (0 ≤ s)) as [Hp|Hp].
  - rewrite wrapU_id by lia. by rewrite (proj2 (Z.ltb_ge _ _)) by lia.
  - assert (Hw : wrapU 256 s = 2 ^ 256 + s).
    { unfold wrapU. rewrite <- (Z_mod_plus_full s 1), Z.mod_small; lia. }
    rewrite Hw, (proj2 (Z.ltb_lt _ _)) by lia. rewrite wrapU_id; lia.
Qed.

Lemma serialise_string s : ∃ z, serialise TString s = serialise_u256 (zlen (stringBytes s)) ++ stringBytes s ++ z.
Proof.
  cbn [serialise]. set (b := stringBytes s). clearbody b. set (pad := (zlen b + 31) / MAX_BYTE_LENGTH * MAX_BYTE_LENGTH).
  assert (Hp : zlen b ≤ pad ≤ zlen b + 31).
  { unfold pad, MAX_BYTE_LENGTH. pose proof (Z.div_mod (zlen b + 31) 32 ltac:(lia)).
    pose proof (Z.mod_pos_bound (zlen b + 31) 32 ltac:(lia)). lia. }
  pose proof (zlen_nonneg b). exists (take (Z.to_nat (pad - zlen b)) (replicate 32 Byte.x00)).
  pose proof (zlen_word (zlen b)) as Hw. unfold zlen in *.
  rewrite take_app_ge by lia. f_equal. rewrite take_app_ge by lia. f_equal. f_equal. lia.
Qed.

Lemma crop_at pre b post o n : o = zlen pre → n = zlen b → cropped (pre ++ b ++ post) o n = b.
Proof. intros -> ->. apply cropped_mid. Qed.

(** Every value in what follows reads back wherever it lies in the data. *)
Abbreviation reads_back t v := (∀ pre post, zlen (pre ++ serialise t v ++ post) < 2 ^ 64 →
  deserialise (pre ++ serialise t v ++ post) t (zlen pre) = Ok v).

Lemma address_back (a : val TAddress) : val_ok TAddress a → reads_back TAddress a.
Proof.
  intros Ha pre post Hl. cbn [serialise deserialise val_ok val] in *. set (z := replicate 12 Byte.x00) in *.
  assert (Hz : zlen z = 12) by done. assert (Hh : zlen (hashBytes 20 a) = 20) by apply zlen_toBigEndian. clearbody z.
  rewrite !zlen_app in Hl. pose proof (zlen_nonneg pre). pose proof (zlen_nonneg post).
  unfold MAX_BYTE_LENGTH. rewrite validOffset_ok by (rewrite !zlen_app; lia). cbn [mbind result_bind]. f_equal.
  rewrite size_t_id by lia. rewrite <- app_assoc, app_assoc, crop_at by (rewrite ?zlen_app; lia).
  rewrite fromBigEndian_val. unfold hashBytes. rewrite be_val_toBigEndian. cbn [castT].
  change (256 ^ Z.of_nat 20) with (2 ^ 160). fold (wrapU 160 a). rewrite wrapU_idemp by lia. by apply wrapU_id.
Qed.

Lemma string32_back (s : val TString32) : val_ok TString32 s → reads_back TString32 s.
Proof.
  intros Hs pre post Hl. cbn [serialise deserialise val_ok val] in *. assert (Hz : zlen s = 32) by (unfold zlen; lia).
  rewrite !zlen_app in Hl. pose proof (zlen_nonneg pre). pose proof (zlen_nonneg post).
  unfold MAX_BYTE_LENGTH. rewrite validOffset_ok by (rewrite !zlen_app; lia). cbn [mbind result_bind]. f_equal.
  rewrite crop_at by done. rewrite take_app_le by lia. apply take_ge. lia.
Qed.

Lemma string_back (s : val TString) : reads_back TString s.
Proof.
  intros pre post Hl. destruct (serialise_string s) as [z Hz]. rewrite Hz in *. cbn [deserialise]. rewrite <- !app_assoc in *.
  rewrite !zlen_app, zlen_word in Hl. pose proof (zlen_nonneg pre). pose proof (zlen_nonneg post). pose proof (zlen_nonneg z).
  pose proof (zlen_nonneg (stringBytes s)). rewrite read_word_at by (rewrite !zlen_app, zlen_word; lia).
  cbn [mbind result_bind]. rewrite wrapU_id by lia. rewrite (size_t_id (zlen (stringBytes s))) by lia. unfold MAX_BYTE_LENGTH.
  rewrite validOffset_ok by (rewrite !zlen_app, zlen_word; lia). cbn [mbind result_bind]. f_equal. rewrite size_t_id by lia.
  rewrite app_assoc, crop_at by (rewrite ?zlen_app, ?zlen_word; done). apply String.string_of_list_byte_of_string.
Qed.

Lemma elements_back t vs L pre post :
  Forall (val_ok t) vs → Forall (λ v, reads_back t v) vs → L = zlen vs * MAX_BYTE_LENGTH →
  let '(o, c) := serialise_elements (isDynamic t) L (serialise t <$> vs) in
  zlen (pre ++ o ++ c ++ post) < 2 ^ 64 →
  deserialise_elements (pre ++ o ++ c ++ post) (isDynamic t) (offsetOf t) (deserialise (pre ++ o ++ c ++ post) t)
    (zlen pre) 0 (length vs) = Ok vs.
Proof.
  rewrite !Forall_forall. intros Hok Hb ->. destruct (isDynamic t) eqn:Hd.
  - rewrite elements_dynamic. intros Hl. apply elements_dynamic_read; [done| |done]. auto.
  - rewrite elements_static. cbn [app]. intros Hl. apply elements_static_read; [done|by apply Forall_forall| |done]. auto.
Qed.

(** A serialised value reads back. *)
Lemma deserialise_serialise t v : val_ok t v → reads_back t v.
Proof.
  revert v. induction t as [| | | | | |n t IH|t IH]; intros v Hv;
    [| | |by apply address_back|by apply string32_back|apply string_back| |]; intros pre post Hl.
  - cbn [serialise deserialise val_ok] in *. rewrite read_word_at by done. by rewrite wrapU_id.
  - cbn [serialise deserialise val_ok] in *. rewrite read_word_at by done. cbn [mbind result_bind].
    by rewrite wrapU_idemp, deserialise_int_wrap by done.
  - cbn [serialise deserialise] in *. rewrite read_word_at by done. by destruct v.
  - destruct Hv as [Hn Hv]. cbn [serialise deserialise val] in *. subst n.
    pose proof (elements_back t v (Z.of_nat (length v) * MAX_BYTE_LENGTH) pre post Hv) as H.
    destruct (serialise_elements (isDynamic t) (Z.of_nat (length v) * MAX_BYTE_LENGTH) (serialise t <$> v)) as [o c].
    rewrite <- app_assoc in *. apply H; [|done|done].
    eapply Forall_impl; [exact Hv|]. auto.
  - destruct Hv as [Hn Hv]. cbn [serialise deserialise val] in *.
    pose proof (elements_back t v (zlen v * MAX_BYTE_LENGTH) (pre ++ serialise_u256 (zlen v)) post Hv) as H.
    destruct (serialise_elements (isDynamic t) (zlen v * MAX_BYTE_LENGTH) (serialise t <$> v)) as [o c].
    pose proof (zlen_nonneg v). rewrite <- !app_assoc in *. rewrite read_word_at by done. cbn [mbind result_bind].
    rewrite wrapU_id, (size_t_id (zlen v)), zlen_to_nat by lia.
    replace (size_t (zlen pre + MAX_BYTE_LENGTH)) with (zlen (pre ++ serialise_u256 (zlen v))).
    + apply H; [|done|done]. eapply Forall_impl; [exact Hv|]. auto.
    + rewrite zlen_app, zlen_word, size_t_id; [done|]. unfold MAX_BYTE_LENGTH.
      rewrite !zlen_app, zlen_word in Hl. zsize.
Qed.

(** ** Argument lists *)

Abbreviation arg_ok := (λ a : arg, val_ok (projT1 a) (projT2 a)).
Abbreviation encoded a := (serialise (projT1 a) (projT2 a)).

(** The two halves of the encoding, when the dynamic half starts at [L]. *)
Fixpoint heads (L : Z) (args : list arg) : bytes :=
  match args with
  | [] => []
  | a :: r =>
      if isDynamic (projT1 a) then serialise_u256 L ++ heads (size_t (L + zlen (encoded a))) r else encoded a ++ heads L r
  end.
Fixpoint tails (args : list arg) : bytes :=
  match args with [] => [] | a :: r => (if isDynamic (projT1 a) then encoded a else []) ++ tails r end.

Lemma abiInAux_halves args L f d : ∃ L', abiInAux args (L, f, d) = (L', f ++ heads L args, d ++ tails args).
Proof.
  revert L f d. induction args as [|a r IH]; intros L f d; [exists L; cbn; by rewrite !app_nil_r|].
  cbn [abiInAux foldl heads tails]. destruct (isDynamic (projT1 a)).
  - destruct (IH (size_t (L + zlen (encoded a))) (f ++ serialise_u256 L) (d ++ encoded a)) as [L' H].
    exists L'. unfold abiInAux in H. rewrite H. by rewrite <- !app_assoc.
  - destruct (IH L (f ++ encoded a) d) as [L' H]. exists L'. unfold abiInAux in H. rewrite H.
    cbn [app]. by rewrite <- !app_assoc.
Qed.

Lemma offsets_cons (a : arg) r : offsets (projT1 <$> a :: r) = offsetOf (projT1 a) + offsets (projT1 <$> r).
Proof. done. Qed.

Lemma zlen_heads L args : Forall arg_ok args → zlen (heads L args) = offsets (projT1 <$> args) * 32.
Proof.
  intros H. revert L. induction H as [|a r Ha _ IH]; intros L; [done|]. rewrite offsets_cons. cbn [heads].
  destruct (isDynamic (projT1 a)) eqn:Hd; rewrite zlen_app, IH.
  - rewrite zlen_word, isDynamic_offset by done. lia.
  - rewrite zlen_static by done. lia.
Qed.

Lemma read_word_in data X u Y o :
  data = X ++ serialise_u256 u ++ Y → o = zlen X → zlen data < 2 ^ 64 → 0 ≤ u < 2 ^ 256 → read_word data o = Ok u.
Proof. intros -> -> Hl Hu. rewrite read_word_at by done. by rewrite wrapU_id. Qed.

Lemma deserialise_in data t v X Y o :
  val_ok t v → data = X ++ serialise t v ++ Y → o = zlen X → zlen data < 2 ^ 64 → deserialise data t o = Ok v.
Proof. intros Hv -> -> Hl. by apply deserialise_serialise. Qed.

Lemma abiOut_halves data args L P D :
  Forall arg_ok args → L = zlen P + zlen (heads L args) + zlen D →
  data = P ++ heads L args ++ D ++ tails args → zlen data < 2 ^ 64 →
  abiOutAux data (projT1 <$> args) (zlen P) = (true, args).
Proof.
  intros Hok HL Hdata Hl. revert L P D HL Hdata. induction Hok as [|a r Ha Hr IH]; intros L P D HL Hdata; [done|].
  assert (Hsz : zlen data = zlen P + zlen (heads L (a :: r)) + zlen D + zlen (tails (a :: r)))
    by (rewrite Hdata, !zlen_app; lia).
  change (projT1 <$> a :: r) with (projT1 a :: (projT1 <$> r)). cbn [heads tails abiOutAux] in *.
  pose proof (zlen_nonneg P). pose proof (zlen_nonneg D). pose proof (zlen_nonneg (tails r)). pose proof (zlen_nonneg (encoded a)).
  destruct (isDynamic (projT1 a)) eqn:Hd; rewrite !zlen_app in *.
  - pose proof (zlen_nonneg (heads (size_t (L + zlen (encoded a))) r)). rewrite zlen_word in *.
    assert (HL' : size_t (L + zlen (encoded a)) = L + zlen (encoded a)) by (apply size_t_id; lia).
    rewrite HL' in *. set (L' := L + zlen (encoded a)) in *.
    rewrite (read_word_in data P L (heads L' r ++ D ++ encoded a ++ tails r)); [|rewrite Hdata, <- !app_assoc; done|done|done|lia].
    cbn [mbind result_bind]. rewrite (deserialise_in data _ (projT2 a) (P ++ serialise_u256 L ++ heads L' r ++ D) (tails r));
      [|done|rewrite Hdata, <- !app_assoc; done|rewrite !zlen_app, zlen_word, size_t_id; lia|done].
    replace (size_t (zlen P + _)) with (zlen (P ++ serialise_u256 L))
      by (rewrite zlen_app, zlen_word, isDynamic_offset, size_t_id by (done || unfold MAX_BYTE_LENGTH; lia); done).
    rewrite (IH L' _ (D ++ encoded a)); [by destruct a| |].
    + rewrite !zlen_app, zlen_word. lia.
    + rewrite Hdata, <- !app_assoc. done.
  - pose proof (zlen_nonneg (heads L r)). rewrite app_nil_l, ?zlen_nil in *. cbn [mbind result_bind].
    rewrite (deserialise_in data _ (projT2 a) P (heads L r ++ D ++ tails r)); [|done|rewrite Hdata, <- !app_assoc; done|done|done].
    pose proof (zlen_static _ _ Hd Ha) as Hs.
    replace (size_t (zlen P + _)) with (zlen (P ++ encoded a))
      by (rewrite zlen_app, Hs, size_t_id by (unfold MAX_BYTE_LENGTH; lia); unfold MAX_BYTE_LENGTH; lia).
    rewrite (IH L _ D); [by destruct a| |].
    + rewrite !zlen_app. lia.
    + rewrite Hdata, <- !app_assoc. done.
Qed.

Lemma abiIn_halves `{Crypto} args :
  abiIn EmptyString args = heads (offsets (projT1 <$> args) * MAX_BYTE_LENGTH) args ++ tails args.
Proof.
  unfold abiIn. destruct (abiInAux_halves args (offsets (projT1 <$> args) * MAX_BYTE_LENGTH) [] []) as [L' ->]. done.
Qed.

Lemma abiIn_selector `{Crypto} sig args :
  sig ≠ EmptyString → abiIn sig args = take 4 (hashBytes 32 (Hash (stringBytes sig))) ++ abiIn EmptyString args.
Proof.
  intros Hs. unfold abiIn. destruct (abiInAux _ _) as [[? f] d]. rewrite bool_decide_eq_false_2 by done. done.
Qed.


(** A call with a nested array among its arguments. *)
Definition sampleArgs : list arg :=
  [existT TString "alice"%string; existT TUint 7; existT (TVector (TArray 2 TString)) [["x"; "yz"]; [""; "w"]]%string;
   existT (TArray 2 TInt) [-1; 5]; existT TAddress 0x1001].


(** The test of the sign of an [int256] uses [0x8fff...] for the largest positive value,
    so the smallest integers come back positive. *)
Lemma int256_misread s :
  - 2 ^ 255 ≤ s < - (7 * 2 ^ 252) → deserialise (serialise TInt s) TInt 0 = Ok (2 ^ 256 + s).
Proof.
  intros Hs. pose proof (read_word_at [] (wrapU 256 s) []) as H. rewrite app_nil_r in H. cbn [app] in H.
  cbn [serialise deserialise]. rewrite zlen_nil in H. rewrite H by (rewrite zlen_word; lia). cbn [mbind result_bind].
  rewrite wrapU_idemp by lia. f_equal.
  assert (Hw : wrapU 256 s = 2 ^ 256 + s) by (unfold wrapU; rewrite <- (Z_mod_plus_full s 1), Z.mod_small; lia).
  unfold deserialise_int. rewrite Hw, Z.gtb_ltb. by rewrite (proj2 (Z.ltb_ge _ _)) by lia.
Qed.

(** Call data shorter than a selector: the read goes through a null pointer. *)
Lemma short_call_data param : zlen param < 4 → getParamFunc param = None.
Proof.
  intros H. unfold getParamFunc, cropped. replace (_ && _ && _) with false; [done|].
  symmetry. rewrite (proj2 (Z.leb_gt 4 (zlen param))) by lia. by rewrite andb_false_r.
Qed.
