(* ===== verification/DagTransfer.v ===== *)
(** * The transfer contract (libprecompiled/extension/DagTransferPrecompiled.cpp)

    A contract of the node itself that keeps a balance per user, and names for each call
    the fields it conflicts on, so that a block of its calls can be executed in
    parallel.  The table is a map from users to balances (one record for a user); it is
    created when it is first opened, which needs no permission.  Its authorised
    addresses are a parameter.  Balances are [u256] and their text in the table is read
    back as it was written. *)
From S2P Require Import Prelude CommonData RLP Crypto ABI.
Local Open Scope Z_scope.

Definition CODE_NO_AUTHORIZED : Z := -50000.
Definition CODE_INVALID_BALANCE_OVERFLOW : Z := -51405.
Definition CODE_INVALID_INSUFFICIENT_BALANCE : Z := -51404.
Definition CODE_INVALID_USER_ALREADY_EXIST : Z := -51403.
Definition CODE_INVALID_USER_NOT_EXIST : Z := -51402.
Definition CODE_INVALID_AMOUNT : Z := -51401.
Definition CODE_INVALID_USER_NAME : Z := -51400.

Abbreviation balances := (gmap string Z).
(** The table, when it exists. *)
Abbreviation dag_table := (option balances).

(** [openTable]: the table is created when it does not exist. *)
Definition openTable (t : dag_table) : balances := default ∅ t.

Definition invalidUserName (user : string) : bool := bool_decide (user = EmptyString).

Definition u256_add (a b : Z) : Z := wrapU 256 (a + b).
Definition u256_sub (a b : Z) : Z := wrapU 256 (a - b).

(** [name2Selector], filled by the constructor from [getFuncSelector]. *)
Abbreviation name2Selector := getFuncSelectorByFunctionName.

Section contract.
Context (authorizedAddress : list Z).

(** [MemoryTable2::checkAuthority]. *)
Definition checkAuthority (origin : Z) : bool :=
  match authorizedAddress with [] => true | _ => bool_decide (origin ∈ authorizedAddress) end.

(** [insert] and [update] of one record: the code or the number of records. *)
Definition table_insert (origin : Z) (key : string) (v : Z) (m : balances) : Z * balances :=
  if checkAuthority origin then (1, <[key := v]> m) else (CODE_NO_AUTHORIZED, m).
Definition table_update (origin : Z) (key : string) (v : Z) (m : balances) : Z * balances :=
  if checkAuthority origin then
    match m !! key with Some _ => (1, <[key := v]> m) | None => (0, m) end
  else (CODE_NO_AUTHORIZED, m).

(** Each call gives [ret] (with the balance for [userBalance]) and the table. *)
Definition userAdd (user : string) (amount origin : Z) (t : dag_table) : Z * dag_table :=
  if invalidUserName user then (CODE_INVALID_USER_NAME, t) else
  let table := openTable t in
  match table !! user with
  | Some _ => (CODE_INVALID_USER_ALREADY_EXIST, Some table)
  | None =>
      let '(count, table) := table_insert origin user amount table in
      (if count =? CODE_NO_AUTHORIZED then CODE_NO_AUTHORIZED else 0, Some table)
  end.

Definition userSave (user : string) (amount origin : Z) (t : dag_table) : Z * dag_table :=
  if invalidUserName user then (CODE_INVALID_USER_NAME, t) else
  if amount =? 0 then (CODE_INVALID_AMOUNT, t) else
  let table := openTable t in
  match table !! user with
  | None =>
      let '(count, table) := table_insert origin user amount table in
      (if count =? CODE_NO_AUTHORIZED then CODE_NO_AUTHORIZED else 0, Some table)
  | Some balance =>
      let new_balance := u256_add balance amount in
      if new_balance <? balance then (CODE_INVALID_BALANCE_OVERFLOW, Some table) else
      let '(count, table) := table_update origin user new_balance table in
      (if count =? CODE_NO_AUTHORIZED then CODE_NO_AUTHORIZED else 0, Some table)
  end.

Definition userDraw (user : string) (amount origin : Z) (t : dag_table) : Z * dag_table :=
  if invalidUserName user then (CODE_INVALID_USER_NAME, t) else
  if amount =? 0 then (CODE_INVALID_AMOUNT, t) else
  let table := openTable t in
  match table !! user with
  | None => (CODE_INVALID_USER_NOT_EXIST, Some table)
  | Some balance =>
      if balance <? amount then (CODE_INVALID_INSUFFICIENT_BALANCE, Some table) else
      let '(count, table) := table_update origin user (u256_sub balance amount) table in
      (if count =? CODE_NO_AUTHORIZED then CODE_NO_AUTHORIZED else 0, Some table)
  end.

Definition userBalance (user : string) (t : dag_table) : Z * Z * dag_table :=
  if invalidUserName user then (CODE_INVALID_USER_NAME, 0, t) else
  let table := openTable t in
  match table !! user with
  | None => (CODE_INVALID_USER_NOT_EXIST, 0, Some table)
  | Some balance => (0, balance, Some table)
  end.

(** The end of [userTransferCall], once both records are there. *)
Definition transfer_update (fromUser toUser : string) (amount origin fromUserBalance toUserBalance : Z)
    (table : balances) : Z * balances :=
  if u256_add toUserBalance amount <? toUserBalance then (CODE_INVALID_BALANCE_OVERFLOW, table) else
  let '(count, table) := table_update origin fromUser (u256_sub fromUserBalance amount) table in
  if count =? CODE_NO_AUTHORIZED then (CODE_NO_AUTHORIZED, table) else
  let '(_, table) := table_update origin toUser (u256_add toUserBalance amount) table in
  (0, table).

Definition userTransfer (fromUser toUser : string) (amount origin : Z) (t : dag_table) : Z * dag_table :=
  if invalidUserName fromUser || invalidUserName toUser then (CODE_INVALID_USER_NAME, t) else
  if amount =? 0 then (CODE_INVALID_AMOUNT, t) else
  if bool_decide (fromUser = toUser) then (0, t) else
  let table := openTable t in
  match table !! fromUser with
  | None => (CODE_INVALID_USER_NOT_EXIST, Some table)
  | Some fromUserBalance =>
      if fromUserBalance <? amount then (CODE_INVALID_INSUFFICIENT_BALANCE, Some table) else
      match table !! toUser with
      | None =>
          let '(count, table) := table_insert origin toUser 0 table in
          if count =? CODE_NO_AUTHORIZED then (CODE_NO_AUTHORIZED, Some table) else
          let '(ret, table) := transfer_update fromUser toUser amount origin fromUserBalance 0 table in
          (ret, Some table)
      | Some toUserBalance =>
          let '(ret, table) := transfer_update fromUser toUser amount origin fromUserBalance toUserBalance table in
          (ret, Some table)
      end
  end.

(** ** The calls, from their data *)

Context `{Crypto}.

(** The variables [abiOut] fills. *)
Definition out_string (i : nat) (args : list arg) : string :=
  match args !! i with Some (existT TString s) => s | _ => EmptyString end.
Definition out_u256 (i : nat) (args : list arg) : Z :=
  match args !! i with Some (existT TUint u) => u | _ => 0 end.

(** [out = abi.abiIn("", u256(ret))]. *)
Definition ret_bytes (ret : Z) : bytes := abiIn EmptyString [existT TUint (wrapU 256 ret)].

Definition userAddCall (data : bytes) (origin : Z) (t : dag_table) : bytes * dag_table :=
  let args := (abiOut data [TString; TUint]).2 in
  let '(ret, t) := userAdd (out_string 0 args) (out_u256 1 args) origin t in (ret_bytes ret, t).
Definition userSaveCall (data : bytes) (origin : Z) (t : dag_table) : bytes * dag_table :=
  let args := (abiOut data [TString; TUint]).2 in
  let '(ret, t) := userSave (out_string 0 args) (out_u256 1 args) origin t in (ret_bytes ret, t).
Definition userDrawCall (data : bytes) (origin : Z) (t : dag_table) : bytes * dag_table :=
  let args := (abiOut data [TString; TUint]).2 in
  let '(ret, t) := userDraw (out_string 0 args) (out_u256 1 args) origin t in (ret_bytes ret, t).
Definition userTransferCall (data : bytes) (origin : Z) (t : dag_table) : bytes * dag_table :=
  let args := (abiOut data [TString; TString; TUint]).2 in
  let '(ret, t) := userTransfer (out_string 0 args) (out_string 1 args) (out_u256 2 args) origin t in (ret_bytes ret, t).
Definition userBalanceCall (data : bytes) (t : dag_table) : bytes * dag_table :=
  let args := (abiOut data [TString]).2 in
  let '(ret, balance, t) := userBalance (out_string 0 args) t in
  (abiIn EmptyString [existT TUint (wrapU 256 ret); existT TUint balance], t).

Definition DAG_TRANSFER_METHOD_ADD_STR_UINT : string := "userAdd(string,uint256)".
Definition DAG_TRANSFER_METHOD_SAV_STR_UINT : string := "userSave(string,uint256)".
Definition DAG_TRANSFER_METHOD_DRAW_STR_UINT : string := "userDraw(string,uint256)".
Definition DAG_TRANSFER_METHOD_TRS_STR2_UINT : string := "userTransfer(string,string,uint256)".
Definition DAG_TRANSFER_METHOD_BAL_STR : string := "userBalance(string)".

(** [call]; [None] is the read through a null pointer of [getParamFunc]. *)
Definition dag_call (param : bytes) (origin : Z) (t : dag_table) : option (bytes * dag_table) :=
  func ← getParamFunc param;
  let data := getParamData param in
  Some (if func =? name2Selector DAG_TRANSFER_METHOD_ADD_STR_UINT then userAddCall data origin t
        else if func =? name2Selector DAG_TRANSFER_METHOD_SAV_STR_UINT then userSaveCall data origin t
        else if func =? name2Selector DAG_TRANSFER_METHOD_DRAW_STR_UINT then userDrawCall data origin t
        else if func =? name2Selector DAG_TRANSFER_METHOD_TRS_STR2_UINT then userTransferCall data origin t
        else if func =? name2Selector DAG_TRANSFER_METHOD_BAL_STR then userBalanceCall data t
        else ([], t)).

(** [getParallelTag]. *)
Definition getParallelTag (param : bytes) : option (list string) :=
  func ← getParamFunc param;
  let data := getParamData param in
  let user := out_string 0 (abiOut data [TString; TUint]).2 in
  let one := if invalidUserName user then [] else [user] in
  Some (if func =? name2Selector DAG_TRANSFER_METHOD_ADD_STR_UINT then one
        else if func =? name2Selector DAG_TRANSFER_METHOD_SAV_STR_UINT then one
        else if func =? name2Selector DAG_TRANSFER_METHOD_DRAW_STR_UINT then one
        else if func =? name2Selector DAG_TRANSFER_METHOD_TRS_STR2_UINT then
          let args := (abiOut data [TString; TString; TUint]).2 in
          if negb (invalidUserName (out_string 0 args)) && negb (invalidUserName (out_string 1 args))
          then [out_string 0 args; out_string 1 args] else []
        else []).
End contract.

(** ** Conservation *)

(** The calls with their arguments read. *)
Inductive dag_op :=
| OpAdd (user : string) (amount : Z)
| OpSave (user : string) (amount : Z)
| OpDraw (user : string) (amount : Z)
| OpTransfer (fromUser toUser : string) (amount : Z).

Definition run_op (auth : list Z) (op : dag_op) (origin : Z) (t : dag_table) : Z * dag_table :=
  match op with
  | OpAdd u n => userAdd auth u n origin t
  | OpSave u n => userSave auth u n origin t
  | OpDraw u n => userDraw auth u n origin t
  | OpTransfer f u n => userTransfer auth f u n origin t
  end.
Definition op_amount (op : dag_op) : Z := match op with OpAdd _ n | OpSave _ n | OpDraw _ n | OpTransfer _ _ n => n end.

(** What a call that succeeds adds to the money there is. *)
Definition op_delta (op : dag_op) : Z := match op with OpAdd _ n | OpSave _ n => n | OpDraw _ n => - n | OpTransfer _ _ _ => 0 end.

Definition total (m : balances) : Z := map_fold (λ _ v acc, v + acc) 0 m.
Definition balances_ok (m : balances) : Prop := map_Forall (λ _ v, 0 ≤ v < 2 ^ 256) m.

Lemma total_insert_new m k v : m !! k = None → total (<[k := v]> m) = total m + v.
Proof. intros H. unfold total. rewrite map_fold_insert_L by (done || intros; lia). lia. Qed.

Lemma total_insert m k v w : m !! k = Some w → total (<[k := v]> m) = total m - w + v.
Proof.
  intros H. rewrite <- (insert_id m k w H) at 2. rewrite <- (insert_delete_eq m k v), <- (insert_delete_eq m k w).
  rewrite !total_insert_new by apply lookup_delete_eq. lia.
Qed.

Lemma balances_ok_insert m k v : balances_ok m → 0 ≤ v < 2 ^ 256 → balances_ok (<[k := v]> m).
Proof. intros H Hv. by apply map_Forall_insert_2. Qed.

Lemma u256_add_ok a b : 0 ≤ a < 2 ^ 256 → 0 ≤ b < 2 ^ 256 →
  if u256_add a b <? a then 2 ^ 256 ≤ a + b else u256_add a b = a + b ∧ a + b < 2 ^ 256.
Proof.
  intros Ha Hb. unfold u256_add, wrapU. destruct (decide (a + b < 2 ^ 256)).
  - rewrite Z.mod_small by lia. by rewrite (proj2 (Z.ltb_ge _ _)) by lia.
  - replace ((a + b) mod 2 ^ 256) with (a + b - 2 ^ 256); [by rewrite (proj2 (Z.ltb_lt _ _)) by lia; lia|].
    rewrite <- (Z_mod_plus_full (a + b) (-1)), Z.mod_small; lia.
Qed.

Lemma u256_sub_ok a b : 0 ≤ b ≤ a → a < 2 ^ 256 → u256_sub a b = a - b.
Proof. intros. apply wrapU_id. lia. Qed.

(** The end of a transfer, when the sender has the money. *)
Lemma transfer_update_ok auth f u n origin a b m :
  f ≠ u → m !! f = Some a → m !! u = Some b → 0 ≤ n ≤ a → a < 2 ^ 256 → 0 ≤ b < 2 ^ 256 →
  transfer_update auth f u n origin a b m
  = if b + n <? 2 ^ 256 then
      if checkAuthority auth origin then (0, <[u := b + n]> (<[f := a - n]> m)) else (CODE_NO_AUTHORIZED, m)
    else (CODE_INVALID_BALANCE_OVERFLOW, m).
Proof.
  intros Hne Hf Hu Hn Ha Hb. unfold transfer_update. pose proof (u256_add_ok b n Hb ltac:(lia)) as Hadd.
  destruct (u256_add b n <? b).
  - by rewrite (proj2 (Z.ltb_ge (b + n) _)) by lia.
  - destruct Hadd as [-> Hlt]. rewrite (proj2 (Z.ltb_lt (b + n) _)) by lia. unfold table_update.
    destruct (checkAuthority auth origin); [|done]. rewrite Hf. cbn. rewrite lookup_insert_ne, Hu by done.
    by rewrite u256_sub_ok by lia.
Qed.

(** What a call keeps: the balances stay in range, a call that fails changes no
    balance, and one that succeeds changes the total by its amount. *)
Definition conserves (op : dag_op) (m : balances) (r : Z * dag_table) : Prop :=
  balances_ok (openTable r.2)
  ∧ if r.1 =? 0 then total (openTable r.2) = total m + op_delta op else openTable r.2 = m.

Lemma userAdd_conserves auth u n origin t :
  balances_ok (openTable t) → 0 ≤ n < 2 ^ 256 → conserves (OpAdd u n) (openTable t) (userAdd auth u n origin t).
Proof.
  intros Hok Hn. unfold userAdd, conserves. destruct (invalidUserName u); [done|].
  destruct (openTable t !! u) eqn:E; [done|]. unfold table_insert. destruct (checkAuthority auth origin); [|done]. cbn.
  split; [by apply balances_ok_insert|by apply total_insert_new].
Qed.

Lemma userSave_conserves auth u n origin t :
  balances_ok (openTable t) → 0 ≤ n < 2 ^ 256 → conserves (OpSave u n) (openTable t) (userSave auth u n origin t).
Proof.
  intros Hok Hn. unfold userSave, conserves. destruct (invalidUserName u); [done|]. destruct (n =? 0); [done|].
  destruct (openTable t !! u) as [b|] eqn:E.
  - pose proof (Hok u b E) as Hb. pose proof (u256_add_ok b n Hb Hn) as Hadd. cbv beta in Hb.
    destruct (u256_add b n <? b); [done|]. destruct Hadd as [-> Hlt]. unfold table_update. rewrite E.
    destruct (checkAuthority auth origin); [|done]. cbn.
    split; [apply balances_ok_insert; [done|lia]|]. rewrite (total_insert _ _ _ b) by done. lia.
  - unfold table_insert. destruct (checkAuthority auth origin); [|done]. cbn.
    split; [by apply balances_ok_insert|by apply total_insert_new].
Qed.

Lemma userDraw_conserves auth u n origin t :
  balances_ok (openTable t) → 0 ≤ n < 2 ^ 256 → conserves (OpDraw u n) (openTable t) (userDraw auth u n origin t).
Proof.
  intros Hok Hn. unfold userDraw, conserves. destruct (invalidUserName u); [done|]. destruct (n =? 0); [done|].
  destruct (openTable t !! u) as [b|] eqn:E; [|done]. pose proof (Hok u b E) as Hb. cbv beta in Hb.
  destruct (b <? n) eqn:Hlt; [done|]. apply Z.ltb_ge in Hlt. rewrite u256_sub_ok by lia. unfold table_update. rewrite E.
  destruct (checkAuthority auth origin); [|done]. cbn.
  split; [apply balances_ok_insert; [done|lia]|]. rewrite (total_insert _ _ _ b) by done. lia.
Qed.

Lemma userTransfer_conserves auth f u n origin t :
  balances_ok (openTable t) → 0 ≤ n < 2 ^ 256 →
  conserves (OpTransfer f u n) (openTable t) (userTransfer auth f u n origin t).
Proof.
  intros Hok Hn. unfold userTransfer, conserves. destruct (_ || _); [done|]. destruct (n =? 0); [done|].
  case_bool_decide as Hfu; [split; [done|]; cbn [fst snd Z.eqb op_delta]; lia|].
  set (m := openTable t) in *. clearbody m. destruct (m !! f) as [a|] eqn:Ef; [|done].
  pose proof (Hok f a Ef) as Ha. cbv beta in Ha. destruct (a <? n) eqn:Hlt; [done|]. apply Z.ltb_ge in Hlt.
  assert (Hmove : ∀ m' b, balances_ok m' → m' !! f = Some a → m' !! u = Some b →
    balances_ok (<[u := b + n]> (<[f := a - n]> m')) ∨ 2 ^ 256 ≤ b + n).
  { intros m' b Hm Hf Hu. pose proof (Hm u b Hu) as Hb. cbv beta in Hb. destruct (decide (b + n < 2 ^ 256)); [left|right; lia].
    apply balances_ok_insert; [apply balances_ok_insert; [done|lia]|lia]. }
  assert (Htot : ∀ m' b, m' !! f = Some a → m' !! u = Some b → total (<[u := b + n]> (<[f := a - n]> m')) = total m').
  { intros m' b Hf Hu. rewrite (total_insert _ _ _ b), (total_insert _ _ _ a) by (rewrite ?lookup_insert_ne; done). lia. }
  destruct (m !! u) as [b|] eqn:Eu.
  - pose proof (Hok u b Eu) as Hb. cbv beta in Hb. rewrite transfer_update_ok by (done || lia).
    destruct (b + n <? 2 ^ 256) eqn:Hov; [|done]. apply Z.ltb_lt in Hov. destruct (checkAuthority auth origin); [|done]. cbn [fst snd Z.eqb op_delta openTable default from_option id].
    destruct (Hmove _ b Hok Ef Eu) as [?|?]; [|lia]. split; [done|]. rewrite Htot by done. lia.
  - unfold table_insert. destruct (checkAuthority auth origin) eqn:Hau; [|done]. change (1 =? CODE_NO_AUTHORIZED) with false. cbv iota.
    assert (Ef' : <[u := 0]> (m) !! f = Some a) by (by rewrite lookup_insert_ne).
    assert (Eu' : <[u := 0]> (m) !! u = Some 0) by apply lookup_insert_eq.
    rewrite transfer_update_ok by (done || lia). rewrite Hau, (proj2 (Z.ltb_lt _ _)) by lia. cbn [fst snd Z.eqb op_delta openTable default from_option id].
    destruct (Hmove _ 0 (balances_ok_insert _ u 0 Hok ltac:(lia)) Ef' Eu') as [?|?]; [|lia].
    split; [done|]. rewrite Htot by done. rewrite total_insert_new by done. lia.
Qed.

(** C35. Money is neither made nor lost: a transfer leaves the total of the balances as it
    was, a deposit, a withdrawal and a new account change it by their amount when they
    succeed, a call that fails changes no balance, and no balance ever leaves the range
    of a 256-bit integer, although the additions wrap around. *)
Theorem dag_conservation auth op origin t :
  balances_ok (openTable t) → 0 ≤ op_amount op < 2 ^ 256 →
  conserves op (openTable t) (run_op auth op origin t).
Proof.
  destruct op; intros Hok Hn;
    [by apply userAdd_conserves|by apply userSave_conserves|by apply userDraw_conserves|by apply userTransfer_conserves].
Qed.

Definition sampleTable : dag_table := Some {["alice"%string := 5; "bob"%string := 2 ^ 256 - 3]}.

Lemma dag_conservation_witness :
  conserves (OpTransfer "alice" "carol" 4) (openTable sampleTable) (run_op [7] (OpTransfer "alice" "carol" 4) 7 sampleTable).
Proof.
  apply (dag_conservation [7] (OpTransfer "alice" "carol" 4) 7 sampleTable); [|cbn; lia].
  apply map_Forall_insert_2; [lia|]. apply map_Forall_singleton. lia.
Defined.

(** ** Calls with disjoint tags commute *)

(** A call that reads and writes only the balances of the users in [ks]. *)
Record local_to {A} (ks : list string) (f : dag_table → A * dag_table) : Prop := {
  lo_frame : ∀ t k, k ∉ ks → openTable (f t).2 !! k = openTable t !! k;
  lo_same : ∀ t t', (∀ k, k ∈ ks → openTable t !! k = openTable t' !! k) →
    (f t).1 = (f t').1 ∧ ∀ k, k ∈ ks → openTable (f t).2 !! k = openTable (f t').2 !! k;
  lo_open : ∃ b : bool, ∀ t, is_Some (f t).2 ↔ b ∨ is_Some t }.

Lemma table_eq (t t' : dag_table) : (is_Some t ↔ is_Some t') → (∀ k, openTable t !! k = openTable t' !! k) → t = t'.
Proof.
  intros Hs Hk. destruct t as [m|], t' as [m'|].
  - f_equal. by apply map_eq.
  - destruct (proj1 Hs ltac:(eauto)) as [? [=]].
  - destruct (proj2 Hs ltac:(eauto)) as [? [=]].
  - done.
Qed.

Lemma local_commute {A B} ks ks' (f : dag_table → A * dag_table) (g : dag_table → B * dag_table) t :
  local_to ks f → local_to ks' g → (∀ k, k ∈ ks → k ∉ ks') →
  (f (g t).2).1 = (f t).1 ∧ (g (f t).2).1 = (g t).1 ∧ (g (f t).2).2 = (f (g t).2).2.
Proof.
  intros [Hf1 Hf2 [bf Hf3]] [Hg1 Hg2 [bg Hg3]] Hd.
  assert (Hf : ∀ k, k ∈ ks → openTable (g t).2 !! k = openTable t !! k) by (intros k Hk; apply Hg1; auto).
  assert (Hg : ∀ k, k ∈ ks' → openTable (f t).2 !! k = openTable t !! k) by (intros k Hk; apply Hf1; intros H; by eapply Hd).
  destruct (Hf2 _ _ Hf) as [Hfo Hft]. destruct (Hg2 _ _ Hg) as [Hgo Hgt]. split_and!; [done|done|].
  apply table_eq; [rewrite Hg3, Hf3, Hf3, Hg3; tauto|]. intros k.
  destruct (decide (k ∈ ks')) as [Hk|Hk].
  - rewrite Hgt by done. rewrite (Hf1 _ k); [done|]. intros H. by eapply Hd.
  - rewrite Hg1 by done. destruct (decide (k ∈ ks)) as [Hk'|Hk'].
    + by rewrite Hft.
    + rewrite !Hf1 by done. by rewrite Hg1.
Qed.

Lemma local_map {A B} ks (h : A → B) (f : dag_table → A * dag_table) :
  local_to ks f → local_to ks (λ t, let '(a, t) := f t in (h a, t)).
Proof.
  intros [H1 H2 [b H3]]. split.
  - intros t k Hk. specialize (H1 t k Hk). by destruct (f t).
  - intros t t' H. destruct (H2 t t' H) as [Ha Hb]. destruct (f t), (f t'). simpl in *. by subst.
  - exists b. intros t. specialize (H3 t). by destruct (f t).
Qed.

Lemma local_const {A} ks (a : A) : local_to ks (λ t, (a, t)).
Proof. split; [done|done|]. exists false. intros t. simpl. tauto. Qed.

(** A call that opens the table and changes it by [g]. *)
Lemma local_opened {A} ks (g : balances → A * balances) :
  (∀ m k, k ∉ ks → (g m).2 !! k = m !! k) →
  (∀ m m', (∀ k, k ∈ ks → m !! k = m' !! k) → (g m).1 = (g m').1 ∧ ∀ k, k ∈ ks → (g m).2 !! k = (g m').2 !! k) →
  local_to ks (λ t, let '(a, m) := g (openTable t) in (a, Some m)).
Proof.
  intros H1 H2. split.
  - intros t k Hk. specialize (H1 (openTable t) k Hk). by destruct (g (openTable t)).
  - intros t t' H. destruct (H2 _ _ H) as [Ha Hb]. by destruct (g (openTable t)), (g (openTable t')).
  - exists true. intros t. destruct (g (openTable t)). simpl. split; eauto.
Qed.

Lemma local_ext {A} ks (f g : dag_table → A * dag_table) : (∀ t, f t = g t) → local_to ks g → local_to ks f.
Proof.
  intros He [H1 H2 [b H3]]. split.
  - intros t k. rewrite He. apply H1.
  - intros t t'. rewrite !He. apply H2.
  - exists b. intros t. rewrite He. apply H3.
Qed.

Ltac local_lookups :=
  repeat first
    [ rewrite lookup_insert_eq | rewrite lookup_insert_ne by (done || set_solver)
    | match goal with H : ∀ k, k ∈ _ → openTable _ !! k = openTable _ !! k |- _ => rewrite H by set_solver end ].

Ltac local_cases :=
  unfold transfer_update, table_update, table_insert;
  repeat (cbn [fst snd openTable default from_option id]; local_lookups;
    match goal with
    | |- context [match ?x with _ => _ end] => lazymatch x with context [match _ with _ => _ end] => fail | _ => destruct x eqn:? end
    end);
  cbn [fst snd openTable default from_option id]; try done;
  rewrite ?lookup_insert; repeat case_decide; try done; subst; try set_solver.

Ltac solve_local :=
  split; [intros t k Hk; local_cases|intros t t' H; split; [local_cases|intros k Hk; local_cases]
         |exists true; intros t; split; [by left|intros _; local_cases; by eexists]].

Lemma userAdd_local auth u n origin : local_to [u] (userAdd auth u n origin).
Proof. unfold userAdd. destruct (invalidUserName u); [apply local_const|]. solve_local. Qed.

Lemma userSave_local auth u n origin : local_to [u] (userSave auth u n origin).
Proof.
  unfold userSave. destruct (invalidUserName u); [apply local_const|]. destruct (n =? 0); [apply local_const|]. solve_local.
Qed.

Lemma userDraw_local auth u n origin : local_to [u] (userDraw auth u n origin).
Proof.
  unfold userDraw. destruct (invalidUserName u); [apply local_const|]. destruct (n =? 0); [apply local_const|]. solve_local.
Qed.

Lemma userTransfer_local auth f u n origin : local_to [f; u] (userTransfer auth f u n origin).
Proof.
  unfold userTransfer. destruct (_ || _); [apply local_const|]. destruct (n =? 0); [apply local_const|].
  case_bool_decide as Hfu; [apply local_const|]. solve_local.
Qed.

(** ** Calls from their data *)

Section calls.
Context (auth : list Z) `{Crypto}.

(** The effect of a call; a call that reads through a null pointer has none. *)
Definition dag_exec (param : bytes) (origin : Z) (t : dag_table) : bytes * dag_table :=
  default ([], t) (dag_call auth param origin t).
Definition dag_tags (param : bytes) : list string := default [] (getParallelTag param).

(** The call is [userBalance]. *)
Definition is_balance_call (param : bytes) : bool :=
  match getParamFunc param with
  | Some func =>
      negb (func =? name2Selector DAG_TRANSFER_METHOD_ADD_STR_UINT)
      && negb (func =? name2Selector DAG_TRANSFER_METHOD_SAV_STR_UINT)
      && negb (func =? name2Selector DAG_TRANSFER_METHOD_DRAW_STR_UINT)
      && negb (func =? name2Selector DAG_TRANSFER_METHOD_TRS_STR2_UINT)
      && (func =? name2Selector DAG_TRANSFER_METHOD_BAL_STR)
  | None => false
  end.

Lemma dag_exec_local param origin : is_balance_call param = false → local_to (dag_tags param) (dag_exec param origin).
Proof.
  unfold is_balance_call, dag_tags, dag_exec, dag_call, getParallelTag.
  destruct (getParamFunc param) as [func|]; [|intros _; apply local_const]. cbn [mbind option_bind default from_option id].
  destruct (func =? _); [|destruct (func =? _); [|destruct (func =? _); [|destruct (func =? _)]]]; cbn [negb andb].
  - intros _. unfold userAddCall. apply local_map. destruct (invalidUserName _) eqn:E; [|apply userAdd_local].
    unfold userAdd. rewrite E. apply local_const.
  - intros _. unfold userSaveCall. apply local_map. destruct (invalidUserName _) eqn:E; [|apply userSave_local].
    unfold userSave. rewrite E. apply local_const.
  - intros _. unfold userDrawCall. apply local_map. destruct (invalidUserName _) eqn:E; [|apply userDraw_local].
    unfold userDraw. rewrite E. apply local_const.
  - intros _. unfold userTransferCall. apply local_map.
    destruct (negb _ && negb _) eqn:E; [apply userTransfer_local|]. unfold userTransfer.
    rewrite <- negb_orb in E. apply negb_false_iff in E. rewrite E. apply local_const.
  - intros ->. apply local_const.
Qed.

(** Calls whose tags have nothing in common can change places: the outputs and the
    table are the same. *)
Lemma dag_exec_commute p q op oq t :
  is_balance_call p = false → is_balance_call q = false → (∀ k, k ∈ dag_tags p → k ∉ dag_tags q) →
  (dag_exec p op (dag_exec q oq t).2).1 = (dag_exec p op t).1
  ∧ (dag_exec q oq (dag_exec p op t).2).1 = (dag_exec q oq t).1
  ∧ (dag_exec q oq (dag_exec p op t).2).2 = (dag_exec p op (dag_exec q oq t).2).2.
Proof. intros Hp Hq Hd. eapply local_commute; [by apply dag_exec_local..|done]. Qed.
End calls.

(** Function selectors need the first bytes of a hash to differ. *)
Definition selectorCrypto : Crypto := {|
  KeyPair := Z;
  pub := λ k, k;
  Hash := λ b, Z.shiftl (@Hash toyCrypto b) 240;
  Sign := λ k h, hashBytes 64 k ++ hashBytes 32 h;
  Verify := λ k s h, bool_decide (s = hashBytes 64 k ++ hashBytes 32 h);
|}.

Definition sampleSave : bytes :=
  @abiIn selectorCrypto DAG_TRANSFER_METHOD_SAV_STR_UINT [existT TString "alice"%string; existT TUint 3].
Definition sampleBalance : bytes := @abiIn selectorCrypto DAG_TRANSFER_METHOD_BAL_STR [existT TString "alice"%string].

(** [userBalance] has no tag, so nothing orders it against a deposit of the same user
    in its block, and its output depends on the order. *)
Lemma balance_unordered :
  @dag_tags selectorCrypto sampleBalance = [] ∧ @dag_tags selectorCrypto sampleSave = ["alice"%string]
  ∧ (@dag_exec [] selectorCrypto sampleBalance 1 (@dag_exec [] selectorCrypto sampleSave 1 sampleTable).2).1
    ≠ (@dag_exec [] selectorCrypto sampleBalance 1 sampleTable).1.
Proof. split_and!; vm_compute; congruence. Qed.
