(* ===== verification/Transaction.v ===== *)
(** * Transactions (libethcore/Transaction.h, Transaction.cpp; libdevcrypto/ECDSASignature.cpp)

    The transaction object, its RLP form since version RC2, its memoised hash, sender and
    bytes, with the signature of the ECDSA configuration.  Recovering the public key is
    a parameter; zero is its failure.  An [Address] or hash that is zero is the unset one. *)
From S2P Require Import Prelude CommonData RLP Crypto BlockHeader.
Local Open Scope Z_scope.

(** ** [ECDSASignature] *)

Record ECDSASignature := mkSignature { sig_r : Z; sig_s : Z; sig_v : Z }.

Definition c_secp256k1n : Z := 115792089237316195423570985008687907852837564279074904382605163141518161494337.
Definition VBase : Z := 27.

Definition sig_encode (sg : ECDSASignature) (s : RLPStream) : result dev_exn RLPStream :=
  s ← appendUnsigned (wrapU 8 (sig_v sg + VBase)) s;
  s ← appendBigint (sig_r sg) s;
  appendBigint (sig_s sg) s.

Definition sig_isValid (sg : ECDSASignature) : bool :=
  if c_secp256k1n / 2 <? sig_s sg then false
  else
    let s_max := 0xfffffffffffffffffffffffffffffffebaaedce6af48a03bbfd25e8cd0364141 in
    (sig_v sg <=? 1) && (0 <? sig_r sg) && (0 <? sig_s sg) && (sig_r sg <? s_max) && (sig_s sg <? s_max).

(** ** [Transaction] *)

Inductive tx_exn := TxRLP (e : dev_exn) | InvalidTransactionFormat | InvalidSignature | TransactionIsUnsigned.
Inductive TxType := NullTransaction | ContractCreation | MessageCall.
Inductive IncludeSignature := WithoutSignature | WithSignature.
Inductive CheckTransaction := CheckNone | CheckCheap | CheckEverything.
#[global] Instance TxType_eq_dec : EqDecision TxType.
Proof. solve_decision. Defined.

Definition c_fieldCountRC2WithOutSig : Z := 10.
Definition c_sigCount : Z := 3.

Record TxObject := mkTxObject {
  t_type : TxType; t_nonce : Z; t_value : Z; t_receiveAddress : Z; t_gasPrice : Z; t_gas : Z; t_data : bytes;
  t_vrs : option ECDSASignature; t_hashWith : Z; t_sender : Z; t_blockLimit : Z; t_rlpBuffer : bytes;
  t_chainId : Z; t_groupId : Z; t_extraData : bytes }.

Definition lift_tx {A} (r : result dev_exn A) : result tx_exn A :=
  match r with Ok a => Ok a | Throw e => Throw (TxRLP e) end.

(** The fields that [encodeRC2] writes before the signature. *)
Definition tx_streamFields (t : TxObject) (s : RLPStream) : result dev_exn RLPStream :=
  s ← appendBigint (t_nonce t) s;
  s ← appendBigint (t_gasPrice t) s;
  s ← appendBigint (t_gas t) s;
  s ← appendBigint (t_blockLimit t) s;
  s ← match t_type t with MessageCall => appendHash 20 (t_receiveAddress t) | _ => appendBytes [] false end s;
  s ← appendBigint (t_value t) s;
  s ← appendBytes (t_data t) false s;
  s ← appendBigint (t_chainId t) s;
  s ← appendBigint (t_groupId t) s;
  appendBytes (t_extraData t) false s.

(** [encodeRC2]: nothing is written for a null transaction. *)
Definition tx_encode (sig : IncludeSignature) (t : TxObject) : result tx_exn bytes :=
  if bool_decide (t_type t = NullTransaction) then Ok [] else
  s ← lift_tx (
    s ← appendList ((match sig with WithSignature => c_sigCount | _ => 0 end) + c_fieldCountRC2WithOutSig) emptyStream;
    tx_streamFields t s);
  s ← (match sig, t_vrs t with
       | WithSignature, None => Throw TransactionIsUnsigned
       | WithSignature, Some vrs => lift_tx (sig_encode vrs s)
       | WithoutSignature, _ => Ok s
       end);
  lift_tx (streamOut s).

Section crypto.
Context `{Crypto} (Recover : ECDSASignature → Z → Z).

(** [sha3], with the memo it leaves; [encode] that throws leaves the memo. *)
Definition tx_sha3_of (sig : IncludeSignature) (t : TxObject) : result tx_exn (TxObject * Z) :=
  match sig with
  | WithSignature =>
      if negb (t_hashWith t =? 0) then Ok (t, t_hashWith t)
      else
        d ← tx_encode WithSignature t;
        Ok (mkTxObject (t_type t) (t_nonce t) (t_value t) (t_receiveAddress t) (t_gasPrice t) (t_gas t) (t_data t)
              (t_vrs t) (Hash d) (t_sender t) (t_blockLimit t) (t_rlpBuffer t) (t_chainId t) (t_groupId t) (t_extraData t),
            Hash d)
  | WithoutSignature => d ← tx_encode WithoutSignature t; Ok (t, Hash d)
  end.

Definition set_t_sender (a : Z) (t : TxObject) : TxObject :=
  mkTxObject (t_type t) (t_nonce t) (t_value t) (t_receiveAddress t) (t_gasPrice t) (t_gas t) (t_data t)
    (t_vrs t) (t_hashWith t) a (t_blockLimit t) (t_rlpBuffer t) (t_chainId t) (t_groupId t) (t_extraData t).

(** [right160]. *)
Definition right160 (h : Z) : Z := wrapU 160 h.

(** [sender], with the memo. *)
Definition tx_sender (t : TxObject) : result tx_exn (TxObject * Z) :=
  if negb (t_sender t =? 0) then Ok (t, t_sender t)
  else
    match t_vrs t with
    | None => Throw TransactionIsUnsigned
    | Some vrs =>
        '(_, h) ← tx_sha3_of WithoutSignature t;
        let p := Recover vrs h in
        if p =? 0 then Throw InvalidSignature
        else let a := right160 (Hash (hashBytes 64 p)) in Ok (set_t_sender a t, a)
    end.
Definition safeSender (t : TxObject) : Z := match tx_sender t with Ok (_, a) => a | Throw _ => 0 end.

(** [decodeRC2] from the object [rlp]. *)
Definition tx_populate (buffer : bytes) : reader tx_exn TxObject :=
  let int i := fieldE TxRLP i (λ d, lift_tx (toInt T_u256 d Strict)) in
  nonce ← int 0;
  gasPrice ← int 1;
  gas ← int 2;
  blockLimit ← int 3;
  receive ← fieldE TxRLP 4 (λ d,
    if isEmpty d then Ok (ContractCreation, 0) else a ← lift_tx (toHash 20 d VeryStrict); Ok (MessageCall, a));
  value ← int 5;
  data ← fieldE TxRLP 6 (λ d,
    if negb (isData d) then Throw InvalidTransactionFormat else lift_tx (toBytes d LaissezFaire));
  chainId ← int 7;
  groupId ← int 8;
  extraData ← fieldE TxRLP 9 (λ d, lift_tx (toBytes d LaissezFaire));
  v ← fieldE TxRLP 10 (λ d, lift_tx (toInt T_uint8 d Strict));
  r ← int 11;
  s ← int 12;
  mret (mkTxObject receive.1 nonce value receive.2 gasPrice gas data (Some (mkSignature r s (wrapU 8 (v - VBase))))
          0 0 blockLimit buffer chainId groupId extraData).

(** [decode] of bytes into a fresh object. *)
Definition tx_decode (check : CheckTransaction) (d : bytes) : result tx_exn TxObject :=
  r ← lift_tx (newRLP d VeryStrict);
  _ ← throw_if (negb (isList d)) InvalidTransactionFormat;
  t ← (tx_populate d r).2;
  let valid := match t_vrs t with Some vrs => sig_isValid vrs | None => false end in
  match check with
  | CheckNone => Ok t
  | CheckCheap => _ ← throw_if (negb valid) InvalidSignature; Ok t
  | CheckEverything =>
      _ ← throw_if (negb valid) InvalidSignature;
      '(t, _) ← tx_sender t;
      Ok t
  end.

(** [rlp]. *)
Definition tx_rlp_of (sig : IncludeSignature) (t : TxObject) : result tx_exn bytes :=
  match t_rlpBuffer t with [] => tx_encode sig t | b => Ok b end.

(** The setters; the first three drop the memos. *)
Definition tx_setNonce (n : Z) (t : TxObject) : TxObject :=
  mkTxObject (t_type t) n (t_value t) (t_receiveAddress t) (t_gasPrice t) (t_gas t) (t_data t)
    None 0 0 (t_blockLimit t) [] (t_chainId t) (t_groupId t) (t_extraData t).
Definition tx_setBlockLimit (n : Z) (t : TxObject) : TxObject :=
  mkTxObject (t_type t) (t_nonce t) (t_value t) (t_receiveAddress t) (t_gasPrice t) (t_gas t) (t_data t)
    None 0 0 n [] (t_chainId t) (t_groupId t) (t_extraData t).
Definition tx_updateSignature (sg : ECDSASignature) (t : TxObject) : TxObject :=
  mkTxObject (t_type t) (t_nonce t) (t_value t) (t_receiveAddress t) (t_gasPrice t) (t_gas t) (t_data t)
    (Some sg) 0 0 (t_blockLimit t) [] (t_chainId t) (t_groupId t) (t_extraData t).
Definition tx_setData (d : bytes) (t : TxObject) : TxObject :=
  mkTxObject (t_type t) (t_nonce t) (t_value t) (t_receiveAddress t) (t_gasPrice t) (t_gas t) d
    (t_vrs t) (t_hashWith t) (t_sender t) (t_blockLimit t) (t_rlpBuffer t) (t_chainId t) (t_groupId t) (t_extraData t).
Definition tx_forceSender (a : Z) (t : TxObject) : TxObject := set_t_sender a t.

(** [checkChainId] and [checkGroupId]. *)
Definition tx_checkChainId (c : Z) (t : TxObject) : bool := c =? t_chainId t.
Definition tx_checkGroupId (g : Z) (t : TxObject) : bool := g =? t_groupId t.
End crypto.

(** [baseGasRequired] for the gas of a schedule, in [int64_t]. *)
Definition baseGasRequired (txCreateGas txGas txDataNonZeroGas txDataZeroGas : Z) (contractCreation : bool) (data : bytes) : Z :=
  foldl (λ g i, wrapS 64 (g + if negb (byte.unsigned i =? 0) then txDataNonZeroGas else txDataZeroGas))
    (if contractCreation then txCreateGas else txGas) data.

(** ** Round trip *)

(** The values the C++ types can hold, and sizes that fit in memory; a contract
    creation has no receiver. *)
Record tx_wf (t : TxObject) : Prop := {
  tw_type : t_type t ≠ NullTransaction;
  tw_nonce : 0 ≤ t_nonce t < 2 ^ 256;
  tw_value : 0 ≤ t_value t < 2 ^ 256;
  tw_receive : 0 ≤ t_receiveAddress t < 2 ^ 160;
  tw_creation : t_type t = ContractCreation → t_receiveAddress t = 0;
  tw_gasPrice : 0 ≤ t_gasPrice t < 2 ^ 256;
  tw_gas : 0 ≤ t_gas t < 2 ^ 256;
  tw_blockLimit : 0 ≤ t_blockLimit t < 2 ^ 256;
  tw_chainId : 0 ≤ t_chainId t < 2 ^ 256;
  tw_groupId : 0 ≤ t_groupId t < 2 ^ 256;
  tw_data : zlen (t_data t) < 2 ^ 60;
  tw_extra : zlen (t_extraData t) < 2 ^ 60 }.
Record sig_wf (sg : ECDSASignature) : Prop := {
  sw_r : 0 ≤ sig_r sg < 2 ^ 256;
  sw_s : 0 ≤ sig_s sg < 2 ^ 256;
  sw_v : 0 ≤ sig_v sg < 2 ^ 8 }.

Definition tx_receive_item (t : TxObject) : bytes :=
  match t_type t with MessageCall => encHash 20 (t_receiveAddress t) | _ => rlpData [] end.

(** The items of an encoded transaction. *)
Definition tx_fields (t : TxObject) : list bytes :=
  [encInt (t_nonce t); encInt (t_gasPrice t); encInt (t_gas t); encInt (t_blockLimit t); tx_receive_item t;
   encInt (t_value t); rlpData (t_data t); encInt (t_chainId t); encInt (t_groupId t); rlpData (t_extraData t)].
Definition sig_fields (sg : ECDSASignature) : list bytes :=
  [encInt (wrapU 8 (sig_v sg + VBase)); encInt (sig_r sg); encInt (sig_s sg)].

Lemma wrapU_8_32 z : wrapU 32 (wrapU 8 z) = wrapU 8 z.
Proof. pose proof (wrapU_range 8 z ltac:(lia)). apply wrapU_id. lia. Qed.

Lemma sig_v_256 sg : 0 ≤ wrapU 8 (sig_v sg + VBase) < 2 ^ 256.
Proof. pose proof (wrapU_range 8 (sig_v sg + VBase) ltac:(lia)). lia. Qed.

Lemma tx_receive_good t : good_item (tx_receive_item t) ∧ zlen (tx_receive_item t) ≤ 29.
Proof.
  unfold tx_receive_item. destruct (t_type t).
  1,2: split; [by apply rlpData_good|by vm_compute].
  split; [by apply encHash_good|]. by apply (zlen_encHash 20).
Qed.

Lemma tx_items_good t sg : tx_wf t → sig_wf sg → Forall good_item (tx_fields t ++ sig_fields sg).
Proof.
  intros [] []. pose proof (sig_v_256 sg).
  repeat constructor; try (by apply encInt_good); try (by apply tx_receive_good);
    (apply rlpData_good; unfold rlp_fits; lia).
Qed.

Lemma tx_items_fit t sg : tx_wf t → sig_wf sg → rlp_fits (mjoin (tx_fields t ++ sig_fields sg)).
Proof.
  intros [] []. unfold rlp_fits, tx_fields, sig_fields. cbn [app]. rewrite !zlen_mjoin. change (zlen (mjoin [])) with 0.
  pose proof (zlen_encInt _ tw_nonce0). pose proof (zlen_encInt _ tw_gasPrice0). pose proof (zlen_encInt _ tw_gas0).
  pose proof (zlen_encInt _ tw_blockLimit0). pose proof (zlen_encInt _ tw_value0). pose proof (zlen_encInt _ tw_chainId0).
  pose proof (zlen_encInt _ tw_groupId0). pose proof (zlen_encInt _ (sig_v_256 sg)). pose proof (zlen_encInt _ sw_r0).
  pose proof (zlen_encInt _ sw_s0). pose proof (proj2 (tx_receive_good t)).
  pose proof (zlen_rlpData (t_data t) ltac:(unfold rlp_fits; lia)).
  pose proof (zlen_rlpData (t_extraData t) ltac:(unfold rlp_fits; lia)). lia.
Qed.

Ltac append_int :=
  rewrite append_step with (enc := encInt) by first [lia | by apply appendBigint_256]; cbn [mbind result_bind].

Lemma append_receive t hd k p st :
  1 < k →
  match t_type t with MessageCall => appendHash 20 (t_receiveAddress t) | _ => appendBytes [] false end
    (mkStream (mjoin hd) ((k, p) :: st)) = Ok (mkStream (mjoin (hd ++ [tx_receive_item t])) ((k - 1, p) :: st)).
Proof.
  intros Hk. unfold tx_receive_item. destruct (t_type t).
  1,2: rewrite (append_step (λ d, appendBytes d false) rlpData []) by (done || by apply appendBytes_spec); done.
  rewrite (append_step (appendHash 20) (encHash 20)) by (done || by apply appendHash_spec). done.
Qed.

Lemma tx_stream_nine t k :
  tx_wf t → 9 < k →
  tx_streamFields t (mkStream (mjoin []) [(k, 0)])
  = appendBytes (t_extraData t) false (mkStream (mjoin (take 9 (tx_fields t))) [(k - 9, 0)]).
Proof.
  intros [] Hk. unfold tx_streamFields. do 4 append_int. rewrite append_receive by lia. cbn [mbind result_bind]. append_int.
  rewrite (append_step (λ d, appendBytes d false) rlpData)
    by (lia || (apply appendBytes_spec; unfold rlp_fits; lia)). cbn [mbind result_bind]. do 2 append_int.
  cbn [app]. by replace (k - 1 - 1 - 1 - 1 - 1 - 1 - 1 - 1 - 1) with (k - 9) by lia.
Qed.

Lemma extra_appends t : tx_wf t → appends (λ d, appendBytes d false) rlpData (t_extraData t).
Proof. intros []. apply appendBytes_spec. unfold rlp_fits. lia. Qed.

Lemma tx_encode_items t sg :
  tx_wf t → sig_wf sg → t_vrs t = Some sg → tx_encode WithSignature t = Ok (rlpList (tx_fields t ++ sig_fields sg)).
Proof.
  intros Ht Hs Hv. pose proof (tx_items_fit t sg Ht Hs) as Hfit. pose proof (extra_appends t Ht) as Hx.
  unfold tx_encode. rewrite bool_decide_eq_false_2 by apply Ht. rewrite Hv.
  change (c_sigCount + c_fieldCountRC2WithOutSig) with 13. unfold appendList. change (13 =? 0) with false.
  cbn [emptyStream m_out m_listStack mbind result_bind].
  change (mkStream [] [(13, zlen [])]) with (mkStream (mjoin []) [(13, 0)]).
  rewrite tx_stream_nine by done. rewrite (append_step (λ d, appendBytes d false) rlpData) by done.
  cbn [mbind result_bind lift_tx]. destruct Hs. unfold sig_encode.
  rewrite append_step with (enc := λ i, rlpData (toCompactBigEndian (wrapU 32 i) 0)) by (apply appendUnsigned_spec || lia).
  cbn [mbind result_bind]. rewrite wrapU_8_32. append_int.
  rewrite append_last with (enc := encInt) by first [done | by apply appendBigint_256]. done.
Qed.

Lemma tx_encode_unsigned t : tx_wf t → tx_encode WithoutSignature t = Ok (rlpList (tx_fields t)).
Proof.
  intros Ht. pose proof (tx_items_fit t (mkSignature 0 0 0) Ht ltac:(by split)) as Hfit.
  pose proof (extra_appends t Ht) as Hx. unfold tx_encode. rewrite bool_decide_eq_false_2 by apply Ht.
  change (0 + c_fieldCountRC2WithOutSig) with 10. unfold appendList. change (10 =? 0) with false.
  cbn [emptyStream m_out m_listStack mbind result_bind].
  change (mkStream [] [(10, zlen [])]) with (mkStream (mjoin []) [(10, 0)]).
  rewrite tx_stream_nine by done. change (10 - 9) with 1.
  rewrite (append_last (λ d, appendBytes d false) rlpData); [done|done|].
  unfold rlp_fits in *. rewrite join_app, zlen_app in Hfit. pose proof (zlen_nonneg (mjoin (sig_fields (mkSignature 0 0 0)))).
  change (take 9 (tx_fields t) ++ [rlpData (t_extraData t)]) with (tx_fields t). lia.
Qed.

(** The object as it is just after it was read from [d]. *)
Definition tx_fresh (d : bytes) (t : TxObject) : TxObject :=
  mkTxObject (t_type t) (t_nonce t) (t_value t) (t_receiveAddress t) (t_gasPrice t) (t_gas t) (t_data t)
    (t_vrs t) 0 0 (t_blockLimit t) d (t_chainId t) (t_groupId t) (t_extraData t).

Lemma receive_item_read t :
  tx_wf t →
  (if isEmpty (tx_receive_item t) then Ok (ContractCreation, 0)
   else a ← lift_tx (toHash 20 (tx_receive_item t) VeryStrict); Ok (MessageCall, a))
  = Ok (t_type t, t_receiveAddress t).
Proof.
  intros []. unfold tx_receive_item. destruct (t_type t) eqn:E; [done|by rewrite tw_creation0|].
  assert (He : isEmpty (encHash 20 (t_receiveAddress t)) = false).
  { cbn beta. rewrite rlpData_unfold. unfold hashBytes at 1. cbn [toBigEndian app isShort].
    unfold hashBytes. rewrite zlen_toBigEndian. done. }
  rewrite He, (toHash_enc 20 160) by done. done.
Qed.

Lemma tx_populate_items t sg d :
  tx_wf t → sig_wf sg → t_vrs t = Some sg →
  reads (tx_fields t ++ sig_fields sg) (tx_populate d) (Ok (tx_fresh d t)).
Proof.
  intros Ht Hs Hv. pose proof (tx_items_good t sg Ht Hs) as Hg. pose proof (receive_item_read t Ht) as Hr.
  pose proof (sig_v_256 sg) as Hv'. pose proof (wrapU_range 8 (sig_v sg + VBase) ltac:(lia)) as Hv8. destruct Ht, Hs.
  assert (rlp_fits (t_data t)) by (unfold rlp_fits; lia). assert (rlp_fits (t_extraData t)) by (unfold rlp_fits; lia).
  unfold tx_populate. cbv zeta.
  repeat reads_step ltac:(fun _ =>
     lazymatch goal with
     | |- lift_tx (toInt T_u256 _ _) = _ => rewrite toInt_u256 by done; reflexivity
     | |- lift_tx (toInt T_uint8 _ _) = _ =>
         rewrite toInt_256; [reflexivity|done| |by apply wrapU_idemp];
         apply bytesRequired_le; [done|]; exact Hv8
     | |- lift_tx (toBytes _ _) = _ => rewrite toBytes_data by done; reflexivity
     | |- (if negb (isData _) then _ else _) = _ =>
         rewrite (proj1 (rlpData_isData (t_data t) ltac:(assumption))), toBytes_data by done; reflexivity
     | |- (if isEmpty _ then _ else _) = _ => exact Hr
     end).
  replace (mkTxObject _ _ _ _ _ _ _ _ _ _ _ _ _ _ _) with (tx_fresh d t); [apply reads_ret|].
  unfold tx_fresh. cbn [fst snd]. rewrite Hv. destruct sg as [r s v]. cbn [sig_v sig_r sig_s] in *. f_equal. f_equal. f_equal.
  unfold wrapU, VBase. rewrite <- Zminus_mod_idemp_l, Zmod_mod, Zminus_mod_idemp_l. symmetry.
  rewrite Z.add_simpl_r. by apply Z.mod_small.
Qed.

Section theorems.
Context `{Crypto} (Recover : ECDSASignature → Z → Z).

(** The sender that the signature of a transaction determines. *)
Definition tx_signer (t : TxObject) (sg : ECDSASignature) : option Z :=
  let p := Recover sg (Hash (rlpList (tx_fields t))) in
  if p =? 0 then None else Some (right160 (Hash (hashBytes 64 p))).

Lemma tx_sender_fresh d t sg :
  tx_wf t → t_vrs t = Some sg →
  tx_sender Recover (tx_fresh d t)
  = match tx_signer t sg with Some a => Ok (set_t_sender a (tx_fresh d t), a) | None => Throw InvalidSignature end.
Proof.
  intros Ht Hv. unfold tx_sender, tx_signer. cbn [t_sender tx_fresh t_vrs Z.eqb negb]. rewrite Hv. cbn [tx_sha3_of].
  change (tx_encode WithoutSignature (tx_fresh d t)) with (tx_encode WithoutSignature t).
  rewrite tx_encode_unsigned by done. cbn [mbind result_bind]. by destruct (Recover sg _ =? 0).
Qed.

Lemma tx_decode_items t sg d :
  tx_wf t → sig_wf sg → t_vrs t = Some sg → d = rlpList (tx_fields t ++ sig_fields sg) →
  ∀ check, tx_decode Recover check d
  = match check with
    | CheckNone => Ok (tx_fresh d t)
    | CheckCheap => if sig_isValid sg then Ok (tx_fresh d t) else Throw InvalidSignature
    | CheckEverything =>
        if sig_isValid sg then
          match tx_signer t sg with Some a => Ok (set_t_sender a (tx_fresh d t)) | None => Throw InvalidSignature end
        else Throw InvalidSignature
    end.
Proof.
  intros Ht Hs Hv -> check. pose proof (tx_items_fit t sg Ht Hs) as Hfit. destruct (rlpList_good _ Hfit) as [Hg Hp].
  set (d := rlpList (tx_fields t ++ sig_fields sg)) in *. unfold tx_decode.
  rewrite newRLP_item by done. cbn [lift_tx mbind result_bind].
  assert (Hl : isList d = true) by (by apply rlpList_isList). rewrite Hl. cbn [negb throw_if mbind result_bind].
  destruct (tx_populate_items t sg d Ht Hs Hv (freshRLP d)) as (r' & -> & _); [by left|done|].
  cbn [snd mbind result_bind]. change (t_vrs (tx_fresh d t)) with (t_vrs t). rewrite Hv.
  destruct check; [done|by destruct (sig_isValid sg)|]. destruct (sig_isValid sg); [|done]. cbn [negb throw_if mbind result_bind].
  rewrite (tx_sender_fresh d t sg Ht Hv). by destruct (tx_signer t sg).
Qed.

(** C38. A transaction is read back from its bytes as it was written, contract creations
    included; a full check refuses it exactly when its signature is out of range or no
    key can be recovered, and otherwise sets the sender that the signature determines;
    and the hash of the object read is the hash of its bytes. *)
Theorem tx_roundtrip t sg :
  tx_wf t → sig_wf sg → t_vrs t = Some sg →
  ∃ d, tx_encode WithSignature t = Ok d
    ∧ tx_decode Recover CheckNone d = Ok (tx_fresh d t)
    ∧ tx_decode Recover CheckEverything d
      = (if sig_isValid sg then
           match tx_signer t sg with Some a => Ok (set_t_sender a (tx_fresh d t)) | None => Throw InvalidSignature end
         else Throw InvalidSignature)
    ∧ snd <$> tx_sha3_of WithSignature (tx_fresh d t) = Ok (Hash d).
Proof.
  intros Ht Hs Hv. pose proof (tx_encode_items t sg Ht Hs Hv) as He. eexists. split; [exact He|].
  pose proof (tx_decode_items t sg _ Ht Hs Hv eq_refl) as Hd. split_and!; [apply (Hd CheckNone)|apply (Hd CheckEverything)|].
  unfold tx_sha3_of. cbn [t_hashWith tx_fresh Z.eqb negb].
  change (tx_encode WithSignature (tx_fresh ?d t)) with (tx_encode WithSignature t). rewrite He. done.
Qed.
End theorems.

Definition sampleTxObject : TxObject :=
  mkTxObject MessageCall 5 0 0x1001 1 100000000 [Byte.x01; Byte.x80] (Some (mkSignature 7 9 1)) 0 0 600 [] 1 1 [].

Lemma tx_roundtrip_witness :
  ∃ d, tx_encode WithSignature sampleTxObject = Ok d
    ∧ @tx_decode toyCrypto (λ sg h, sig_r sg + h) CheckEverything d
      = Ok (set_t_sender (right160 (@Hash toyCrypto (hashBytes 64 (7 + @Hash toyCrypto (rlpList (tx_fields sampleTxObject))))))
              (tx_fresh d sampleTxObject)).
Proof.
  destruct (@tx_roundtrip toyCrypto (λ sg h, sig_r sg + h) sampleTxObject (mkSignature 7 9 1)) as (d & H1 & _ & H2 & _);
    [by split|by split|reflexivity|]. exists d. split; [exact H1|]. rewrite H2. vm_compute. reflexivity.
Defined.

(** [setData] and the other setters meant for transactions that the node makes keep the
    memoised hash. *)
Lemma setData_stale_hash `{Crypto} d t :
  t_hashWith t ≠ 0 → snd <$> tx_sha3_of WithSignature (tx_setData d t) = Ok (t_hashWith t).
Proof. intros Hn. unfold tx_sha3_of. cbn [t_hashWith tx_setData]. by rewrite (proj2 (Z.eqb_neq _ _) Hn). Qed.
