(* ===== verification/Receipt.v ===== *)
(** * Receipts (libethcore/TransactionReceipt.h, TransactionReceipt.cpp, LogEntry.h,
    LogEntry.cpp; the filter of libdevcore/FixedHash.h)

    The result of executing a transaction: its RLP form, its logs and their filter, and
    the memoised bytes and hash.  The filter is the integer of its 256 bytes. *)
From S2P Require Import Prelude CommonData RLP Crypto BlockHeader Transaction.
Local Open Scope Z_scope.

Record LogEntry := mkLog { l_address : Z; l_topics : list Z; l_data : bytes }.

(** [streamRLP] and the constructor from RLP. *)
Definition log_streamRLP (l : LogEntry) (s : RLPStream) : result dev_exn RLPStream :=
  s ← appendList 3 s;
  s ← appendHash 20 (l_address l) s;
  s ← appendVector (appendHash 32) (l_topics l) s;
  appendBytes (l_data l) false s.
Definition log_populate : reader dev_exn LogEntry :=
  address ← field 0 (λ d, toHash 20 d Strict);
  topics ← field 1 (λ d, toVector (toHash 32) d LaissezFaire);
  data ← field 2 (λ d, toBytes d LaissezFaire);
  mret (mkLog address topics data).
Definition log_decode (d : bytes) : result dev_exn LogEntry := (log_populate (freshRLP d)).2.

(** ** The filter *)

Section bloom.
Context `{Crypto}.

Definition c_bloomBits : Z := 2048.

(** [bloomPart<3, 256>]: three bits, each named by two bytes of the hash. *)
Definition bloomIndex (h : bytes) (i : nat) : Z :=
  Z.land (Z.lor (Z.shiftl (nthb h (2 * Z.of_nat i)) 8) (nthb h (2 * Z.of_nat i + 1))) (c_bloomBits - 1).
Definition bloomPart (h : Z) : Z :=
  foldl (λ ret i, Z.lor ret (Z.shiftl 1 (bloomIndex (hashBytes 32 h) i))) 0 (seq 0 3).

(** [shiftBloom<3>] and [containsBloom<3>]. *)
Definition shiftBloom (ret h : Z) : Z := Z.lor ret (bloomPart h).
Definition containsBloom (b h : Z) : bool := Z.land b (bloomPart h) =? bloomPart h.

Definition log_bloom (l : LogEntry) : Z :=
  foldl (λ ret t, shiftBloom ret (Hash (hashBytes 32 t))) (shiftBloom 0 (Hash (hashBytes 20 (l_address l)))) (l_topics l).
Definition logs_bloom (logs : list LogEntry) : Z := foldl (λ ret l, Z.lor ret (log_bloom l)) 0 logs.

(** ** [TransactionReceipt] *)

Record Receipt := mkReceiptObj {
  rc_stateRoot : Z; rc_gasUsed : Z; rc_contractAddress : Z; rc_bloom : Z; rc_status : Z;
  rc_output : bytes; rc_log : list LogEntry; rc_receipt : bytes; rc_sha3 : bytes }.

(** The constructor. *)
Definition newReceipt (root gasUsed : Z) (log : list LogEntry) (status : Z) (output : bytes) (contractAddress : Z) : Receipt :=
  mkReceiptObj root gasUsed contractAddress (logs_bloom log) status output log [] [].

(** The setters; the memoised bytes stay. *)
Definition rc_setStateRoot (v : Z) (r : Receipt) : Receipt :=
  mkReceiptObj v (rc_gasUsed r) (rc_contractAddress r) (rc_bloom r) (rc_status r) (rc_output r) (rc_log r) (rc_receipt r) (rc_sha3 r).
Definition rc_setGasUsed (v : Z) (r : Receipt) : Receipt :=
  mkReceiptObj (rc_stateRoot r) v (rc_contractAddress r) (rc_bloom r) (rc_status r) (rc_output r) (rc_log r) (rc_receipt r) (rc_sha3 r).

(** [streamRLP] and [encode]. *)
Definition receipt_streamRLP (r : Receipt) (s : RLPStream) : result dev_exn RLPStream :=
  s ← appendList 7 s;
  s ← appendHash 32 (rc_stateRoot r) s;
  s ← appendBigint (rc_gasUsed r) s;
  s ← appendHash 20 (rc_contractAddress r) s;
  s ← appendHash 256 (rc_bloom r) s;
  s ← appendBigint (rc_status r) s;
  s ← appendBytes (rc_output r) false s;
  appendVector log_streamRLP (rc_log r) s.
Definition receipt_encode (r : Receipt) : result dev_exn bytes := s ← receipt_streamRLP r emptyStream; streamOut s.

(** [receipt] and [sha3], with the memos they leave. *)
Definition receipt_bytes (r : Receipt) : result dev_exn (Receipt * bytes) :=
  match rc_receipt r with
  | [] =>
      d ← receipt_encode r;
      Ok (mkReceiptObj (rc_stateRoot r) (rc_gasUsed r) (rc_contractAddress r) (rc_bloom r) (rc_status r) (rc_output r)
            (rc_log r) d (rc_sha3 r), d)
  | d => Ok (r, d)
  end.
Definition receipt_sha3 (r : Receipt) : result dev_exn (Receipt * bytes) :=
  match rc_sha3 r with
  | [] =>
      '(r, d) ← receipt_bytes r;
      let h := hashBytes 32 (Hash d) in
      Ok (mkReceiptObj (rc_stateRoot r) (rc_gasUsed r) (rc_contractAddress r) (rc_bloom r) (rc_status r) (rc_output r)
            (rc_log r) (rc_receipt r) h, h)
  | h => Ok (r, h)
  end.

(** [decode]: what is not a list is refused; an output that is not data stays empty. *)
Definition receipt_populate : reader dev_exn Receipt :=
  stateRoot ← field 0 (λ d, toHash 32 d Strict);
  gasUsed ← field 1 (λ d, toInt T_u256 d Strict);
  contractAddress ← field 2 (λ d, toHash 20 d Strict);
  bloom ← field 3 (λ d, toHash 256 d Strict);
  status ← field 4 (λ d, toInt T_uint32 d Strict);
  output ← field 5 (λ d, if isData d then toBytes d LaissezFaire else Ok []);
  log ← field 6 (λ d, toVector (λ d _, log_decode d) d LaissezFaire);
  mret (mkReceiptObj stateRoot gasUsed contractAddress bloom status output log [] []).
Definition receipt_decode (d : bytes) : result tx_exn Receipt :=
  r ← lift_tx (newRLP d VeryStrict);
  _ ← throw_if (negb (isList d)) InvalidTransactionFormat;
  lift_tx (receipt_populate r).2.
End bloom.

(** ** Round trip *)

Record log_wf (l : LogEntry) : Prop := {
  lw_address : 0 ≤ l_address l < 2 ^ 160;
  lw_topics : Forall (λ t, 0 ≤ t < 2 ^ 256) (l_topics l);
  lw_size : zlen (l_topics l) < 2 ^ 20;
  lw_data : zlen (l_data l) < 2 ^ 50 }.
Record receipt_wf (r : Receipt) : Prop := {
  rw_stateRoot : 0 ≤ rc_stateRoot r < 2 ^ 256;
  rw_gasUsed : 0 ≤ rc_gasUsed r < 2 ^ 256;
  rw_contract : 0 ≤ rc_contractAddress r < 2 ^ 160;
  rw_bloom : 0 ≤ rc_bloom r < 2 ^ 2048;
  rw_status : 0 ≤ rc_status r < 2 ^ 32;
  rw_output : zlen (rc_output r) < 2 ^ 60;
  rw_log : Forall log_wf (rc_log r);
  rw_logs : zlen (rc_log r) < 2 ^ 8 }.

Abbreviation encTopics := (λ ts, rlpList (encHash 32 <$> ts)).
Definition log_items (l : LogEntry) : list bytes := [encHash 20 (l_address l); encTopics (l_topics l); rlpData (l_data l)].
Definition encLog (l : LogEntry) : bytes := rlpList (log_items l).
Definition receipt_items (r : Receipt) : list bytes :=
  [encHash 32 (rc_stateRoot r); encInt (rc_gasUsed r); encHash 20 (rc_contractAddress r); encHash 256 (rc_bloom r);
   encInt (rc_status r); rlpData (rc_output r); rlpList (encLog <$> rc_log r)].

Lemma zlen_topics ts : zlen (mjoin (encHash 32 <$> ts)) ≤ 41 * zlen ts.
Proof.
  induction ts as [|x ts IH]; [done|]. rewrite fmap_cons, zlen_mjoin, zlen_cons. pose proof (zlen_encHash 32 x ltac:(lia)). lia.
Qed.

Lemma topics_fit l : log_wf l → rlp_fits (mjoin (encHash 32 <$> l_topics l)).
Proof. intros []. pose proof (zlen_topics (l_topics l)). unfold rlp_fits. lia. Qed.

Lemma log_items_ok l : log_wf l → Forall good_item (log_items l) ∧ zlen (mjoin (log_items l)) < 2 ^ 51.
Proof.
  intros Hl. pose proof (topics_fit l Hl) as Ht. pose proof (zlen_topics (l_topics l)). pose proof (zlen_rlpList _ Ht).
  destruct Hl. assert (Hd : rlp_fits (l_data l)) by (unfold rlp_fits; lia). split.
  - apply Forall_cons_2; [by apply encHash_good|]. apply Forall_cons_2; [by apply rlpList_good|].
    apply Forall_cons_2; [by apply rlpData_good|constructor].
  - unfold log_items. rewrite !zlen_mjoin. change (zlen (mjoin [])) with 0.
    pose proof (zlen_encHash 20 (l_address l) ltac:(lia)). pose proof (zlen_rlpData _ Hd). lia.
Qed.

Lemma encLog_good l : log_wf l → good_item (encLog l) ∧ zlen (encLog l) < 2 ^ 52.
Proof.
  intros Hl. destruct (log_items_ok l Hl) as [_ Hs]. assert (Hf : rlp_fits (mjoin (log_items l))) by (unfold rlp_fits; lia).
  split; [by apply rlpList_good|]. unfold encLog. pose proof (zlen_rlpList _ Hf). lia.
Qed.

Lemma logs_fit r : receipt_wf r → rlp_fits (mjoin (encLog <$> rc_log r)) ∧ zlen (mjoin (encLog <$> rc_log r)) < 2 ^ 60.
Proof.
  intros []. assert (H : zlen (mjoin (encLog <$> rc_log r)) ≤ 2 ^ 52 * zlen (rc_log r)).
  { clear -rw_log0. induction rw_log0 as [|l ls Hl _ IH]; [done|]. rewrite fmap_cons, zlen_mjoin, zlen_cons.
    pose proof (proj2 (encLog_good l Hl)). lia. }
  unfold rlp_fits. lia.
Qed.

Lemma receipt_items_ok r : receipt_wf r → Forall good_item (receipt_items r) ∧ rlp_fits (mjoin (receipt_items r)).
Proof.
  intros Hr. destruct (logs_fit r Hr) as [Hf Hlt]. pose proof (zlen_rlpList _ Hf). destruct Hr.
  assert (Ho : rlp_fits (rc_output r)) by (unfold rlp_fits; lia). assert (Hs : 0 ≤ rc_status r < 2 ^ 256) by lia. split.
  - repeat apply Forall_cons_2; first [by apply encHash_good|by apply encInt_good|by apply rlpData_good|by apply rlpList_good|constructor].
  - unfold rlp_fits, receipt_items. rewrite !zlen_mjoin. change (zlen (mjoin [])) with 0.
    pose proof (zlen_encHash 32 (rc_stateRoot r) ltac:(lia)). pose proof (zlen_encHash 20 (rc_contractAddress r) ltac:(lia)).
    pose proof (zlen_encHash 256 (rc_bloom r) ltac:(lia)). pose proof (zlen_encInt _ rw_gasUsed0).
    pose proof (zlen_encInt _ Hs). pose proof (zlen_rlpData _ Ho). lia.
Qed.

Lemma topics_appends l : log_wf l → appends (appendVector (appendHash 32)) encTopics (l_topics l).
Proof.
  intros Hl. apply appendVector_spec; [|by apply topics_fit]. apply Forall_true. intros x. by apply appendHash_spec.
Qed.

Lemma log_appends l : log_wf l → appends log_streamRLP encLog l.
Proof.
  intros Hl s. pose proof (topics_appends l Hl) as Ht. destruct (log_items_ok l Hl) as [_ Hsz].
  unfold log_streamRLP, appendList. change (3 =? 0) with false. cbn [mbind result_bind].
  rewrite (appendHash_spec 20 (l_address l) ltac:(done)). cbn [m_out m_listStack].
  rewrite noteAppended_open by lia. cbn [mbind result_bind]. rewrite Ht. cbn [m_out m_listStack].
  rewrite noteAppended_open by lia. cbn [mbind result_bind].
  rewrite (appendBytes_spec (l_data l)) by (destruct Hl; unfold rlp_fits; lia). cbn [m_out m_listStack].
  replace (((m_out s ++ _) ++ _) ++ _) with (m_out s ++ mjoin (log_items l))
    by (unfold log_items; cbn [mjoin list_join]; by rewrite app_nil_r, <- !app_assoc).
  change (3 - 1 - 1) with 1. rewrite noteAppended_close by (unfold rlp_fits; lia). done.
Qed.

Lemma logs_append r : receipt_wf r → appends (appendVector log_streamRLP) (λ v, rlpList (encLog <$> v)) (rc_log r).
Proof.
  intros Hr. apply appendVector_spec; [|by apply logs_fit]. eapply Forall_impl; [by apply rw_log|]. apply log_appends.
Qed.

Lemma receipt_encode_items r : receipt_wf r → receipt_encode r = Ok (rlpList (receipt_items r)).
Proof.
  intros Hr. destruct (receipt_items_ok r Hr) as [_ Hfit]. pose proof (logs_append r Hr) as Hl. destruct Hr.
  assert (Hs : 0 ≤ rc_status r < 2 ^ 256) by lia.
  unfold receipt_encode, receipt_streamRLP, appendList. change (7 =? 0) with false.
  cbn [emptyStream m_out m_listStack mbind result_bind].
  change (mkStream [] [(7, zlen [])]) with (mkStream (mjoin []) [(7, 0)]).
  rewrite append_step with (enc := encHash 32) by (lia || by apply appendHash_spec). cbn [mbind result_bind]. append_int.
  rewrite append_step with (enc := encHash 20) by (lia || by apply appendHash_spec). cbn [mbind result_bind].
  rewrite append_step with (enc := encHash 256) by (lia || by apply appendHash_spec). cbn [mbind result_bind]. append_int.
  rewrite (append_step (λ d, appendBytes d false) rlpData) by (lia || (apply appendBytes_spec; unfold rlp_fits; lia)).
  cbn [mbind result_bind].
  rewrite append_last with (enc := λ v, rlpList (encLog <$> v)) by done. done.
Qed.

Lemma toVector_topics l : log_wf l → toVector (toHash 32) (encTopics (l_topics l)) LaissezFaire = Ok (l_topics l).
Proof.
  intros Hl. apply toVector_list; [|by apply topics_fit]. eapply Forall_impl; [by apply lw_topics|]. intros x Hx. cbn beta.
  split; [by apply encHash_good|by apply (toHash_enc 32 256)].
Qed.

Lemma log_decode_enc l : log_wf l → log_decode (encLog l) = Ok l.
Proof.
  intros Hl. destruct (log_items_ok l Hl) as [Hg Hsz]. assert (Hf : rlp_fits (mjoin (log_items l))) by (unfold rlp_fits; lia).
  pose proof (toVector_topics l Hl) as Ht. assert (Hd : rlp_fits (l_data l)) by (destruct Hl; unfold rlp_fits; lia).
  assert (Hreads : reads (log_items l) log_populate (Ok l)).
  { unfold log_populate. repeat reads_step ltac:(fun _ =>
      lazymatch goal with
      | |- toHash 20 _ _ = _ => destruct Hl; by apply (toHash_enc 20 160)
      | |- toVector _ _ _ = _ => exact Ht
      | |- toBytes _ _ = _ => by apply toBytes_data
      end). destruct l. apply reads_ret. }
  unfold log_decode. destruct (Hreads (freshRLP (encLog l))) as (r' & -> & _); [by left|by apply rlpList_good|done].
Qed.

Lemma receipt_populate_items r :
  receipt_wf r →
  reads (receipt_items r) receipt_populate
    (Ok (mkReceiptObj (rc_stateRoot r) (rc_gasUsed r) (rc_contractAddress r) (rc_bloom r) (rc_status r) (rc_output r) (rc_log r) [] [])).
Proof.
  intros Hr. destruct (receipt_items_ok r Hr) as [Hg _].
  assert (Hl : toVector (λ d _, log_decode d) (rlpList (encLog <$> rc_log r)) LaissezFaire = Ok (rc_log r)).
  { apply toVector_list; [|by apply logs_fit]. eapply Forall_impl; [by apply rw_log|]. intros l Hl.
    split; [by apply encLog_good|by apply log_decode_enc]. }
  destruct Hr. assert (Ho : rlp_fits (rc_output r)) by (unfold rlp_fits; lia).
  unfold receipt_populate. repeat reads_step ltac:(fun _ =>
    lazymatch goal with
    | |- toHash 32 _ _ = _ => by apply (toHash_enc 32 256)
    | |- toHash 20 _ _ = _ => by apply (toHash_enc 20 160)
    | |- toHash 256 _ _ = _ => by apply (toHash_enc 256 2048)
    | |- toInt T_u256 _ _ = _ => by apply toInt_u256
    | |- toInt T_uint32 _ _ = _ =>
        apply toInt_256; [lia| |by apply wrapU_id]; apply bytesRequired_le; [done|]; exact rw_status0
    | |- (if isData _ then _ else _) = _ => rewrite (proj1 (rlpData_isData _ Ho)); by apply toBytes_data
    | |- toVector _ _ _ = _ => exact Hl
    end). apply reads_ret.
Qed.

(** ** The filter has no false negatives *)

Section filter.
Context `{Crypto}.

(** Every bit of [a] is in [b]. *)
Definition bits_in (a b : Z) : Prop := Z.land b a = a.

Lemma bits_in_refl a : bits_in a a.
Proof. apply Z.land_diag. Qed.

Lemma bits_in_lor_l a b c : bits_in a b → bits_in a (Z.lor b c).
Proof.
  unfold bits_in. intros Hb. rewrite Z.land_lor_distr_l, Hb. apply Z.bits_inj'. intros n _.
  rewrite Z.lor_spec, Z.land_spec. by destruct (Z.testbit a n), (Z.testbit c n).
Qed.

Lemma bits_in_lor_r a b c : bits_in a c → bits_in a (Z.lor b c).
Proof. rewrite Z.lor_comm. apply bits_in_lor_l. Qed.

Lemma bits_in_fold {A} (f : A → Z) a x l : bits_in a x → bits_in a (foldl (λ ret y, Z.lor ret (f y)) x l).
Proof. revert x. induction l as [|y l IH]; intros x Hx; [done|]. apply IH. by apply bits_in_lor_l. Qed.

Lemma bits_in_fold_elem {A} (f : A → Z) a x y l : y ∈ l → bits_in a (f y) → bits_in a (foldl (λ ret y, Z.lor ret (f y)) x l).
Proof.
  intros Hy Ha. revert x. induction Hy as [y l|y z l Hy IH]; intros x; cbn [foldl]; [|by apply IH].
  apply bits_in_fold. by apply bits_in_lor_r.
Qed.

Lemma log_bloom_contains l :
  bits_in (bloomPart (Hash (hashBytes 20 (l_address l)))) (log_bloom l)
  ∧ ∀ t, t ∈ l_topics l → bits_in (bloomPart (Hash (hashBytes 32 t))) (log_bloom l).
Proof.
  unfold log_bloom, shiftBloom. split.
  - apply (bits_in_fold (λ t, bloomPart (Hash (hashBytes 32 t)))). apply bits_in_lor_r, bits_in_refl.
  - intros t Ht. apply (bits_in_fold_elem (λ t, bloomPart (Hash (hashBytes 32 t))) _ _ t); [done|apply bits_in_refl].
Qed.

Lemma bits_in_trans_fold l logs a : l ∈ logs → bits_in a (log_bloom l) → bits_in a (logs_bloom logs).
Proof. intros Hl Ha. by eapply bits_in_fold_elem. Qed.

(** A receipt is read back from its bytes as it was made, logs included, and the
    filter of a new receipt lets through the address and every topic of each of its
    logs. *)
Theorem receipt_roundtrip root gasUsed logs status output contract :
  let r := newReceipt root gasUsed logs status output contract in
  receipt_wf r →
  (∃ d, receipt_encode r = Ok d ∧ receipt_decode d = Ok r)
  ∧ ∀ l, l ∈ logs → containsBloom (rc_bloom r) (Hash (hashBytes 20 (l_address l))) = true
      ∧ ∀ t, t ∈ l_topics l → containsBloom (rc_bloom r) (Hash (hashBytes 32 t)) = true.
Proof.
  intros r Hr. split.
  - exists (rlpList (receipt_items r)). split; [by apply receipt_encode_items|]. destruct (receipt_items_ok r Hr) as [_ Hfit].
    destruct (rlpList_good _ Hfit) as [Hg Hp]. unfold receipt_decode. rewrite newRLP_item by done. cbn [lift_tx mbind result_bind].
    rewrite (proj1 (rlpList_isList _ Hfit)). cbn [negb throw_if mbind result_bind].
    destruct (receipt_populate_items r Hr (freshRLP (rlpList (receipt_items r)))) as (r' & -> & _); [by left|done|done].
  - intros l Hl. destruct (log_bloom_contains l) as [Ha Ht]. unfold containsBloom. split.
    + apply Z.eqb_eq. by apply (bits_in_trans_fold l logs).
    + intros t Htin. apply Z.eqb_eq. apply (bits_in_trans_fold l logs); [done|]. by apply Ht.
Qed.
End filter.

Lemma receipt_roundtrip_witness :
  (∃ d, receipt_encode (@newReceipt toyCrypto 7 21000 [mkLog 5 [1; 2] [Byte.x01]] 0 [Byte.x02] 0) = Ok d
     ∧ receipt_decode d = Ok (@newReceipt toyCrypto 7 21000 [mkLog 5 [1; 2] [Byte.x01]] 0 [Byte.x02] 0))
  ∧ @containsBloom (@logs_bloom toyCrypto [mkLog 5 [1; 2] [Byte.x01]]) (@Hash toyCrypto (hashBytes 32 2)) = true.
Proof.
  destruct (@receipt_roundtrip toyCrypto 7 21000 [mkLog 5 [1; 2] [Byte.x01]] 0 [Byte.x02] 0) as [H1 H2].
  - split; [cbn; lia|cbn; lia|cbn; lia|vm_compute; split; congruence|cbn; lia|vm_compute; congruence| |vm_compute; congruence].
    apply Forall_singleton. split; [cbn; lia| |vm_compute; congruence|vm_compute; congruence].
    apply Forall_cons. split; [lia|]. apply Forall_singleton. lia.
  - split; [exact H1|]. destruct (H2 (mkLog 5 [1; 2] [Byte.x01])) as [_ H3]; [by left|]. apply H3. right. by left.
Defined.

(** The setters leave the memoised bytes, which [receipt] then returns. *)
Lemma setGasUsed_stale v r : rc_receipt r ≠ [] → receipt_bytes (rc_setGasUsed v r) = Ok (rc_setGasUsed v r, rc_receipt r).
Proof. intros Hn. unfold receipt_bytes. cbn [rc_receipt rc_setGasUsed]. by destruct (rc_receipt r). Qed.
