(* ===== verification/BlockVerifier.v ===== *)
(** * Block execution (libblockverifier/BlockVerifier.h, BlockVerifier.cpp,
    ExecutiveContext.cpp; the receipts of libethcore/Block.h)

    Executing the transactions of a block, one after the other or by several threads
    along the graph of [TxDAG], and completing the block with the receipts and the
    roots.  The virtual machine is a parameter: what running a transaction does to the
    executive context and the values its receipt is made of.  So are the context's
    initialisation and its hashes.  The parallel configuration of contracts and the parser
    of function signatures are parameters too.  [supported_version >= V2_2_0]. *)
From S2P Require Import Prelude CommonData RLP Crypto BlockHeader TxsParser Block Transaction Receipt TxDAG ABI DagTransfer.
Local Open Scope Z_scope.

(** ** [ExecutiveContext::getTxCriticals] *)

(** What the context asks of a precompiled contract. *)
Record Precompiled := mkPrecompiled {
  isParallelPrecompiled : bool;
  precompiled_tag : bytes → option (list string) }.

(** The read through a null pointer of [getParamFunc], and the exception of the ABI. *)
Inductive crit_exn := NullRead | AbiLength.

Section criticals.
Context (m_address2Precompiled : gmap Z Precompiled)
        (getParallelConfig : Z → Z → option (string * Z))
        (parseTypes : string → option (list string)).

Definition with_address (a : Z) (c : string) : string := String.append c (toHex (hashBytes 20 a)).

Definition getTxCriticals (tx : TxObject) : result crit_exn criticals :=
  if bool_decide (t_type tx = ContractCreation) then Ok None else
  let a := t_receiveAddress tx in
  match m_address2Precompiled !! a with
  | Some p =>
      if isParallelPrecompiled p then
        match precompiled_tag p (t_data tx) with
        | Some tags => Ok (Some (with_address a <$> tags))
        | None => Throw NullRead
        end
      else Ok None
  | None =>
      match getParamFunc (t_data tx) with
      | None => Throw NullRead
      | Some selector =>
          match getParallelConfig a selector with
          | None => Ok None
          | Some (functionName, criticalSize) =>
              match parseTypes functionName with
              | None => Ok None
              | Some paramTypes =>
                  if zlen paramTypes <? size_t criticalSize then Ok None else
                  match abiOutByFuncSelector (croppedFrom (t_data tx) 4) (take (Z.to_nat (size_t criticalSize)) paramTypes) with
                  | Throw _ => Throw AbiLength
                  | Ok (false, _) => Ok None
                  | Ok (true, res) => Ok (Some (with_address a <$> res))
                  end
              end
          end
      end
  end.
End criticals.

(** ** [BlockVerifier] *)

Record BlockInfo := mkBlockInfo { bi_hash : Z; bi_number : Z; bi_stateRoot : Z }.
Inductive bv_exn := InvalidBlockWithBadStateOrReceipt | BlockExecutionFailed | OtherException.

(** The parallel run returns only when all its threads do; a null pointer stops the node. *)
Inductive outcome (A : Type) := Running | Crashed | Done (a : A).
Arguments Running {A}.
Arguments Crashed {A}.
Arguments Done {A} a.

(** What an [Executive] leaves after a transaction; [StorageException] is the one
    exception that leaves [execute]. *)
Record ExecOut := mkExecOut {
  eo_storageException : bool; eo_gasUsed : Z; eo_logs : list LogEntry; eo_status : Z; eo_output : bytes; eo_newAddress : Z }.

Section verifier.
Context `{Crypto} {S : Type}
        (initContext : BlockInfo → option S)
        (runTx : TxObject → S → S * ExecOut)
        (isStorageState : bool) (stateHash tableHash : S → Z)
        (criticalsOf : TxObject → result crit_exn criticals).

(** [StateFace::rootHash]: the storage state computes it on demand only. *)
Definition rootHash (needCal : bool) (s : S) : Z := if needCal || negb isStorageState then stateHash s else 0.

(** [execute]. *)
Definition execute (tx : TxObject) (s : S) : option (S * Receipt) :=
  let '(s, o) := runTx tx s in
  if eo_storageException o then None
  else Some (s, newReceipt (rootHash false s) (eo_gasUsed o) (eo_logs o) (eo_status o) (eo_output o) (eo_newAddress o)).

(** The context and the receipts; nothing once an exception has left a transaction. *)
Abbreviation exec_state := (option (S * list (option Receipt))).

(** The body of the loop, and the function given to [setTxExecuteFunc]. *)
Definition exec_tx (txs : list TxObject) (i : nat) (st : exec_state) : exec_state :=
  match st with
  | None => None
  | Some (s, rs) =>
      match txs !! i with
      | None => st
      | Some tx => match execute tx s with None => None | Some (s, r) => Some (s, <[i := Some r]> rs) end
      end
  end.

(** [updateSequenceReceiptGas] and [setStateRootToAllReceipt]. *)
Fixpoint updateSequenceReceiptGas (totalGas : Z) (rs : list Receipt) : list Receipt :=
  match rs with
  | [] => []
  | r :: rs => let totalGas := wrapU 256 (totalGas + rc_gasUsed r) in rc_setGasUsed totalGas r :: updateSequenceReceiptGas totalGas rs
  end.
Definition setStateRootToAllReceipt (root : Z) (rs : list Receipt) : list Receipt := rc_setStateRoot root <$> rs.

(** What [getReceiptAndSha3] asks of a receipt. *)
Definition blockReceipt (r : Receipt) : result dev_exn TransactionReceipt :=
  '(r, d) ← receipt_bytes r;
  '(r, h) ← receipt_sha3 r;
  Ok (mkReceipt h d).

Fixpoint results {E A} (l : list (result E A)) : result E (list A) :=
  match l with [] => Ok [] | x :: l => a ← x; r ← results l; Ok (a :: r) end.

Definition lift_bv {E A} (r : result E A) : result bv_exn A := match r with Ok a => Ok a | Throw _ => Throw OtherException end.

(** The end of both executions: receipts, roots, and the comparison with the header
    that came with a block from another node. *)
Definition finish_block (b : Block) (s : S) (rs : list (option Receipt)) : result bv_exn Block :=
  let tmpHeader := b_header b in
  match mapM (λ r, r) rs with
  | None => Throw OtherException
  | Some rs =>
      let stateRoot := rootHash true s in
      let rs := updateSequenceReceiptGas 0 (setStateRootToAllReceipt stateRoot rs) in
      brs ← lift_bv (results (blockReceipt <$> rs));
      b ← lift_bv (calReceiptRoot true (setTransactionReceipts brs b));
      let h := setStateRoot stateRoot (b_header b) in
      let h := setDBhash (if isStorageState then stateRoot else tableHash s) h in
      let b := set_b_header h b in
      if negb (m_receiptsRoot tmpHeader =? 0) && negb (headerHash tmpHeader =? headerHash (b_header b))
      then Throw InvalidBlockWithBadStateOrReceipt
      else Ok b
  end.

(** [serialExecuteBlock]. *)
Definition serialExecuteBlock (b : Block) (txs : list TxObject) (parent : BlockInfo) : result bv_exn (Block * S) :=
  match initContext parent with
  | None => Throw InvalidBlockWithBadStateOrReceipt
  | Some s =>
      match foldl (λ st i, exec_tx txs i st) (Some (s, replicate (length txs) None)) (seq 0 (length txs)) with
      | None => Throw BlockExecutionFailed
      | Some (s, rs) => b ← finish_block b s rs; Ok (b, s)
      end
  end.

(** [parallelExecuteBlock], by [threads] threads in the interleaving [sched].  A thread
    that an exception leaves does not add to [m_exeCnt], so that [hasFinished] stays
    false for the others. *)
Definition parallelExecuteBlock (threads : nat) (sched : list nat) (b : Block) (txs : list TxObject) (parent : BlockInfo)
  : outcome (result bv_exn (Block * S)) :=
  match initContext parent with
  | None => Done (Throw InvalidBlockWithBadStateOrReceipt)
  | Some s =>
      match results (criticalsOf <$> txs) with
      | Throw NullRead => Crashed
      | Throw AbiLength => Done (Throw OtherException)
      | Ok cs =>
          let sys := sys_run (exec_tx txs) sched (sys_start threads cs (Some (s, replicate (length txs) None))) in
          if bool_decide (Forall (λ w, w = WDone) (sys_workers sys)) then
            match sys_state sys with
            | None => if (threads =? 1)%nat then Done (Throw BlockExecutionFailed) else Running
            | Some (s, rs) => Done (b ← finish_block b s rs; Ok (b, s))
            end
          else Running
      end
  end.

(** The members of the verifier that matter here. *)
Record BlockVerifier := mkVerifier { m_enableParallel : bool; m_threadNum : nat; m_executingNumber : Z }.

(** [executeBlock]: a null context on any exception. *)
Definition executeBlock (shouldExit : bool) (sched : list nat) (v : BlockVerifier) (b : Block) (txs : list TxObject)
    (parent : BlockInfo) : outcome (BlockVerifier * option (Block * S)) :=
  if shouldExit then Done (v, None)
  else if m_number (b_header b) <? m_executingNumber v then Done (v, None)
  else
    match (if m_enableParallel v then parallelExecuteBlock (m_threadNum v) sched b txs parent
           else Done (serialExecuteBlock b txs parent)) with
    | Running => Running
    | Crashed => Crashed
    | Done (Throw _) => Done (v, None)
    | Done (Ok r) => Done (mkVerifier (m_enableParallel v) (m_threadNum v) (m_number (b_header b)), Some r)
    end.
End verifier.

(** ** Parallel execution is serial execution *)

Lemma results_lookup {E A B} (f : A → result E B) l bs :
  results (f <$> l) = Ok bs →
  length bs = length l ∧ ∀ i b, bs !! i = Some b → ∃ a, l !! i = Some a ∧ f a = Ok b.
Proof.
  revert bs. induction l as [|a l IH]; intros bs Hbs; cbn [fmap list_fmap results] in Hbs.
  - injection Hbs as <-. split; [done|]. intros i b Hb. by rewrite lookup_nil in Hb.
  - apply bind_Ok in Hbs as (b & Hb & Hbs). apply bind_Ok in Hbs as (r & Hr & [= <-]).
    destruct (IH r Hr) as [Hl Hi]. split; [simpl; by rewrite Hl|]. intros [|i] x Hx; simplify_eq/=; eauto.
Qed.

Section refinement.
Context `{Crypto} {S : Type}
        (initContext : BlockInfo → option S)
        (runTx : TxObject → S → S * ExecOut)
        (stateHash tableHash : S → Z)
        (criticalsOf : TxObject → result crit_exn criticals).

(** Transactions that do not conflict can change places: the context they leave, and
    what each of them returns, are the same. *)
Definition commuting (txs : list TxObject) : Prop := ∀ tx tx' a b,
  tx ∈ txs → tx' ∈ txs → criticalsOf tx = Ok a → criticalsOf tx' = Ok b → ¬ conflict a b → ∀ s,
  (runTx tx' (runTx tx s).1).1 = (runTx tx (runTx tx' s).1).1
  ∧ (runTx tx' (runTx tx s).1).2 = (runTx tx' s).2 ∧ (runTx tx (runTx tx' s).1).2 = (runTx tx s).2.

Lemma exec_tx_commute txs i j tx tx' a b st :
  commuting txs → i ≠ j → txs !! i = Some tx → txs !! j = Some tx' →
  criticalsOf tx = Ok a → criticalsOf tx' = Ok b → ¬ conflict a b →
  exec_tx runTx true stateHash txs j (exec_tx runTx true stateHash txs i st)
  = exec_tx runTx true stateHash txs i (exec_tx runTx true stateHash txs j st).
Proof.
  intros Hc Hij Hi Hj Ha Hb Hab. destruct st as [[s rs]|]; [|done].
  destruct (Hc _ _ _ _ (list_elem_of_lookup_2 _ _ _ Hi) (list_elem_of_lookup_2 _ _ _ Hj) Ha Hb Hab s) as (Hs & Ho' & Ho). unfold exec_tx, execute, rootHash. rewrite Hi, Hj. cbn [orb negb].
  destruct (runTx tx s) as [s1 o1] eqn:E1. destruct (runTx tx' s) as [s2 o2] eqn:E2. cbn [fst snd] in *.
  destruct (runTx tx' s1) as [s12 o12] eqn:E12. destruct (runTx tx s2) as [s21 o21] eqn:E21. cbn [fst snd] in *. subst.
  destruct (eo_storageException o1) eqn:X1, (eo_storageException o2) eqn:X2; rewrite ?E12, ?E21, ?X1, ?X2; try done.
  by rewrite list_insert_insert_ne.
Qed.

(** The context and receipts of a finished run. *)
Lemma parallel_run_serial threads sched txs cs s0 :
  commuting txs → (0 < threads)%nat → results (criticalsOf <$> txs) = Ok cs →
  let start := sys_start threads cs (Some (s0, replicate (length txs) None)) in
  finished (sys_run (exec_tx runTx true stateHash txs) sched start) →
  sys_state (sys_run (exec_tx runTx true stateHash txs) sched start)
  = foldl (λ st i, exec_tx runTx true stateHash txs i st) (Some (s0, replicate (length txs) None)) (seq 0 (length txs)).
Proof.
  intros Hc Ht Hcs start Hf. destruct (results_lookup _ _ _ Hcs) as [Hlen Hcr].
  replace (seq 0 (length txs)) with (seq 0 (length cs)) by (by rewrite Hlen).
  pose proof (run_reachable (exec_tx runTx true stateHash txs) sched start) as Hr.
  apply finished_serial; [by eapply sys_inv_reachable|by eapply reachable_nonempty|done|].
  intros i j a b Hij Ha Hb Hab st. destruct (Hcr _ _ Ha) as (tx & Htx & Hca). destruct (Hcr _ _ Hb) as (tx' & Htx' & Hcb).
  eapply exec_tx_commute; eauto. lia.
Qed.

Lemma finished_dec {T} (s : @system T) : bool_decide (Forall (λ w, w = WDone) (sys_workers s)) = true ↔ finished s.
Proof. rewrite bool_decide_eq_true. apply Forall_forall. Qed.

(** Whatever the interleaving, a parallel execution that returns gives the serial result. *)
Lemma parallel_block threads sched b txs cs parent :
  commuting txs → (0 < threads)%nat → results (criticalsOf <$> txs) = Ok cs →
  let r := parallelExecuteBlock initContext runTx true stateHash tableHash criticalsOf threads sched b txs parent in
  r = Running ∨ r = Done (serialExecuteBlock initContext runTx true stateHash tableHash b txs parent).
Proof.
  intros Hc Ht Hcs r. unfold r, parallelExecuteBlock, serialExecuteBlock. destruct (initContext parent) as [s|]; [|by right].
  rewrite Hcs. destruct (bool_decide _) eqn:Hf; [|by left]. apply finished_dec in Hf.
  rewrite (parallel_run_serial threads sched txs cs s Hc Ht Hcs Hf).
  destruct (foldl _ _ _) as [[s' rs]|]; [by right|]. by destruct (_ =? _)%nat; [right|left].
Qed.

Lemma finish_block_exn b s rs : finish_block true stateHash tableHash b s rs ≠ Throw BlockExecutionFailed.
Proof.
  unfold finish_block. destruct (mapM _ rs); [|done].
  destruct (results _); [|done]. cbn [lift_bv mbind result_bind].
  destruct (calReceiptRoot _ _); [|done]. cbn [lift_bv mbind result_bind]. by destruct (_ && _).
Qed.

(** Under a schedule that gives each thread enough steps it does return, if no
    exception of the storage stops a transaction. *)
Lemma parallel_block_fair threads passes b txs cs parent :
  commuting txs → (0 < threads)%nat → results (criticalsOf <$> txs) = Ok cs →
  serialExecuteBlock initContext runTx true stateHash tableHash b txs parent ≠ Throw BlockExecutionFailed →
  (∀ p k, p ∈ passes → (k < threads)%nat → k ∈ p) → (3 * work cs (sys_start threads cs tt) ≤ length passes)%nat →
  parallelExecuteBlock initContext runTx true stateHash tableHash criticalsOf threads (concat passes) b txs parent
  = Done (serialExecuteBlock initContext runTx true stateHash tableHash b txs parent).
Proof.
  unfold parallelExecuteBlock, serialExecuteBlock. intros Hc Ht Hcs Hs Hp Hw. destruct (initContext parent) as [s|]; [|done]. rewrite Hcs.
  set (sys := sys_run _ _ _). assert (Hf : finished sys).
  { eapply (passes_finish _ cs); [apply sys_inv_start|done|exact Hw|]. intros p k Hin. simpl. rewrite length_replicate. by apply Hp. }
  rewrite (proj2 (finished_dec sys) Hf). subst sys. rewrite (parallel_run_serial threads _ txs cs s Hc Ht Hcs Hf).
  by destruct (foldl _ _ _) as [[s' rs]|].
Qed.

(** With more threads such an exception keeps the execution from ever returning. *)
Lemma storage_exception_hangs threads sched b txs cs parent :
  commuting txs → (1 < threads)%nat → results (criticalsOf <$> txs) = Ok cs →
  serialExecuteBlock initContext runTx true stateHash tableHash b txs parent = Throw BlockExecutionFailed →
  parallelExecuteBlock initContext runTx true stateHash tableHash criticalsOf threads sched b txs parent = Running.
Proof.
  unfold parallelExecuteBlock, serialExecuteBlock. intros Hc Ht Hcs Hs. destruct (initContext parent) as [s|]; [|done]. rewrite Hcs.
  destruct (bool_decide _) eqn:Hf; [|done]. apply finished_dec in Hf.
  rewrite (parallel_run_serial threads _ txs cs s Hc ltac:(lia) Hcs Hf). destruct (foldl _ _ _) as [[s' rs]|].
  - destruct (finish_block true stateHash tableHash b s' rs) as [|e] eqn:E; [done|].
    cbn in Hs. injection Hs as ->. by destruct (finish_block_exn b s' rs).
  - by rewrite (proj2 (Nat.eqb_neq _ _)) by lia.
Qed.

(** C16. Parallel execution refines serial execution.  If transactions without a common
    critical field commute, then in every interleaving of the threads the parallel
    execution of a block either has not returned yet or has returned exactly the block,
    the receipts and the context of the serial execution, errors included; and if no
    exception of the storage stops a transaction it does return, under every schedule
    that gives each thread enough steps. *)
Theorem parallel_refines_serial threads sched b txs cs parent :
  commuting txs → (0 < threads)%nat → results (criticalsOf <$> txs) = Ok cs →
  let serial := serialExecuteBlock initContext runTx true stateHash tableHash b txs parent in
  let parallel sched := parallelExecuteBlock initContext runTx true stateHash tableHash criticalsOf threads sched b txs parent in
  (parallel sched = Running ∨ parallel sched = Done serial)
  ∧ ∀ passes, serial ≠ Throw BlockExecutionFailed → (∀ p k, p ∈ passes → (k < threads)%nat → k ∈ p) →
      (3 * work cs (sys_start threads cs tt) ≤ length passes)%nat → parallel (concat passes) = Done serial.
Proof.
  intros Hc Ht Hcs serial parallel. split; [by eapply parallel_block|]. intros passes Hs Hp Hw. by eapply parallel_block_fair.
Qed.

(** A transaction whose arguments the ABI refuses fails the whole block in parallel,
    whatever the other transactions are. *)
Lemma bad_arguments_fail_block threads sched b txs parent s :
  initContext parent = Some s → results (criticalsOf <$> txs) = Throw AbiLength →
  parallelExecuteBlock initContext runTx true stateHash tableHash criticalsOf threads sched b txs parent
  = Done (Throw OtherException).
Proof. intros Hi Hr. unfold parallelExecuteBlock. by rewrite Hi, Hr. Qed.

(** A block older than the last one that was executed is refused, and the number
    never goes down. *)
Lemma executeBlock_number exit sched v b txs parent v' r :
  executeBlock initContext runTx true stateHash tableHash criticalsOf exit sched v b txs parent = Done (v', r) →
  m_executingNumber v ≤ m_executingNumber v' ∧ (is_Some r → m_executingNumber v' = m_number (b_header b)).
Proof.
  unfold executeBlock. destruct exit; [intros [= <- <-]; split; [lia|by intros []]|].
  destruct (_ <? _) eqn:E; [intros [= <- <-]; split; [lia|by intros []]|].
  destruct (if m_enableParallel v then _ else _) as [| |[?|]]; intros [= <- <-]; cbn; split; try lia; try done; by intros [].
Qed.
End refinement.

(** ** A block of transfers *)

Section transfers.
Context `{Crypto} (auth : list Z) (dagAddress : Z) (gasOf : TxObject → bytes → Z).

(** The transfer contract as the context sees it, and running a call of it. *)
Definition dagPrecompiled : Precompiled := mkPrecompiled true getParallelTag.
Definition dag_criticals : TxObject → result crit_exn criticals :=
  getTxCriticals {[dagAddress := dagPrecompiled]} (λ _ _, None) (λ _, None).
Definition dag_runTx (tx : TxObject) (t : dag_table) : dag_table * ExecOut :=
  let '(out, t) := dag_exec auth (t_data tx) (t_sender tx) t in (t, mkExecOut false (gasOf tx out) [] 0 out 0).

(** A call of the contract that is not a query. *)
Definition is_transfer_tx (tx : TxObject) : Prop :=
  t_type tx = MessageCall ∧ t_receiveAddress tx = dagAddress ∧ 4 ≤ zlen (t_data tx) ∧ is_balance_call (t_data tx) = false.

(** Its critical fields. *)
Definition transfer_tags (tx : TxObject) : criticals := Some (with_address dagAddress <$> dag_tags (t_data tx)).

Lemma param_func_some param : 4 ≤ zlen param → is_Some (getParamFunc param).
Proof.
  intros Hl. unfold getParamFunc, cropped. replace (_ && _ && _) with true by (symmetry; lia).
  destruct (take (Z.to_nat 4) (drop (Z.to_nat 0) param)) eqn:E; [|by eexists].
  apply (f_equal length) in E. rewrite length_take, length_drop in E. unfold zlen in Hl. cbn [length] in E. lia.
Qed.

Lemma transfer_criticals tx :
  is_transfer_tx tx → dag_criticals tx = Ok (transfer_tags tx).
Proof.
  intros (Ht & Ha & Hl & _). unfold dag_criticals, getTxCriticals, transfer_tags. rewrite Ht, Ha, lookup_singleton_eq. cbn [isParallelPrecompiled dagPrecompiled precompiled_tag].
  rewrite bool_decide_eq_false_2 by done. unfold dag_tags. destruct (param_func_some _ Hl) as [func Hf].
  destruct (getParallelTag (t_data tx)) eqn:E; [done|]. unfold getParallelTag in E. by rewrite Hf in E.
Qed.

Lemma transfers_commute txs : Forall is_transfer_tx txs → commuting dag_runTx dag_criticals txs.
Proof.
  rewrite Forall_forall. intros Hall tx tx' a b Htx Htx' Ha Hb Hab t.
  apply Hall in Htx, Htx'. rewrite transfer_criticals in Ha, Hb by done. injection Ha as <-. injection Hb as <-.
  destruct Htx as (_ & _ & _ & Hq), Htx' as (_ & _ & _ & Hq').
  destruct (dag_exec_commute auth (t_data tx) (t_data tx') (t_sender tx) (t_sender tx') t Hq Hq') as (H1 & H2 & H3).
  { intros k Hk Hk'. apply Hab. exists (with_address dagAddress k). split; by apply list_elem_of_fmap_2. }
  unfold dag_runTx. destruct (dag_exec auth (t_data tx) (t_sender tx) t) as [o1 t1] eqn:E1.
  destruct (dag_exec auth (t_data tx') (t_sender tx') t) as [o2 t2] eqn:E2. cbn [fst snd] in *.
  destruct (dag_exec auth (t_data tx') (t_sender tx') t1) as [o12 t12] eqn:E12.
  destruct (dag_exec auth (t_data tx) (t_sender tx) t2) as [o21 t21] eqn:E21. cbn [fst snd] in *. by subst.
Qed.

Lemma transfers_results txs :
  Forall is_transfer_tx txs →
  results (dag_criticals <$> txs) = Ok (transfer_tags <$> txs).
Proof.
  induction 1 as [|tx txs Htx _ IH]; [done|]. rewrite !fmap_cons. cbn [results]. by rewrite transfer_criticals, IH by done.
Qed.

Lemma transfers_no_exception initContext stateHash tableHash b txs parent :
  serialExecuteBlock initContext dag_runTx true stateHash tableHash b txs parent ≠ Throw BlockExecutionFailed.
Proof.
  unfold serialExecuteBlock. destruct (initContext parent) as [t|]; [|done].
  assert (Hsome : ∀ ids st, is_Some st → is_Some (foldl (λ st i, exec_tx dag_runTx true stateHash txs i st) st ids)).
  { induction ids as [|i ids IH]; intros st Hst; [done|]. apply IH. destruct Hst as [[t' rs] ->]. unfold exec_tx, execute, dag_runTx.
    destruct (txs !! i); [|done]. destruct (dag_exec _ _ _ _); [done]. }
  destruct (Hsome (seq 0 (length txs)) (Some (t, replicate (length txs) None))) as [[t' rs] ->]; [done|].
  destruct (finish_block true stateHash tableHash b t' rs) as [|e] eqn:E; [done|]. cbn. intros [= ->].
  by destruct (finish_block_exn stateHash tableHash b t' rs).
Qed.

(** C27. A block of deposits, withdrawals, transfers and new accounts is executed by any
    number of threads, in any interleaving, exactly as one after the other: the same
    balances, the same receipts and the same block, so that nodes that schedule their
    threads differently agree; and every fair schedule finishes. *)
Theorem transfers_parallel initContext stateHash tableHash threads sched b txs parent :
  (0 < threads)%nat → Forall is_transfer_tx txs →
  let serial := serialExecuteBlock initContext dag_runTx true stateHash tableHash b txs parent in
  let parallel sched := parallelExecuteBlock initContext dag_runTx true stateHash tableHash dag_criticals threads sched b txs parent in
  (parallel sched = Running ∨ parallel sched = Done serial)
  ∧ ∀ passes, (∀ p k, p ∈ passes → (k < threads)%nat → k ∈ p) →
      (3 * work (transfer_tags <$> txs) (sys_start threads (transfer_tags <$> txs) tt) ≤ length passes)%nat →
      parallel (concat passes) = Done serial.
Proof.
  intros Ht Hall serial parallel. pose proof (transfers_commute txs Hall) as Hc. pose proof (transfers_results txs Hall) as Hr.
  split; [by eapply parallel_block|]. intros passes Hp Hw. eapply parallel_block_fair; eauto using transfers_no_exception.
Qed.
End transfers.

(** Two deposits for different users and a transfer between them. *)
Definition sampleDagTx (data : bytes) : TxObject := mkTxObject MessageCall 5 0 0x5002 1 100000000 data None 0 1 600 [] 1 1 [].
Definition sampleDagTxs : list TxObject := sampleDagTx <$>
  [@abiIn selectorCrypto DAG_TRANSFER_METHOD_SAV_STR_UINT [existT TString "alice"%string; existT TUint 3];
   @abiIn selectorCrypto DAG_TRANSFER_METHOD_SAV_STR_UINT [existT TString "carol"%string; existT TUint 4];
   @abiIn selectorCrypto DAG_TRANSFER_METHOD_TRS_STR2_UINT
     [existT TString "carol"%string; existT TString "alice"%string; existT TUint 2]].

Lemma sample_transfers : Forall (@is_transfer_tx selectorCrypto 0x5002) sampleDagTxs.
Proof. repeat constructor; vm_compute; congruence. Qed.

Abbreviation sampleInit := (λ _ : BlockInfo, Some sampleTable).
Abbreviation sampleRunTx := (@dag_runTx selectorCrypto [] (λ _ _, 21000)).
Abbreviation sampleSerial := (@serialExecuteBlock selectorCrypto dag_table sampleInit sampleRunTx true (λ _, 7) (λ _, 7)
  emptyBlock sampleDagTxs (mkBlockInfo 0 0 0)).
Abbreviation sampleParallel sched := (@parallelExecuteBlock selectorCrypto dag_table sampleInit sampleRunTx true (λ _, 7) (λ _, 7)
  (@dag_criticals selectorCrypto 0x5002) 2 sched emptyBlock sampleDagTxs (mkBlockInfo 0 0 0)).

Definition sampleRounds : list (list nat) := replicate 90 [1; 0]%nat.
Lemma sample_fair p k : p ∈ sampleRounds → (k < 2)%nat → k ∈ p.
Proof. intros [-> _]%elem_of_replicate Hk. destruct k as [|[|]]; [right; left|left|lia]. Qed.

Lemma transfers_parallel_witness : sampleParallel (concat sampleRounds) = Done sampleSerial.
Proof.
  apply (@transfers_parallel selectorCrypto [] 0x5002 (λ _ _, 21000) sampleInit (λ _, 7) (λ _, 7) 2 [] emptyBlock sampleDagTxs
    (mkBlockInfo 0 0 0)); [lia|exact sample_transfers|exact sample_fair|vm_compute; lia].
Defined.

Lemma parallel_refines_serial_witness :
  sampleParallel [1; 1; 0; 0; 1]%nat = Running ∨ sampleParallel [1; 1; 0; 0; 1]%nat = Done sampleSerial.
Proof.
  apply (@parallel_refines_serial selectorCrypto dag_table sampleInit sampleRunTx (λ _, 7) (λ _, 7)
    (@dag_criticals selectorCrypto 0x5002) 2 [1; 1; 0; 0; 1]%nat emptyBlock sampleDagTxs
    (@transfer_tags selectorCrypto 0x5002 <$> sampleDagTxs));
    [apply transfers_commute, sample_transfers|lia|apply transfers_results, sample_transfers].
Defined.

(** The balances and the gas of the receipts of that run. *)
Lemma sample_transfers_run :
  (λ '(b, t), (openTable t !! "alice"%string, openTable t !! "carol"%string)) <$> sampleSerial = Ok (Some 10, Some 2).
Proof. vm_compute. reflexivity. Qed.
