(* ===== verification/SyncQueue.v ===== *)
(** * Queues and packets of block synchronisation (libsync/RspBlockReq,
    DownloadingBlockQueue, SyncMsgPacket; DownloadBlocksContainer of SyncMsgEngine)

    The requests for blocks that a peer has sent, the packets that answer them, and the
    queue of downloaded blocks. *)
From Stdlib Require Import Sorted.
From S2P Require Import Prelude CommonData RLP Crypto BlockHeader TxsParser Block.
Local Open Scope Z_scope.

(** ** Requests ([DownloadRequestQueue]) *)

Record DownloadRequest := mkRequest { dr_from : Z; dr_size : Z }.
Definition c_maxReceivedDownloadRequestPerPeer : Z := 8.

(** The order of the priority queue, [RequestQueueCmp]; equal requests are the same. *)
Definition request_before (a b : DownloadRequest) : bool :=
  if dr_from a =? dr_from b then dr_size b <=? dr_size a else dr_from a <? dr_from b.
Fixpoint request_insert (r : DownloadRequest) (q : list DownloadRequest) : list DownloadRequest :=
  match q with
  | [] => [r]
  | x :: q' => if request_before r x then r :: q else x :: request_insert r q'
  end.

(** The queue, its top first, and whether the mutex [x_canPush] is free. *)
Record DownloadRequestQueue := mkReqQueue { rq_queue : list DownloadRequest; rq_canPush : bool }.
Definition newReqQueue : DownloadRequestQueue := mkReqQueue [] true.
Definition enablePush (q : DownloadRequestQueue) : DownloadRequestQueue := mkReqQueue (rq_queue q) true.
Definition disablePush (q : DownloadRequestQueue) : DownloadRequestQueue := mkReqQueue (rq_queue q) false.

(** [push]. *)
Definition reqQueue_push (from size : Z) (q : DownloadRequestQueue) : DownloadRequestQueue :=
  if negb (rq_canPush q) then q
  else if c_maxReceivedDownloadRequestPerPeer <=? zlen (rq_queue q) then q
  else mkReqQueue (request_insert (mkRequest from size) (rq_queue q)) (rq_canPush q).

(** The loop of [topAndPop]: the merged size and what is left. *)
Fixpoint merge_tops (fromNumber size : Z) (q : list DownloadRequest) : Z * list DownloadRequest :=
  match q with
  | [] => (size, [])
  | r :: q' =>
      if dr_from r <=? wrapS 64 (fromNumber + size)
      then merge_tops fromNumber (Z.max size (wrapS 64 (dr_from r + dr_size r - fromNumber))) q'
      else (size, q)
  end.
Definition topAndPop (q : DownloadRequestQueue) : DownloadRequest * DownloadRequestQueue :=
  match rq_queue q with
  | [] => (mkRequest 0 0, q)
  | r :: _ =>
      let '(size, rest) := merge_tops (dr_from r) 0 (rq_queue q) in
      (mkRequest (dr_from r) size, mkReqQueue rest (rq_canPush q))
  end.

(** ** Answers ([DownloadBlocksContainer]) *)

(** [P2PMessage::MAX_LENGTH - 2048]. *)
Definition c_maxPayload : Z := 1024 * 1024 - 2048.

(** The batch, its size, and the packets sent, each a list of encoded blocks. *)
Record DownloadBlocksContainer := mkContainer {
  dc_batch : list bytes; dc_batchSize : Z; dc_sent : list (list bytes) }.
Definition newContainer : DownloadBlocksContainer := mkContainer [] 0 [].

(** [clearBatchAndSend], also run by the destructor. *)
Definition clearBatchAndSend (c : DownloadBlocksContainer) : DownloadBlocksContainer :=
  if zlen (dc_batch c) =? 0 then c else mkContainer [] 0 (dc_sent c ++ [dc_batch c]).
(** [sendBigBlock]. *)
Definition sendBigBlock (blockRLP : bytes) (c : DownloadBlocksContainer) : DownloadBlocksContainer :=
  mkContainer (dc_batch c) (dc_batchSize c) (dc_sent c ++ [[blockRLP]]).
(** [batchAndSend]. *)
Definition batchAndSend (blockRLP : bytes) (c : DownloadBlocksContainer) : DownloadBlocksContainer :=
  if c_maxPayload <? zlen blockRLP then sendBigBlock blockRLP c
  else
    let c := if c_maxPayload <? dc_batchSize c + zlen blockRLP then clearBatchAndSend c else c in
    mkContainer (dc_batch c ++ [blockRLP]) (dc_batchSize c + zlen blockRLP) (dc_sent c).

(** ** Packets ([SyncMsgPacket]) *)

Definition c_syncPacketIDBase : Z := 1.
Inductive SyncPacketType := StatusPacket | TransactionsPacket | BlocksPacket | ReqBlocskPacket | OtherPacket.
Definition packetId (t : SyncPacketType) : Z :=
  match t with StatusPacket => 0 | TransactionsPacket => 1 | BlocksPacket => 2 | ReqBlocskPacket => 3 | OtherPacket => 4 end.
Definition packetTypeOf (z : Z) : SyncPacketType :=
  if z =? 0 then StatusPacket else if z =? 1 then TransactionsPacket
  else if z =? 2 then BlocksPacket else if z =? 3 then ReqBlocskPacket else OtherPacket.

(** [prep], up to the list. *)
Definition prep (t : SyncPacketType) : result dev_exn RLPStream :=
  appendRaw [byte.of_Z (packetId t + c_syncPacketIDBase)] 1 emptyStream.

(** [SyncStatusPacket::encode], [SyncReqBlockPacket::encode] and
    [SyncBlocksPacket::encode] (with [singleEncode]); a built-in integer is appended as
    [unsigned]. *)
Definition statusPacket (number genesisHash latestHash : Z) : result dev_exn bytes :=
  s ← prep StatusPacket; s ← appendList 3 s;
  s ← appendUnsigned number s; s ← appendHash 32 genesisHash s; s ← appendHash 32 latestHash s;
  streamOut s.
Definition reqBlockPacket (from size : Z) : result dev_exn bytes :=
  s ← prep ReqBlocskPacket; s ← appendList 2 s; s ← appendUnsigned from s; s ← appendUnsigned size s; streamOut s.
Definition blocksPacket (blockRLPs : list bytes) : result dev_exn bytes :=
  s ← prep BlocksPacket; s ← appendVector (λ d, appendBytes d false) blockRLPs s; streamOut s.

(** [checkPacket] and [decode]: the type, and the bytes of the list. *)
Definition checkPacket (msg : bytes) : result dev_exn bool :=
  if (zlen msg <? 2) || (0x7f <? nthb msg 0) then Ok false
  else
    r ← newRLP (croppedFrom msg 1) VeryStrict;
    a ← actualSize (m_data r);
    Ok (a + 1 =? zlen msg).
Definition syncPacket_decode (msg : bytes) : result dev_exn (option (SyncPacketType * bytes)) :=
  ok ← checkPacket msg;
  if negb ok then Ok None
  else
    r ← newRLP (cropped msg 0 1) VeryStrict;
    t ← toInt T_uint32 (m_data r) Strict;
    r ← newRLP (croppedFrom msg 1) VeryStrict;
    Ok (Some (packetTypeOf (wrapU 8 (t - c_syncPacketIDBase)), m_data r)).

(** The fields that [onPeerStatus] and [onPeerRequestBlocks] read. *)
Definition readStatus (rlp : bytes) : result dev_exn (option (Z * Z * Z)) :=
  n ← itemCount rlp;
  if negb (n =? 3) then Ok None
  else
    ((number ← field 0 (λ x, toInt T_int64 x Strict); genesis ← field 1 (λ x, toHash 32 x Strict);
      latest ← field 2 (λ x, toHash 32 x Strict); mret (Some (number, genesis, latest))) (freshRLP rlp)).2.
Definition readRequest (rlp : bytes) : result dev_exn (option (Z * Z)) :=
  n ← itemCount rlp;
  if negb (n =? 2) then Ok None
  else
    ((from ← field 0 (λ x, toInt T_int64 x Strict); size ← field 1 (λ x, toInt T_uint32 x Strict);
      mret (Some (from, size))) (freshRLP rlp)).2.

(** ** Downloaded blocks ([DownloadingBlockQueue]) *)

Definition c_maxRequestBlocks : Z := 32.
Definition c_maxRequestShards : Z := 4.
Definition c_maxDownloadingBlockQueueSize : Z := c_maxRequestShards * c_maxRequestBlocks * 2.
Definition c_maxDownloadingBlockQueueBufferSize : Z := c_maxDownloadingBlockQueueSize.

Abbreviation blockNumber b := (m_number (b_header b)).

(** The position of the top of the priority queue ([BlockQueueCmp]): a block of the
    lowest number.  Which of several is not specified. *)
Class HeapOrder := {
  heap_pick : list Block → nat;
  heap_pick_min : ∀ q, q ≠ [] → ∃ b, q !! heap_pick q = Some b ∧ ∀ b', b' ∈ q → blockNumber b ≤ blockNumber b' }.

Record DownloadingBlockQueue := mkBlockQueue { bq_blocks : list Block; bq_buffer : list bytes }.
Definition newBlockQueue : DownloadingBlockQueue := mkBlockQueue [] [].

(** [push], [clearQueue] and [clear]. *)
Definition bq_push (blocksBytes : bytes) (q : DownloadingBlockQueue) : DownloadingBlockQueue :=
  if c_maxDownloadingBlockQueueBufferSize <=? zlen (bq_buffer q) then q
  else mkBlockQueue (bq_blocks q) (bq_buffer q ++ [blocksBytes]).
Definition bq_clearQueue (q : DownloadingBlockQueue) : DownloadingBlockQueue := mkBlockQueue [] (bq_buffer q).
Definition bq_clear (q : DownloadingBlockQueue) : DownloadingBlockQueue := mkBlockQueue [] [].

Section queue.
Context `{Crypto} `{HeapOrder} (decodeTx : bytes → option Transaction)
        (decodeReceipt : bytes → option TransactionReceipt).

(** [top] without a flush, and [pop]. *)
Definition bq_top (q : DownloadingBlockQueue) : option Block := bq_blocks q !! heap_pick (bq_blocks q).
Definition bq_pop (q : DownloadingBlockQueue) : DownloadingBlockQueue :=
  mkBlockQueue (delete (heap_pick (bq_blocks q)) (bq_blocks q)) (bq_buffer q).

(** [isNewerBlock], with the number of the chain. *)
Definition isNewerBlock (chainNumber : Z) (b : Block) : bool := negb (blockNumber b <=? chainNumber).

(** The blocks of a shard; an exception leaves the block out. *)
Definition new_block (chainNumber : Z) (d : bytes) : list Block :=
  match block_decode decodeTx decodeReceipt false emptyBlock d with
  | Throw _ => []
  | Ok b => if isNewerBlock chainNumber b then [b] else []
  end.
Definition shard_block (chainNumber i : Z) (r : RLP) : RLP * list Block :=
  let '(r, it) := rlpIndex r i in
  (r, match it with
      | Throw _ => []
      | Ok it => match toBytes (m_data it) LaissezFaire with Throw _ => [] | Ok d => new_block chainNumber d end
      end).
Fixpoint shard_blocks (chainNumber : Z) (n : nat) (i : Z) (r : RLP) : list Block :=
  match n with
  | O => []
  | S n => let '(r, bs) := shard_block chainNumber i r in bs ++ shard_blocks chainNumber n (i + 1) r
  end.
(** What a shard adds to the queue. *)
Definition flush_shard (chainNumber : Z) (blocksBytes : bytes) : result dev_exn (list Block) :=
  r ← newRLP blocksBytes VeryStrict;
  n ← itemCount (m_data r);
  Ok (shard_blocks chainNumber (Z.to_nat (wrapU 32 n)) 0 r).

(** [flushBufferToQueue]: the shards behind a full queue are lost, and so are those
    behind an exception, which leaves the function. *)
Fixpoint flush_shards (chainNumber : Z) (shards : list bytes) (blocks : list Block) : list Block * result dev_exn unit :=
  match shards with
  | [] => (blocks, Ok tt)
  | d :: shards =>
      if c_maxDownloadingBlockQueueSize <=? zlen blocks then (blocks, Ok tt)
      else match flush_shard chainNumber d with
           | Throw e => (blocks, Throw e)
           | Ok bs => flush_shards chainNumber shards (blocks ++ bs)
           end
  end.
Definition flushBufferToQueue (chainNumber : Z) (q : DownloadingBlockQueue) : DownloadingBlockQueue * result dev_exn unit :=
  let '(blocks, r) := flush_shards chainNumber (bq_buffer q) (bq_blocks q) in (mkBlockQueue blocks [], r).

(** [clearFullQueueIfNotHas]. *)
Definition clearFullQueueIfNotHas (n : Z) (q : DownloadingBlockQueue) : DownloadingBlockQueue :=
  match bq_top q with
  | Some b => if (zlen (bq_blocks q) =? c_maxDownloadingBlockQueueSize) && (n <? blockNumber b) then bq_clearQueue q else q
  | None => q
  end.
End queue.

(** ** Merged requests *)

(** The heights a request asks for. *)
Definition asks (r : DownloadRequest) (n : Z) : Prop := dr_from r ≤ n < dr_from r + dr_size r.
Definition request_wf (r : DownloadRequest) : Prop := - 2 ^ 61 ≤ dr_from r < 2 ^ 61 ∧ 0 ≤ dr_size r < 2 ^ 32.
Abbreviation queue_sorted := (StronglySorted (λ a b, request_before a b = true)).

Lemma request_before_from a b : request_before a b = true → dr_from a ≤ dr_from b.
Proof. unfold request_before. break_if; breflect; lia. Qed.
Lemma request_before_total a b : request_before a b = false → request_before b a = true.
Proof. unfold request_before. repeat break_if; breflect; lia. Qed.
Lemma request_before_trans a b c : request_before a b = true → request_before b c = true → request_before a c = true.
Proof. unfold request_before. repeat break_if; breflect; lia. Qed.

Lemma request_insert_perm r q : request_insert r q ≡ₚ r :: q.
Proof. induction q as [|x q IH]; simpl; [done|]. break_if; [done|]. rewrite IH. apply Permutation_swap. Qed.
Lemma request_insert_sorted r q : queue_sorted q → queue_sorted (request_insert r q).
Proof.
  induction 1 as [|x q Hs IH Hx]; simpl; [repeat constructor|]. break_if.
  - constructor; [by constructor|]. constructor; [done|]. eapply Forall_impl; [exact Hx|].
    intros y Hy. by eapply request_before_trans.
  - constructor; [done|]. rewrite request_insert_perm. constructor; [by apply request_before_total|done].
Qed.

(** Every operation keeps the queue ordered, and it never holds more than eight. *)
Lemma reqQueue_push_wf from size q :
  queue_sorted (rq_queue q) → zlen (rq_queue q) ≤ 8 →
  queue_sorted (rq_queue (reqQueue_push from size q)) ∧ zlen (rq_queue (reqQueue_push from size q)) ≤ 8.
Proof.
  intros Hs Hl. unfold reqQueue_push, c_maxReceivedDownloadRequestPerPeer. repeat break_if; [done..|]. cbn [rq_queue].
  split; [by apply request_insert_sorted|]. breflect. unfold zlen in *. rewrite request_insert_perm. simpl. lia.
Qed.

Lemma merge_tops_spec f q : ∀ s pre size rest,
  - 2 ^ 61 ≤ f → 0 ≤ s → f + s ≤ 2 ^ 61 + 2 ^ 32 →
  (∀ n, f ≤ n < f + s ↔ Exists (λ r, asks r n) pre) →
  Forall request_wf q → Forall (λ r, f ≤ dr_from r) q → queue_sorted q →
  merge_tops f s q = (size, rest) →
  ∃ popped, q = popped ++ rest ∧ (∀ n, f ≤ n < f + size ↔ Exists (λ r, asks r n) (pre ++ popped))
    ∧ Forall (λ r, f + size < dr_from r) rest.
Proof.
  induction q as [|r q IH]; intros s pre size rest Hf Hs Hb Hpre Hwf Hge Hsort; simpl.
  - intros [= <- <-]. exists []. rewrite (app_nil_r pre). split_and!; [done|done|constructor].
  - apply Forall_cons in Hwf as [[Hr1 Hr2] Hwf]. apply Forall_cons in Hge as [Hr Hge].
    apply StronglySorted_inv in Hsort as [Hsort Hhd]. rewrite wrapS_id by lia. break_if.
    + breflect. rewrite wrapS_id by lia. intros Hm.
      destruct (IH (Z.max s (dr_from r + dr_size r - f)) (pre ++ [r]) size rest) as (popped & -> & Hn & Hrest); try done; try lia.
      * intros n. rewrite Exists_app, <- Hpre, Exists_cons, Exists_nil. unfold asks. lia.
      * exists (r :: popped). split; [done|]. split; [|done]. intros n. rewrite Hn. by rewrite <- app_assoc.
    + breflect. intros [= <- <-]. exists []. rewrite (app_nil_r pre). split; [done|]. split; [done|].
      constructor; [lia|]. eapply Forall_impl; [exact Hhd|]. intros x Hx%request_before_from. lia.
Qed.

Lemma merge_tops_le f q : ∀ s, s ≤ (merge_tops f s q).1.
Proof. induction q as [|r q IH]; intros s; simpl; [lia|]. break_if; [|simpl; lia]. etrans; [|apply IH]. lia. Qed.

(** The request taken from the queue and those it stands for. *)
Lemma topAndPop_merges q r q' :
  queue_sorted (rq_queue q) → Forall request_wf (rq_queue q) → rq_queue q ≠ [] → topAndPop q = (r, q') →
  ∃ popped, popped ≠ [] ∧ rq_queue q = popped ++ rq_queue q' ∧ (∀ n, asks r n ↔ Exists (λ r, asks r n) popped)
    ∧ Forall (λ x, dr_from r + dr_size r < dr_from x) (rq_queue q') ∧ queue_sorted (rq_queue q').
Proof.
  intros Hs Hwf Hne. unfold topAndPop. destruct (rq_queue q) as [|r0 l] eqn:E; [done|].
  destruct (merge_tops (dr_from r0) 0 (r0 :: l)) as [size rest] eqn:Hm. intros [= <- <-]. cbn [rq_queue dr_from dr_size asks].
  pose proof (StronglySorted_inv Hs) as [_ Hhd]. pose proof Hwf as [[H1 H2] _]%Forall_cons.
  assert (Hge : Forall (λ r, dr_from r0 ≤ dr_from r) (r0 :: l)).
  { constructor; [done|]. eapply Forall_impl; [exact Hhd|]. apply request_before_from. }
  destruct (merge_tops_spec (dr_from r0) (r0 :: l) 0 [] size rest ltac:(lia) ltac:(lia) ltac:(lia)) as (popped & Hq & Hn & Hrest);
    [|done..|]. { intros n. rewrite Exists_nil. lia. }
  exists popped. split_and!; [|done|exact Hn|done|].
  - intros ->. simpl in Hq. subst rest. apply Forall_cons in Hrest as [Hrest _].
    pose proof (merge_tops_le (dr_from r0) (r0 :: l) 0) as Hle. rewrite Hm in Hle. simpl in Hle. lia.
  - rewrite Hq in Hs. clear -Hs. induction popped; [done|]. apply IHpopped. by apply StronglySorted_inv in Hs as [? _].
Qed.

Lemma topAndPop_head q r q' :
  rq_queue q ≠ [] → topAndPop q = (r, q') → (∃ x, x ∈ rq_queue q ∧ dr_from r = dr_from x) ∧ 0 <= dr_size r.
Proof.
  unfold topAndPop. intros Hne. destruct (rq_queue q) as [|x l]; [done|]. pose proof (merge_tops_le (dr_from x) (x :: l) 0).
  destruct (merge_tops _ _ _) as [size rest]. intros [= <- <-]. split; [exists x; split; [by left|done]|done].
Qed.

(** Answering requests: the request taken from the queue asks for exactly the heights
    that the requests it stands for ask for, those left in the queue begin beyond it, and
    none is lost. *)
Theorem topAndPop_exact q r q' :
  queue_sorted (rq_queue q) → Forall request_wf (rq_queue q) → rq_queue q ≠ [] → topAndPop q = (r, q') →
  ∃ popped, popped ≠ [] ∧ rq_queue q = popped ++ rq_queue q' ∧ (∀ n, asks r n ↔ Exists (λ r, asks r n) popped)
    ∧ Forall (λ x, dr_from r + dr_size r < dr_from x) (rq_queue q') ∧ queue_sorted (rq_queue q').
Proof. apply topAndPop_merges. Qed.

(** ** Answers *)

Definition answer (blockRLPs : list bytes) : list (list bytes) :=
  dc_sent (clearBatchAndSend (foldl (λ c d, batchAndSend d c) newContainer blockRLPs)).

(** What a packet is: not empty, and within the limit unless it is a single block. *)
Definition packet_ok (p : list bytes) : Prop := p ≠ [] ∧ (zlen (mjoin p) ≤ c_maxPayload ∨ zlen p = 1).
Definition container_ok (c : DownloadBlocksContainer) : Prop :=
  dc_batchSize c = zlen (mjoin (dc_batch c)) ∧ dc_batchSize c ≤ c_maxPayload ∧ Forall packet_ok (dc_sent c).
Abbreviation container_blocks c := (mjoin (dc_sent c) ++ dc_batch c).

Lemma clearBatchAndSend_ok c :
  container_ok c → container_ok (clearBatchAndSend c) ∧ container_blocks (clearBatchAndSend c) = container_blocks c
    ∧ dc_batch (clearBatchAndSend c) = [].
Proof.
  intros (Hs & Hle & Hp). unfold clearBatchAndSend.
  destruct (Z.eqb_spec (zlen (dc_batch c)) 0) as [?%zlen_eq0|Hne]; [done|].
  split_and!; [|cbn; rewrite join_app; cbn; by rewrite !app_nil_r|done]. split_and!; [done|unfold c_maxPayload; cbn; lia|].
  cbn. apply Forall_app; split; [done|]. constructor; [|done]. split; [intros He; by rewrite He in Hne|left; lia].
Qed.

Lemma batchAndSend_ok d c :
  container_ok c → container_ok (batchAndSend d c) ∧ container_blocks (batchAndSend d c) ≡ₚ container_blocks c ++ [d].
Proof.
  intros Hc. unfold batchAndSend. break_if.
  - destruct Hc as (Hs & Hle & Hp). split; [split_and!; try done|].
    + cbn. apply Forall_app; split; [done|]. constructor; [|done]. split; [done|by right].
    + cbn. rewrite join_app. cbn. rewrite <- !app_assoc. apply Permutation_app_head, Permutation_app_comm.
  - destruct (clearBatchAndSend_ok c Hc) as (Hc' & Hb & He). breflect.
    assert (∃ c', (if c_maxPayload <? dc_batchSize c + zlen d then clearBatchAndSend c else c) = c'
      ∧ container_ok c' ∧ container_blocks c' = container_blocks c ∧ dc_batchSize c' + zlen d ≤ c_maxPayload) as (c' & -> & (Hs & _ & Hp) & <- & Hle).
    { destruct (Z.ltb_spec c_maxPayload (dc_batchSize c + zlen d)); eexists; (split; [done|]); (split; [done|]); (split; [done|]); [|lia].
      destruct Hc' as (-> & _). rewrite He. change (zlen (mjoin [])) with 0. lia. }
    cbv zeta. split; [|cbn; by rewrite app_assoc]. split_and!; cbn; [|done|done].
    rewrite join_app, zlen_app, <- Hs. cbn. by rewrite app_nil_r.
Qed.

Lemma answer_ok ds : Forall packet_ok (answer ds) ∧ mjoin (answer ds) ≡ₚ ds.
Proof.
  unfold answer. assert (∀ c, container_ok c → let c' := foldl (λ c d, batchAndSend d c) c ds in
    container_ok c' ∧ container_blocks c' ≡ₚ container_blocks c ++ ds) as H.
  { induction ds as [|d ds IH]; intros c Hc; [split; [done|by rewrite (app_nil_r (container_blocks c))]|].
    destruct (batchAndSend_ok d c Hc) as [Hd Hp]. destruct (IH _ Hd) as [H1 H2].
    split; [done|]. cbn [foldl]. rewrite H2, Hp. by rewrite <- app_assoc. }
  destruct (H newContainer) as [Hc Hp]; [split_and!; [done|unfold c_maxPayload; cbn; lia|constructor]|].
  destruct (clearBatchAndSend_ok _ Hc) as ((_ & _ & Hk) & Hb & He). split; [done|].
  rewrite He, (app_nil_r (mjoin _)) in Hb. by rewrite Hb, Hp.
Qed.

(** ** From the answer to the queue *)

Definition shard (p : list bytes) : bytes := rlpList (rlpData <$> p).
Definition packet_small (p : list bytes) : Prop := zlen p ≤ 256 ∧ Forall (λ d, zlen d < 2 ^ 32) p.

Lemma packet_fits p : packet_small p → Forall good_item (rlpData <$> p) ∧ zlen (mjoin (rlpData <$> p)) < 2 ^ 50.
Proof.
  intros [Hn Hp]. assert (Forall good_item (rlpData <$> p) ∧ zlen (mjoin (rlpData <$> p)) ≤ zlen p * 2 ^ 33) as [? ?]; [|split; [done|lia]].
  clear Hn. induction Hp as [|d p Hd Hp [IH1 IH2]]; [done|]. assert (rlp_fits d) as Hf by (unfold rlp_fits; lia).
  pose proof (zlen_rlpData d Hf). rewrite fmap_cons, zlen_mjoin, zlen_cons. split; [|lia].
  constructor; [by apply rlpData_good|done].
Qed.

Lemma shard_good p : packet_small p → good_item (shard p) ∧ payload (shard p) = Ok (mjoin (rlpData <$> p)) ∧ isList (shard p) = true.
Proof.
  intros [_ Hb]%packet_fits. assert (rlp_fits (mjoin (rlpData <$> p))) as Hf by (unfold rlp_fits; lia).
  destruct (rlpList_good _ Hf). split_and!; [done|done|by apply rlpList_isList].
Qed.

Lemma blocksPacket_eq p : packet_small p → blocksPacket p = Ok (byte.of_Z 3 :: shard p).
Proof.
  intros Hp. destruct (packet_fits p Hp) as [_ Hb]. unfold blocksPacket.
  change (prep BlocksPacket) with (Ok (E:=dev_exn) (mkStream [byte.of_Z 3] [])). cbn [mbind result_bind].
  rewrite (appendVector_spec _ rlpData p); [done| |unfold rlp_fits; lia].
  destruct Hp as [_ Hp]. eapply Forall_impl; [exact Hp|]. intros d Hd. apply appendBytes_spec. unfold rlp_fits. cbn in *. lia.
Qed.

(** A packet of any type is recognised. *)
Lemma packet_decode t x :
  good_item x → t ≠ OtherPacket → syncPacket_decode (byte.of_Z (packetId t + 1) :: x) = Ok (Some (t, x)).
Proof.
  intros Hg Ht. unfold syncPacket_decode, checkPacket. set (b := byte.of_Z (packetId t + 1)).
  assert (croppedFrom (b :: x) 1 = x) as Hc by apply (croppedFrom_suffix [b]).
  rewrite Hc, newRLP_item by done. cbn [mbind result_bind m_data freshRLP].
  pose proof Hg as [Hne Ha]. specialize (Ha []). rewrite app_nil_r in Ha. rewrite Ha. cbn [mbind result_bind].
  assert (1 ≤ zlen x) by (destruct x; [done|zsize]). rewrite zlen_cons.
  replace (1 + zlen x <? 2) with false by (symmetry; lia). replace (0x7f <? nthb (b :: x) 0) with false by (by destruct t).
  cbv iota. cbn [orb mbind result_bind].
  replace (zlen x + 1 =? 1 + zlen x) with true by (symmetry; lia). cbn [negb].
  replace (cropped (b :: x) 0 1) with [b] by (symmetry; apply (cropped_prefix [b])). subst b. by destruct t.
Qed.

Lemma blocksPacket_decode p : packet_small p → syncPacket_decode (byte.of_Z 3 :: shard p) = Ok (Some (BlocksPacket, shard p)).
Proof. intros Hp. destruct (shard_good p Hp) as (Hg & _ & _). by apply (packet_decode BlocksPacket). Qed.

(** ** Status and requests *)

Lemma packet_step {A} app (enc : A → bytes) a pre hd k :
  appends app enc a → 1 < k →
  app a (mkStream (pre ++ mjoin hd) [(k, zlen pre)]) = Ok (mkStream (pre ++ mjoin (hd ++ [enc a])) [(k - 1, zlen pre)]).
Proof.
  intros -> ?. cbn [m_out m_listStack]. rewrite noteAppended_open by done.
  rewrite join_app. cbn [mjoin list_join]. by rewrite app_nil_r, app_assoc.
Qed.
Lemma packet_last {A} app (enc : A → bytes) a pre hd :
  appends app enc a → rlp_fits (mjoin (hd ++ [enc a])) →
  app a (mkStream (pre ++ mjoin hd) [(1, zlen pre)]) = Ok (mkStream (pre ++ rlpList (hd ++ [enc a])) []).
Proof.
  intros -> Hfit. cbn [m_out m_listStack].
  replace ((pre ++ mjoin hd) ++ enc a) with (pre ++ mjoin (hd ++ [enc a])).
  - by rewrite noteAppended_close.
  - rewrite join_app. cbn [mjoin list_join]. by rewrite app_nil_r, app_assoc.
Qed.

Lemma appendUnsigned_int i : 0 ≤ i < 2 ^ 32 → appends appendUnsigned encInt i.
Proof. intros Hi s. rewrite appendUnsigned_spec. by rewrite wrapU_id. Qed.

Lemma toInt_u32 i flags : 0 ≤ i < 2 ^ 32 → toInt T_uint32 (encInt i) flags = Ok i.
Proof.
  intros Hi. apply toInt_256; [lia | | by apply wrapU_id].
  apply bytesRequired_le; [done |]. by change (256 ^ maxSize T_uint32) with (2 ^ 32).
Qed.

Lemma reqBlockPacket_eq from size :
  0 ≤ from < 2 ^ 32 → 0 ≤ size < 2 ^ 32 →
  reqBlockPacket from size = Ok (byte.of_Z 4 :: rlpList [encInt from; encInt size]) ∧ good_item (rlpList [encInt from; encInt size])
  ∧ readRequest (rlpList [encInt from; encInt size]) = Ok (Some (from, size)).
Proof.
  intros Hf Hs. assert (Hl : rlp_fits (mjoin [encInt from; encInt size])).
  { unfold rlp_fits. pose proof (zlen_encInt from ltac:(lia)). pose proof (zlen_encInt size ltac:(lia)). rewrite !zlen_mjoin. change (zlen (mjoin [])) with 0. lia. }
  assert (Hg : Forall good_item [encInt from; encInt size]) by (repeat constructor; apply encInt_good; lia).
  destruct (rlpList_good _ Hl) as [Hgl Hp]. split_and!; [|done|].
  - unfold reqBlockPacket. change (prep ReqBlocskPacket) with (Ok (E:=dev_exn) (mkStream [byte.of_Z 4] [])). cbn [mbind result_bind].
    change (appendList 2 (mkStream [byte.of_Z 4] [])) with (Ok (E:=dev_exn) (mkStream ([byte.of_Z 4] ++ mjoin []) [(2, zlen [byte.of_Z 4])])).
    cbn [mbind result_bind]. rewrite packet_step with (enc := encInt) by (by apply appendUnsigned_int || lia). cbn [mbind result_bind].
    rewrite packet_last with (enc := encInt) by (by apply appendUnsigned_int || done). done.
  - unfold readRequest, itemCount. rewrite (proj1 (rlpList_isList _ Hl)), Hp. cbn [mbind result_bind].
    rewrite count_items_join by done. cbn [mbind result_bind]. change (zlen [encInt from; encInt size]) with 2. cbn [Z.eqb Pos.eqb negb].
    assert (reads [encInt from; encInt size] (a ← field 0 (λ x, toInt T_int64 x Strict); b ← field 1 (λ x, toInt T_uint32 x Strict); mret (Some (a, b)))
              (Ok (Some (from, size)))) as Hr.
    { reads_step ltac:(fun _ => by apply toInt_i64; lia). reads_step ltac:(fun _ => by apply toInt_u32; lia). apply reads_ret. }
    destruct (Hr (freshRLP (rlpList [encInt from; encInt size]))) as (r' & -> & _); [by left|done|done].
Qed.

Lemma statusPacket_eq n g h :
  0 ≤ n < 2 ^ 32 → 0 ≤ g < 2 ^ 256 → 0 ≤ h < 2 ^ 256 →
  statusPacket n g h = Ok (byte.of_Z 1 :: rlpList [encInt n; encHash 32 g; encHash 32 h])
  ∧ good_item (rlpList [encInt n; encHash 32 g; encHash 32 h])
  ∧ readStatus (rlpList [encInt n; encHash 32 g; encHash 32 h]) = Ok (Some (n, g, h)).
Proof.
  intros Hn Hgr Hhr. assert (Hl : rlp_fits (mjoin [encInt n; encHash 32 g; encHash 32 h])).
  { unfold rlp_fits. pose proof (zlen_encInt n ltac:(lia)). pose proof (zlen_encHash 32 g ltac:(done)). pose proof (zlen_encHash 32 h ltac:(done)).
    rewrite !zlen_mjoin. change (zlen (mjoin [])) with 0. lia. }
  assert (Hg : Forall good_item [encInt n; encHash 32 g; encHash 32 h]).
  { repeat constructor; (apply encInt_good; lia) || by apply encHash_good. }
  destruct (rlpList_good _ Hl) as [Hgl Hp]. split_and!; [|done|].
  - unfold statusPacket. change (prep StatusPacket) with (Ok (E:=dev_exn) (mkStream [byte.of_Z 1] [])). cbn [mbind result_bind].
    change (appendList 3 (mkStream [byte.of_Z 1] [])) with (Ok (E:=dev_exn) (mkStream ([byte.of_Z 1] ++ mjoin []) [(3, zlen [byte.of_Z 1])])).
    cbn [mbind result_bind]. rewrite packet_step with (enc := encInt) by (by apply appendUnsigned_int || lia). cbn [mbind result_bind].
    rewrite packet_step with (enc := encHash 32) by (by apply appendHash_spec || lia). cbn [mbind result_bind].
    rewrite packet_last with (enc := encHash 32) by (by apply appendHash_spec || done). done.
  - unfold readStatus, itemCount. rewrite (proj1 (rlpList_isList _ Hl)), Hp. cbn [mbind result_bind].
    rewrite count_items_join by done. cbn [mbind result_bind]. change (zlen [encInt n; encHash 32 g; encHash 32 h]) with 3. cbn [Z.eqb Pos.eqb negb].
    assert (reads [encInt n; encHash 32 g; encHash 32 h] (a ← field 0 (λ x, toInt T_int64 x Strict); b ← field 1 (λ x, toHash 32 x Strict);
              c ← field 2 (λ x, toHash 32 x Strict); mret (Some (a, b, c))) (Ok (Some (n, g, h)))) as Hr.
    { reads_step ltac:(fun _ => by apply toInt_i64; lia). do 2 reads_step ltac:(fun _ => by apply toHash_data). apply reads_ret. }
    destruct (Hr (freshRLP (rlpList [encInt n; encHash 32 g; encHash 32 h]))) as (r' & -> & _); [by left|done|done].
Qed.

(** Numbers are written with 32 bits. *)
Lemma packets_truncate n g h from size :
  statusPacket (n + 2 ^ 32) g h = statusPacket n g h ∧ reqBlockPacket (from + 2 ^ 32) size = reqBlockPacket from size.
Proof.
  assert (Hw : ∀ z s, appendUnsigned (z + 2 ^ 32) s = appendUnsigned z s).
  { intros z s. rewrite !appendUnsigned_spec. do 4 f_equal. unfold wrapU. by rewrite <- (Z.mul_1_l (2 ^ 32)) at 1; rewrite Z.mod_add. }
  unfold statusPacket, reqBlockPacket. split.
  - destruct (prep StatusPacket); [|done]. cbn [mbind result_bind]. destruct (appendList _ _); [|done]. cbn [mbind result_bind]. by rewrite Hw.
  - destruct (prep ReqBlocskPacket); [|done]. cbn [mbind result_bind]. destruct (appendList _ _); [|done]. cbn [mbind result_bind]. by rewrite Hw.
Qed.

Section delivery.
Context `{Crypto} (decodeTx : bytes → option Transaction) (decodeReceipt : bytes → option TransactionReceipt).
Abbreviation newBlock := (new_block decodeTx decodeReceipt).

Lemma shard_blocks_spec n p r i k :
  packet_small p → memo_ok r → m_data r = shard p → (i + k = length p)%nat →
  shard_blocks decodeTx decodeReceipt n k (Z.of_nat i) r = mjoin (newBlock n <$> drop i p).
Proof.
  intros Hp. destruct (shard_good p Hp) as (_ & Hpay & _). destruct (packet_fits p Hp) as [Hg _]. destruct Hp as [Hlen Hp].
  revert r i. induction k as [|k IH]; intros r i Hm Hd Hk; [by rewrite drop_ge by lia|].
  destruct (lookup_lt_is_Some_2 p i ltac:(lia)) as [d Hi]. rewrite (drop_S p d i Hi), fmap_cons.
  cbn [shard_blocks]. unfold shard_block. pose proof (rlpIndex_spec r (Z.of_nat i) Hm) as Hx.
  destruct (rlpIndex r (Z.of_nat i)) as [r' res]. destruct Hx as (Hd' & Hm' & Hres); [unfold zlen in *; lia|].
  rewrite Hd, Hpay in Hres. cbn [mbind result_bind] in Hres. rewrite Nat2Z.id, itemAt_join in Hres by done.
  cbn [mbind result_bind] in Hres. rewrite list_lookup_fmap, Hi in Hres. cbn [fmap option_fmap option_map default] in Hres.
  assert (rlp_fits d) as Hf. { pose proof (Forall_lookup_1 _ _ _ _ Hp Hi). unfold rlp_fits. cbn in *. lia. }
  rewrite newRLP_item in Hres by (by apply rlpData_good). subst res. cbn [m_data freshRLP].
  unfold id. rewrite toBytes_data by done. change (mjoin (?x :: ?l)) with (x ++ mjoin l). f_equal.
  replace (Z.of_nat i + 1) with (Z.of_nat (S i)) by lia. apply IH; [by apply Hm'|by rewrite Hd'|lia].
Qed.

Lemma flush_shard_spec n p :
  packet_small p → flush_shard decodeTx decodeReceipt n (shard p) = Ok (mjoin (newBlock n <$> p)).
Proof.
  intros Hp. destruct (shard_good p Hp) as (Hg & Hpay & Hl). destruct (packet_fits p Hp) as [Hgs _]. unfold flush_shard, itemCount.
  rewrite newRLP_item by done. cbn [mbind result_bind m_data freshRLP]. rewrite Hl, Hpay. cbn [mbind result_bind].
  rewrite count_items_join by done. cbn [mbind result_bind]. f_equal. pose proof Hp as [Hn _]. pose proof (zlen_nonneg p).
  assert (zlen (rlpData <$> p) = zlen p) as -> by (unfold zlen; by rewrite length_fmap).
  rewrite wrapU_id by lia. rewrite zlen_to_nat. apply (shard_blocks_spec n p _ 0); [done|by left|done|done].
Qed.

Lemma new_blocks_le n ds : zlen (mjoin (newBlock n <$> ds)) ≤ zlen ds.
Proof.
  induction ds as [|d ds IH]; [done|]. rewrite fmap_cons, zlen_mjoin, zlen_cons. enough (zlen (newBlock n d) ≤ 1) by lia.
  unfold new_block. destruct (block_decode _ _ _ _ _); [|done]. by break_if.
Qed.

Lemma flush_shards_spec n ps blocks :
  Forall packet_small ps → Forall (λ p, p ≠ []) ps → zlen blocks + zlen (mjoin ps) ≤ 256 →
  flush_shards decodeTx decodeReceipt n (shard <$> ps) blocks = (blocks ++ mjoin (newBlock n <$> mjoin ps), Ok tt).
Proof.
  intros Hs. revert blocks. induction Hs as [|p ps Hp Hs IH]; intros blocks Hne Hle; [cbn; by rewrite app_nil_r|].
  apply Forall_cons in Hne as [Hpne Hne]. rewrite zlen_mjoin in Hle. rewrite fmap_cons. cbn [flush_shards].
  assert (1 ≤ zlen p) by (destruct p; [done|zsize]). pose proof (zlen_nonneg (mjoin ps)). pose proof (new_blocks_le n p).
  change c_maxDownloadingBlockQueueSize with 256. replace (256 <=? zlen blocks) with false by (symmetry; lia).
  rewrite flush_shard_spec by done. rewrite IH; [|done|zsize]. change (mjoin (p :: ps)) with (p ++ mjoin ps).
  by rewrite fmap_app, join_app, app_assoc.
Qed.

Lemma packet_parts ds : zlen ds ≤ 256 → Forall (λ d, zlen d < 2 ^ 32) ds → Forall packet_small (answer ds).
Proof.
  intros Hn Hd. destruct (answer_ok ds) as [_ Hp]. assert (zlen (mjoin (answer ds)) ≤ 256) as Hn'.
  { unfold zlen in *. by rewrite Hp. }
  rewrite <- Hp in Hd. clear Hp Hn. induction (answer ds) as [|p ps IH]; [constructor|].
  change (mjoin (p :: ps)) with (p ++ mjoin ps) in *. apply Forall_app in Hd as [H1 H2]. rewrite zlen_app in Hn'.
  pose proof (zlen_nonneg p). pose proof (zlen_nonneg (mjoin ps)). constructor; [split; [lia|done]|apply IH; [done|lia]].
Qed.

End delivery.

(** The first of the lowest, as an instance. *)
Fixpoint firstMin (q : list Block) : nat :=
  match q with
  | [] => 0
  | b :: q => match q !! firstMin q with Some b' => if blockNumber b <=? blockNumber b' then 0 else S (firstMin q) | None => 0 end
  end.
Lemma firstMin_min q : q ≠ [] → ∃ b, q !! firstMin q = Some b ∧ ∀ b', b' ∈ q → blockNumber b ≤ blockNumber b'.
Proof.
  induction q as [|b q IH]; [done|]. intros _. cbn [firstMin]. destruct (decide (q = [])) as [->|Hq].
  { exists b. split; [done|]. intros b' ->%list_elem_of_singleton. done. }
  destruct (IH Hq) as (m & Hm & Hmin). rewrite Hm. destruct (Z.leb_spec (blockNumber b) (blockNumber m)).
  - exists b. split; [done|]. intros b' [->|Hb]%elem_of_cons; [done|]. specialize (Hmin b' Hb). lia.
  - exists m. split; [done|]. intros b' [->|Hb]%elem_of_cons; [lia|by apply Hmin].
Qed.
Definition firstMinOrder : HeapOrder := {| heap_pick := firstMin; heap_pick_min := firstMin_min |}.

Lemma topAndPop_exact_witness :
  ∃ popped, popped ≠ [] ∧ [mkRequest 5 10; mkRequest 8 20; mkRequest 40 2] = popped ++ [mkRequest 40 2]
    ∧ (∀ n, asks (mkRequest 5 23) n ↔ Exists (λ r, asks r n) popped)
    ∧ Forall (λ x, 5 + 23 < dr_from x) [mkRequest 40 2] ∧ queue_sorted [mkRequest 40 2].
Proof.
  apply (topAndPop_exact (mkReqQueue [mkRequest 5 10; mkRequest 8 20; mkRequest 40 2] true) (mkRequest 5 23)
           (mkReqQueue [mkRequest 40 2] true)); [|repeat constructor; cbn; lia|done|reflexivity].
  repeat constructor.
Defined.

(** The encoded sample block, twice in an answer to a node at height 4. *)
Definition sampleBlockRLP : bytes := match @block_encode toyCrypto sampleBlock with Ok (_, d) => d | Throw _ => [] end.
Example sample_delivered :
  (λ b, blockNumber b) <$> mjoin (@new_block toyCrypto (λ d, Some (mkTx 11 12 d)) (λ d, Some (mkReceipt [] d)) 4
                           <$> [sampleBlockRLP; sampleBlockRLP]) = [5; 5].
Proof. vm_compute. reflexivity. Qed.

(** ** Shards that stop the queue *)

Section faults.
Context `{Crypto} `{HeapOrder} (decodeTx : bytes → option Transaction) (decodeReceipt : bytes → option TransactionReceipt).
Abbreviation flushes := (flushBufferToQueue decodeTx decodeReceipt).

(** A list whose only item is cut short passes the checks made on arrival, and its
    flush ends in an exception; the shards that came after it are lost. *)
Definition cutShard : bytes := [byte.of_Z 0xc1; byte.of_Z 0xb8].
Lemma cutShard_accepted : syncPacket_decode (byte.of_Z 3 :: cutShard) = Ok (Some (BlocksPacket, cutShard)).
Proof. vm_compute. reflexivity. Qed.
Lemma cutShard_throws n q rest :
  zlen (bq_blocks q) < c_maxDownloadingBlockQueueSize → bq_buffer q = cutShard :: rest →
  ∃ e, flushes n q = (mkBlockQueue (bq_blocks q) [], Throw e).
Proof.
  intros Hlt Hb. unfold flushBufferToQueue. rewrite Hb. cbn [flush_shards].
  replace (c_maxDownloadingBlockQueueSize <=? zlen (bq_blocks q)) with false by (symmetry; lia).
  change (flush_shard decodeTx decodeReceipt n cutShard) with (Throw (E:=dev_exn) (A:=list Block) BadRLP). eauto.
Qed.

(** A queue that holds more than its maximum is never emptied by
    [clearFullQueueIfNotHas], and no shard enters it. *)
Lemma overfull_never_cleared k n q :
  c_maxDownloadingBlockQueueSize < zlen (bq_blocks q) →
  clearFullQueueIfNotHas k q = q ∧ bq_blocks (flushes n q).1 = bq_blocks q.
Proof.
  intros Hgt. split.
  - unfold clearFullQueueIfNotHas. destruct (bq_top q); [|done].
    by replace (zlen (bq_blocks q) =? c_maxDownloadingBlockQueueSize) with false by (symmetry; lia).
  - unfold flushBufferToQueue. destruct (bq_buffer q) as [|d l]; [done|]. cbn [flush_shards].
    by replace (c_maxDownloadingBlockQueueSize <=? zlen (bq_blocks q)) with true by (symmetry; lia).
Qed.
End faults.
