(* ===== verification/SyncMaster.v ===== *)
(** * Block synchronisation (libsync/SyncMaster.h, SyncMaster.cpp, SyncStatus.h,
    SyncStatus.cpp; the handlers of SyncMsgEngine.cpp)

    What the worker thread does in a round of [doWork] and what the handlers of packets
    do.  The record [SyncMasterOf] holds the members of [SyncMaster] and of its
    [SyncMasterStatus], the chain, the block verifier and the consensus engine that are
    asked about downloaded blocks, and a log of the packets sent and of the blocks whose
    transactions are dropped from the pool.  What executing a block and checking it mean
    are arguments.  The exchange of transactions ([maintainTransactions],
    [maintainDownloadingTransactions]) touches the pool only and is left out. *)
From S2P Require Import Prelude CommonData RLP Crypto BlockHeader TxsParser Block BlockChain.
From S2P Require Import Transaction Receipt TxDAG ABI DagTransfer BlockVerifier SyncQueue.
From stdpp Require Import sorting.
Local Open Scope Z_scope.

(** ** Members *)

Inductive SyncState := Idle | Downloading.
#[export] Instance syncState_eq_dec : EqDecision SyncState.
Proof. solve_decision. Defined.

#[export] Instance blockHeader_eq_dec : EqDecision BlockHeader.
Proof. solve_decision. Defined.
#[export] Instance blockTx_eq_dec : EqDecision Block.Transaction.
Proof. solve_decision. Defined.
#[export] Instance blockReceipt_eq_dec : EqDecision Block.TransactionReceipt.
Proof. solve_decision. Defined.
#[export] Instance block_eq_dec : EqDecision Block.
Proof. solve_decision. Defined.

(** [SyncPeerInfo] without the node, which is the key of the map, and [SyncPeerStatus]. *)
Record SyncPeerStatus := mkPeer {
  ps_number : Z; ps_genesisHash : Z; ps_latestHash : Z; ps_reqQueue : DownloadRequestQueue; ps_isSealer : bool }.
Definition newPeer (n genesis latest : Z) : SyncPeerStatus := mkPeer n genesis latest newReqQueue false.
Definition ps_update (n genesis latest : Z) (p : SyncPeerStatus) : SyncPeerStatus :=
  mkPeer n genesis latest (ps_reqQueue p) (ps_isSealer p).
Definition set_ps_reqQueue (q : DownloadRequestQueue) (p : SyncPeerStatus) : SyncPeerStatus :=
  mkPeer (ps_number p) (ps_genesisHash p) (ps_latestHash p) q (ps_isSealer p).
Definition set_ps_isSealer (b : bool) (p : SyncPeerStatus) : SyncPeerStatus :=
  mkPeer (ps_number p) (ps_genesisHash p) (ps_latestHash p) (ps_reqQueue p) b.

(** What is sent, to whom, and the blocks given to [dropBlockTrans]. *)
Inductive sync_event :=
| SendStatus (node number genesis latest : Z)
| SendRequest (node from size : Z)
| SendBlocks (node : Z) (blocks : list bytes)
| DropTrans (b : Block).
Definition wire (e : sync_event) : option (Z * result dev_exn bytes) :=
  match e with
  | SendStatus node n g h => Some (node, statusPacket n g h)
  | SendRequest node from size => Some (node, reqBlockPacket from size)
  | SendBlocks node bs => Some (node, blocksPacket bs)
  | DropTrans _ => None
  end.

(** What ends a round: a shard or a block that cannot be coded, and the use of a null
    block pointer. *)
Inductive sync_exn := BadShard (e : dev_exn) | BadBlock (e : eth_exn) | NullBlock.

Section members.
Context {C V G : Type}.
Record SyncMasterOf := mkSync {
  sm_chain : C; sm_verifier : V; sm_consensus : G;
  sm_state : SyncState; sm_knownHighestNumber : Z; sm_knownLatestHash : Z;
  sm_bq : DownloadingBlockQueue; sm_peers : gmap Z SyncPeerStatus;
  sm_maxRequestNumber : Z; sm_lastDownloadingRequestTime : Z; sm_currentSealingNumber : Z;
  sm_newTransactions : bool; sm_newBlocks : bool; sm_maintainBlocksTimeout : Z;
  sm_needMaintainTransactions : bool; sm_needSendStatus : bool; sm_log : list sync_event }.
Definition set_sm_chain v (s : SyncMasterOf) : SyncMasterOf := mkSync v (sm_verifier s)
  (sm_consensus s) (sm_state s) (sm_knownHighestNumber s) (sm_knownLatestHash s) (sm_bq s)
  (sm_peers s) (sm_maxRequestNumber s) (sm_lastDownloadingRequestTime s)
  (sm_currentSealingNumber s) (sm_newTransactions s) (sm_newBlocks s) (sm_maintainBlocksTimeout
  s) (sm_needMaintainTransactions s) (sm_needSendStatus s) (sm_log s).
Definition set_sm_verifier v (s : SyncMasterOf) : SyncMasterOf := mkSync (sm_chain s) v
  (sm_consensus s) (sm_state s) (sm_knownHighestNumber s) (sm_knownLatestHash s) (sm_bq s)
  (sm_peers s) (sm_maxRequestNumber s) (sm_lastDownloadingRequestTime s)
  (sm_currentSealingNumber s) (sm_newTransactions s) (sm_newBlocks s) (sm_maintainBlocksTimeout
  s) (sm_needMaintainTransactions s) (sm_needSendStatus s) (sm_log s).
Definition set_sm_consensus v (s : SyncMasterOf) : SyncMasterOf := mkSync (sm_chain s)
  (sm_verifier s) v (sm_state s) (sm_knownHighestNumber s) (sm_knownLatestHash s) (sm_bq s)
  (sm_peers s) (sm_maxRequestNumber s) (sm_lastDownloadingRequestTime s)
  (sm_currentSealingNumber s) (sm_newTransactions s) (sm_newBlocks s) (sm_maintainBlocksTimeout
  s) (sm_needMaintainTransactions s) (sm_needSendStatus s) (sm_log s).
Definition set_sm_state v (s : SyncMasterOf) : SyncMasterOf := mkSync (sm_chain s) (sm_verifier
  s) (sm_consensus s) v (sm_knownHighestNumber s) (sm_knownLatestHash s) (sm_bq s) (sm_peers s)
  (sm_maxRequestNumber s) (sm_lastDownloadingRequestTime s) (sm_currentSealingNumber s)
  (sm_newTransactions s) (sm_newBlocks s) (sm_maintainBlocksTimeout s)
  (sm_needMaintainTransactions s) (sm_needSendStatus s) (sm_log s).
Definition set_sm_knownHighestNumber v (s : SyncMasterOf) : SyncMasterOf := mkSync (sm_chain s)
  (sm_verifier s) (sm_consensus s) (sm_state s) v (sm_knownLatestHash s) (sm_bq s) (sm_peers s)
  (sm_maxRequestNumber s) (sm_lastDownloadingRequestTime s) (sm_currentSealingNumber s)
  (sm_newTransactions s) (sm_newBlocks s) (sm_maintainBlocksTimeout s)
  (sm_needMaintainTransactions s) (sm_needSendStatus s) (sm_log s).
Definition set_sm_knownLatestHash v (s : SyncMasterOf) : SyncMasterOf := mkSync (sm_chain s)
  (sm_verifier s) (sm_consensus s) (sm_state s) (sm_knownHighestNumber s) v (sm_bq s) (sm_peers
  s) (sm_maxRequestNumber s) (sm_lastDownloadingRequestTime s) (sm_currentSealingNumber s)
  (sm_newTransactions s) (sm_newBlocks s) (sm_maintainBlocksTimeout s)
  (sm_needMaintainTransactions s) (sm_needSendStatus s) (sm_log s).
Definition set_sm_bq v (s : SyncMasterOf) : SyncMasterOf := mkSync (sm_chain s) (sm_verifier s)
  (sm_consensus s) (sm_state s) (sm_knownHighestNumber s) (sm_knownLatestHash s) v (sm_peers s)
  (sm_maxRequestNumber s) (sm_lastDownloadingRequestTime s) (sm_currentSealingNumber s)
  (sm_newTransactions s) (sm_newBlocks s) (sm_maintainBlocksTimeout s)
  (sm_needMaintainTransactions s) (sm_needSendStatus s) (sm_log s).
Definition set_sm_peers v (s : SyncMasterOf) : SyncMasterOf := mkSync (sm_chain s) (sm_verifier
  s) (sm_consensus s) (sm_state s) (sm_knownHighestNumber s) (sm_knownLatestHash s) (sm_bq s) v
  (sm_maxRequestNumber s) (sm_lastDownloadingRequestTime s) (sm_currentSealingNumber s)
  (sm_newTransactions s) (sm_newBlocks s) (sm_maintainBlocksTimeout s)
  (sm_needMaintainTransactions s) (sm_needSendStatus s) (sm_log s).
Definition set_sm_maxRequestNumber v (s : SyncMasterOf) : SyncMasterOf := mkSync (sm_chain s)
  (sm_verifier s) (sm_consensus s) (sm_state s) (sm_knownHighestNumber s) (sm_knownLatestHash s)
  (sm_bq s) (sm_peers s) v (sm_lastDownloadingRequestTime s) (sm_currentSealingNumber s)
  (sm_newTransactions s) (sm_newBlocks s) (sm_maintainBlocksTimeout s)
  (sm_needMaintainTransactions s) (sm_needSendStatus s) (sm_log s).
Definition set_sm_lastDownloadingRequestTime v (s : SyncMasterOf) : SyncMasterOf := mkSync
  (sm_chain s) (sm_verifier s) (sm_consensus s) (sm_state s) (sm_knownHighestNumber s)
  (sm_knownLatestHash s) (sm_bq s) (sm_peers s) (sm_maxRequestNumber s) v
  (sm_currentSealingNumber s) (sm_newTransactions s) (sm_newBlocks s) (sm_maintainBlocksTimeout
  s) (sm_needMaintainTransactions s) (sm_needSendStatus s) (sm_log s).
Definition set_sm_currentSealingNumber v (s : SyncMasterOf) : SyncMasterOf := mkSync (sm_chain
  s) (sm_verifier s) (sm_consensus s) (sm_state s) (sm_knownHighestNumber s) (sm_knownLatestHash
  s) (sm_bq s) (sm_peers s) (sm_maxRequestNumber s) (sm_lastDownloadingRequestTime s) v
  (sm_newTransactions s) (sm_newBlocks s) (sm_maintainBlocksTimeout s)
  (sm_needMaintainTransactions s) (sm_needSendStatus s) (sm_log s).
Definition set_sm_newTransactions v (s : SyncMasterOf) : SyncMasterOf := mkSync (sm_chain s)
  (sm_verifier s) (sm_consensus s) (sm_state s) (sm_knownHighestNumber s) (sm_knownLatestHash s)
  (sm_bq s) (sm_peers s) (sm_maxRequestNumber s) (sm_lastDownloadingRequestTime s)
  (sm_currentSealingNumber s) v (sm_newBlocks s) (sm_maintainBlocksTimeout s)
  (sm_needMaintainTransactions s) (sm_needSendStatus s) (sm_log s).
Definition set_sm_newBlocks v (s : SyncMasterOf) : SyncMasterOf := mkSync (sm_chain s)
  (sm_verifier s) (sm_consensus s) (sm_state s) (sm_knownHighestNumber s) (sm_knownLatestHash s)
  (sm_bq s) (sm_peers s) (sm_maxRequestNumber s) (sm_lastDownloadingRequestTime s)
  (sm_currentSealingNumber s) (sm_newTransactions s) v (sm_maintainBlocksTimeout s)
  (sm_needMaintainTransactions s) (sm_needSendStatus s) (sm_log s).
Definition set_sm_maintainBlocksTimeout v (s : SyncMasterOf) : SyncMasterOf := mkSync (sm_chain
  s) (sm_verifier s) (sm_consensus s) (sm_state s) (sm_knownHighestNumber s) (sm_knownLatestHash
  s) (sm_bq s) (sm_peers s) (sm_maxRequestNumber s) (sm_lastDownloadingRequestTime s)
  (sm_currentSealingNumber s) (sm_newTransactions s) (sm_newBlocks s) v
  (sm_needMaintainTransactions s) (sm_needSendStatus s) (sm_log s).
Definition set_sm_needMaintainTransactions v (s : SyncMasterOf) : SyncMasterOf := mkSync
  (sm_chain s) (sm_verifier s) (sm_consensus s) (sm_state s) (sm_knownHighestNumber s)
  (sm_knownLatestHash s) (sm_bq s) (sm_peers s) (sm_maxRequestNumber s)
  (sm_lastDownloadingRequestTime s) (sm_currentSealingNumber s) (sm_newTransactions s)
  (sm_newBlocks s) (sm_maintainBlocksTimeout s) v (sm_needSendStatus s) (sm_log s).
Definition set_sm_needSendStatus v (s : SyncMasterOf) : SyncMasterOf := mkSync (sm_chain s)
  (sm_verifier s) (sm_consensus s) (sm_state s) (sm_knownHighestNumber s) (sm_knownLatestHash s)
  (sm_bq s) (sm_peers s) (sm_maxRequestNumber s) (sm_lastDownloadingRequestTime s)
  (sm_currentSealingNumber s) (sm_newTransactions s) (sm_newBlocks s) (sm_maintainBlocksTimeout
  s) (sm_needMaintainTransactions s) v (sm_log s).
Definition set_sm_log v (s : SyncMasterOf) : SyncMasterOf := mkSync (sm_chain s) (sm_verifier s)
  (sm_consensus s) (sm_state s) (sm_knownHighestNumber s) (sm_knownLatestHash s) (sm_bq s)
  (sm_peers s) (sm_maxRequestNumber s) (sm_lastDownloadingRequestTime s)
  (sm_currentSealingNumber s) (sm_newTransactions s) (sm_newBlocks s) (sm_maintainBlocksTimeout
  s) (sm_needMaintainTransactions s) (sm_needSendStatus s) v.
Definition sm_emit (l : list sync_event) (s : SyncMasterOf) : SyncMasterOf := set_sm_log (sm_log s ++ l) s.
End members.
Arguments SyncMasterOf : clear implicits.

(** What the other modules answer during a round: the connected nodes, the groups of the
    chain's configuration, the clock, the random numbers, the database. *)
Record SyncEnv := mkSyncEnv {
  se_sessions : list Z; se_sealers : list Z; se_observers : list Z;
  se_now : Z; se_clock : nat → Z; se_rand : nat → nat → Z; se_dbOk : Block → bool }.

Definition c_eachBlockDownloadingRequestTimeout : Z := 200.
Definition c_respondDownloadRequestTimeout : Z := 200.
Definition c_maintainBlocksTimeout : Z := 5000.

(** ** Peers ([SyncMasterStatus]) *)

(** [peers], in the order of the map, and the order of [foreachPeerRandom]. *)
Definition peerIds (m : gmap Z SyncPeerStatus) : list Z := merge_sort Z.le (map_to_list m).*1.
Definition swap_at {A} (i j : nat) (l : list A) : list A :=
  match l !! i, l !! j with Some a, Some b => <[j := a]> (<[i := b]> l) | _, _ => l end.
Fixpoint shuffle {A} (rand : nat → Z) (i : nat) (l : list A) : list A :=
  match i with
  | O => l
  | S i' => shuffle rand i' (swap_at i (Z.to_nat (rand i mod (Z.of_nat i + 1))) l)
  end.
Definition randomIds (rand : nat → Z) (m : gmap Z SyncPeerStatus) : list Z :=
  shuffle rand (length (peerIds m) - 1) (peerIds m).

(** [newSyncPeerStatus]. *)
Definition newSyncPeerStatus (node : Z) (p : SyncPeerStatus) (m : gmap Z SyncPeerStatus) : gmap Z SyncPeerStatus :=
  match m !! node with Some _ => m | None => <[node := p]> m end.

(** What the answer to a request reads of the chain. *)
Class BlockSource (C : Type) := src_getBlockRLPByNumber : Z → C → C * option (result eth_exn bytes).
#[export] Instance chain_source `{Crypto} : BlockSource BlockChainImp := getBlockRLPByNumber.

Section sync.
Context `{Crypto} `{HeapOrder} (decodeTx : bytes → option Transaction) (decodeReceipt : bytes → option TransactionReceipt).
Context {C V G : Type} `{HB : BlockChainInterface C} `{HS : BlockSource C}.
Context (executeBlock : Block → BlockInfo → V → V * option Block)
        (isConsensusOk : Block → C → G → G * bool)
        (m_nodeId m_genesisHash : Z).
Abbreviation SyncMaster := (SyncMasterOf C V G).

(** ** Handlers of packets *)

(** [onPeerStatus], on the fields read by [readStatus]. *)
Definition onPeerStatus (node n genesis latest : Z) (s : SyncMaster) : SyncMaster :=
  if negb (genesis =? m_genesisHash) then s
  else
    match sm_peers s !! node with
    | None =>
        if bci_number (sm_chain s) <? n
        then set_sm_peers (newSyncPeerStatus node (newPeer n genesis latest) (sm_peers s)) s else s
    | Some p => set_sm_peers (<[node := ps_update n genesis latest p]> (sm_peers s)) s
    end.

(** [onPeerBlocks] and [onPeerRequestBlocks]. *)
Definition onPeerBlocks (rlp : bytes) (s : SyncMaster) : SyncMaster := set_sm_bq (bq_push rlp (sm_bq s)) s.
Definition onPeerRequestBlocks (node from size : Z) (s : SyncMaster) : SyncMaster :=
  match sm_peers s !! node with
  | None => s
  | Some p => set_sm_peers (<[node := set_ps_reqQueue (reqQueue_push from size (ps_reqQueue p)) p]> (sm_peers s)) s
  end.

(** [messageHandler] with [interpret], whose [try] ends the handler on an exception; the
    packets of transactions go to the pool.  The tests of [checkMessage] are also those
    of [decode]. *)
Definition messageHandler (node : Z) (msg : bytes) (s : SyncMaster) : SyncMaster :=
  if node =? m_nodeId then s
  else
    match syncPacket_decode msg with
    | Ok (Some (StatusPacket, rlp)) =>
        match readStatus rlp with Ok (Some (n, g, h)) => onPeerStatus node n g h s | _ => s end
    | Ok (Some (BlocksPacket, rlp)) => onPeerBlocks rlp s
    | Ok (Some (ReqBlocskPacket, rlp)) =>
        match sm_peers s !! node, readRequest rlp with
        | Some _, Ok (Some (from, size)) => onPeerRequestBlocks node from size s
        | _, _ => s
        end
    | _ => s
    end.

(** ** The state machine *)

Definition isSyncing (s : SyncMaster) : bool := bool_decide (sm_state s ≠ Idle).
Definition isFarSyncing (s : SyncMaster) : bool := 10 <? wrapS 64 (sm_knownHighestNumber s - bci_number (sm_chain s)).
Definition noteSealingBlockNumber (n : Z) (s : SyncMaster) : SyncMaster := set_sm_currentSealingNumber n s.
Definition noteNewTransactions (s : SyncMaster) : SyncMaster := set_sm_newTransactions true s.
Definition noteNewBlocks (s : SyncMaster) : SyncMaster := set_sm_newBlocks true s.
Definition noteDownloadingBegin (s : SyncMaster) : SyncMaster :=
  match sm_state s with Idle => set_sm_state Downloading s | Downloading => s end.
Definition noteDownloadingFinish (s : SyncMaster) : SyncMaster :=
  match sm_state s with Downloading => set_sm_state Idle s | Idle => s end.

(** [maintainBlocks]. *)
Definition maintainBlocks (now : Z) (s : SyncMaster) : SyncMaster :=
  if negb (sm_needSendStatus s) then s
  else if negb (sm_newBlocks s) && (now <=? sm_maintainBlocksTimeout s) then s
  else
    let s := set_sm_maintainBlocksTimeout (now + c_maintainBlocksTimeout) (set_sm_newBlocks false s) in
    let n := bci_number (sm_chain s) in
    let currentHash := bci_numberHash n (sm_chain s) in
    sm_emit ((λ id, SendStatus id n m_genesisHash currentHash) <$> peerIds (sm_peers s)) s.

(** [maintainDownloadingQueueBuffer]. *)
Definition maintainDownloadingQueueBuffer (s : SyncMaster) : result sync_exn SyncMaster :=
  match sm_state s with
  | Downloading =>
      let n := bci_number (sm_chain s) in
      let q := clearFullQueueIfNotHas (n + 1) (sm_bq s) in
      let '(q, r) := flushBufferToQueue decodeTx decodeReceipt n q in
      match r with Ok _ => Ok (set_sm_bq q s) | Throw e => Throw (BadShard e) end
  | Idle => Ok (set_sm_bq (bq_clear (sm_bq s)) s)
  end.

(** ** Connections ([maintainPeersConnection]) *)

(** The active members of the group, in the order of the set. *)
Definition memberSet (sessions members : list Z) : list Z :=
  merge_sort Z.le (elements (list_to_set (C:=gset Z) (filter (λ m, m ∈ sessions ∧ m ≠ m_nodeId) members))).
Definition maintainPeersConnection (env : SyncEnv) (s : SyncMaster) : SyncMaster :=
  let sealerOrObserver := se_sealers env ++ se_observers env in
  let members := memberSet (se_sessions env) sealerOrObserver in
  let hasMyself := bool_decide (m_nodeId ∈ sealerOrObserver) in
  let currentNumber := bci_number (sm_chain s) in
  let s := set_sm_peers (filter (λ x, x.1 ∈ members ∨ currentNumber < ps_number x.2) (sm_peers s)) s in
  let currentHash := bci_numberHash currentNumber (sm_chain s) in
  let added := filter (λ m, m ≠ m_nodeId ∧ sm_peers s !! m = None) members in
  let s := set_sm_peers
             (foldl (λ ps m, newSyncPeerStatus m (newPeer 0 m_genesisHash m_genesisHash) ps) (sm_peers s) added) s in
  let s := if sm_needSendStatus s
           then sm_emit ((λ m, SendStatus m currentNumber m_genesisHash currentHash) <$> added) s else s in
  let s := set_sm_peers (map_imap (λ id p, Some (set_ps_isSealer (bool_decide (id ∈ se_sealers env)) p)) (sm_peers s)) s in
  set_sm_needSendStatus hasMyself (set_sm_needMaintainTransactions hasMyself s).

(** ** Requests ([maintainPeersStatus]) *)

(** The highest block the peers report, the first of several in the order of the map. *)
Definition highestPeer (m : gmap Z SyncPeerStatus) : Z * Z :=
  foldl (λ acc id, match m !! id with
                   | Some p => if acc.1 <? ps_number p then (ps_number p, ps_latestHash p) else acc
                   | None => acc
                   end) (0, 0) (peerIds m).

(** The callback of [foreachPeerRandom], applied along [ids]: the next shard, the new
    [m_maxRequestNumber], the requests, and whether a peer was found. *)
Record turn := mkTurn { tn_shard : Z; tn_max : Z; tn_sent : list sync_event; tn_found : bool }.
Fixpoint request_turn (peers : gmap Z SyncPeerStatus) (known currentNumber maxRequestNumber shardNumber : Z)
    (ids : list Z) (t : turn) : turn :=
  match ids with
  | [] => t
  | id :: ids =>
      match peers !! id with
      | None => request_turn peers known currentNumber maxRequestNumber shardNumber ids t
      | Some p =>
          let from := wrapS 64 (currentNumber + 1 + tn_shard t * c_maxRequestBlocks) in
          let to := Z.min (wrapS 64 (from + c_maxRequestBlocks - 1)) maxRequestNumber in
          if (known <=? 0) || negb (ps_number p =? known)
          then request_turn peers known currentNumber maxRequestNumber shardNumber ids t
          else if ps_number p <? to
          then request_turn peers known currentNumber maxRequestNumber shardNumber ids t
          else
            let t := mkTurn (tn_shard t + 1) (Z.max (tn_max t) to)
                       (tn_sent t ++ [SendRequest id from (wrapU 32 (to - from + 1))]) true in
            if (tn_shard t <? shardNumber) && (tn_shard t <? c_maxRequestShards)
            then request_turn peers known currentNumber maxRequestNumber shardNumber ids t else t
      end
  end.
(** The loop over turns; every turn but the last moves at least one shard on. *)
Fixpoint request_turns (fuel : nat) (rand : nat → nat → Z) (peers : gmap Z SyncPeerStatus)
    (known currentNumber maxRequestNumber shardNumber : Z) (t : turn) : turn :=
  match fuel with
  | O => t
  | S fuel =>
      if (tn_shard t <? shardNumber) && (tn_shard t <? c_maxRequestShards) then
        let t := request_turn peers known currentNumber maxRequestNumber shardNumber (randomIds (rand fuel) peers)
                   (mkTurn (tn_shard t) (tn_max t) (tn_sent t) false) in
        if tn_found t then request_turns fuel rand peers known currentNumber maxRequestNumber shardNumber t else t
      else t
  end.

Definition maintainPeersStatus (env : SyncEnv) (s : SyncMaster) : SyncMaster :=
  let currentNumber := bci_number (sm_chain s) in
  let '(maxPeerNumber, latestHash) := highestPeer (sm_peers s) in
  if negb (currentNumber <? maxPeerNumber)
  then set_sm_knownLatestHash (bci_numberHash currentNumber (sm_chain s)) (set_sm_knownHighestNumber currentNumber s)
  else
    let s := set_sm_knownLatestHash latestHash (set_sm_knownHighestNumber maxPeerNumber s) in
    if (maxPeerNumber <=? sm_currentSealingNumber s) || (maxPeerNumber =? currentNumber) then s
    else if wrapS 64 (se_now env - sm_lastDownloadingRequestTime s)
            <? wrapS 64 (c_eachBlockDownloadingRequestTimeout * (sm_maxRequestNumber s - currentNumber)) then s
    else
      let s := noteDownloadingBegin (set_sm_lastDownloadingRequestTime (se_now env) s) in
      let maxRequestNumber :=
        match bq_top (sm_bq s) with
        | Some topBlock => Z.min maxPeerNumber (wrapS 64 (blockNumber topBlock - 1))
        | None => maxPeerNumber
        end in
      if maxRequestNumber <=? currentNumber then s
      else
        let shardNumber := wrapU 64 (Z.quot (wrapS 64 (maxRequestNumber - currentNumber + c_maxRequestBlocks - 1)) c_maxRequestBlocks) in
        let t := request_turns (Z.to_nat c_maxRequestShards) (se_rand env) (sm_peers s) (sm_knownHighestNumber s)
                   currentNumber maxRequestNumber shardNumber (mkTurn 0 0 [] false) in
        sm_emit (tn_sent t) (set_sm_maxRequestNumber (tn_max t) s).

(** ** Answers ([maintainBlockRequest]) *)

(** The loop over the blocks of a request: the number it stops at.  The clock is read
    before each block; [k] counts the readings. *)
Fixpoint send_range (clock : nat → Z) (timeout : Z) (todo k : nat) (n : Z) (c : C) (bc : DownloadBlocksContainer)
  : result sync_exn (nat * Z * C * DownloadBlocksContainer) :=
  match todo with
  | O => Ok (k, n, c, bc)
  | S todo =>
      if clock k <=? timeout then
        let '(c, blockRLP) := src_getBlockRLPByNumber n c in
        match blockRLP with
        | None => Ok (S k, n, c, bc)
        | Some (Throw e) => Throw (BadBlock e)
        | Some (Ok d) => send_range clock timeout todo (S k) (n + 1) c (batchAndSend d bc)
        end
      else Ok (S k, n, c, bc)
  end.
(** The loop over the requests of a peer, each of which takes at least one from the
    queue. *)
Fixpoint serve (clock : nat → Z) (timeout : Z) (fuel k : nat) (q : DownloadRequestQueue) (c : C) (bc : DownloadBlocksContainer)
  : result sync_exn (DownloadRequestQueue * C * DownloadBlocksContainer) :=
  match fuel with
  | O => Ok (enablePush q, c, bc)
  | S fuel =>
      if zlen (rq_queue q) =? 0 then Ok (enablePush q, c, bc)
      else if clock k <=? timeout then
        let '(req, q) := topAndPop q in
        let numberLimit := wrapS 64 (dr_from req + dr_size req) in
        '(k, n, c, bc) ← send_range clock timeout (Z.to_nat (numberLimit - dr_from req)) (S k) (dr_from req) c bc;
        if n <? numberLimit then Ok (reqQueue_push n (numberLimit - n) (enablePush q), c, bc)
        else serve clock timeout fuel k q c bc
      else Ok (enablePush q, c, bc)
  end.
Fixpoint firstRequesting (peers : gmap Z SyncPeerStatus) (ids : list Z) : option (Z * SyncPeerStatus) :=
  match ids with
  | [] => None
  | id :: ids =>
      match peers !! id with
      | Some p => if zlen (rq_queue (ps_reqQueue p)) =? 0 then firstRequesting peers ids else Some (id, p)
      | None => firstRequesting peers ids
      end
  end.
(** One peer per round is answered; what is left in the batch is sent by the destructor. *)
Definition maintainBlockRequest (env : SyncEnv) (s : SyncMaster) : result sync_exn SyncMaster :=
  match firstRequesting (sm_peers s) (randomIds (se_rand env (Z.to_nat c_maxRequestShards)) (sm_peers s)) with
  | None => Ok s
  | Some (id, p) =>
      '(q, c, bc) ← serve (se_clock env) (se_now env + c_respondDownloadRequestTimeout)
                      (length (rq_queue (ps_reqQueue p))) 0 (disablePush (ps_reqQueue p)) (sm_chain s) newContainer;
      let bc := clearBatchAndSend bc in
      Ok (sm_emit (SendBlocks id <$> dc_sent bc)
            (set_sm_chain c (set_sm_peers (<[id := set_ps_reqQueue q p]> (sm_peers s)) s)))
  end.

(** ** Downloaded blocks ([isNextBlock], [maintainDownloadingQueue]) *)

(** An exception of the consensus check is caught by the caller and has the effect of a
    refusal. *)
Definition isNextBlock (b : Block) (s : SyncMaster) : SyncMaster * bool :=
  let currentNumber := bci_number (sm_chain s) in
  if negb (currentNumber + 1 =? blockNumber b) then (s, false)
  else if negb (bci_numberHash currentNumber (sm_chain s) =? m_parentHash (b_header b)) then (s, false)
  else let '(g, ok) := isConsensusOk b (sm_chain s) (sm_consensus s) in (set_sm_consensus g s, ok).

(** The body of the loop but for the [pop]. *)
Definition commitNext (dbOk : Block → bool) (b : Block) (s : SyncMaster) : result sync_exn SyncMaster :=
  let '(s, next) := isNextBlock b s in
  if negb next then Ok s
  else
    let '(c, parentBlock) := bci_getBlockByNumber (blockNumber b - 1) (sm_chain s) in
    let s := set_sm_chain c s in
    match parentBlock with
    | None => Throw NullBlock
    | Some p =>
        let parent := mkBlockInfo (headerHash (b_header p)) (blockNumber p) (m_stateRoot (b_header p)) in
        let '(v, r) := executeBlock b parent (sm_verifier s) in
        let s := set_sm_verifier v s in
        match r with
        | None => Ok s
        | Some b' =>
            let '(c, res) := bci_commitBlock (dbOk b') b' (sm_chain s) in
            let s := set_sm_chain c s in
            Ok (match res with CommitOK => sm_emit [DropTrans b'] (noteNewBlocks s) | _ => s end)
        end
    end.
(** The loop takes a block from the queue each time. *)
Fixpoint consume (fuel : nat) (dbOk : Block → bool) (s : SyncMaster) : result sync_exn SyncMaster :=
  match fuel with
  | O => Ok s
  | S fuel =>
      match bq_top (sm_bq s) with
      | None => Ok s
      | Some b =>
          if blockNumber b <=? bci_number (sm_chain s) + 1 then
            s ← commitNext dbOk b s; consume fuel dbOk (set_sm_bq (bq_pop (sm_bq s)) s)
          else Ok s
      end
  end.
Definition maintainDownloadingQueue (dbOk : Block → bool) (s : SyncMaster) : result sync_exn (SyncMaster * bool) :=
  if sm_knownHighestNumber s <=? bci_number (sm_chain s) then Ok (set_sm_bq (bq_clear (sm_bq s)) s, true)
  else
    s ← consume (length (bq_blocks (sm_bq s))) dbOk s;
    let currentNumber := bci_number (sm_chain s) in
    let s := if sm_maxRequestNumber s <=? currentNumber then set_sm_lastDownloadingRequestTime 0 s else s in
    if sm_knownHighestNumber s <=? currentNumber then
      let '(c, latest) := bci_getBlockByNumber (sm_knownHighestNumber s) (sm_chain s) in
      match latest with None => Throw NullBlock | Some _ => Ok (set_sm_chain c s, true) end
    else Ok (s, false).

(** [doWork]. *)
Definition sync_doWork (env : SyncEnv) (s : SyncMaster) : result sync_exn SyncMaster :=
  let s := maintainPeersConnection env s in
  s ← maintainDownloadingQueueBuffer s;
  let s := maintainBlocks (se_now env) (maintainPeersStatus env s) in
  s ← (if negb (isSyncing s) then
         maintainBlockRequest env
           (if sm_needMaintainTransactions s && sm_newTransactions s then set_sm_newTransactions false s else s)
       else Ok s);
  if isSyncing s then
    match maintainDownloadingQueue (se_dbOk env) s with
    | Throw e => Throw e
    | Ok (s, finished) => Ok (if finished then noteDownloadingFinish s else s)
    end
  else Ok s.
End sync.

(** ** Blocks enter the chain checked, linked and in order *)

Section safety.
Context `{HC : Crypto} `{HH : HeapOrder} {C V G : Type} `{HB : BlockChainInterface C}.
Context {ok : C → Prop} {fresh : Z → C → Prop} `{HG : !BlockChainGrowth C ok fresh}.
Context (executeBlock : Block → BlockInfo → V → V * option Block) (isConsensusOk : Block → C → G → G * bool).
Abbreviation SyncMaster := (SyncMasterOf C V G).
Abbreviation commitNext := (commitNext executeBlock isConsensusOk).
Abbreviation consume := (consume executeBlock isConsensusOk).

(** What has been established for [b'], the outcome of executing the downloaded block
    [b]: it passed the consensus check on a chain of the height below, and it was executed
    on the state of its parent. *)
Record checked (b b' : Block) : Prop := {
  ck_number : blockNumber b = blockNumber b';
  ck_parent : m_parentHash (b_header b) = m_parentHash (b_header b');
  ck_consensus : ∃ c g, bci_number c = blockNumber b - 1 ∧ bci_numberHash (bci_number c) c = m_parentHash (b_header b)
                   ∧ (isConsensusOk b c g).2 = true;
  ck_executed : ∃ p v, bi_hash p = m_parentHash (b_header b) ∧ bi_number p = blockNumber b - 1
                  ∧ (executeBlock b p v).2 = Some b' }.

(** The chain [c'] is [c] with the blocks of [l] on top. *)
Record extension (c : C) (l : list (Block * Block)) (c' : C) : Prop := {
  ex_number : bci_number c' = bci_number c + zlen l;
  ex_old : ∀ n, n <= bci_number c → bci_numberHash n c' = bci_numberHash n c;
  ex_new : ∀ i b b', l !! i = Some (b, b') →
    blockNumber b' = bci_number c + 1 + Z.of_nat i
    ∧ bci_numberHash (blockNumber b') c' = headerHash (b_header b')
    ∧ bci_numberHash (blockNumber b' - 1) c' = m_parentHash (b_header b')
    ∧ checked b b' }.

(** Executed blocks above the chain have hashes of their own. *)
Definition separate (Q : list Block) (c : C) : Prop :=
  (∀ b p v b', b ∈ Q → (executeBlock b p v).2 = Some b' → bci_number c < blockNumber b' → fresh (headerHash (b_header b')) c)
  ∧ ∀ b1 p1 v1 b1' b2 p2 v2 b2', b1 ∈ Q → b2 ∈ Q → (executeBlock b1 p1 v1).2 = Some b1' → (executeBlock b2 p2 v2).2 = Some b2' →
      headerHash (b_header b1') = headerHash (b_header b2') → blockNumber b1' = blockNumber b2'.

Lemma extension_same c c' :
  bci_number c' = bci_number c → (∀ n, bci_numberHash n c' = bci_numberHash n c) → extension c [] c'.
Proof. intros E1 E2. split; [rewrite E1; change (zlen []) with 0; lia|done|done]. Qed.

Lemma extension_trans c l c1 l' c2 : extension c l c1 → extension c1 l' c2 → extension c (l ++ l') c2.
Proof.
  intros [N1 O1 W1] [N2 O2 W2]. pose proof (zlen_nonneg l). split.
  - rewrite N2, N1, zlen_app. lia.
  - intros n Hn. rewrite O2 by lia. by apply O1.
  - intros i b b' [Hi|[Hle Hi]]%lookup_app_Some.
    + destruct (W1 i b b' Hi) as (E1 & E2 & E3 & E4). pose proof (lookup_lt_Some _ _ _ Hi).
      rewrite !O2 by (unfold zlen in *; lia). done.
    + destruct (W2 _ b b' Hi) as (E1 & E2 & E3 & E4). split_and!; [|done..]. unfold zlen in *. lia.
Qed.

Lemma extension_commit c b b' dbOk c' :
  ok c → checked b b' → bci_commitBlock dbOk b' c = (c', CommitOK) → extension c [(b, b')] c'.
Proof.
  intros Hok Hck Hc. destruct (bcs_commit dbOk b' c c' Hok Hc) as (E1 & E2 & E3 & E4 & E5). split.
  - rewrite E3. change (zlen [(b, b')]) with 1. lia.
  - exact E5.
  - intros [|i] x x' Hx; [|done]. injection Hx as <- <-. rewrite E1, <- E3. split_and!; [lia|done| |done].
    rewrite E3. replace (bci_number c + 1 - 1) with (bci_number c) by lia. by rewrite E5.
Qed.

Lemma separate_step Q b p v b' c dbOk c' :
  ok c → separate Q c → b ∈ Q → (executeBlock b p v).2 = Some b' → bci_commitBlock dbOk b' c = (c', CommitOK) →
  ok c' ∧ separate Q c'.
Proof.
  intros Hok [S1 S2] Hb He Hc. destruct (bcs_commit dbOk b' c c' Hok Hc) as (E1 & _ & E3 & _).
  destruct (bcg_commit dbOk b' c c' Hok) as [Hok' Hf]; [by eapply S1; [..|lia]|done|]. split; [done|]. split; [|done].
  intros b1 p1 v1 b1' H1 He1 Hlt. apply Hf; [by eapply S1; [..|lia]|]. intros Heq.
  pose proof (S2 _ _ _ _ _ _ _ _ H1 Hb He1 He Heq). lia.
Qed.

(** What a step of the loop does, and what the loop does: [l] pairs the blocks taken from
    [Q] with the blocks committed. *)
Record progress (Q : list Block) (s : SyncMaster) (l : list (Block * Block)) (s' : SyncMaster) : Prop := {
  pr_ok : ok (sm_chain s'); pr_separate : separate Q (sm_chain s');
  pr_extension : extension (sm_chain s) l (sm_chain s');
  pr_from : Forall (λ b, b ∈ Q) l.*1;
  pr_log : sm_log s' = sm_log s ++ (DropTrans <$> l.*2);
  pr_known : sm_knownHighestNumber s' = sm_knownHighestNumber s }.

Lemma read_same Q n c :
  ok c → separate Q c → let c' := (bci_getBlockByNumber n c).1 in
  ok c' ∧ separate Q c' ∧ bci_number c' = bci_number c ∧ ∀ m, bci_numberHash m c' = bci_numberHash m c.
Proof.
  intros Hok [S1 S2]. destruct (bcs_read n c Hok) as (H1 & H2 & H3). split_and!; [done| |done|done]. split; [|done].
  intros b p v b' Hb He Hlt. apply bcg_read; [done|]. eapply S1; [done..|]. lia.
Qed.

Lemma progress_none Q s s' :
  ok (sm_chain s') → separate Q (sm_chain s') → bci_number (sm_chain s') = bci_number (sm_chain s) →
  (∀ m, bci_numberHash m (sm_chain s') = bci_numberHash m (sm_chain s)) → sm_log s' = sm_log s →
  sm_knownHighestNumber s' = sm_knownHighestNumber s → progress Q s [] s'.
Proof. intros. split; [done|done|by apply extension_same|by apply Forall_nil|cbn; by rewrite (app_nil_r (sm_log s))|done]. Qed.

Lemma progress_trans Q s l s1 l' s2 : progress Q s l s1 → progress Q s1 l' s2 → progress Q s (l ++ l') s2.
Proof.
  intros [A1 A2 A3 A4 A5 A6] [B1 B2 B3 B4 B5 B6]. split; [done|done|by eapply extension_trans| | |congruence].
  - rewrite fmap_app. by apply Forall_app.
  - by rewrite B5, A5, !fmap_app, app_assoc.
Qed.

Lemma commitNext_progress Q dbOk b s :
  ok (sm_chain s) → separate Q (sm_chain s) → b ∈ Q →
  ∃ s' l, commitNext dbOk b s = Ok s' ∧ progress Q s l s' ∧ sm_bq s' = sm_bq s.
Proof.
  intros Hok Hsep Hb. unfold commitNext, isNextBlock.
  destruct (Z.eqb_spec (bci_number (sm_chain s) + 1) (blockNumber b)) as [En|]; [|exists s, []; split_and!; [done|by apply progress_none|done]].
  destruct (Z.eqb_spec (bci_numberHash (bci_number (sm_chain s)) (sm_chain s)) (m_parentHash (b_header b))) as [Ep|];
    [|exists s, []; split_and!; [done|by apply progress_none|done]]. cbn [negb].
  destruct (isConsensusOk b (sm_chain s) (sm_consensus s)) as [g [|]] eqn:Ec; cbn [negb];
    [|eexists _, []; split_and!; [done|by apply progress_none|done]].
  pose proof (bcs_number _ Hok) as H0. assert (Hr : 0 <= blockNumber b - 1 <= bci_number (sm_chain s)) by lia.
  destruct (bcg_found (blockNumber b - 1) (sm_chain s) Hok Hr) as (p & Hp & Pn & Ph).
  pose proof (read_same Q (blockNumber b - 1) (sm_chain s) Hok Hsep) as (Hok1 & Hsep1 & N1 & M1).
  cbn [sm_chain set_sm_consensus]. destruct (bci_getBlockByNumber (blockNumber b - 1) (sm_chain s)) as [c1 ob].
  cbn [fst snd] in *. subst ob. cbn [sm_chain sm_verifier set_sm_chain set_sm_consensus].
  set (info := mkBlockInfo _ _ _). destruct (executeBlock b info (sm_verifier s)) as [v [b'|]] eqn:Ee;
    [|eexists _, []; split_and!; [done|by apply progress_none|done]].
  cbn [sm_chain set_sm_verifier set_sm_chain]. destruct (bci_commitBlock (dbOk b') b' c1) as [c2 res] eqn:Eco.
  destruct (decide (res = CommitOK)) as [->|Hne].
  2: { apply bcs_fail in Eco as ->; [|done]. eexists _, []. split_and!; [done|by destruct res; apply progress_none|by destruct res]. }
  assert (Hex : (executeBlock b info (sm_verifier s)).2 = Some b') by (by rewrite Ee).
  destruct (bcs_commit _ _ _ _ Hok1 Eco) as (E1 & E2 & _). rewrite N1 in E1, E2.
  destruct (separate_step Q b info (sm_verifier s) b' c1 (dbOk b') c2 Hok1 Hsep1 Hb Hex Eco) as [Hok2 Hsep2].
  assert (Ep' : bci_numberHash (blockNumber b - 1) (sm_chain s) = m_parentHash (b_header b)).
  { rewrite <- Ep. f_equal. lia. }
  assert (Hck : checked b b').
  { split; [lia|rewrite E2, M1; done| |].
    - exists (sm_chain s), (sm_consensus s). rewrite Ec. split_and!; [lia|done|done].
    - exists info, (sm_verifier s). cbn [bi_hash bi_number info]. rewrite Ph, Ep'. done. }
  eexists _, [(b, b')]. split; [reflexivity|]. split; [|reflexivity]. split; [exact Hok2|exact Hsep2| |by repeat constructor|done|done].
  apply (extension_trans _ [] c1 [(b, b')]); [by apply extension_same|by eapply extension_commit].
Qed.

Lemma bq_pop_subseteq q : bq_blocks (bq_pop q) ⊆ bq_blocks q.
Proof. apply sublist_subseteq, sublist_delete. Qed.

Lemma consume_progress Q dbOk fuel s :
  ok (sm_chain s) → separate Q (sm_chain s) → bq_blocks (sm_bq s) ⊆ Q →
  ∃ s' l, consume fuel dbOk s = Ok s' ∧ progress Q s l s'.
Proof.
  revert s. induction fuel as [|fuel IH]; intros s Hok Hsep HQ; cbn [SyncMaster.consume];
    [exists s, []; split; [done|by apply progress_none]|].
  destruct (bq_top (sm_bq s)) as [b|] eqn:Ht; [|exists s, []; split; [done|by apply progress_none]].
  break_if; [|exists s, []; split; [done|by apply progress_none]].
  destruct (commitNext_progress Q dbOk b s Hok Hsep) as (s1 & l1 & -> & P1 & Eq).
  { apply HQ. by eapply list_elem_of_lookup_2. }
  cbn [mbind result_bind]. destruct (IH (set_sm_bq (bq_pop (sm_bq s1)) s1)) as (s2 & l2 & -> & P2);
    [apply P1|apply P1|rewrite Eq; etrans; [apply bq_pop_subseteq|done]|].
  exists s2, (l1 ++ l2). split; [done|]. eapply progress_trans; [exact P1|]. destruct P2. by split.
Qed.

(** What [maintainDownloadingQueue] adds to the loop. *)
Lemma download_safe_result dbOk s :
  ok (sm_chain s) → separate (bq_blocks (sm_bq s)) (sm_chain s) → bci_number (sm_chain s) < sm_knownHighestNumber s →
  ∃ s1 s' fin, consume (length (bq_blocks (sm_bq s))) dbOk s = Ok s1
    ∧ maintainDownloadingQueue executeBlock isConsensusOk dbOk s = Ok (s', fin)
    ∧ bci_number (sm_chain s') = bci_number (sm_chain s1)
    ∧ (∀ n, bci_numberHash n (sm_chain s') = bci_numberHash n (sm_chain s1))
    ∧ (fin = true ↔ sm_knownHighestNumber s <= bci_number (sm_chain s')) ∧ ok (sm_chain s') ∧ sm_log s' = sm_log s1.
Proof.
  intros Hok Hsep Hlt. unfold maintainDownloadingQueue. rewrite (proj2 (Z.leb_gt _ _) Hlt).
  destruct (consume_progress _ dbOk (length (bq_blocks (sm_bq s))) s Hok Hsep ltac:(done)) as (s1 & l & -> & [P1 _ _ _ _ P6]).
  exists s1. cbn [mbind result_bind]. set (s2 := if sm_maxRequestNumber s1 <=? _ then _ else s1).
  assert (sm_chain s2 = sm_chain s1 ∧ sm_log s2 = sm_log s1 ∧ sm_knownHighestNumber s2 = sm_knownHighestNumber s) as (Ec & El & Ek).
  { subst s2. by break_if. }
  rewrite Ek, Ec. break_if; breflect.
  - pose proof (bcs_number _ Hok). assert (Hr : 0 <= sm_knownHighestNumber s <= bci_number (sm_chain s1)) by lia.
    destruct (bcg_found _ _ P1 Hr) as (b & Hb & _). destruct (bcs_read (sm_knownHighestNumber s) _ P1) as (R1 & R2 & R3).
    destruct (bci_getBlockByNumber (sm_knownHighestNumber s) (sm_chain s1)) as [c ob]. cbn [fst snd] in *. subst ob.
    eexists _, true. split; [done|]. split; [reflexivity|]. cbn [sm_chain sm_log set_sm_chain].
    split_and!; [done|done| |done|done]. rewrite R2. split; [lia|done].
  - exists s2, false. rewrite Ec. split_and!; try done. split; [done|lia].
Qed.

(** The chain after a call. *)
Lemma download_extends dbOk s :
  ok (sm_chain s) → separate (bq_blocks (sm_bq s)) (sm_chain s) →
  ∃ s' l fin, maintainDownloadingQueue executeBlock isConsensusOk dbOk s = Ok (s', fin)
    ∧ ok (sm_chain s') ∧ extension (sm_chain s) l (sm_chain s')
    ∧ Forall (λ b, b ∈ bq_blocks (sm_bq s)) l.*1
    ∧ sm_log s' = sm_log s ++ (DropTrans <$> l.*2)
    ∧ (fin = true ↔ sm_knownHighestNumber s <= bci_number (sm_chain s')).
Proof.
  intros Hok Hsep. destruct (Z.lt_ge_cases (bci_number (sm_chain s)) (sm_knownHighestNumber s)) as [Hlt|Hge].
  - destruct (download_safe_result dbOk s Hok Hsep Hlt) as (s1 & s' & fin & Hs1 & Hs' & E1 & E2 & E3 & E4 & E5).
    destruct (consume_progress _ dbOk (length (bq_blocks (sm_bq s))) s Hok Hsep ltac:(done)) as (s2 & l & Hs2 & [P1 _ P3 P4 P5 _]).
    rewrite Hs1 in Hs2. injection Hs2 as <-. exists s', l, fin. split_and!; [done|done| |done|by rewrite E5|done].
    rewrite <- (app_nil_r l). eapply extension_trans; [exact P3|by apply extension_same].
  - unfold maintainDownloadingQueue. rewrite (proj2 (Z.leb_le _ _) Hge). eexists _, [], true. split; [done|].
    split_and!; [done|by apply extension_same|by apply Forall_nil|cbn; by rewrite app_nil_r|]. cbn. split; [lia|done].
Qed.

(** Block synchronisation is safe: taking blocks from the download queue, whatever
    peers have put there, ends without an exception or the use of a null block, and the
    chain it leaves is the old one with new blocks on top, each of which is the executed
    form of a downloaded block that is linked to its parent and that the consensus check
    has accepted for its height.  It reports the end exactly when the highest known block
    is reached. *)
Theorem download_safe dbOk s :
  ok (sm_chain s) → separate (bq_blocks (sm_bq s)) (sm_chain s) →
  ∃ s' l fin, maintainDownloadingQueue executeBlock isConsensusOk dbOk s = Ok (s', fin)
    ∧ ok (sm_chain s') ∧ extension (sm_chain s) l (sm_chain s')
    ∧ Forall (λ b, b ∈ bq_blocks (sm_bq s)) l.*1
    ∧ sm_log s' = sm_log s ++ (DropTrans <$> l.*2)
    ∧ (fin = true ↔ sm_knownHighestNumber s <= bci_number (sm_chain s')).
Proof. apply download_extends. Qed.

(** ** Whatever else is in the queue, a valid continuation is committed *)

(** The pairs [gs] of downloaded blocks and what executing them gives continue the chain
    [c]: they are consecutive and linked, the consensus check accepts them and of the
    blocks of [Q] at those heights only them, the verifier executes them, and the database
    accepts them.  The verifier is [ready] for a height unless it has executed a higher
    one. *)
Record continuation (ready : Z → V → Prop) (dbOk : Block → bool) (Q : list Block) (c : C) (gs : list (Block * Block)) : Prop := {
  co_number : ∀ i b b', gs !! i = Some (b, b') → blockNumber b = bci_number c + 1 + Z.of_nat i ∧ blockNumber b' = blockNumber b;
  co_linked : ∀ i b b', gs !! i = Some (b, b') → m_parentHash (b_header b') = m_parentHash (b_header b)
    ∧ m_parentHash (b_header b) = match i with
                                  | O => bci_numberHash (bci_number c) c
                                  | S j => default 0 ((λ x, headerHash (b_header x.2)) <$> gs !! j)
                                  end;
  co_accepted : ∀ i b b' d g, gs !! i = Some (b, b') → bci_number d + 1 = blockNumber b →
    bci_numberHash (bci_number d) d = m_parentHash (b_header b) → (isConsensusOk b d g).2 = true;
  co_only : ∀ b d g, b ∈ Q → bci_number c < blockNumber b <= bci_number c + zlen gs → bci_number d + 1 = blockNumber b →
    bci_numberHash (bci_number d) d = m_parentHash (b_header b) → (isConsensusOk b d g).2 = true → b ∈ gs.*1;
  co_executed : ∀ i b b' p v, gs !! i = Some (b, b') → ready (blockNumber b) v → bi_hash p = m_parentHash (b_header b) →
    bi_number p = blockNumber b - 1 → ∃ v', executeBlock b p v = (v', Some b') ∧ ready (blockNumber b + 1) v';
  co_db : ∀ b, b ∈ gs.*2 → dbOk b = true;
  co_queued : ∀ b, b ∈ gs.*1 → b ∈ Q }.

(** The loop when the first [k] of them are committed. *)
Record caught_up (ready : Z → V → Prop) (Q : list Block) (c : C) (gs : list (Block * Block)) (k : nat) (s : SyncMaster) : Prop := {
  cu_ok : ok (sm_chain s); cu_separate : separate Q (sm_chain s); cu_queue : bq_blocks (sm_bq s) ⊆ Q;
  cu_number : bci_number (sm_chain s) = bci_number c + Z.of_nat k;
  cu_top : bci_numberHash (bci_number (sm_chain s)) (sm_chain s) = match k with
             | O => bci_numberHash (bci_number c) c
             | S j => default 0 ((λ x, headerHash (b_header x.2)) <$> gs !! j)
             end;
  cu_done : ∀ i b b', (i < k)%nat → gs !! i = Some (b, b') → bci_numberHash (blockNumber b) (sm_chain s) = headerHash (b_header b');
  cu_ready : ready (bci_number (sm_chain s) + 1) (sm_verifier s);
  cu_left : ∀ i b b', (k <= i)%nat → gs !! i = Some (b, b') → b ∈ bq_blocks (sm_bq s) }.

Lemma delete_other {A} (l : list A) i x y : l !! i = Some x → y ∈ l → y ≠ x → y ∈ delete i l.
Proof.
  intros Hi Hy Hne. rewrite delete_take_drop. rewrite <- (take_drop_middle l i x Hi) in Hy.
  apply elem_of_app in Hy as [Hy|[->|Hy]%elem_of_cons]; [|done|]; apply elem_of_app; auto.
Qed.

Lemma continuation_at ready dbOk Q c gs b i b1 b1' :
  continuation ready dbOk Q c gs → gs !! i = Some (b1, b1') → b ∈ gs.*1 → blockNumber b = blockNumber b1 → b = b1.
Proof.
  intros Hco Hi ([b0 b0'] & -> & [j Hj]%list_elem_of_lookup)%list_elem_of_fmap Hn. cbn [fst] in *.
  destruct (co_number _ _ _ _ _ Hco _ _ _ Hi) as [E1 _]. destruct (co_number _ _ _ _ _ Hco _ _ _ Hj) as [E2 _].
  assert (i = j) as -> by lia. rewrite Hi in Hj. by simplify_eq.
Qed.

(** A block that is not the next one leaves everything but the consensus state. *)
Lemma commitNext_refused dbOk b s :
  (bci_number (sm_chain s) + 1 = blockNumber b → bci_numberHash (bci_number (sm_chain s)) (sm_chain s) = m_parentHash (b_header b) →
   (isConsensusOk b (sm_chain s) (sm_consensus s)).2 = true → False) →
  ∃ s', commitNext dbOk b s = Ok s' ∧ sm_chain s' = sm_chain s ∧ sm_bq s' = sm_bq s ∧ sm_verifier s' = sm_verifier s.
Proof.
  intros Hno. unfold commitNext, isNextBlock. destruct (Z.eqb_spec (bci_number (sm_chain s) + 1) (blockNumber b)); [|by exists s].
  destruct (Z.eqb_spec (bci_numberHash (bci_number (sm_chain s)) (sm_chain s)) (m_parentHash (b_header b))); [|by exists s]. cbn [negb].
  destruct (isConsensusOk b (sm_chain s) (sm_consensus s)) as [g [|]]; [exfalso; by apply Hno|by eexists].
Qed.

Lemma commitNext_accepted ready dbOk Q c gs k s b b' :
  continuation ready dbOk Q c gs → caught_up ready Q c gs k s → gs !! k = Some (b, b') →
  ∃ s', commitNext dbOk b s = Ok s' ∧ sm_bq s' = sm_bq s ∧ bci_number (sm_chain s') = bci_number (sm_chain s) + 1
    ∧ bci_numberHash (bci_number (sm_chain s')) (sm_chain s') = headerHash (b_header b')
    ∧ ready (bci_number (sm_chain s') + 1) (sm_verifier s').
Proof.
  intros Hco [Hok Hsep _ Hn Ht _ Hr _] Hk. destruct (co_number _ _ _ _ _ Hco _ _ _ Hk) as [E1 E2].
  destruct (co_linked _ _ _ _ _ Hco _ _ _ Hk) as [E3 E4]. rewrite <- Ht in E4.
  assert (En : bci_number (sm_chain s) + 1 = blockNumber b) by lia.
  pose proof (co_accepted _ _ _ _ _ Hco _ _ _ (sm_chain s) (sm_consensus s) Hk En (eq_sym E4)) as Hacc.
  unfold commitNext, isNextBlock. rewrite (proj2 (Z.eqb_eq _ _) En), (proj2 (Z.eqb_eq _ _) (eq_sym E4)). cbn [negb].
  destruct (isConsensusOk b (sm_chain s) (sm_consensus s)) as [g a]. cbn [snd] in Hacc. subst a. cbn [negb].
  pose proof (bcs_number _ Hok) as H0. assert (Hrg : 0 <= blockNumber b - 1 <= bci_number (sm_chain s)) by lia.
  destruct (bcg_found (blockNumber b - 1) (sm_chain s) Hok Hrg) as (p & Hp & Pn & Ph).
  pose proof (read_same Q (blockNumber b - 1) (sm_chain s) Hok Hsep) as (Hok1 & _ & N1 & M1).
  cbn [sm_chain set_sm_consensus]. destruct (bci_getBlockByNumber (blockNumber b - 1) (sm_chain s)) as [c1 ob].
  cbn [fst snd] in *. subst ob. cbn [sm_chain sm_verifier set_sm_chain set_sm_consensus]. set (info := mkBlockInfo _ _ _).
  destruct (co_executed _ _ _ _ _ Hco _ _ _ info (sm_verifier s) Hk) as (v' & -> & Hr').
  { by rewrite <- En. }
  { cbn [info bi_hash]. rewrite Ph, E4. f_equal. lia. }
  { done. }
  assert (Hdb : dbOk b' = true) by (apply (co_db _ _ _ _ _ Hco), list_elem_of_fmap; exists (b, b'); split; [done|by eapply list_elem_of_lookup_2]).
  cbn [sm_chain set_sm_verifier set_sm_chain]. rewrite Hdb.
  assert (Hn' : blockNumber b' = bci_number c1 + 1) by lia.
  assert (Hp' : m_parentHash (b_header b') = bci_numberHash (bci_number c1) c1) by (by rewrite E3, E4, N1, M1).
  pose proof (bcg_accept b' c1 Hok1 Hn' Hp') as Hc.
  destruct (bci_commitBlock true b' c1) as [c2 res] eqn:Eco. cbn [snd] in Hc. subst res.
  destruct (bcs_commit _ _ _ _ Hok1 Eco) as (_ & _ & N2 & T2 & _).
  eexists. split; [reflexivity|]. split_and!; [reflexivity|cbn; lia|exact T2|]. cbn. rewrite N2, N1, En. exact Hr'.
Qed.

Lemma caught_up_step ready dbOk Q c gs k s b :
  continuation ready dbOk Q c gs → caught_up ready Q c gs k s → (k < length gs)%nat → bq_top (sm_bq s) = Some b →
  blockNumber b <= bci_number (sm_chain s) + 1 →
  ∃ s' k', commitNext dbOk b s = Ok s' ∧ sm_bq s' = sm_bq s ∧ caught_up ready Q c gs k' (set_sm_bq (bq_pop (sm_bq s')) s').
Proof.
  intros Hco Hcu Hk Ht Hle. destruct (lookup_lt_is_Some_2 gs k Hk) as [[b1 b1'] Hg]. pose proof Hcu as [Hok Hsep HQ Hn Htop Hd Hr Hl].
  assert (HbQ : b ∈ Q) by (apply HQ; by eapply list_elem_of_lookup_2).
  assert (Hsub : bq_blocks (bq_pop (sm_bq s)) ⊆ Q) by (etrans; [apply bq_pop_subseteq|done]).
  destruct (co_number _ _ _ _ _ Hco _ _ _ Hg) as [N1 _].
  destruct (commitNext_progress Q dbOk b s Hok Hsep HbQ) as (s' & l & Hs & [P1 P2 P3 _ _ _] & Eq).
  destruct (decide (b = b1)) as [->|Hne].
  - destruct (commitNext_accepted _ _ _ _ _ _ _ _ _ Hco Hcu Hg) as (s2 & Hs2 & _ & A1 & A2 & A3). rewrite Hs in Hs2. injection Hs2 as <-.
    exists s', (S k). split_and!; [done|done|]. rewrite Eq. split; cbn [sm_chain sm_bq sm_verifier set_sm_bq]; [done|done|done|lia| | |done|].
    + rewrite A2, Hg. done.
    + intros i b b' Hi Hib. destruct (co_number _ _ _ _ _ Hco _ _ _ Hib) as [Ni _]. destruct (decide (i = k)) as [->|Hik].
      * rewrite Hg in Hib. simplify_eq. rewrite <- A2. f_equal. lia.
      * rewrite (ex_old _ _ _ P3) by lia. apply (Hd i); [lia|done].
    + intros i b b' Hi Hib. eapply delete_other; [exact Ht|eapply (Hl i); [lia|done]|]. intros ->.
      destruct (co_number _ _ _ _ _ Hco _ _ _ Hib). lia.
  - destruct (commitNext_refused dbOk b s) as (s2 & Hs2 & B1 & B2 & B3).
    { intros F1 F2 F3. apply Hne. eapply (continuation_at ready dbOk Q c gs b k b1 b1'); [done|done| |lia].
      eapply (co_only _ _ _ _ _ Hco b); [done| |exact F1|exact F2|exact F3]. unfold zlen. lia. }
    rewrite Hs in Hs2. injection Hs2 as <-. exists s', k. split_and!; [done|done|].
    rewrite Eq. split; cbn [sm_chain sm_bq sm_verifier set_sm_bq]; rewrite ?B1, ?B3; [done..|].
    intros i x x' Hi Hix. eapply delete_other; [exact Ht|by eapply Hl|]. intros ->.
    destruct (co_number _ _ _ _ _ Hco _ _ _ Hix). assert (i = k) as -> by lia. rewrite Hg in Hix. by simplify_eq.
Qed.

Lemma bq_top_min q b : b ∈ bq_blocks q → ∃ t, bq_top q = Some t ∧ blockNumber t <= blockNumber b.
Proof.
  intros Hb. destruct (heap_pick_min (bq_blocks q)) as (t & Ht & Hmin); [by intros Hn; rewrite Hn in Hb; apply elem_of_nil in Hb|].
  exists t. split; [exact Ht|by apply Hmin].
Qed.

Lemma consume_catches_up ready dbOk Q c gs fuel k s :
  continuation ready dbOk Q c gs → caught_up ready Q c gs k s → (length (bq_blocks (sm_bq s)) <= fuel)%nat →
  ∃ s', consume fuel dbOk s = Ok s' ∧ bci_number c + zlen gs <= bci_number (sm_chain s')
    ∧ ∀ i b b', gs !! i = Some (b, b') → bci_numberHash (blockNumber b) (sm_chain s') = headerHash (b_header b').
Proof.
  intros Hco. revert k s. induction fuel as [|fuel IH]; intros k s Hcu Hf; destruct (decide (length gs <= k)%nat) as [Hk|Hk].
  - exists s. split; [done|]. rewrite (cu_number _ _ _ _ _ _ Hcu). split; [unfold zlen; lia|]. intros i b b' Hi.
    apply (cu_done _ _ _ _ _ _ Hcu i); [apply lookup_lt_Some in Hi; lia|done].
  - destruct (lookup_lt_is_Some_2 gs k ltac:(lia)) as [[b1 b1'] Hg]. pose proof (cu_left _ _ _ _ _ _ Hcu k b1 b1' ltac:(lia) Hg) as Hin.
    destruct (bq_blocks (sm_bq s)); [by apply elem_of_nil in Hin|simpl in Hf; lia].
  - destruct Hcu as [H1 H2 H3 H4 _ H5 _ _]. destruct (consume_progress Q dbOk (S fuel) s H1 H2 H3) as (s' & l & Hs & [_ _ P3 _ _ _]).
    exists s'. split; [done|]. rewrite (ex_number _ _ _ P3), H4. pose proof (zlen_nonneg l). split; [unfold zlen in *; lia|].
    intros i b b' Hi. destruct (co_number _ _ _ _ _ Hco _ _ _ Hi). pose proof (lookup_lt_Some _ _ _ Hi).
    rewrite (ex_old _ _ _ P3) by lia. apply (H5 i); [lia|done].
  - destruct (lookup_lt_is_Some_2 gs k ltac:(lia)) as [[b1 b1'] Hg]. pose proof (cu_left _ _ _ _ _ _ Hcu k b1 b1' ltac:(lia) Hg) as Hin.
    destruct (bq_top_min (sm_bq s) b1 Hin) as (b & Ht & Hle). destruct (co_number _ _ _ _ _ Hco _ _ _ Hg) as [N1 _].
    pose proof (cu_number _ _ _ _ _ _ Hcu) as Hn. assert (Hle' : blockNumber b <= bci_number (sm_chain s) + 1) by lia.
    destruct (caught_up_step _ _ _ _ _ _ _ _ Hco Hcu ltac:(lia) Ht Hle') as (s1 & k1 & Hs1 & Eq & Hcu1).
    cbn [SyncMaster.consume]. rewrite Ht, (proj2 (Z.leb_le _ _) Hle'), Hs1. cbn [mbind result_bind].
    apply (IH k1); [done|]. cbn [sm_bq set_sm_bq]. rewrite Eq. unfold bq_pop. cbn [bq_blocks].
    rewrite length_delete by (eexists; exact Ht). lia.
Qed.

End safety.

(** ** Requests cover the missing blocks *)

Lemma swap_at_perm {A} i j (l : list A) : swap_at i j l ≡ₚ l.
Proof.
  unfold swap_at. destruct (l !! i) as [a|] eqn:Hi; [|done]. destruct (l !! j) as [b|] eqn:Hj; [|done].
  by apply Permutation_insert_swap.
Qed.
Lemma shuffle_perm {A} rand i (l : list A) : shuffle rand i l ≡ₚ l.
Proof. revert l. induction i as [|i IH]; intros l; [done|]. cbn [shuffle]. by rewrite IH, swap_at_perm. Qed.
Lemma peerIds_elem id m : id ∈ peerIds m ↔ is_Some (m !! id).
Proof.
  unfold peerIds. rewrite merge_sort_Permutation. rewrite list_elem_of_fmap. split.
  - intros ([k p] & -> & Hp). apply elem_of_map_to_list in Hp. by eexists.
  - intros [p Hp]. exists (id, p). split; [done|]. by apply elem_of_map_to_list.
Qed.
Lemma randomIds_elem rand id m : id ∈ randomIds rand m ↔ is_Some (m !! id).
Proof. unfold randomIds. rewrite shuffle_perm. apply peerIds_elem. Qed.

Section requests.
Context (peers : gmap Z SyncPeerStatus) (known currentNumber maxRequestNumber : Z).
Hypothesis Hcur : 0 <= currentNumber < maxRequestNumber.
Hypothesis Hmax : maxRequestNumber <= known < 2 ^ 62.

Definition holder (id : Z) : Prop := ∃ p, peers !! id = Some p ∧ ps_number p = known.
(** The [i]-th request and how many there are. *)
Definition nth_request (i : nat) (id : Z) : sync_event :=
  SendRequest id (currentNumber + 1 + 32 * Z.of_nat i) (Z.min 32 (maxRequestNumber - currentNumber - 32 * Z.of_nat i)).
Definition shards : Z := (maxRequestNumber - currentNumber + 31) / 32.
Definition requests : Z := Z.min shards 4.

Record turn_ok (t : turn) : Prop := {
  to_range : 0 <= tn_shard t <= requests;
  to_sent : ∃ ids, tn_sent t = imap nth_request ids ∧ zlen ids = tn_shard t ∧ Forall holder ids;
  to_max : tn_max t = if tn_shard t =? 0 then 0 else Z.min (currentNumber + 32 * tn_shard t) maxRequestNumber }.

Lemma shards_bound i : i < shards → currentNumber + 32 * i < maxRequestNumber.
Proof. unfold shards. intros Hi. pose proof (Z.mul_div_le (maxRequestNumber - currentNumber + 31) 32). lia. Qed.

(** The shard a turn sends next. *)
Lemma turn_send id t :
  turn_ok t → tn_shard t < requests → holder id →
  let from := wrapS 64 (currentNumber + 1 + tn_shard t * c_maxRequestBlocks) in
  let to := Z.min (wrapS 64 (from + c_maxRequestBlocks - 1)) maxRequestNumber in
  to <= known ∧ turn_ok (mkTurn (tn_shard t + 1) (Z.max (tn_max t) to)
                           (tn_sent t ++ [SendRequest id from (wrapU 32 (to - from + 1))]) true).
Proof.
  intros [Hr (ids & Hs & Hl & Hh) Hm] Hlt Hid. unfold c_maxRequestBlocks, requests in *.
  pose proof (shards_bound (tn_shard t) ltac:(lia)) as Hb. rewrite (wrapS_id 64 (currentNumber + 1 + _)) by lia.
  rewrite wrapS_id by lia. cbv zeta. split; [lia|]. rewrite (wrapU_id 32) by lia. split; cbn [tn_shard tn_max tn_sent].
  - unfold requests. lia.
  - exists (ids ++ [id]). split_and!; [|rewrite zlen_app, Hl; done|apply Forall_app; by repeat constructor].
    rewrite imap_app, <- Hs. f_equal. cbn [imap]. unfold compose, nth_request. f_equal.
    unfold zlen in Hl. rewrite Nat.add_0_r. f_equal; lia.
  - replace (tn_shard t + 1 =? 0) with false by (symmetry; lia). rewrite Hm. break_if; breflect; lia.
Qed.

Lemma request_turn_ok ids t :
  turn_ok t → tn_shard t < requests →
  let t' := request_turn peers known currentNumber maxRequestNumber shards ids t in
  turn_ok t' ∧ tn_shard t <= tn_shard t' ∧ (tn_found t = true → tn_found t' = true)
  ∧ ((∃ id, id ∈ ids ∧ holder id) → tn_shard t < tn_shard t' ∧ tn_found t' = true).
Proof.
  revert t. induction ids as [|id ids IH]; intros t Ht Hlt; cbn [request_turn].
  { split_and!; [done|done|done|]. intros (? & ?%elem_of_nil & _); done. }
  assert (Hskip : ¬ holder id → (∃ x, x ∈ id :: ids ∧ holder x) → ∃ x, x ∈ ids ∧ holder x).
  { intros Hn (x & [->|Hx]%elem_of_cons & Hh); [done|by exists x]. }
  destruct (peers !! id) as [p|] eqn:Hp.
  2: { destruct (IH t Ht Hlt) as (A & B & D & E). split_and!; [done|done|done|]. intros Hx. apply E, Hskip; [|done]. intros (q & Hq & _). congruence. }
  replace (known <=? 0) with false by (symmetry; lia). cbn [orb]. destruct (Z.eqb_spec (ps_number p) known) as [Hn|Hn]; cbn [negb].
  2: { destruct (IH t Ht Hlt) as (A & B & D & E). split_and!; [done|done|done|]. intros Hx. apply E, Hskip; [|done]. intros (q & Hq & ?). congruence. }
  assert (Hid : holder id) by (by exists p). destruct (turn_send id t Ht Hlt Hid) as [Hto Ht1]. cbv zeta in *. rewrite Hn.
  match type of Hto with ?to <= _ => replace (known <? to) with false by (symmetry; lia) end.
  match type of Ht1 with turn_ok ?t => set (t1 := t) in * end. assert (Es : tn_shard t1 = tn_shard t + 1) by done.
  assert (Ef : tn_found t1 = true) by done. clearbody t1. destruct ((tn_shard t1 <? shards) && (tn_shard t1 <? c_maxRequestShards)) eqn:Eb.
  - apply andb_true_iff in Eb as [?%Z.ltb_lt ?%Z.ltb_lt]. destruct (IH t1 Ht1) as (A & B & D & E); [unfold requests, c_maxRequestShards in *; lia|].
    split_and!; [done|lia|by intros _; apply D|intros _; split; [lia|by apply D]].
  - split_and!; [done|lia|done|intros _; split; [lia|done]].
Qed.

Lemma request_turns_ok fuel rand t :
  (∃ id, holder id) → turn_ok t → requests - tn_shard t <= Z.of_nat fuel →
  let t' := request_turns fuel rand peers known currentNumber maxRequestNumber shards t in turn_ok t' ∧ tn_shard t' = requests.
Proof.
  intros (h & Hh). revert t. induction fuel as [|fuel IH]; intros t Ht Hf; cbn [request_turns].
  { split; [done|]. destruct Ht as [? _ _]. lia. }
  destruct ((tn_shard t <? shards) && (tn_shard t <? c_maxRequestShards)) eqn:Eb.
  - apply andb_true_iff in Eb as [?%Z.ltb_lt ?%Z.ltb_lt]. set (t0 := mkTurn _ _ _ false).
    assert (Ht0 : turn_ok t0) by (destruct Ht; by split).
    destruct (request_turn_ok (randomIds (rand fuel) peers) t0 Ht0) as (A & B & _ & E);
      [unfold requests, c_maxRequestShards in *; cbn; lia|]. cbv zeta.
    destruct E as [E1 E2]; [exists h; split; [|done]; apply randomIds_elem; by destruct Hh as (p & -> & _)|].
    rewrite E2. apply IH; [done|]. cbn in E1. lia.
  - split; [done|]. destruct Ht as [? _ _]. apply andb_false_iff in Eb as [?%Z.ltb_ge|?%Z.ltb_ge]; unfold requests, c_maxRequestShards in *; lia.
Qed.
End requests.

Definition asks_for (n : Z) (e : sync_event) : Prop := match e with SendRequest _ from size => from <= n < from + size | _ => False end.

Lemma highestPeer_spec m n h :
  highestPeer m = (n, h) → 0 < n →
  (∃ id, holder m n id) ∧ ∀ id p, m !! id = Some p → ps_number p <= n.
Proof.
  unfold highestPeer. set (f := λ acc id, _). intros Hf H0.
  assert (∀ ids acc, let r := foldl f acc ids in acc.1 <= r.1 ∧ (r = acc ∨ ∃ id, holder m r.1 id)
    ∧ ∀ id p, id ∈ ids → m !! id = Some p → ps_number p <= r.1) as Hg.
  { induction ids as [|id ids IH]; intros acc; [split_and!; [done|by left|intros ?? []%elem_of_nil]|]. cbn [foldl].
    destruct (IH (f acc id)) as (A & B & D).
    assert (acc.1 <= (f acc id).1 ∧ (f acc id = acc ∨ holder m (f acc id).1 id)
            ∧ ∀ p, m !! id = Some p → ps_number p <= (f acc id).1) as (E1 & E2 & E3).
    { subst f. cbv beta. destruct (m !! id) as [p|] eqn:Hp; [|split_and!; [done|by left|done]]. break_if; breflect; cbn [fst].
      - split_and!; [lia|right; by exists p|intros q [= <-]; lia].
      - split_and!; [done|by left|intros q [= <-]; lia]. }
    split_and!; [lia| |].
    - destruct B as [->|B]; [|by right]. destruct E2 as [->|E2]; [by left|right; by exists id].
    - intros x p [->|Hx]%elem_of_cons Hp; [specialize (E3 p Hp); lia|by eapply D]. }
  destruct (Hg (peerIds m) (0, 0)) as (_ & B & D). rewrite Hf in B, D. cbn [fst] in *. split.
  - destruct B as [[= -> _]|B]; [lia|done].
  - intros id p Hp. eapply D; [|done]. apply peerIds_elem. by eexists.
Qed.

(** The requests of a round, height by height. *)
Lemma nth_requests_cover peers known cur maxr ids n :
  0 <= cur < maxr → zlen ids = requests cur maxr → Forall (holder peers known) ids →
  Forall (λ e, ∃ id from size, e = SendRequest id from size ∧ 1 <= size <= 32 ∧ holder peers known id) (imap (nth_request cur maxr) ids)
  ∧ (Exists (asks_for n) (imap (nth_request cur maxr) ids) ↔ cur < n <= Z.min (cur + 128) maxr).
Proof.
  intros Hc Hl Hh. unfold requests in Hl. assert (Hi : ∀ i id, ids !! i = Some id → Z.of_nat i < shards cur maxr ∧ cur + 32 * Z.of_nat i < maxr).
  { intros i id Hi%lookup_lt_Some. unfold zlen in Hl. split; [lia|]. apply shards_bound; lia. }
  split.
  - apply Forall_lookup_2. intros i e He. rewrite list_lookup_imap in He. apply fmap_Some in He as (id & Hid & ->).
    destruct (Hi i id Hid). eexists _, _, _. split; [reflexivity|]. split; [lia|]. by eapply Forall_lookup_1.
  - rewrite Exists_exists. split.
    + intros (e & [i He]%list_elem_of_lookup & Ha). rewrite list_lookup_imap in He. apply fmap_Some in He as (id & Hid & ->).
      destruct (Hi i id Hid). apply lookup_lt_Some in Hid. unfold zlen in Hl. cbn in Ha. lia.
    + intros Hn. set (i := Z.to_nat ((n - cur - 1) / 32)). assert (32 * Z.of_nat i <= n - cur - 1 < 32 * Z.of_nat i + 32).
      { subst i. rewrite Z2Nat.id by (apply Z.div_pos; lia). pose proof (Z.div_mod (n - cur - 1) 32). pose proof (Z.mod_pos_bound (n - cur - 1) 32). lia. }
      assert (Z.of_nat i < shards cur maxr).
      { unfold shards. enough (Z.of_nat i + 1 <= (maxr - cur + 31) / 32) by lia. apply Z.div_le_lower_bound; lia. }
      destruct (lookup_lt_is_Some_2 ids i) as [id Hid]; [unfold zlen in Hl; lia|].
      exists (nth_request cur maxr i id). split; [apply list_elem_of_lookup_2 with i; by rewrite list_lookup_imap, Hid|]. cbn. lia.
Qed.

Section rounds.
Context `{HC : Crypto} `{HH : HeapOrder} {C V G : Type} `{HB : BlockChainInterface C}.
Abbreviation SyncMaster := (SyncMasterOf C V G).

(** What a round may ask for: up to the block below the first one in the queue. *)
Definition request_limit (maxPeerNumber : Z) (s : SyncMaster) : Z :=
  match bq_top (sm_bq s) with Some b => Z.min maxPeerNumber (blockNumber b - 1) | None => maxPeerNumber end.

(** When a peer is ahead, this node is not about to produce that block itself, and the
    wait for earlier requests is over, then the requests sent are at most four, each for at
    most 32 blocks and to a peer at the highest known number, and together they ask for
    exactly the next 128 missing blocks, or all up to what the queue already has. *)
Theorem requests_cover env (s : SyncMaster) maxPeer latest :
  let cur := bci_number (sm_chain s) in
  highestPeer (sm_peers s) = (maxPeer, latest) → 0 <= cur → cur < request_limit maxPeer s → maxPeer < 2 ^ 62 →
  sm_currentSealingNumber s < maxPeer → (∀ b, bq_top (sm_bq s) = Some b → blockNumber b < 2 ^ 63) →
  wrapS 64 (c_eachBlockDownloadingRequestTimeout * (sm_maxRequestNumber s - cur)) <= wrapS 64 (se_now env - sm_lastDownloadingRequestTime s) →
  ∃ reqs, sm_log (maintainPeersStatus env s) = sm_log s ++ reqs ∧ sm_state (maintainPeersStatus env s) = Downloading
    ∧ zlen reqs <= 4
    ∧ Forall (λ e, ∃ id from size, e = SendRequest id from size ∧ 1 <= size <= 32 ∧ holder (sm_peers s) maxPeer id) reqs
    ∧ ∀ n, Exists (asks_for n) reqs ↔ cur < n <= Z.min (cur + 128) (request_limit maxPeer s).
Proof.
  intros cur Hh H0 Hlim Hmax Hseal Htop Hwait. assert (Hle : request_limit maxPeer s <= maxPeer) by (unfold request_limit; destruct (bq_top _); lia).
  destruct (highestPeer_spec _ _ _ Hh ltac:(lia)) as [Hex _]. unfold maintainPeersStatus. rewrite Hh. fold cur.
  replace (cur <? maxPeer) with true by (symmetry; lia). cbn [negb]. set (s1 := set_sm_knownLatestHash _ _).
  change (sm_currentSealingNumber s1) with (sm_currentSealingNumber s). change (sm_lastDownloadingRequestTime s1) with (sm_lastDownloadingRequestTime s).
  change (sm_maxRequestNumber s1) with (sm_maxRequestNumber s).
  replace (maxPeer <=? sm_currentSealingNumber s) with false by (symmetry; lia). replace (maxPeer =? cur) with false by (symmetry; lia).
  cbn [orb]. rewrite (proj2 (Z.ltb_ge _ _) Hwait). set (s2 := noteDownloadingBegin _).
  assert (sm_bq s2 = sm_bq s ∧ sm_peers s2 = sm_peers s ∧ sm_knownHighestNumber s2 = maxPeer ∧ sm_log s2 = sm_log s ∧ sm_state s2 = Downloading)
    as (E1 & E2 & E3 & E4 & E5) by (subst s2; unfold noteDownloadingBegin; cbn; destruct (sm_state s) eqn:E; done).
  clearbody s2. assert (El : match bq_top (sm_bq s2) with Some b => Z.min maxPeer (wrapS 64 (blockNumber b - 1)) | None => maxPeer end = request_limit maxPeer s).
  { rewrite E1. revert Hlim. unfold request_limit. destruct (bq_top (sm_bq s)) as [b|]; [|done]. specialize (Htop b eq_refl).
    intros. by rewrite wrapS_id by lia. }
  rewrite El. set (maxr := request_limit maxPeer s) in *. replace (maxr <=? cur) with false by (symmetry; lia).
  assert (Es : wrapU 64 (Z.quot (wrapS 64 (maxr - cur + c_maxRequestBlocks - 1)) c_maxRequestBlocks) = shards cur maxr).
  { unfold shards, c_maxRequestBlocks. rewrite wrapS_id by lia. rewrite Z.quot_div_nonneg by lia.
    replace (maxr - cur + 32 - 1) with (maxr - cur + 31) by lia. apply wrapU_id.
    split; [apply Z.div_pos; lia|]. apply Z.div_lt_upper_bound; lia. }
  rewrite Es, E2, E3. destruct (request_turns_ok (sm_peers s) maxPeer cur maxr ltac:(lia) ltac:(lia)
    (Z.to_nat c_maxRequestShards) (se_rand env) (mkTurn 0 0 [] false) Hex) as [[_ (ids & Hs & Hl & Hids) _] Hr].
  { split; [|by exists []|done]. cbn. unfold requests. assert (0 <= shards cur maxr) by (unfold shards; apply Z.div_pos; lia). lia. }
  { unfold requests. change (Z.of_nat (Z.to_nat c_maxRequestShards)) with 4. cbn [tn_shard]. lia. }
  rewrite Hr in Hl. exists (imap (nth_request cur maxr) ids). cbn. rewrite E4, Hs. split_and!; [done|done| | |].
  - unfold zlen in *. rewrite length_imap. unfold requests in Hl. lia.
  - by apply (nth_requests_cover _ _ _ _ _ 0).
  - intros n. by eapply nth_requests_cover.
Qed.

(** ** Peers *)

Lemma memberSet_elem me sessions members id : id ∈ memberSet me sessions members ↔ id ∈ members ∧ id ∈ sessions ∧ id ≠ me.
Proof.
  unfold memberSet. rewrite merge_sort_Permutation, elem_of_elements, elem_of_list_to_set, list_elem_of_filter. tauto.
Qed.

Lemma foldl_newPeers (f : Z → SyncPeerStatus) ids (m : gmap Z SyncPeerStatus) id :
  foldl (λ ps x, newSyncPeerStatus x (f x) ps) m ids !! id
  = match m !! id with Some p => Some p | None => if bool_decide (id ∈ ids) then Some (f id) else None end.
Proof.
  revert m. induction ids as [|x ids IH]; intros m; [cbn; by destruct (m !! id)|]. cbn [foldl]. rewrite IH. unfold newSyncPeerStatus.
  destruct (decide (id = x)) as [->|Hne].
  - destruct (m !! x) eqn:E; [by rewrite E|]. rewrite lookup_insert_eq. by rewrite bool_decide_true by (by apply elem_of_cons; left).
  - assert (Hm : match m !! x with Some _ => m | None => <[x:=f x]> m end !! id = m !! id).
    { destruct (m !! x); [done|]. by rewrite lookup_insert_ne. }
    rewrite Hm. destruct (m !! id); [done|]. replace (bool_decide (id ∈ x :: ids)) with (bool_decide (id ∈ ids)); [done|].
    apply bool_decide_ext. rewrite elem_of_cons. naive_solver.
Qed.

(** After [maintainPeersConnection] the peers are exactly the connected sealers and
    observers other than this node, and in addition the nodes outside that are ahead of
    it; what is known of a peer is kept, a new one starts at height 0, and each is marked
    as a sealer if it is one.  This node tells the new ones its own status. *)
Theorem connection_members me genesis env (s : SyncMaster) id :
  let s' := maintainPeersConnection me genesis env s in
  let member := id ∈ se_sealers env ++ se_observers env ∧ id ∈ se_sessions env ∧ id ≠ me in
  sm_peers s' !! id
  = set_ps_isSealer (bool_decide (id ∈ se_sealers env))
      <$> match sm_peers s !! id with
          | Some p => if bool_decide (member ∨ bci_number (sm_chain s) < ps_number p) then Some p
                      else None
          | None => if bool_decide member then Some (newPeer 0 genesis genesis) else None
          end
  ∧ ((∃ n h, SendStatus id n genesis h ∈ drop (length (sm_log s)) (sm_log s'))
     ↔ sm_needSendStatus s = true ∧ member ∧ sm_peers s !! id = None).
Proof.
  set (current := bci_number (sm_chain s)). set (members := memberSet me (se_sessions env) (se_sealers env ++ se_observers env)).
  cbv zeta. set (member := _ ∧ _ ∧ _). assert (Hmem : id ∈ members ↔ member) by apply memberSet_elem.
  set (kept := filter (λ x : Z * SyncPeerStatus, x.1 ∈ members ∨ current < ps_number x.2) (sm_peers s)).
  set (added := filter (λ m, m ≠ me ∧ kept !! m = None) members).
  assert (Hkept : kept !! id = match sm_peers s !! id with
                               | Some p => if bool_decide (member ∨ current < ps_number p) then Some p else None
                               | None => None end).
  { subst kept. rewrite map_lookup_filter. destruct (sm_peers s !! id) as [p|]; [|done]. cbn [mbind option_bind fst snd].
    case_bool_decide as Hd; case_guard as Hg; cbn in Hg; rewrite ?Hmem in Hg; done || (exfalso; tauto). }
  assert (Hadd : id ∈ added ↔ member ∧ kept !! id = None).
  { subst added. rewrite list_elem_of_filter, Hmem. subst member. tauto. }
  split.
  - transitivity (map_imap (λ id p, Some (set_ps_isSealer (bool_decide (id ∈ se_sealers env)) p))
      (foldl (λ ps m, newSyncPeerStatus m (newPeer 0 genesis genesis) ps) kept added) !! id).
    { f_equal. unfold maintainPeersConnection. cbn. by destruct (sm_needSendStatus s). }
    rewrite map_lookup_imap, foldl_newPeers, Hkept. destruct (sm_peers s !! id) as [p|].
    + case_bool_decide as Hd; [done|]. rewrite (bool_decide_false (id ∈ added)); [done|]. intros [Hx _]%Hadd. apply Hd. by left.
    + rewrite (bool_decide_ext (id ∈ added) member) by (rewrite Hadd, Hkept; tauto). by case_bool_decide.
  - transitivity (sm_needSendStatus s = true ∧ id ∈ added).
    + unfold maintainPeersConnection. fold current members. cbn. fold kept added. destruct (sm_needSendStatus s); cbn.
      * rewrite drop_app_length. split.
        -- intros (n & h & (x & [= <-] & Hx)%list_elem_of_fmap); done.
        -- intros [_ Hx]. eexists _, _. apply list_elem_of_fmap. by exists id.
      * rewrite drop_all. split; [intros (? & ? & ?%elem_of_nil); done|by intros [? _]].
    + rewrite Hadd, Hkept. destruct (sm_peers s !! id) as [p|]; [|tauto]. case_bool_decide; [naive_solver|tauto].
Qed.
End rounds.

(** ** Requests are answered *)

Section answers.
Context {C : Type} `{HS : BlockSource C} (P : C → Prop) (top : Z) (rlp : Z → bytes).
Hypothesis source_reads : ∀ n c, P c → 0 <= n <= top → ∃ c', src_getBlockRLPByNumber n c = (c', Some (Ok (rlp n))) ∧ P c'.
Context (clock : nat → Z) (timeout : Z).
Hypothesis top_range : 0 <= top < 2 ^ 61.
Hypothesis in_time : ∀ k, clock k <= timeout.
Abbreviation batch := (foldl (λ c d, batchAndSend d c)).

Lemma send_range_all size k n c bc :
  P c → 0 <= n → n + Z.of_nat size <= top + 1 →
  ∃ k' c', send_range clock timeout size k n c bc = Ok (k', n + Z.of_nat size, c', batch bc (rlp <$> seqZ n (Z.of_nat size))) ∧ P c'.
Proof.
  revert k n c bc. induction size as [|size IH]; intros k n c bc Hc Hn Ht; cbn [send_range].
  { exists k, c. split; [|done]. by rewrite Z.add_0_r. }
  rewrite (proj2 (Z.leb_le _ _) (in_time k)). destruct (source_reads n c Hc ltac:(lia)) as (c' & -> & Hc').
  destruct (IH (S k) (n + 1) c' (batchAndSend (rlp n) bc) Hc' ltac:(lia) ltac:(lia)) as (k1 & c1 & -> & Hc1).
  exists k1, c1. split; [|done]. rewrite (seqZ_cons n) by lia. rewrite fmap_cons. cbn [foldl].
  replace (Z.pred (Z.of_nat (S size))) with (Z.of_nat size) by lia. unfold Z.succ.
  by replace (n + 1 + Z.of_nat size) with (n + Z.of_nat (S size)) by lia.
Qed.

Lemma serve_all fuel k q c bc :
  P c → queue_sorted (rq_queue q) → Forall request_wf (rq_queue q) → Forall (λ r, 0 <= dr_from r ∧ dr_from r + dr_size r <= top + 1) (rq_queue q) →
  (length (rq_queue q) <= fuel)%nat →
  ∃ c' hs, serve clock timeout fuel k q c bc = Ok (mkReqQueue [] true, c', batch bc (rlp <$> hs)) ∧ P c'
    ∧ NoDup hs ∧ ∀ n, n ∈ hs ↔ Exists (λ r, asks r n) (rq_queue q).
Proof.
  revert k q c bc. induction fuel as [|fuel IH]; intros k q c bc Hc Hs Hwf Hin Hf; cbn [serve];
    destruct (decide (rq_queue q = [])) as [He|He].
  1, 3: exists c, []; unfold enablePush; rewrite He; split_and!; [done|done|constructor|]; intros n; by rewrite elem_of_nil, Exists_nil.
  { destruct (rq_queue q); [done|simpl in Hf; lia]. }
  replace (zlen (rq_queue q) =? 0) with false by (destruct (rq_queue q); [done|symmetry; zsize; apply Z.eqb_neq; lia]).
  rewrite (proj2 (Z.leb_le _ _) (in_time k)). destruct (topAndPop q) as [r q'] eqn:Et.
  destruct (topAndPop_merges q r q' Hs Hwf He Et) as (popped & Hp & Hq & Ha & Hb & Hs').
  destruct (topAndPop_head q r q' He Et) as [(x & Hx & Hfx) Hsz].
  assert (Hrange : 0 <= dr_from r ∧ dr_from r + dr_size r <= top + 1).
  { rewrite Forall_forall in Hin, Hwf. destruct (Hin x Hx). destruct (Hwf x Hx). split; [lia|].
    destruct (Z.eq_dec (dr_size r) 0) as [->|]; [lia|]. assert (Hlast : asks r (dr_from r + dr_size r - 1)) by (unfold asks; lia).
    apply Ha, Exists_exists in Hlast as (y & Hy & Hay). unfold asks in Hay. destruct (Hin y); [rewrite Hq; apply elem_of_app; by left|]. lia. }
  rewrite wrapS_id by lia. replace (dr_from r + dr_size r - dr_from r) with (dr_size r) by lia.
  destruct (send_range_all (Z.to_nat (dr_size r)) (S k) (dr_from r) c bc Hc ltac:(lia) ltac:(lia)) as (k1 & c1 & -> & Hc1).
  cbn [mbind result_bind]. rewrite Z2Nat.id, Z.ltb_irrefl by lia. rewrite Hq in Hwf, Hin, Hf. apply Forall_app in Hwf as [_ Hw2].
  apply Forall_app in Hin as [_ Hi2]. rewrite length_app in Hf. assert (0 < length popped)%nat by (destruct popped; [done|simpl; lia]).
  destruct (IH k1 q' c1 (batch bc (rlp <$> seqZ (dr_from r) (dr_size r))) Hc1 Hs' Hw2 Hi2 ltac:(lia)) as (c' & hs & -> & Hc' & Hnd & Hhs).
  exists c', (seqZ (dr_from r) (dr_size r) ++ hs). split_and!; [by rewrite fmap_app, foldl_app|done| |].
  - apply NoDup_app. split_and!; [apply NoDup_seqZ| |done]. intros n Hn%elem_of_seqZ Hn2%Hhs.
    apply Exists_exists in Hn2 as (y & Hy & Hay). rewrite Forall_forall in Hb. specialize (Hb y Hy). unfold asks in Hay. lia.
  - intros n. rewrite elem_of_app, elem_of_seqZ, Hhs, Hq, Exists_app, <- Ha. unfold asks. tauto.
Qed.
End answers.

Section chain_answers.
Context `{HC : Crypto} {V G : Type}.
Abbreviation SyncMaster := (SyncMasterOf BlockChainImp V G).

(** The encodings of the chain's blocks are found, and reading them changes nothing. *)
Lemma chain_reads (c0 : BlockChainImp) (rlp : Z → bytes) n c :
  (∀ n, 0 <= n <= number c0 → ∃ b, block_at c0 n b ∧ rlpP b = Ok (rlp n)) →
  same_blocks c0 c ∧ chain_inv c → 0 <= n <= number c0 →
  ∃ c', src_getBlockRLPByNumber n c = (c', Some (Ok (rlp n))) ∧ same_blocks c0 c' ∧ chain_inv c'.
Proof.
  intros Hb [Hs Hi] Hn. destruct (number_memo_same c Hi) as [S1 I1]. destruct (number_memo_same _ I1) as [S2 I2].
  pose proof (same_blocks_trans _ _ _ Hs S1) as S1'. pose proof (same_blocks_trans _ _ _ S1' S2) as S2'.
  exists (number_memo (number_memo c)). split; [|done]. cbv delta [src_getBlockRLPByNumber chain_source]. unfold getBlockRLPByNumber, getBlockRLP. cbv zeta.
  rewrite (proj1 S1'), (proj1 S2'). replace (number c0 <? n) with false by (symmetry; lia).
  destruct (Hb n Hn) as (b & (B1 & B2 & _) & Hr). destruct S2' as (_ & _ & E2 & E3). rewrite E2, B1. unfold getBlockRLPOfHash.
  destruct (blockCache_get _ _) as [b'|] eqn:Eg.
  - apply (ci_cache _ I2) in Eg. rewrite E3, B2 in Eg. injection Eg as <-. by rewrite Hr.
  - rewrite E3, B2. cbn [fmap option_fmap option_map]. by rewrite Hr.
Qed.

End chain_answers.

(** ** Packets between two nodes *)

Section packets.
Context {C V G : Type} `{HB : BlockChainInterface C} (me genesis : Z).
Abbreviation SyncMaster := (SyncMasterOf C V G).
Abbreviation handler := (messageHandler me genesis).

(** What one node sends another understands: with numbers below 2^32, the packets of a
    status, a request and of blocks are encoded without an exception and have at the
    receiver the effect of the handler of their type with the values sent. *)
Theorem packets_understood node n g h from size blocks (s : SyncMaster) :
  node ≠ me → 0 <= n < 2 ^ 32 → 0 <= from < 2 ^ 32 → 0 <= size < 2 ^ 32 → 0 <= g < 2 ^ 256 → 0 <= h < 2 ^ 256 → packet_small blocks →
  (∃ msg, wire (SendStatus me n g h) = Some (me, Ok msg) ∧ handler node msg s = onPeerStatus genesis node n g h s)
  ∧ (∃ msg, wire (SendRequest me from size) = Some (me, Ok msg) ∧ handler node msg s = onPeerRequestBlocks node from size s)
  ∧ (∃ msg, wire (SendBlocks me blocks) = Some (me, Ok msg) ∧ handler node msg s = onPeerBlocks (shard blocks) s).
Proof.
  intros Hme Hn Hf Hs Hg Hh Hb. unfold messageHandler. rewrite (proj2 (Z.eqb_neq _ _) Hme). cbn [wire].
  destruct (statusPacket_eq n g h Hn Hg Hh) as (E1 & G1 & R1). destruct (reqBlockPacket_eq from size Hf Hs) as (E2 & G2 & R2).
  pose proof (packet_decode StatusPacket _ G1 ltac:(done)) as D1. change (packetId StatusPacket + 1) with 1 in D1.
  pose proof (packet_decode ReqBlocskPacket _ G2 ltac:(done)) as D2. change (packetId ReqBlocskPacket + 1) with 4 in D2.
  rewrite E1, E2, blocksPacket_eq by done. split_and!; (eexists; split; [reflexivity|]).
  - by rewrite D1, R1.
  - rewrite D2, R2. unfold onPeerRequestBlocks. by destruct (sm_peers s !! node).
  - by rewrite blocksPacket_decode.
Qed.
End packets.

(** ** Requests that cannot be served *)

(** A request that begins above the chain goes back to the queue although no time ran
    out, and it stays the first of its peer. *)
Lemma unservable_request_stays {C} `{HS : BlockSource C} clock timeout from size (c : C) bc :
  (∀ k, clock k <= timeout) → 0 <= from → 0 < size → from + size < 2 ^ 62 → (∀ c, (src_getBlockRLPByNumber from c).2 = None) →
  ∃ c', serve clock timeout 1 0 (mkReqQueue [mkRequest from size] false) c bc = Ok (mkReqQueue [mkRequest from size] true, c', bc).
Proof.
  intros Ht Hf Hs Hl Hno. cbn [serve rq_queue]. rewrite (proj2 (Z.leb_le _ _) (Ht 0%nat)).
  change (zlen [mkRequest from size] =? 0) with false. cbv iota. unfold topAndPop. cbn [rq_queue merge_tops dr_from dr_size].
  rewrite (wrapS_id 64 (from + 0)) by lia. replace (from <=? from + 0) with true by (symmetry; lia).
  replace (from + size - from) with size by lia. rewrite (wrapS_id 64 size) by lia. cbn [dr_from dr_size]. rewrite Z.max_r by lia.
  rewrite wrapS_id by lia. replace (from + size - from) with size by lia.
  destruct (Z.to_nat size) as [|k] eqn:E; [lia|]. cbn [send_range]. rewrite (proj2 (Z.leb_le _ _) (Ht 1%nat)).
  specialize (Hno c). destruct (src_getBlockRLPByNumber from c) as [c' r]. cbn in Hno. subst r. cbn [mbind result_bind].
  replace (from <? from + size) with true by (symmetry; lia). exists c'. replace (from + size - from) with size by lia. done.
Qed.

(** ** Concrete instances *)

#[local] Instance syncChain : BlockChainInterface BlockChainImp := @chain_interface toyCrypto (λ _, false).
#[local] Existing Instance firstMinOrder.
Abbreviation SampleSync := (SyncMasterOf BlockChainImp unit unit).
Definition sampleSync (queue : list Block) (peers : gmap Z SyncPeerStatus) (known : Z) : SampleSync :=
  mkSync (@genesisChain toyCrypto sampleGenesis) tt tt Downloading known 0 (mkBlockQueue queue []) peers 0 0 0 false false 0 false true [].
Definition acceptAll (b : Block) (c : BlockChainImp) (g : unit) : unit * bool := (g, true).
Definition executeAs (b : Block) (p : BlockInfo) (v : unit) : unit * option Block := (v, Some b).

Lemma sample_chain_ok : @chain_ok toyCrypto (@genesisChain toyCrypto sampleGenesis).
Proof.
  split; [apply (@genesis_inv toyCrypto sampleGenesis eq_refl)|]. intros n Hn. change (number _) with 0 in Hn.
  assert (n = 0) as -> by lia. apply Z.eqb_neq. vm_compute. reflexivity.
Qed.
Lemma sample_separate : @separate toyCrypto _ _ syncChain hash_fresh executeAs [sampleNext] (@genesisChain toyCrypto sampleGenesis).
Proof.
  split.
  - intros b p v b' ->%list_elem_of_singleton [= <-] _. split; [apply Z.eqb_neq; vm_compute; reflexivity|vm_compute; reflexivity].
  - intros b1 p1 v1 b1' b2 p2 v2 b2' ->%list_elem_of_singleton ->%list_elem_of_singleton [= <-] [= <-]. done.
Qed.

(** A block for height 1 is downloaded. *)
Lemma download_safe_witness :
  ∃ s' l fin, @maintainDownloadingQueue toyCrypto _ _ _ _ syncChain executeAs acceptAll (λ _, true) (sampleSync [sampleNext] ∅ 1) = Ok (s', fin)
    ∧ @chain_ok toyCrypto (sm_chain s')
    ∧ @extension toyCrypto _ _ _ syncChain executeAs acceptAll (@genesisChain toyCrypto sampleGenesis) l (sm_chain s')
    ∧ Forall (λ b, b ∈ [sampleNext]) l.*1 ∧ sm_log s' = [] ++ (DropTrans <$> l.*2)
    ∧ (fin = true ↔ 1 <= number (sm_chain s')).
Proof.
  apply (@download_safe toyCrypto _ _ _ _ syncChain _ _ (@chain_growth toyCrypto (λ _, false)) executeAs acceptAll (λ _, true)
           (sampleSync [sampleNext] ∅ 1) sample_chain_ok sample_separate).
Defined.

(** A second block for height 1 is in the queue, which the check refuses. *)
Definition sampleOdd : Block := set_b_header (setTimestamp 77 (b_header sampleNext)) sampleNext.
Definition acceptNext (b : Block) (c : BlockChainImp) (g : unit) : unit * bool := (g, m_timestamp (b_header b) =? m_timestamp (b_header sampleNext)).
Lemma sample_separate2 : @separate toyCrypto _ _ syncChain hash_fresh executeAs [sampleOdd; sampleNext] (@genesisChain toyCrypto sampleGenesis).
Proof.
  assert (Hq : ∀ b, b ∈ [sampleOdd; sampleNext] → hash_fresh (@headerHash toyCrypto (b_header b)) (@genesisChain toyCrypto sampleGenesis) ∧ blockNumber b = 1).
  { intros b [->| ->%list_elem_of_singleton]%elem_of_cons; (split; [|done]); (split; [apply Z.eqb_neq; vm_compute; reflexivity|vm_compute; reflexivity]). }
  split.
  - intros b p v b' Hb [= <-] _. by apply Hq.
  - intros b1 p1 v1 b1' b2 p2 v2 b2' H1 H2 [= <-] [= <-] _. by rewrite (proj2 (Hq _ H1)), (proj2 (Hq _ H2)).
Qed.
Lemma sample_continuation :
  @continuation toyCrypto _ _ _ syncChain executeAs acceptNext (λ _ _, True) (λ _, true) [sampleOdd; sampleNext]
    (@genesisChain toyCrypto sampleGenesis) [(sampleNext, sampleNext)].
Proof.
  assert (Hg : ∀ i b b', [(sampleNext, sampleNext)] !! i = Some (b, b') → i = 0%nat ∧ b = sampleNext ∧ b' = sampleNext).
  { by intros [|i] b b' Hi; simplify_eq/=. }
  split.
  - by intros i b b' (-> & -> & ->)%Hg.
  - intros i b b' (-> & -> & ->)%Hg. split; vm_compute; reflexivity.
  - by intros i b b' d g (-> & -> & ->)%Hg.
  - intros b d g [->| ->%list_elem_of_singleton]%elem_of_cons _ _ _ Ha; [by vm_compute in Ha|by left].
  - intros i b b' p v (-> & -> & ->)%Hg _ _ _. by exists v.
  - done.
  - intros b ->%list_elem_of_singleton. apply elem_of_cons. right. by apply list_elem_of_singleton.
Qed.

(** A peer at height 100. *)
Definition sampleSyncEnv : SyncEnv := mkSyncEnv [7] [5; 7] [] 1600000000000 (λ _, 0) (λ _ _, 0) (λ _, true).
Lemma requests_cover_witness :
  let s := sampleSync [] {[7 := newPeer 100 0 9]} 0 in
  ∃ reqs, sm_log (@maintainPeersStatus _ _ _ _ syncChain sampleSyncEnv s) = [] ++ reqs
    ∧ sm_state (@maintainPeersStatus _ _ _ _ syncChain sampleSyncEnv s) = Downloading ∧ zlen reqs <= 4
    ∧ Forall (λ e, ∃ id from size, e = SendRequest id from size ∧ 1 <= size <= 32 ∧ holder (sm_peers s) 100 id) reqs
    ∧ ∀ n, Exists (asks_for n) reqs ↔ 0 < n <= Z.min (0 + 128) 100.
Proof.
  intros s. apply (@requests_cover _ _ _ _ syncChain sampleSyncEnv s 100 9).
  - vm_compute. reflexivity.
  - by apply Z.leb_le.
  - by apply Z.ltb_lt.
  - by apply Z.ltb_lt.
  - by apply Z.ltb_lt.
  - intros b Hb. by vm_compute in Hb.
  - apply Z.leb_le. vm_compute. reflexivity.
Defined.

(** The genesis block is asked for, twice. *)
Definition genesisRLP (n : Z) : bytes := match @rlpP toyCrypto sampleGenesis with Ok d => d | Throw _ => [] end.

Lemma packets_understood_witness :
  let s := sampleSync [] {[7 := newPeer 100 0 9]} 0 in
  (∃ msg, wire (SendStatus 5 100 3 9) = Some (5, Ok msg) ∧ @messageHandler _ _ _ syncChain 5 3 7 msg s = @onPeerStatus _ _ _ syncChain 3 7 100 3 9 s)
  ∧ (∃ msg, wire (SendRequest 5 1 32) = Some (5, Ok msg) ∧ @messageHandler _ _ _ syncChain 5 3 7 msg s = onPeerRequestBlocks 7 1 32 s)
  ∧ (∃ msg, wire (SendBlocks 5 [genesisRLP 0]) = Some (5, Ok msg) ∧ @messageHandler _ _ _ syncChain 5 3 7 msg s = onPeerBlocks (shard [genesisRLP 0]) s).
Proof.
  intros s. apply (@packets_understood _ _ _ syncChain 5 3 7 100 3 9 1 32 [genesisRLP 0] s); [done|lia..|].
  split; [by apply Z.leb_le|]. apply Forall_cons. split; [by apply Z.ltb_lt; vm_compute|by apply Forall_nil].
Defined.
