(* ===== verification/SyncConsensus.v ===== *)
(** * Synchronisation with the consensus engine and the block verifier

    [SyncMaster] takes the check of a downloaded block, the execution and the chain as
    arguments.  Here they are [PBFTEngine::checkBlock], which the engine's constructor
    registers as the handler, the serial [BlockVerifier], and [BlockChainImp]. *)
From S2P Require Import Prelude CommonData RLP Crypto BlockHeader TxsParser Block PBFTMsg MsgCache TimeManager ReqCache BlockChain.
From S2P Require Import EngineBase Engine EngineSample EngineProps.
From S2P Require Import Transaction Receipt TxDAG ABI DagTransfer BlockVerifier SyncQueue SyncMaster.
Local Open Scope Z_scope.

Section composed.
Context `{HC : Crypto} `{HU : UnorderedIter} `{HH : HeapOrder} (failed : TransactionReceipt → bool).
Context {S : Type} (initContext : BlockInfo → option S) (runTx : TxObject → S → S * ExecOut)
        (isStorageState : bool) (stateHash tableHash : S → Z) (criticalsOf : TxObject → result crit_exn criticals)
        (txsOf : Block → list TxObject).
#[local] Instance synced_chain : BlockChainInterface BlockChainImp := chain_interface failed.
Abbreviation PBFTEngine := (PBFTEngineOf KeyPair BlockChainImp).
Abbreviation SyncMaster := (SyncMasterOf BlockChainImp BlockVerifier PBFTEngine).

(** The registered handler; the engine reads the same chain. *)
Definition engine_check (env : Env) (b : Block) (c : BlockChainImp) (e : PBFTEngine) : PBFTEngine * bool :=
  match checkBlock env b (set_pe_chain c e) with Ok (e, r) => (e, r) | Throw _ => (e, false) end.

(** [executeBlock] of a verifier that executes serially. *)
Definition serial_execute (b : Block) (p : BlockInfo) (v : BlockVerifier) : BlockVerifier * option Block :=
  match BlockVerifier.executeBlock initContext runTx isStorageState stateHash tableHash criticalsOf false []
          (mkVerifier false (m_threadNum v) (m_executingNumber v)) b (txsOf b) p with
  | Done (v, r) => (v, fst <$> r)
  | _ => (v, None)
  end.

Lemma calReceiptRoot_keeps u b b' : calReceiptRoot u b = Ok b' → b_sigList b' = b_sigList b.
Proof.
  unfold calReceiptRoot. intros (b1 & H1 & [= <-])%bind_Ok. transitivity (b_sigList b1); [by destruct u|].
  revert H1. break_if; [|by intros [= <-]]. do 3 (intros (? & _ & H1)%bind_Ok; revert H1). by intros [= <-].
Qed.

(** What execution leaves of a block that came with its roots. *)
Lemma finish_block_keeps b s rs b' :
  finish_block isStorageState stateHash tableHash b s rs = Ok b' →
  b_sigList b' = b_sigList b ∧ (m_receiptsRoot (b_header b) ≠ 0 → headerHash (b_header b') = headerHash (b_header b)).
Proof.
  unfold finish_block. destruct (mapM _ rs) as [rs'|]; [|done]. intros (brs & _ & H1)%bind_Ok. revert H1.
  intros (b1 & Hb1 & H2)%bind_Ok. revert H2. set (b2 := set_b_header _ b1). destruct (_ && _) eqn:E; [done|]. intros [= <-].
  assert (Hs : b_sigList b1 = b_sigList b).
  { unfold lift_bv in Hb1. destruct (calReceiptRoot _ _) eqn:Ec; [|done]. injection Hb1 as <-. by rewrite (calReceiptRoot_keeps _ _ _ Ec). }
  split; [exact Hs|]. intros Hne. rewrite (proj2 (Z.eqb_neq _ _) Hne) in E. cbn [negb andb] in E.
  apply negb_false_iff, Z.eqb_eq in E. by symmetry.
Qed.

Lemma serial_execute_keeps b p v b' :
  (serial_execute b p v).2 = Some b' →
  b_sigList b' = b_sigList b ∧ (m_receiptsRoot (b_header b) ≠ 0 → headerHash (b_header b') = headerHash (b_header b)).
Proof.
  unfold serial_execute, BlockVerifier.executeBlock. cbn [m_enableParallel]. break_if; [done|].
  unfold serialExecuteBlock. destruct (initContext p) as [s|]; [|done]. destruct (foldl _ _ _) as [[s' rs]|]; [|done].
  destruct (finish_block _ _ _ _ _ _) as [b1|] eqn:Ef; [|done]. cbn. intros [= <-]. by eapply finish_block_keeps.
Qed.

(** Block [b] carries as many signatures of its hash as the sealers of engine [e] need
    for a quorum. *)
Definition quorum_signed (e : PBFTEngine) (b : Block) : Prop :=
  minValidNodes (pe_base e) <= zlen (b_sigList b)
  ∧ ∀ i sg, (i, sg) ∈ b_sigList b → checkBlockSign (wrapU 16 i) (headerHash (b_header b)) sg e = true.

End composed.

(** ** A concrete instance: three of four sealers have signed the executed proposal *)

#[local] Existing Instance firstMinOrder.
Definition sampleSerial : Block → BlockInfo → BlockVerifier → BlockVerifier * option Block :=
  @serial_execute toyCrypto unit (λ _, Some tt) (λ _ s, (s, mkExecOut false 0 [] 0 [] 0)) true (λ _, 5) (λ _, 6) (λ _, Ok None) (λ _, []).
Definition sampleExecuted (b : Block) : Block := default b (sampleSerial b (mkBlockInfo 0 0 0) (mkVerifier false 1 0)).2.
Definition sampleSynced : Block := signedBy [(0, 3); (1, 5); (2, 7)] (sampleExecuted (sampleProposal sampleSealers)).
Definition sampleNode : SyncMasterOf BlockChainImp BlockVerifier SampleEngine :=
  mkSync (@genesisChain toyCrypto sampleGenesis) (mkVerifier false 1 0) (sampleEngine sampleSealers 3) Downloading 1 0
    (mkBlockQueue [sampleSynced] []) ∅ 0 0 0 false false 0 false true [].
Definition nodeResult : result sync_exn (SyncMasterOf BlockChainImp BlockVerifier SampleEngine * bool) :=
  @maintainDownloadingQueue toyCrypto _ _ _ _ (@synced_chain toyCrypto (λ _, false)) sampleSerial
    (@engine_check toyCrypto (λ _, false) (sampleEnv sampleSealers 0 true)) (λ _, true) sampleNode.

Lemma sampleSerial_const p v b' : (sampleSerial sampleSynced p v).2 = Some b' → b' = sampleExecuted sampleSynced.
Proof.
  unfold sampleSerial, serial_execute, BlockVerifier.executeBlock. cbn [m_enableParallel m_executingNumber].
  destruct (_ <? _); [discriminate|]. intros Hb. vm_compute in Hb. injection Hb as <-. vm_compute. reflexivity.
Qed.
Lemma sample_separate3 : @separate toyCrypto _ _ (@synced_chain toyCrypto (λ _, false)) hash_fresh sampleSerial [sampleSynced] (@genesisChain toyCrypto sampleGenesis).
Proof.
  split.
  - intros b p v b' ->%list_elem_of_singleton ->%sampleSerial_const _. split; [apply Z.eqb_neq; vm_compute; reflexivity|vm_compute; reflexivity].
  - intros b1 p1 v1 b1' b2 p2 v2 b2' ->%list_elem_of_singleton ->%list_elem_of_singleton ->%sampleSerial_const ->%sampleSerial_const _. reflexivity.
Qed.
Example node_synced : match nodeResult with Ok (s, fin) => number (sm_chain s) = 1 ∧ fin = true | Throw _ => False end.
Proof. vm_compute. split; reflexivity. Qed.
