(* ===== verification/RaftMsg.v ===== *)
(** * Messages of the Raft engine (libconsensus/raft/Common.h)

    The four messages and the packet they travel in.  As in [PBFTMsg], the fields are
    concatenated into one string of a list, and built-in integers are written with 32
    bits. *)
From S2P Require Import Prelude CommonData RLP Crypto BlockHeader PBFTMsg.
Local Open Scope Z_scope.

(** [RaftPacketType], [RaftRole], [VoteRespFlag] and [HandleVoteResult]. *)
Definition RaftVoteReqPacket : Z := 0.
Definition RaftVoteRespPacket : Z := 1.
Definition RaftHeartBeatPacket : Z := 2.
Definition RaftHeartBeatRespPacket : Z := 3.
Definition RaftPacketCount : Z := 4.
Inductive RaftRole := EN_STATE_LEADER | EN_STATE_FOLLOWER | EN_STATE_CANDIDATE.
#[export] Instance raftRole_eq_dec : EqDecision RaftRole.
Proof. solve_decision. Defined.
Definition VOTE_RESP_REJECT : Z := 0.
Definition VOTE_RESP_LEADER_REJECT : Z := 1.
Definition VOTE_RESP_LASTTERM_ERROR : Z := 2.
Definition VOTE_RESP_OUTDATED : Z := 3.
Definition VOTE_RESP_FIRST_VOTE : Z := 4.
Definition VOTE_RESP_DISCARD : Z := 5.
Definition VOTE_RESP_GRANTED : Z := 6.
Inductive HandleVoteResult := TO_LEADER | TO_FOLLOWER | VR_NONE.

(** ** The messages *)

Record RaftMsg := mkRaft { rm_idx : Z; rm_term : Z; rm_height : Z; rm_blockHash : Z }.
Record RaftVoteReq := mkVoteReq { vq_msg :> RaftMsg; candidate : Z; vq_lastLeaderTerm : Z; lastBlockNumber : Z }.
Record RaftVoteResp := mkVoteResp { vr_msg :> RaftMsg; voteFlag : Z; vr_lastLeaderTerm : Z }.
Record RaftHeartBeat := mkHeartBeat { hb_msg :> RaftMsg; hb_leader : Z; uncommitedBlock : bytes; uncommitedBlockNumber : Z }.
Record RaftHeartBeatResp := mkHeartBeatResp { hr_msg :> RaftMsg; uncommitedBlockHash : Z }.
Definition hasData (hb : RaftHeartBeat) : bool := negb (zlen (uncommitedBlock hb) =? 0).

(** [streamRLPFields]. *)
Definition raft_fields (m : RaftMsg) (s : RLPStream) : result dev_exn RLPStream :=
  s ← appendUnsigned (rm_idx m) s; s ← appendUnsigned (rm_term m) s; s ← appendUnsigned (rm_height m) s;
  appendHash 32 (rm_blockHash m) s.
Definition voteReq_fields (m : RaftVoteReq) (s : RLPStream) : result dev_exn RLPStream :=
  s ← raft_fields m s; s ← appendUnsigned (candidate m) s; s ← appendUnsigned (vq_lastLeaderTerm m) s;
  appendUnsigned (lastBlockNumber m) s.
Definition voteResp_fields (m : RaftVoteResp) (s : RLPStream) : result dev_exn RLPStream :=
  s ← raft_fields m s; s ← appendUnsigned (voteFlag m) s; appendUnsigned (vr_lastLeaderTerm m) s.
Definition heartBeat_fields (m : RaftHeartBeat) (s : RLPStream) : result dev_exn RLPStream :=
  s ← raft_fields m s; s ← appendUnsigned (hb_leader m) s; s ← appendBytes (uncommitedBlock m) false s;
  appendUnsigned (uncommitedBlockNumber m) s.
Definition heartBeatResp_fields (m : RaftHeartBeatResp) (s : RLPStream) : result dev_exn RLPStream :=
  s ← raft_fields m s; appendHash 32 (uncommitedBlockHash m) s.

(** [populate]. *)
Definition raft_populate : reader dev_exn RaftMsg :=
  idx ← field 0 (λ d, toInt T_uint16 d Strict); term ← field 1 (λ d, toInt T_uint64 d Strict);
  height ← field 2 (λ d, toInt T_int64 d Strict); blockHash ← field 3 (λ d, toHash 32 d VeryStrict);
  mret (mkRaft idx term height blockHash).
Definition voteReq_populate : reader dev_exn RaftVoteReq :=
  m ← raft_populate; c ← field 4 (λ d, toInt T_uint16 d Strict); t ← field 5 (λ d, toInt T_uint64 d Strict);
  n ← field 6 (λ d, toInt T_int64 d Strict); mret (mkVoteReq m c t n).
Definition voteResp_populate : reader dev_exn RaftVoteResp :=
  m ← raft_populate; f ← field 4 (λ d, toInt T_uint8 d Strict); t ← field 5 (λ d, toInt T_uint64 d Strict);
  mret (mkVoteResp m f t).
Definition heartBeat_populate : reader dev_exn RaftHeartBeat :=
  m ← raft_populate; l ← field 4 (λ d, toInt T_uint16 d Strict); b ← field 5 (λ d, toBytes d LaissezFaire);
  n ← field 6 (λ d, toInt T_int64 d Strict); mret (mkHeartBeat m l b n).
Definition heartBeatResp_populate : reader dev_exn RaftHeartBeatResp :=
  m ← raft_populate; h ← field 4 (λ d, toHash 32 d Strict); mret (mkHeartBeatResp m h).

(** ** The packet *)

Record RaftMsgPacket := mkRaftPacket {
  rp_nodeIdx : Z; rp_nodeId : Z; rp_packetType : Z; rp_data : bytes; rp_timestamp : Z; rp_endpoint : string }.

(** [encode] and [decode], the sender's fields left as they are. *)
Definition raftPacket_encode (packetType : Z) (data : bytes) : result dev_exn bytes :=
  s ← appendUnsigned packetType emptyStream; s ← appendBytes data false s; streamOut s.
Definition raftPacket_decode (d : bytes) : result dev_exn (Z * bytes) :=
  r ← newRLP (cropped d 0 1) VeryStrict; t ← toInt T_uint32 (m_data r) ThrowOnFail;
  r ← newRLP (croppedFrom d 1) VeryStrict; data ← toBytes (m_data r) LaissezFaire;
  Ok (wrapU 8 t, data).

(** [transDataToMessage]: the buffer of the message. *)
Definition transDataToMessage (fields : RLPStream → result dev_exn RLPStream) (packetType : Z) : result dev_exn bytes :=
  data ← wrap_fields fields; raftPacket_encode packetType data.

(** ** What the receiver sees *)

Record raft_wf (m : RaftMsg) : Prop := { rwf_idx : 0 ≤ rm_idx m < 2 ^ 16; rwf_hash : 0 ≤ rm_blockHash m < 2 ^ 256 }.
Definition raft_received (m : RaftMsg) : RaftMsg := mkRaft (rm_idx m) (wrapU 32 (rm_term m)) (wrapU 32 (rm_height m)) (rm_blockHash m).
Definition raft_items (m : RaftMsg) : list bytes := [encU32 (rm_idx m); encU32 (rm_term m); encU32 (rm_height m); encHash 32 (rm_blockHash m)].

Lemma toInt_U32_u64 i flags : toInt T_uint64 (encU32 i) flags = Ok (wrapU 32 i).
Proof.
  pose proof (wrapU_range 32 i ltac:(lia)) as Hw. assert (Hw' : 0 ≤ wrapU 32 i < 2 ^ 64) by (split; [lia|]; eapply Z.lt_trans; [apply Hw|done]).
  apply toInt_U32; [by apply bytesRequired_le|by apply wrapU_id].
Qed.

Lemma raft_fields_items m hd :
  raft_fields m (mkStream (mjoin hd) []) = Ok (mkStream (mjoin (hd ++ raft_items m)) []).
Proof.
  unfold raft_fields. do 3 (rewrite append_flat with (enc := encU32) by apply appendUnsigned_spec; cbn [mbind result_bind]).
  rewrite append_flat with (enc := encHash 32) by by apply appendHash_spec. by rewrite <- !app_assoc.
Qed.

Lemma raft_items_good m : Forall good_item (raft_items m) ∧ zlen (mjoin (raft_items m)) ≤ 200.
Proof.
  destruct (encU32_props (rm_idx m)), (encU32_props (rm_term m)), (encU32_props (rm_height m)). split.
  - unfold raft_items. rewrite !Forall_cons. split_and!; try done; first [by apply encHash_good|by apply Forall_nil].
  - unfold raft_items. rewrite !zlen_mjoin. change (zlen (mjoin [])) with 0. pose proof (zlen_encHash 32 (rm_blockHash m) ltac:(lia)).
    cbn beta in *. lia.
Qed.

Lemma raft_populate_items m rest :
  raft_wf m → Forall good_item (raft_items m ++ rest) → reads (raft_items m ++ rest) raft_populate (Ok (raft_received m)).
Proof.
  intros [] Hg. unfold raft_populate. reads_step ltac:(fun _ => apply (toInt_U32_narrow T_uint16 16); [auto|done]).
  reads_step ltac:(fun _ => apply toInt_U32_u64). reads_step ltac:(fun _ => apply toInt_U32_i64).
  reads_step ltac:(fun _ => by apply (toHash_enc 32 256)). apply reads_ret.
Qed.

(** A message arrives when its fields read back. *)
Lemma packet_type_byte t : 0 ≤ t < 4 → ∃ c, encU32 t = [c] ∧ newRLP [c] VeryStrict = Ok (freshRLP [c]) ∧ toInt T_uint32 [c] ThrowOnFail = Ok t ∧ wrapU 8 t = t.
Proof.
  intros Ht. exists (byte.of_Z (if t =? 0 then 128 else t)).
  assert (t = 0 ∨ t = 1 ∨ t = 2 ∨ t = 3) as [-> | [-> | [-> | ->]]] by lia; vm_compute; split_and!; reflexivity.
Qed.

Lemma raft_delivered {A} fields items (populate : reader dev_exn A) x t :
  fields emptyStream = Ok (mkStream (mjoin items) []) → zlen (mjoin items) < 2 ^ 61 → reads items populate (Ok x) → 0 ≤ t < 4 →
  ∃ d, transDataToMessage fields t = Ok d ∧ raftPacket_decode d = Ok (t, wire items) ∧ decode_item populate (wire items) 0 = Ok x.
Proof.
  intros Hf Hl Hr Ht. unfold transDataToMessage. rewrite (wrap_fields_wire _ items Hf ltac:(lia)). cbn [mbind result_bind].
  assert (Hw : zlen (wire items) < 2 ^ 62).
  { assert (rlp_fits (mjoin items)) as Hfit by (unfold rlp_fits; lia). pose proof (zlen_rlpData _ Hfit) as Hd.
    assert (Hj : zlen (mjoin [rlpData (mjoin items)]) = zlen (rlpData (mjoin items)))
      by (rewrite zlen_mjoin; change (zlen (mjoin [])) with 0; lia).
    assert (rlp_fits (mjoin [rlpData (mjoin items)])) as Hfit' by (unfold rlp_fits; rewrite Hj; lia).
    pose proof (zlen_rlpList [rlpData (mjoin items)] Hfit') as Hz. rewrite Hj in Hz. unfold wire. lia. }
  assert (rlp_fits (wire items)) as Hfit by (unfold rlp_fits; lia). destruct (rlpData_good _ Hfit) as [Hg _].
  destruct (packet_type_byte t Ht) as (c & Ec & Hn & Hi & Hu). exists ([c] ++ rlpData (wire items)). split_and!; [| |apply decode_item_wire; [lia|done]].
  - unfold raftPacket_encode. change emptyStream with (mkStream (mjoin []) []).
    rewrite append_flat with (enc := encU32) by apply appendUnsigned_spec. cbn [mbind result_bind].
    rewrite append_flat with (app := λ d, appendBytes d false) (enc := rlpData) by by apply appendBytes_spec.
    rewrite Ec. cbn [mbind result_bind]. unfold streamOut. cbn [m_listStack m_out app]. f_equal.
    change (mjoin [[c]; rlpData (wire items)]) with ([c] ++ rlpData (wire items) ++ []). by rewrite app_nil_r.
  - unfold raftPacket_decode, cropped, croppedFrom. pose proof (zlen_nonneg (rlpData (wire items))). rewrite zlen_app. change (zlen [c]) with 1.
    replace ((0 <=? 1 + zlen (rlpData (wire items))) && (1 <=? 1 + zlen (rlpData (wire items))) && (0 + 1 <=? 1 + zlen (rlpData (wire items))))
      with true by (symmetry; rewrite !andb_true_iff, !Z.leb_le; lia).
    rewrite (proj2 (Z.leb_le 1 _)) by lia. change (Z.to_nat 1) with 1%nat. change (Z.to_nat 0) with 0%nat. change (take 1 (drop 0 ([c] ++ rlpData (wire items)))) with [c]. change (drop 1 ([c] ++ rlpData (wire items))) with (rlpData (wire items)).
    rewrite Hn. cbn [mbind result_bind]. change (m_data (freshRLP [c])) with [c]. rewrite Hi. cbn [mbind result_bind].
    rewrite newRLP_item by done. cbn [mbind result_bind]. change (m_data (freshRLP (rlpData (wire items)))) with (rlpData (wire items)).
    rewrite toBytes_data by done. cbn [mbind result_bind]. by rewrite Hu.
Qed.

Ltac item_goods := repeat (first [apply Forall_nil; exact I | apply Forall_cons; split; [first [apply encU32_props|done]|]]).
Ltac item_sizes :=
  rewrite !zlen_mjoin; change (zlen (mjoin [])) with 0;
  repeat match goal with |- context [zlen (rlpData (toCompactBigEndian (wrapU 32 ?i) 0))] =>
    let H := fresh in pose proof (proj2 (encU32_props i)) as H; cbn beta in H; revert H; generalize (zlen (rlpData (toCompactBigEndian (wrapU 32 i) 0))) end;
  intros; lia.

Lemma voteReq_stream m c t n :
  voteReq_fields (mkVoteReq m c t n) emptyStream = Ok (mkStream (mjoin (raft_items m ++ [encU32 c; encU32 t; encU32 n])) []).
Proof.
  unfold voteReq_fields. cbn [vq_msg candidate vq_lastLeaderTerm lastBlockNumber]. change emptyStream with (mkStream (mjoin []) []).
  rewrite raft_fields_items. cbn [mbind result_bind]. do 3 (rewrite append_flat with (enc := encU32) by apply appendUnsigned_spec; cbn [mbind result_bind]).
  by rewrite <- !app_assoc.
Qed.
Lemma voteResp_stream m f t :
  voteResp_fields (mkVoteResp m f t) emptyStream = Ok (mkStream (mjoin (raft_items m ++ [encU32 f; encU32 t])) []).
Proof.
  unfold voteResp_fields. cbn [vr_msg voteFlag vr_lastLeaderTerm]. change emptyStream with (mkStream (mjoin []) []).
  rewrite raft_fields_items. cbn [mbind result_bind]. do 2 (rewrite append_flat with (enc := encU32) by apply appendUnsigned_spec; cbn [mbind result_bind]).
  by rewrite <- !app_assoc.
Qed.
Lemma heartBeat_stream m l b n :
  rlp_fits b → heartBeat_fields (mkHeartBeat m l b n) emptyStream = Ok (mkStream (mjoin (raft_items m ++ [encU32 l; rlpData b; encU32 n])) []).
Proof.
  intros Hb. unfold heartBeat_fields. cbn [hb_msg hb_leader uncommitedBlock uncommitedBlockNumber]. change emptyStream with (mkStream (mjoin []) []).
  rewrite raft_fields_items. cbn [mbind result_bind]. rewrite append_flat with (enc := encU32) by apply appendUnsigned_spec.
  cbn [mbind result_bind]. rewrite append_flat with (app := λ d, appendBytes d false) (enc := rlpData) by by apply appendBytes_spec.
  cbn [mbind result_bind]. rewrite append_flat with (enc := encU32) by apply appendUnsigned_spec. by rewrite <- !app_assoc.
Qed.
Lemma heartBeatResp_stream m h :
  heartBeatResp_fields (mkHeartBeatResp m h) emptyStream = Ok (mkStream (mjoin (raft_items m ++ [encHash 32 h])) []).
Proof.
  unfold heartBeatResp_fields. cbn [hr_msg uncommitedBlockHash]. change emptyStream with (mkStream (mjoin []) []).
  rewrite raft_fields_items. cbn [mbind result_bind]. rewrite append_flat with (enc := encHash 32) by by apply appendHash_spec.
  by rewrite <- !app_assoc.
Qed.

Lemma raft_items_rest m rest n :
  Forall good_item rest → zlen (mjoin rest) ≤ n →
  Forall good_item (raft_items m ++ rest) ∧ zlen (mjoin (raft_items m ++ rest)) ≤ 200 + n.
Proof.
  intros Hg Hn. destruct (raft_items_good m) as [Hi Hz]. split; [by apply Forall_app_2|]. rewrite join_app, zlen_app. lia.
Qed.

(** The messages of Raft survive the wire: what a node sends is accepted as a packet of
    its type, and the receiver reads the fields sent, terms, heights and block numbers
    modulo 2^32. *)
Theorem raft_messages_arrive m (c t n f l : Z) (b : bytes) (h : Z) :
  raft_wf m → 0 ≤ c < 2 ^ 16 → 0 ≤ f < 2 ^ 8 → 0 ≤ l < 2 ^ 16 → 0 ≤ h < 2 ^ 256 → zlen b < 2 ^ 60 →
  let arrives {A} fields populate ty (x : A) :=
    ∃ d data, transDataToMessage fields ty = Ok d ∧ raftPacket_decode d = Ok (ty, data) ∧ decode_item populate data 0 = Ok x in
  let m' := raft_received m in
  arrives (voteReq_fields (mkVoteReq m c t n)) voteReq_populate RaftVoteReqPacket (mkVoteReq m' c (wrapU 32 t) (wrapU 32 n))
  ∧ arrives (voteResp_fields (mkVoteResp m f t)) voteResp_populate RaftVoteRespPacket (mkVoteResp m' f (wrapU 32 t))
  ∧ arrives (heartBeat_fields (mkHeartBeat m l b n)) heartBeat_populate RaftHeartBeatPacket (mkHeartBeat m' l b (wrapU 32 n))
  ∧ arrives (heartBeatResp_fields (mkHeartBeatResp m h)) heartBeatResp_populate RaftHeartBeatRespPacket (mkHeartBeatResp m' h).
Proof.
  intros Hm Hc Hf Hl Hh Hb arrives m'. assert (rlp_fits b) as Hfit by (unfold rlp_fits; lia).
  destruct (rlpData_good _ Hfit) as [Hgb _]. pose proof (zlen_rlpData _ Hfit). pose proof (zlen_encHash 32 h ltac:(lia)).
  split_and!; unfold arrives.
  - destruct (raft_items_rest m [encU32 c; encU32 t; encU32 n] 123) as [Hg Hz]; [by item_goods|by item_sizes|].
    destruct (raft_delivered (voteReq_fields (mkVoteReq m c t n)) _ voteReq_populate (mkVoteReq m' c (wrapU 32 t) (wrapU 32 n)) RaftVoteReqPacket
      (voteReq_stream m c t n)) as (d & ? & ? & ?); [lia| |done|by eexists d, _].
    unfold voteReq_populate. eapply reads_bind; [by apply raft_populate_items|].
    reads_step ltac:(fun _ => apply (toInt_U32_narrow T_uint16 16); [auto|done]).
    reads_step ltac:(fun _ => apply toInt_U32_u64). reads_step ltac:(fun _ => apply toInt_U32_i64). apply reads_ret.
  - destruct (raft_items_rest m [encU32 f; encU32 t] 123) as [Hg Hz]; [by item_goods|by item_sizes|].
    destruct (raft_delivered (voteResp_fields (mkVoteResp m f t)) _ voteResp_populate (mkVoteResp m' f (wrapU 32 t)) RaftVoteRespPacket
      (voteResp_stream m f t)) as (d & ? & ? & ?); [lia| |done|by eexists d, _].
    unfold voteResp_populate. eapply reads_bind; [by apply raft_populate_items|].
    reads_step ltac:(fun _ => apply (toInt_U32_narrow T_uint8 8); [auto|done]).
    reads_step ltac:(fun _ => apply toInt_U32_u64). apply reads_ret.
  - destruct (raft_items_rest m [encU32 l; rlpData b; encU32 n] (2 ^ 60 + 100)) as [Hg Hz]; [by item_goods|by item_sizes|].
    destruct (raft_delivered (heartBeat_fields (mkHeartBeat m l b n)) _ heartBeat_populate (mkHeartBeat m' l b (wrapU 32 n)) RaftHeartBeatPacket
      (heartBeat_stream m l b n Hfit)) as (d & ? & ? & ?); [lia| |done|by eexists d, _].
    unfold heartBeat_populate. eapply reads_bind; [by apply raft_populate_items|].
    reads_step ltac:(fun _ => apply (toInt_U32_narrow T_uint16 16); [auto|done]).
    reads_step ltac:(fun _ => by apply toBytes_data). reads_step ltac:(fun _ => apply toInt_U32_i64). apply reads_ret.
  - destruct (raft_items_rest m [encHash 32 h] 123) as [Hg Hz]; [apply Forall_singleton; by apply encHash_good|by item_sizes|].
    destruct (raft_delivered (heartBeatResp_fields (mkHeartBeatResp m h)) _ heartBeatResp_populate (mkHeartBeatResp m' h) RaftHeartBeatRespPacket
      (heartBeatResp_stream m h)) as (d & ? & ? & ?); [lia| |done|by eexists d, _].
    unfold heartBeatResp_populate. eapply reads_bind; [by apply raft_populate_items|].
    reads_step ltac:(fun _ => by apply (toHash_enc 32 256)). apply reads_ret.
Qed.

Lemma raft_messages_arrive_witness :
  ∃ d data, transDataToMessage (voteReq_fields (mkVoteReq (mkRaft 1 3 5 7) 1 2 (2 ^ 32 + 5))) RaftVoteReqPacket = Ok d
    ∧ raftPacket_decode d = Ok (RaftVoteReqPacket, data)
    ∧ decode_item voteReq_populate data 0 = Ok (mkVoteReq (mkRaft 1 3 5 7) 1 2 5).
Proof.
  apply (raft_messages_arrive (mkRaft 1 3 5 7) 1 2 (2 ^ 32 + 5) 6 1 [] 9); [|lia|lia|lia|lia|done]. split; cbn; lia.
Defined.
