(* ===== verification/Raft.v ===== *)
(** * The Raft engine (libconsensus/raft/RaftEngine.h, RaftEngine.cpp, RaftSealer)

    The members [m_x] of [RaftEngine] are grouped: what elections read ([Election]), the
    timers ([Timing]), the block that waits to be committed ([Pending]), and the rest with
    the members of the base class.  An operation is an [act]: a function on the engine that
    returns or throws, keeping the state reached.  What other modules answer is a
    [RaftEnv]; time points are in nanoseconds; [std::rand] is a stream that the engine
    reads on.  The calls on other modules, the messages taken from the queue,
    the switches between roles and the waking of the sealer are logged.  The loops of the three roles are the program counter [raft_pc]; one [work] is
    one turn of the loop the thread is in. *)
From S2P Require Import Prelude CommonData RLP Crypto BlockHeader TxsParser Block PBFTMsg BlockChain EngineBase RaftMsg.
Local Open Scope Z_scope.

(** ** State and exceptions *)

(** What leaves an operation: an exception, or the use of a null pointer, which ends the
    process. *)
Inductive raft_exn := RaftRLP (e : dev_exn) | RaftBlock (e : eth_exn) | RaftFailed (e : engine_exn) | NullPointer.

Definition act (S A : Type) : Type := S → S * result raft_exn A.
#[export] Instance act_ret {S} : MRet (act S) := λ A a s, (s, Ok a).
#[export] Instance act_bind {S} : MBind (act S) := λ A B k m s,
  let '(s', r) := m s in match r with Ok a => k a s' | Throw x => (s', Throw x) end.
Definition gets {S A} (f : S → A) : act S A := λ s, (s, Ok (f s)).
Definition modify {S} (f : S → S) : act S unit := λ s, (f s, Ok tt).
Definition raise {S A} (x : raft_exn) : act S A := λ s, (s, Throw x).
Definition attempt {S A E} (lift : E → raft_exn) (r : result E A) : act S A := λ s,
  (s, match r with Ok a => Ok a | Throw x => Throw (lift x) end).
(** A [try] with a handler for every exception. *)
Definition caught {S A} (m : act S A) : act S (option A) := λ s,
  let '(s', r) := m s in
  (s', match r with Ok a => Ok (Some a) | Throw NullPointer => Throw NullPointer | Throw _ => Ok None end).

Record Election := mkElection {
  rl_state : RaftRole; rl_term : Z; rl_lastLeaderTerm : Z; rl_firstVote : Z; rl_leader : Z; rl_vote : Z;
  rl_heartbeatCount : Z }.
Definition set_rl_state v (s : Election) : Election := mkElection v (rl_term s)
  (rl_lastLeaderTerm s) (rl_firstVote s) (rl_leader s) (rl_vote s) (rl_heartbeatCount s).
Definition set_rl_term v (s : Election) : Election := mkElection (rl_state s) v
  (rl_lastLeaderTerm s) (rl_firstVote s) (rl_leader s) (rl_vote s) (rl_heartbeatCount s).
Definition set_rl_lastLeaderTerm v (s : Election) : Election := mkElection (rl_state s) (rl_term
  s) v (rl_firstVote s) (rl_leader s) (rl_vote s) (rl_heartbeatCount s).
Definition set_rl_firstVote v (s : Election) : Election := mkElection (rl_state s) (rl_term s)
  (rl_lastLeaderTerm s) v (rl_leader s) (rl_vote s) (rl_heartbeatCount s).
Definition set_rl_leader v (s : Election) : Election := mkElection (rl_state s) (rl_term s)
  (rl_lastLeaderTerm s) (rl_firstVote s) v (rl_vote s) (rl_heartbeatCount s).
Definition set_rl_vote v (s : Election) : Election := mkElection (rl_state s) (rl_term s)
  (rl_lastLeaderTerm s) (rl_firstVote s) (rl_leader s) v (rl_heartbeatCount s).
Definition set_rl_heartbeatCount v (s : Election) : Election := mkElection (rl_state s) (rl_term
  s) (rl_lastLeaderTerm s) (rl_firstVote s) (rl_leader s) (rl_vote s) v.

Record Timing := mkTiming {
  rt_electTimeout : Z; rt_minElectTimeout : Z; rt_maxElectTimeout : Z;
  rt_minElectTimeoutInit : Z; rt_maxElectTimeoutInit : Z; rt_minElectTimeoutBoundary : Z; rt_maxElectTimeoutBoundary : Z;
  rt_lastElectTime : Z; rt_heartbeatTimeout : Z; rt_heartbeatInterval : Z; rt_lastHeartbeatTime : Z; rt_lastHeartbeatReset : Z;
  rt_increaseTime : Z }.
Definition set_rt_electTimeout v (s : Timing) : Timing := mkTiming v (rt_minElectTimeout s)
  (rt_maxElectTimeout s) (rt_minElectTimeoutInit s) (rt_maxElectTimeoutInit s)
  (rt_minElectTimeoutBoundary s) (rt_maxElectTimeoutBoundary s) (rt_lastElectTime s)
  (rt_heartbeatTimeout s) (rt_heartbeatInterval s) (rt_lastHeartbeatTime s)
  (rt_lastHeartbeatReset s) (rt_increaseTime s).
Definition set_rt_minElectTimeout v (s : Timing) : Timing := mkTiming (rt_electTimeout s) v
  (rt_maxElectTimeout s) (rt_minElectTimeoutInit s) (rt_maxElectTimeoutInit s)
  (rt_minElectTimeoutBoundary s) (rt_maxElectTimeoutBoundary s) (rt_lastElectTime s)
  (rt_heartbeatTimeout s) (rt_heartbeatInterval s) (rt_lastHeartbeatTime s)
  (rt_lastHeartbeatReset s) (rt_increaseTime s).
Definition set_rt_maxElectTimeout v (s : Timing) : Timing := mkTiming (rt_electTimeout s)
  (rt_minElectTimeout s) v (rt_minElectTimeoutInit s) (rt_maxElectTimeoutInit s)
  (rt_minElectTimeoutBoundary s) (rt_maxElectTimeoutBoundary s) (rt_lastElectTime s)
  (rt_heartbeatTimeout s) (rt_heartbeatInterval s) (rt_lastHeartbeatTime s)
  (rt_lastHeartbeatReset s) (rt_increaseTime s).
Definition set_rt_minElectTimeoutInit v (s : Timing) : Timing := mkTiming (rt_electTimeout s)
  (rt_minElectTimeout s) (rt_maxElectTimeout s) v (rt_maxElectTimeoutInit s)
  (rt_minElectTimeoutBoundary s) (rt_maxElectTimeoutBoundary s) (rt_lastElectTime s)
  (rt_heartbeatTimeout s) (rt_heartbeatInterval s) (rt_lastHeartbeatTime s)
  (rt_lastHeartbeatReset s) (rt_increaseTime s).
Definition set_rt_maxElectTimeoutInit v (s : Timing) : Timing := mkTiming (rt_electTimeout s)
  (rt_minElectTimeout s) (rt_maxElectTimeout s) (rt_minElectTimeoutInit s) v
  (rt_minElectTimeoutBoundary s) (rt_maxElectTimeoutBoundary s) (rt_lastElectTime s)
  (rt_heartbeatTimeout s) (rt_heartbeatInterval s) (rt_lastHeartbeatTime s)
  (rt_lastHeartbeatReset s) (rt_increaseTime s).
Definition set_rt_minElectTimeoutBoundary v (s : Timing) : Timing := mkTiming (rt_electTimeout
  s) (rt_minElectTimeout s) (rt_maxElectTimeout s) (rt_minElectTimeoutInit s)
  (rt_maxElectTimeoutInit s) v (rt_maxElectTimeoutBoundary s) (rt_lastElectTime s)
  (rt_heartbeatTimeout s) (rt_heartbeatInterval s) (rt_lastHeartbeatTime s)
  (rt_lastHeartbeatReset s) (rt_increaseTime s).
Definition set_rt_maxElectTimeoutBoundary v (s : Timing) : Timing := mkTiming (rt_electTimeout
  s) (rt_minElectTimeout s) (rt_maxElectTimeout s) (rt_minElectTimeoutInit s)
  (rt_maxElectTimeoutInit s) (rt_minElectTimeoutBoundary s) v (rt_lastElectTime s)
  (rt_heartbeatTimeout s) (rt_heartbeatInterval s) (rt_lastHeartbeatTime s)
  (rt_lastHeartbeatReset s) (rt_increaseTime s).
Definition set_rt_lastElectTime v (s : Timing) : Timing := mkTiming (rt_electTimeout s)
  (rt_minElectTimeout s) (rt_maxElectTimeout s) (rt_minElectTimeoutInit s)
  (rt_maxElectTimeoutInit s) (rt_minElectTimeoutBoundary s) (rt_maxElectTimeoutBoundary s) v
  (rt_heartbeatTimeout s) (rt_heartbeatInterval s) (rt_lastHeartbeatTime s)
  (rt_lastHeartbeatReset s) (rt_increaseTime s).
Definition set_rt_heartbeatTimeout v (s : Timing) : Timing := mkTiming (rt_electTimeout s)
  (rt_minElectTimeout s) (rt_maxElectTimeout s) (rt_minElectTimeoutInit s)
  (rt_maxElectTimeoutInit s) (rt_minElectTimeoutBoundary s) (rt_maxElectTimeoutBoundary s)
  (rt_lastElectTime s) v (rt_heartbeatInterval s) (rt_lastHeartbeatTime s)
  (rt_lastHeartbeatReset s) (rt_increaseTime s).
Definition set_rt_heartbeatInterval v (s : Timing) : Timing := mkTiming (rt_electTimeout s)
  (rt_minElectTimeout s) (rt_maxElectTimeout s) (rt_minElectTimeoutInit s)
  (rt_maxElectTimeoutInit s) (rt_minElectTimeoutBoundary s) (rt_maxElectTimeoutBoundary s)
  (rt_lastElectTime s) (rt_heartbeatTimeout s) v (rt_lastHeartbeatTime s) (rt_lastHeartbeatReset
  s) (rt_increaseTime s).
Definition set_rt_lastHeartbeatTime v (s : Timing) : Timing := mkTiming (rt_electTimeout s)
  (rt_minElectTimeout s) (rt_maxElectTimeout s) (rt_minElectTimeoutInit s)
  (rt_maxElectTimeoutInit s) (rt_minElectTimeoutBoundary s) (rt_maxElectTimeoutBoundary s)
  (rt_lastElectTime s) (rt_heartbeatTimeout s) (rt_heartbeatInterval s) v (rt_lastHeartbeatReset
  s) (rt_increaseTime s).
Definition set_rt_lastHeartbeatReset v (s : Timing) : Timing := mkTiming (rt_electTimeout s)
  (rt_minElectTimeout s) (rt_maxElectTimeout s) (rt_minElectTimeoutInit s)
  (rt_maxElectTimeoutInit s) (rt_minElectTimeoutBoundary s) (rt_maxElectTimeoutBoundary s)
  (rt_lastElectTime s) (rt_heartbeatTimeout s) (rt_heartbeatInterval s) (rt_lastHeartbeatTime s)
  v (rt_increaseTime s).
Definition set_rt_increaseTime v (s : Timing) : Timing := mkTiming (rt_electTimeout s)
  (rt_minElectTimeout s) (rt_maxElectTimeout s) (rt_minElectTimeoutInit s)
  (rt_maxElectTimeoutInit s) (rt_minElectTimeoutBoundary s) (rt_maxElectTimeoutBoundary s)
  (rt_lastElectTime s) (rt_heartbeatTimeout s) (rt_heartbeatInterval s) (rt_lastHeartbeatTime s)
  (rt_lastHeartbeatReset s) v.

(** The uncommitted block, its number, the flags of the thread that waits for it, and the
    indices that acknowledged a block, by hash. *)
Record Pending := mkPending { pd_block : Block; pd_number : Z; pd_ready : bool; pd_waiting : bool; pd_finger : gmap Z (gset Z) }.
Definition set_pd_block v (s : Pending) : Pending := mkPending v (pd_number s) (pd_ready s)
  (pd_waiting s) (pd_finger s).
Definition set_pd_number v (s : Pending) : Pending := mkPending (pd_block s) v (pd_ready s)
  (pd_waiting s) (pd_finger s).
Definition set_pd_ready v (s : Pending) : Pending := mkPending (pd_block s) (pd_number s) v
  (pd_waiting s) (pd_finger s).
Definition set_pd_waiting v (s : Pending) : Pending := mkPending (pd_block s) (pd_number s)
  (pd_ready s) v (pd_finger s).
Definition set_pd_finger v (s : Pending) : Pending := mkPending (pd_block s) (pd_number s)
  (pd_ready s) (pd_waiting s) v.

Inductive raft_event :=
| RSend (node : Z) (data : bytes)
| RNodeList (nodes : list Z)
| RNoteSealing (number : Z)
| RCommit (b : Block) (r : CommitResult)
| RDropTxs (b : Block)
| RBadBlock (b : Block)
| RPop (p : RaftMsgPacket)
| RSwitch (r : RaftRole) (currentTerm : Z)
| RWake.

Section members.
Context {K C : Type}.
Record RaftEngineOf := mkRaftEngine {
  rf_base : EngineBaseOf K; rf_elect : Election; rf_timing : Timing; rf_pending : Pending;
  rf_memberBlock : gmap Z (Z * Z); rf_msgQueue : list RaftMsgPacket; rf_lastBlockTime : Z; rf_connectedNode : Z;
  rf_chain : C; rf_rnd : nat; rf_log : list raft_event }.
Definition set_rf_base v (s : RaftEngineOf) : RaftEngineOf := mkRaftEngine v (rf_elect s)
  (rf_timing s) (rf_pending s) (rf_memberBlock s) (rf_msgQueue s) (rf_lastBlockTime s)
  (rf_connectedNode s) (rf_chain s) (rf_rnd s) (rf_log s).
Definition set_rf_elect v (s : RaftEngineOf) : RaftEngineOf := mkRaftEngine (rf_base s) v
  (rf_timing s) (rf_pending s) (rf_memberBlock s) (rf_msgQueue s) (rf_lastBlockTime s)
  (rf_connectedNode s) (rf_chain s) (rf_rnd s) (rf_log s).
Definition set_rf_timing v (s : RaftEngineOf) : RaftEngineOf := mkRaftEngine (rf_base s)
  (rf_elect s) v (rf_pending s) (rf_memberBlock s) (rf_msgQueue s) (rf_lastBlockTime s)
  (rf_connectedNode s) (rf_chain s) (rf_rnd s) (rf_log s).
Definition set_rf_pending v (s : RaftEngineOf) : RaftEngineOf := mkRaftEngine (rf_base s)
  (rf_elect s) (rf_timing s) v (rf_memberBlock s) (rf_msgQueue s) (rf_lastBlockTime s)
  (rf_connectedNode s) (rf_chain s) (rf_rnd s) (rf_log s).
Definition set_rf_memberBlock v (s : RaftEngineOf) : RaftEngineOf := mkRaftEngine (rf_base s)
  (rf_elect s) (rf_timing s) (rf_pending s) v (rf_msgQueue s) (rf_lastBlockTime s)
  (rf_connectedNode s) (rf_chain s) (rf_rnd s) (rf_log s).
Definition set_rf_msgQueue v (s : RaftEngineOf) : RaftEngineOf := mkRaftEngine (rf_base s)
  (rf_elect s) (rf_timing s) (rf_pending s) (rf_memberBlock s) v (rf_lastBlockTime s)
  (rf_connectedNode s) (rf_chain s) (rf_rnd s) (rf_log s).
Definition set_rf_lastBlockTime v (s : RaftEngineOf) : RaftEngineOf := mkRaftEngine (rf_base s)
  (rf_elect s) (rf_timing s) (rf_pending s) (rf_memberBlock s) (rf_msgQueue s) v
  (rf_connectedNode s) (rf_chain s) (rf_rnd s) (rf_log s).
Definition set_rf_connectedNode v (s : RaftEngineOf) : RaftEngineOf := mkRaftEngine (rf_base s)
  (rf_elect s) (rf_timing s) (rf_pending s) (rf_memberBlock s) (rf_msgQueue s) (rf_lastBlockTime
  s) v (rf_chain s) (rf_rnd s) (rf_log s).
Definition set_rf_chain v (s : RaftEngineOf) : RaftEngineOf := mkRaftEngine (rf_base s)
  (rf_elect s) (rf_timing s) (rf_pending s) (rf_memberBlock s) (rf_msgQueue s) (rf_lastBlockTime
  s) (rf_connectedNode s) v (rf_rnd s) (rf_log s).
Definition set_rf_rnd v (s : RaftEngineOf) : RaftEngineOf := mkRaftEngine (rf_base s) (rf_elect
  s) (rf_timing s) (rf_pending s) (rf_memberBlock s) (rf_msgQueue s) (rf_lastBlockTime s)
  (rf_connectedNode s) (rf_chain s) v (rf_log s).
Definition set_rf_log v (s : RaftEngineOf) : RaftEngineOf := mkRaftEngine (rf_base s) (rf_elect
  s) (rf_timing s) (rf_pending s) (rf_memberBlock s) (rf_msgQueue s) (rf_lastBlockTime s)
  (rf_connectedNode s) (rf_chain s) (rf_rnd s) v.

Definition on_rbase (f : EngineBaseOf K → EngineBaseOf K) (e : RaftEngineOf) : RaftEngineOf := set_rf_base (f (rf_base e)) e.
Definition on_elect (f : Election → Election) (e : RaftEngineOf) : RaftEngineOf := set_rf_elect (f (rf_elect e)) e.
Definition on_timing (f : Timing → Timing) (e : RaftEngineOf) : RaftEngineOf := set_rf_timing (f (rf_timing e)) e.
Definition on_pending (f : Pending → Pending) (e : RaftEngineOf) : RaftEngineOf := set_rf_pending (f (rf_pending e)) e.
Definition r_emit (ev : list raft_event) (e : RaftEngineOf) : RaftEngineOf := set_rf_log (rf_log e ++ ev) e.
End members.
Arguments RaftEngineOf : clear implicits.

(** What the other modules answer during a step: the synchroniser, the sessions, the
    clocks, the system tables and the database. *)
Record RaftEnv := mkRaftEnv {
  rv_syncing : bool; rv_sessions : list Z; rv_now : Z; rv_utcTime : Z; rv_ledger : Ledger; rv_dbOk : bool }.
Definition raft_steadyTime (env : RaftEnv) : Z := wrapU 64 (Z.quot (rv_now env) 1000000).

Record VoteState := mkVoteState { vs_vote : Z; vs_unVote : Z; vs_lastTermErr : Z; vs_firstVote : Z; vs_discardedVote : Z; vs_outdated : Z }.
Definition totalVoteCount (v : VoteState) : Z :=
  wrapU 64 (vs_vote v + vs_unVote v + vs_lastTermErr v + vs_firstVote v + vs_discardedVote v + vs_outdated v).
Definition InvalidIndex : Z := 2 ^ 16 - 1.
Definition s_heartBeatIntervalRatio : Z := 4.

Section raft.
Context `{Crypto} {C : Type} `{BlockChainInterface C}.
Local Abbreviation RaftEngine := (RaftEngineOf KeyPair C).
Local Abbreviation RA := (act RaftEngine).

(** [std::rand], the parsers of blocks, and the executor: on a block and its parent's
    header it throws, returns a null context, or the executed block. *)
Context (rand : nat → Z) (decodeTx : bytes → option Transaction) (decodeReceipt : bytes → option TransactionReceipt)
        (executeBlock : Block → BlockHeader → result engine_exn (option Block)).

Definition term (e : RaftEngine) : Z := rl_term (rf_elect e).
Definition role (e : RaftEngine) : RaftRole := rl_state (rf_elect e).
Definition raft_highest (e : RaftEngine) : Z := m_number (eb_highestBlock (rf_base e)).
Definition raft_highestHash (e : RaftEngine) : Z := headerHash (eb_highestBlock (rf_base e)).
Definition uncommitted (e : RaftEngine) : bool := headerSet (b_header (pd_block (rf_pending e))).
Definition uncommittedHash (e : RaftEngine) : Z := headerHash (b_header (pd_block (rf_pending e))).
(** [m_nodeNum - m_f], an [int]. *)
Definition majority (e : RaftEngine) : Z := eb_nodeNum (rf_base e) - eb_f (rf_base e).
(** [wonElection] and [isMajorityVote]. *)
Definition isMajorityVote (votes : Z) (e : RaftEngine) : bool := majority e <=? votes.

Section step.
Context (env : RaftEnv).

(** ** Timers and roles *)

Definition resetElectTimeout : RA unit :=
  modify (λ e, let t := rf_timing e in
    let span := wrapU 32 (rt_maxElectTimeout t - rt_minElectTimeout t) in
    let timeout := wrapU 32 (rt_minElectTimeout t + wrapU 32 (Z.rem (rand (rf_rnd e)) 100 * span) / 100) in
    set_rf_rnd (S (rf_rnd e)) (set_rf_timing (set_rt_lastElectTime (rv_now env) (set_rt_electTimeout timeout t)) e)).

Definition increase_time (t : Timing) : Timing :=
  if rt_maxElectTimeoutBoundary t <? wrapU 32 (rt_maxElectTimeout t + rt_increaseTime t)
  then set_rt_maxElectTimeout (rt_maxElectTimeoutBoundary t) t
  else set_rt_minElectTimeout (wrapU 32 (rt_minElectTimeout t + rt_increaseTime t))
         (set_rt_maxElectTimeout (wrapU 32 (rt_maxElectTimeout t + rt_increaseTime t)) t).
Definition increaseElectTime : RA unit := modify (on_timing increase_time).
Definition recoverElectTime : RA unit :=
  modify (on_timing (λ t, set_rt_minElectTimeout (rt_minElectTimeoutInit t) (set_rt_maxElectTimeout (rt_maxElectTimeoutInit t) t))).

(** The three switches end by logging the term. *)
Definition noteSwitch : RA unit := modify (λ e, r_emit [RSwitch (role e) (term e)] e).
Definition switchToLeader : RA unit :=
  _ ← modify (λ e, on_elect (λ l, set_rl_state EN_STATE_LEADER (set_rl_leader (eb_idx (rf_base e)) l)) e);
  _ ← recoverElectTime;
  noteSwitch.

Definition drop_pending (p : Pending) : Pending := set_pd_number 0 (set_pd_block emptyBlock p).
Definition switchToFollower (leader : Z) : RA unit :=
  _ ← modify (on_elect (λ l, set_rl_heartbeatCount 0 (set_rl_state EN_STATE_FOLLOWER (set_rl_leader leader l))));
  _ ← modify (on_pending (λ p, if pd_waiting p then set_pd_ready true (drop_pending p) else p));
  _ ← resetElectTimeout;
  noteSwitch.

(** [resetConfig]. *)
Definition raft_resetConfig : RA unit :=
  limit ← attempt RaftFailed (match lg_txCountLimit (rv_ledger env) with Some n => Ok n | None => Throw BadLexicalCast end);
  _ ← modify (on_rbase (set_eb_maxBlockTransactions limit));
  _ ← modify (λ e, let '(b, nodes) := updateConsensusNodeList (bci_number (rf_chain e)) (rv_ledger env) (rf_base e) in
                   r_emit (match nodes with Some l => [RNodeList l] | None => [] end) (set_rf_base b e));
  b ← gets rf_base;
  let nodeNum := zlen (eb_sealerList b) in
  if nodeNum =? 0 then modify (on_rbase (set_eb_cfgErr true))
  else
    match list_find (λ s, s = pub (eb_keyPair b)) (eb_sealerList b) with
    | None => modify (on_rbase (λ b, set_eb_accountType ObserverAccount (set_eb_cfgErr true b)))
    | Some (i, _) =>
        let nodeIdx := Z.of_nat i in
        let changed := negb (nodeNum =? eb_nodeNum b) || negb (nodeIdx =? eb_idx b) in
        _ ← modify (on_rbase (set_eb_accountType SealerAccount));
        _ ← (if changed then
               modify (on_rbase (λ b, set_eb_f (wrapU 16 (Z.quot (wrapU 16 nodeNum - 1) 2))
                                        (set_eb_idx (wrapU 16 nodeIdx) (set_eb_nodeNum (wrapU 16 nodeNum) b))))
             else mret tt);
        _ ← modify (on_rbase (set_eb_cfgErr false));
        if changed then _ ← switchToFollower InvalidIndex; resetElectTimeout else mret tt
    end.

Definition switchToCandidate : RA unit :=
  _ ← raft_resetConfig;
  _ ← modify (on_elect (λ l, set_rl_state EN_STATE_CANDIDATE (set_rl_leader InvalidIndex (set_rl_term (wrapU 64 (rl_term l + 1)) l))));
  _ ← resetElectTimeout;
  noteSwitch.

(** [initRaftEnv]. *)
Definition initRaftEnv : RA unit :=
  _ ← raft_resetConfig;
  _ ← modify (on_timing (λ t,
        let min := rt_minElectTimeout t in
        let max := rt_maxElectTimeout t in
        let span := wrapU 32 (max - min) in
        mkTiming (rt_electTimeout t) min max min max min (wrapU 32 (max + span / 2)) (rv_now env) min
          (min / s_heartBeatIntervalRatio) (rv_now env) (rt_lastHeartbeatReset t) (span / 4)));
  resetElectTimeout.

Definition checkHeartbeatTimeout (e : RaftEngine) : bool :=
  rt_heartbeatTimeout (rf_timing e) <=? Z.quot (rv_now env - rt_lastHeartbeatReset (rf_timing e)) 1000000.
Definition checkElectTimeout (e : RaftEngine) : bool :=
  rt_electTimeout (rf_timing e) * 1000000 <=? rv_now env - rt_lastElectTime (rf_timing e).

(** Both tests of [m_firstVote] and [m_leader] against [Invalid256] compare 16 bits with
    2^256 - 1. *)
Definition clear_firstVote (l : Election) : Election :=
  if negb (rl_firstVote l =? Invalid256) then
    let count := wrapU 32 (rl_heartbeatCount l + 1) in
    if 2 * s_heartBeatIntervalRatio <=? count then set_rl_firstVote InvalidIndex (set_rl_heartbeatCount 0 l)
    else set_rl_heartbeatCount count l
  else l.
Definition clearFirstVoteCache : RA unit := modify (on_elect clear_firstVote).

(** ** Sending *)

(** [broadcastMsg]: to the sessions of sealers. *)
Definition raft_broadcastMsg (data : bytes) : RA unit :=
  modify (λ e, r_emit ((λ n, RSend n data) <$> filter (λ n, 0 <= getIndexBySealer n (rf_base e)) (rv_sessions env))
    (set_rf_connectedNode (wrapU 16 (zlen (rv_sessions env))) e)).

(** [sendResponse]; what it streams before it looks for the session cannot throw. *)
Definition sendResponse (node packetType : Z) (fields : RLPStream → result dev_exn RLPStream) : RA bool :=
  e ← gets id;
  if bool_decide (node ∈ rv_sessions env) && (0 <=? getIndexBySealer node (rf_base e)) then
    d ← attempt RaftRLP (transDataToMessage fields packetType);
    _ ← modify (r_emit [RSend node d]);
    mret true
  else mret false.

Definition ownMsg (e : RaftEngine) : RaftMsg := mkRaft (eb_idx (rf_base e)) (term e) (raft_highest e) (raft_highestHash e).

Definition generateHeartbeat : RA bytes :=
  e ← gets id;
  let hb := mkHeartBeat (ownMsg e) (eb_idx (rf_base e)) in
  hb ← (if uncommitted e then
          enc ← attempt RaftBlock (block_encode (pd_block (rf_pending e)));
          _ ← modify (on_pending (λ p, set_pd_finger
                (<[uncommittedHash e := default ∅ (pd_finger p !! uncommittedHash e) ∪ {[eb_idx (rf_base e)]}]> (pd_finger p))
                (set_pd_block enc.1 p)));
          mret (hb enc.2 (eb_consensusBlockNumber (rf_base e)))
        else mret (hb [] 0));
  attempt RaftRLP (transDataToMessage (heartBeat_fields hb) RaftHeartBeatPacket).

Definition broadcastHeartbeat : RA unit :=
  t ← gets rf_timing;
  if rt_heartbeatInterval t <=? Z.quot (rv_now env - rt_lastHeartbeatTime t) 1000000 then
    _ ← modify (on_timing (set_rt_lastHeartbeatTime (rv_now env)));
    d ← generateHeartbeat; _ ← raft_broadcastMsg d; clearFirstVoteCache
  else mret tt.

(** The height a node votes by: an uncommitted block counts. *)
Definition voteNumber (e : RaftEngine) : Z := if uncommitted e then bci_number (rf_chain e) + 1 else bci_number (rf_chain e).
Definition broadcastVoteReq : RA unit :=
  e ← gets id;
  d ← attempt RaftRLP (transDataToMessage
        (voteReq_fields (mkVoteReq (ownMsg e) (eb_idx (rf_base e)) (rl_lastLeaderTerm (rf_elect e)) (voteNumber e))) RaftVoteReqPacket);
  raft_broadcastMsg d.

(** ** Committing *)

Definition raft_checkSealerList (b : Block) (e : RaftEngine) : bool := bool_decide (eb_sealerList (rf_base e) = m_sealerList (b_header b)).

(** [getBlockByNumber] of the chain's number. *)
Definition latestBlock : RA (option Block) := λ e,
  let '(c, b) := bci_getBlockByNumber (bci_number (rf_chain e)) (rf_chain e) in (set_rf_chain c e, Ok b).

(** [execBlock], with [checkBlockValid] and [executeBlock] of the base. *)
Definition raft_execBlock (b : Block) : RA (option Block) :=
  e ← gets id;
  let '(c, valid) := checkBlockValid (rv_utcTime env) b (rf_base e) (rf_chain e) in
  _ ← modify (set_rf_chain c);
  _ ← attempt RaftFailed valid;
  _ ← (if raft_checkSealerList b e then mret tt else raise (RaftFailed BlockSealerListWrong));
  _ ← modify (r_emit [RNoteSealing (m_number (b_header b))]);
  parent ← latestBlock;
  match parent with
  | None => raise NullPointer
  | Some p => attempt RaftFailed (executeBlock b (b_header p))
  end.

(** [checkAndSave].  With a null context the writing of the tables ends the process, but
    not a refusal that comes before it. *)
Definition raft_checkAndSave (b : Block) (executed : option Block) : RA unit :=
  e ← gets id;
  let block := default b executed in
  let '(c, ret) := bci_commitBlock (rv_dbOk env) block (rf_chain e) in
  match executed, ret with
  | None, CommitOK | None, ERROR_COMMITTING => raise NullPointer
  | _, CommitOK =>
      _ ← modify (λ e, on_pending drop_pending (r_emit [RCommit block ret] (set_rf_chain c e)));
      modify (r_emit [RDropTxs block])
  | _, _ => modify (λ e, r_emit [RCommit block ret; RBadBlock block] (set_rf_chain c e))
  end.

Definition checkAndExecute (b : Block) : RA bool :=
  r ← caught (raft_execBlock b);
  match r with
  | None => mret false
  | Some executed => _ ← raft_checkAndSave b executed; mret true
  end.

(** [reportBlock]. *)
Definition raft_reportBlock (b : Block) : RA unit :=
  e ← gets id;
  if (bci_number (rf_chain e) =? 0) || (raft_highest e <? m_number (b_header b)) then
    _ ← modify (set_rf_lastBlockTime (raft_steadyTime env));
    highest ← latestBlock;
    match highest with
    | None => raise NullPointer
    | Some h =>
        _ ← modify (on_rbase (set_eb_highestBlock (b_header h)));
        _ ← modify (λ e, on_pending (λ p, drop_pending (set_pd_finger (delete (uncommittedHash e) (pd_finger p)) p)) e);
        _ ← modify (on_rbase (λ b, if eb_consensusBlockNumber b <=? m_number (eb_highestBlock b)
              then set_eb_consensusBlockNumber (wrapS 64 (m_number (eb_highestBlock b) + 1)) b else b));
        raft_resetConfig
    end
  else mret tt.

(** What [tryCommitUncommitedBlock] does with a block it may commit: the thread that waits
    is woken, or the engine commits the block itself. *)
Definition commitNow : RA unit :=
  p ← gets rf_pending;
  if pd_waiting p then modify (λ e, r_emit [RWake] (on_pending (set_pd_ready true) e))
  else
    _ ← checkAndExecute (pd_block p);
    b ← gets (λ e, pd_block (rf_pending e));
    raft_reportBlock b.
Definition tryCommitUncommitedBlock (resp : RaftHeartBeatResp) : RA unit :=
  e ← gets id;
  if negb (uncommitted e) then mret tt
  else if negb (pd_number (rf_pending e) =? eb_consensusBlockNumber (rf_base e)) then modify (on_pending drop_pending)
  else if negb (uncommitedBlockHash resp =? 0) && (uncommitedBlockHash resp =? uncommittedHash e) then
    let acks := default ∅ (pd_finger (rf_pending e) !! uncommittedHash e) ∪ {[rm_idx resp]} in
    _ ← modify (on_pending (λ p, set_pd_finger (<[uncommittedHash e := acks]> (pd_finger p)) p));
    if majority e <=? Z.of_nat (size acks) then commitNow else mret tt
  else if uncommitedBlockHash resp =? 0 then commitNow
  else mret tt.

(** ** Votes *)

Definition reply (node flag : Z) (resp : RaftMsg) (l : Election) : RA bool :=
  _ ← sendResponse node RaftVoteRespPacket (voteResp_fields (mkVoteResp resp flag (rl_lastLeaderTerm l))); mret false.

(** [handleVoteRequest].  For a leader the refusal of a term that is not higher is only
    noted in the response: the tests that follow still run. *)
Definition handleVoteRequest (node : Z) (req : RaftVoteReq) : RA bool :=
  e ← gets id;
  let l := rf_elect e in
  let resp := ownMsg e in
  if (rm_term req <=? rl_term l) && negb (bool_decide (rl_state l = EN_STATE_LEADER)) then
    reply node (if rm_term req =? rl_term l then VOTE_RESP_DISCARD else VOTE_RESP_REJECT) resp l
  else if vq_lastLeaderTerm req <? rl_lastLeaderTerm l then reply node VOTE_RESP_LASTTERM_ERROR resp l
  else if lastBlockNumber req <? voteNumber e then reply node VOTE_RESP_OUTDATED resp l
  else if rl_firstVote l =? InvalidIndex then
    _ ← modify (on_elect (set_rl_firstVote (candidate req)));
    reply node VOTE_RESP_FIRST_VOTE resp l
  else
    _ ← modify (on_elect (λ l, set_rl_vote (candidate req) (set_rl_firstVote (candidate req)
          (set_rl_leader InvalidIndex (set_rl_term (rm_term req) l)))));
    _ ← reply node VOTE_RESP_GRANTED (mkRaft (rm_idx resp) (rm_term req) (rm_height resp) (rm_blockHash resp)) l;
    _ ← resetElectTimeout;
    mret true.

(** [handleVoteResponse]. *)
Definition handleVoteResponse (resp : RaftVoteResp) (v : VoteState) : RA (VoteState * HandleVoteResult) :=
  e ← gets id;
  if rm_term resp <? wrapU 64 (term e - 1) then mret (v, VR_NONE)
  else if voteFlag resp =? VOTE_RESP_REJECT then
    let v := mkVoteState (vs_vote v) (wrapU 64 (vs_unVote v + 1)) (vs_lastTermErr v) (vs_firstVote v) (vs_discardedVote v) (vs_outdated v) in
    if isMajorityVote (vs_unVote v) e then _ ← increaseElectTime; mret (v, TO_FOLLOWER) else mret (v, VR_NONE)
  else if voteFlag resp =? VOTE_RESP_LEADER_REJECT then
    _ ← modify (on_elect (λ l, set_rl_lastLeaderTerm (vr_lastLeaderTerm resp) (set_rl_term (rm_term resp) l)));
    _ ← increaseElectTime; mret (v, TO_FOLLOWER)
  else if voteFlag resp =? VOTE_RESP_LASTTERM_ERROR then
    let v := mkVoteState (vs_vote v) (vs_unVote v) (wrapU 64 (vs_lastTermErr v + 1)) (vs_firstVote v) (vs_discardedVote v) (vs_outdated v) in
    if isMajorityVote (vs_lastTermErr v) e then _ ← increaseElectTime; mret (v, TO_FOLLOWER) else mret (v, VR_NONE)
  else if voteFlag resp =? VOTE_RESP_FIRST_VOTE then
    let v := mkVoteState (vs_vote v) (vs_unVote v) (vs_lastTermErr v) (wrapU 64 (vs_firstVote v + 1)) (vs_discardedVote v) (vs_outdated v) in
    if isMajorityVote (vs_firstVote v) e
    then _ ← modify (on_elect (λ l, set_rl_term (wrapU 64 (rl_term l - 1)) l)); mret (v, TO_FOLLOWER)
    else mret (v, VR_NONE)
  else if voteFlag resp =? VOTE_RESP_DISCARD then
    mret (mkVoteState (vs_vote v) (vs_unVote v) (vs_lastTermErr v) (vs_firstVote v) (wrapU 64 (vs_discardedVote v + 1)) (vs_outdated v), VR_NONE)
  else if voteFlag resp =? VOTE_RESP_OUTDATED then
    mret (mkVoteState (vs_vote v) (vs_unVote v) (vs_lastTermErr v) (vs_firstVote v) (vs_discardedVote v) (wrapU 64 (vs_outdated v + 1)), VR_NONE)
  else if voteFlag resp =? VOTE_RESP_GRANTED then
    let v := mkVoteState (wrapU 64 (vs_vote v + 1)) (vs_unVote v) (vs_lastTermErr v) (vs_firstVote v) (vs_discardedVote v) (vs_outdated v) in
    mret (v, if isMajorityVote (vs_vote v) e then TO_LEADER else VR_NONE)
  else mret (v, VR_NONE).

(** ** Heartbeats *)

Definition step_down (hbTerm : Z) (l : Election) : Election := set_rl_vote InvalidIndex (set_rl_term hbTerm l).
(** The three tests of [handleHeartbeat] that let a node step down. *)
Definition follow (hbTerm : Z) (l : Election) : Election * bool :=
  let '(l, down) := if rl_lastLeaderTerm l <? hbTerm then (step_down hbTerm l, true) else (l, false) in
  let '(l, down) := if rl_term l <? hbTerm then (step_down hbTerm l, true) else (l, down) in
  if bool_decide (rl_state l = EN_STATE_CANDIDATE) && (rl_term l <=? hbTerm) then (step_down hbTerm l, true) else (l, down).

Definition handleHeartbeat (node : Z) (hb : RaftHeartBeat) : RA bool :=
  e ← gets id;
  let resp := ownMsg e in
  let l := rf_elect e in
  if (rm_term hb <? rl_term l) && (rm_term hb <=? rl_lastLeaderTerm l) then mret false
  else if hasData hb && negb (wrapS 64 (uncommitedBlockNumber hb - 1) =? raft_highest e) then mret false
  else
    hash ← (if hasData hb then
              b ← attempt RaftBlock (block_decode decodeTx decodeReceipt true emptyBlock
                                       (uncommitedBlock hb));
              _ ← modify (on_pending (λ p, set_pd_number (uncommitedBlockNumber hb) (set_pd_block b p)));
              mret (headerHash (b_header b))
            else mret 0);
    _ ← sendResponse node RaftHeartBeatRespPacket (heartBeatResp_fields (mkHeartBeatResp resp hash));
    _ ← modify (λ e, on_elect (λ _, set_rl_lastLeaderTerm (rm_term hb) (clear_firstVote (follow (rm_term hb) (rf_elect e)).1)) e);
    _ ← resetElectTimeout;
    mret (follow (rm_term hb) l).2.

(** ** The loops of the three roles *)

(** [tryPop]. *)
Definition tryPop : RA (option RaftMsgPacket) :=
  q ← gets rf_msgQueue;
  match q with
  | [] => mret None
  | p :: q => _ ← modify (λ e, r_emit [RPop p] (set_rf_msgQueue q e)); mret (Some p)
  end.
Definition body {A} (populate : reader dev_exn A) (p : RaftMsgPacket) : RA A := attempt RaftRLP (decode_item populate (rp_data p) 0).

Definition inRole (r : RaftRole) (e : RaftEngine) : bool :=
  bool_decide (role e = r) && bool_decide (eb_accountType (rf_base e) = SealerAccount).

(** The heartbeat log after the response of a node, and whether with this node half
    answered. *)
Definition heard (node n : Z) (log : gmap Z Z) : gmap Z Z * bool :=
  let log := <[node := match log !! node with Some k => wrapU 32 (k + 1) | None => 1 end]> log in
  let count := Z.of_nat (size (filter (λ x, 0 < x.2) log)) in
  if n <=? count + 1 then ((λ k, if 0 <? k then k - 1 else k) <$> log, true) else (log, false).

(** [runAsLeaderImp], [runAsCandidateImp] and [runAsFollowerImp]: whether the loop goes
    on. *)
Definition runAsLeaderImp (log : gmap Z Z) : RA (gmap Z Z * bool) :=
  e ← gets id;
  if negb (inRole EN_STATE_LEADER e) then mret (log, false)
  else if negb (1 <? eb_nodeNum (rf_base e)) then
    _ ← tryCommitUncommitedBlock (mkHeartBeatResp (mkRaft 0 0 0 0) 0); mret (log, true)
  else if checkHeartbeatTimeout e then _ ← switchToCandidate; mret (log, false)
  else
    _ ← broadcastHeartbeat;
    p ← tryPop;
    match p with
    | None => mret (log, true)
    | Some p =>
        if rp_packetType p =? RaftVoteReqPacket then
          req ← body voteReq_populate p;
          granted ← handleVoteRequest (rp_nodeId p) req;
          if (granted : bool) then _ ← switchToFollower InvalidIndex; mret (log, false) else mret (log, true)
        else if rp_packetType p =? RaftHeartBeatPacket then
          hb ← body heartBeat_populate p;
          down ← handleHeartbeat (rp_nodeId p) hb;
          if (down : bool) then _ ← switchToFollower (hb_leader hb); mret (log, false) else mret (log, true)
        else if rp_packetType p =? RaftHeartBeatRespPacket then
          resp ← body heartBeatResp_populate p;
          e ← gets id;
          if negb (rm_term (hr_msg resp) =? term e) then mret (log, true)
          else
            _ ← modify (λ e, set_rf_memberBlock (<[rp_nodeId p := (wrapU 256 (rm_height resp), rm_blockHash resp)]> (rf_memberBlock e)) e);
            let '(log, half) := heard (rp_nodeId p) (majority e) log in
            _ ← (if half then modify (on_timing (set_rt_lastHeartbeatReset (rv_now env))) else mret tt);
            _ ← tryCommitUncommitedBlock resp;
            mret (log, true)
        else mret (log, true)
    end.

Definition runAsCandidateImp (v : VoteState) : RA (VoteState * bool) :=
  e ← gets id;
  if negb (inRole EN_STATE_CANDIDATE e) then mret (v, false)
  else if checkElectTimeout e then
    _ ← (if isMajorityVote (totalVoteCount v) e then switchToCandidate
         else
           _ ← increaseElectTime;
           _ ← modify (on_elect (λ l, set_rl_term (wrapU 64 (rl_term l - 1)) l));
           switchToFollower InvalidIndex);
    mret (v, false)
  else
    p ← tryPop;
    match p with
    | None => mret (v, true)
    | Some p =>
        if rp_packetType p =? RaftVoteReqPacket then
          req ← body voteReq_populate p;
          granted ← handleVoteRequest (rp_nodeId p) req;
          if (granted : bool) then _ ← switchToFollower InvalidIndex; mret (v, false) else mret (v, true)
        else if rp_packetType p =? RaftVoteRespPacket then
          resp ← body voteResp_populate p;
          r ← handleVoteResponse resp v;
          match r.2 with
          | TO_LEADER => _ ← switchToLeader; mret (r.1, false)
          | TO_FOLLOWER => _ ← switchToFollower InvalidIndex; mret (r.1, false)
          | VR_NONE => mret (r.1, true)
          end
        else if rp_packetType p =? RaftHeartBeatPacket then
          hb ← body heartBeat_populate p;
          down ← handleHeartbeat (rp_nodeId p) hb;
          if (down : bool) then _ ← switchToFollower (hb_leader hb); mret (v, false) else mret (v, true)
        else mret (v, true)
    end.

Definition runAsFollowerImp : RA bool :=
  e ← gets id;
  if negb (inRole EN_STATE_FOLLOWER e) then mret false
  else if checkElectTimeout e then _ ← switchToCandidate; mret false
  else
    p ← tryPop;
    match p with
    | None => mret true
    | Some p =>
        if rp_packetType p =? RaftVoteReqPacket then
          req ← body voteReq_populate p;
          granted ← handleVoteRequest (rp_nodeId p) req;
          mret (negb granted)
        else if rp_packetType p =? RaftHeartBeatPacket then
          hb ← body heartBeat_populate p;
          _ ← modify (on_elect (λ l, if rl_leader l =? Invalid256 then set_rl_leader (hb_leader hb) l else l));
          down ← handleHeartbeat (rp_nodeId p) hb;
          _ ← (if (down : bool) then modify (on_elect (set_rl_leader (hb_leader hb))) else mret tt);
          mret true
        else mret true
    end.

(** What [runAsLeader] and [runAsCandidate] do before their loops. *)
Definition beginLeader : RA unit :=
  _ ← modify (on_elect (λ l, set_rl_lastLeaderTerm (rl_term l) (set_rl_firstVote InvalidIndex l)));
  modify (on_timing (λ t, set_rt_lastHeartbeatReset (rv_now env) (set_rt_lastHeartbeatTime (rv_now env) t))).
Definition beginCandidate : RA (option VoteState) :=
  _ ← broadcastVoteReq;
  _ ← modify (λ e, on_elect (λ l, set_rl_firstVote (eb_idx (rf_base e)) (set_rl_vote (eb_idx (rf_base e)) l)) e);
  e ← gets id;
  if isMajorityVote 1 e then _ ← switchToLeader; mret None else mret (Some (mkVoteState 1 0 0 0 0 0)).

(** Where the thread is: in [workLoop] outside the roles, in the loop of a role, or ended
    by an exception or a null pointer. *)
Inductive raft_pc := PcOuter | PcLeader (log : gmap Z Z) | PcFollower | PcCandidate (v : VoteState) | PcStopped | PcCrashed.

(** One turn. *)
Definition work (pc : raft_pc) : RA raft_pc :=
  match pc with
  | PcStopped | PcCrashed => mret pc
  | _ =>
      if rv_syncing env then mret PcOuter
      else
        match pc with
        | PcLeader log => '(log, go) ← runAsLeaderImp log; mret (if (go : bool) then PcLeader log else PcOuter)
        | PcFollower => go ← runAsFollowerImp; mret (if (go : bool) then PcFollower else PcOuter)
        | PcCandidate v => '(v, go) ← runAsCandidateImp v; mret (if (go : bool) then PcCandidate v else PcOuter)
        | _ =>
            _ ← raft_resetConfig;
            e ← gets id;
            if eb_cfgErr (rf_base e) || negb (bool_decide (eb_accountType (rf_base e) = SealerAccount)) then mret PcOuter
            else
              match role e with
              | EN_STATE_LEADER => _ ← beginLeader; mret (PcLeader ∅)
              | EN_STATE_FOLLOWER => mret PcFollower
              | EN_STATE_CANDIDATE => v ← beginCandidate; mret (match v with Some v => PcCandidate v | None => PcOuter end)
              end
        end
  end.
End step.

(** ** Sealing *)

Definition raft_shouldSeal (e : RaftEngine) : bool :=
  let currentHeight := wrapU 256 (raft_highest e) in
  if negb (bool_decide (role e = EN_STATE_LEADER)) then false
  else if eb_cfgErr (rf_base e) || negb (bool_decide (eb_accountType (rf_base e) = SealerAccount)) then false
  else if bool_decide (map_Exists (λ _ x, currentHeight < x.1) (rf_memberBlock e)) then false
  else if 1 + Z.of_nat (size (filter (λ x, x.2 = (currentHeight, raft_highestHash e)) (rf_memberBlock e))) <? majority e then false
  else negb (uncommitted e).

(** [reachBlockIntervalTime] and [resetLastBlockTime]. *)
Definition raft_reachBlockIntervalTime (env : RaftEnv) (interval : Z) (e : RaftEngine) : bool :=
  interval <=? wrapU 64 (raft_steadyTime env - rf_lastBlockTime e).
Definition resetLastBlockTime (env : RaftEnv) (e : RaftEngine) : RaftEngine := set_rf_lastBlockTime (raft_steadyTime env) e.

(** [commit] up to its wait, and what follows once [m_commitReady] is set.  An assignment
    of blocks does not copy the size. *)
Definition commit_wait (b : Block) (e : RaftEngine) : RaftEngine :=
  on_pending (λ p, mkPending (set_b_blockSize 0 b) (eb_consensusBlockNumber (rf_base e)) false true (pd_finger p)) e.
Definition commit_woken (env : RaftEnv) (b : Block) : RA bool :=
  _ ← modify (on_pending (λ p, set_pd_waiting false (set_pd_ready false p)));
  e ← gets id;
  if negb (uncommitted e) then mret false
  else if negb (bool_decide (role e = EN_STATE_LEADER)) then mret false
  else checkAndExecute env b.

(** ** Receiving *)

(** [isValidReq] and [onRecvRaftMessage]. *)
Definition raft_isValidReq (session : Z) (buffer : bytes) (e : RaftEngine) : bool :=
  if zlen buffer <=? 0 then false
  else if getIndexBySealer session (rf_base e) <? 0 then false
  else match getNodeIDByIndex (eb_idx (rf_base e)) (rf_base e) with
       | None => false
       | Some nodeId => negb (session =? nodeId)
       end.
Definition onRecvRaftMessage (env : RaftEnv) (session : Z) (endpoint : string) (buffer : bytes) (e : RaftEngine) : RaftEngine :=
  if raft_isValidReq session buffer e then
    match raftPacket_decode buffer with
    | Throw _ => e
    | Ok (packetType, data) =>
        if packetType <? RaftPacketCount then
          let p := mkRaftPacket (wrapU 16 (getIndexBySealer session (rf_base e))) session packetType data (rv_utcTime env) endpoint in
          set_rf_msgQueue (rf_msgQueue e ++ [p]) e
        else e
    end
  else e.

(** ** A node: the engine, its thread, and the thread of the sealer *)

Inductive sealer_pc := SealerIdle | SealerWaiting (b : Block) | SealerStopped.
Record RaftNode := mkNode { rn_engine : RaftEngine; rn_pc : raft_pc; rn_sealer : sealer_pc }.

Inductive raft_input :=
| InRecv (session : Z) (endpoint : string) (buffer : bytes)
| InWork
| InSeal (b : Block)
| InWake
| InReport (b : Block).

(** A null pointer ends all threads; another exception only the one that threw it. *)
Definition crashed (pc : raft_pc) : bool := match pc with PcCrashed => true | _ => false end.
Definition after_sealer (pc : raft_pc) (e : RaftEngine) {A} (r : result raft_exn A) : RaftNode :=
  match r with
  | Ok _ => mkNode e pc SealerIdle
  | Throw NullPointer => mkNode e PcCrashed SealerIdle
  | Throw _ => mkNode e pc SealerStopped
  end.
Definition after_work (r : result raft_exn raft_pc) : raft_pc :=
  match r with Ok pc => pc | Throw NullPointer => PcCrashed | Throw _ => PcStopped end.
Definition raft_step (env : RaftEnv) (i : raft_input) (n : RaftNode) : RaftNode :=
  let e := rn_engine n in
  let pc := rn_pc n in
  if crashed pc then n
  else
    match i, rn_sealer n with
    | InRecv session endpoint buffer, s => mkNode (onRecvRaftMessage env session endpoint buffer e) pc s
    | InWork, s => let '(e, r) := work env pc e in mkNode e (after_work r) s
    | InSeal b, SealerIdle =>
        if raft_shouldSeal e then
          if getTransactionSize b =? 0 then mkNode (resetLastBlockTime env e) pc SealerIdle
          else mkNode (commit_wait b e) pc (SealerWaiting b)
        else n
    | InWake, SealerWaiting b =>
        if pd_ready (rf_pending e) then let '(e, r) := commit_woken env b e in after_sealer pc e r else n
    | InReport b, SealerIdle => let '(e, r) := raft_reportBlock env b e in after_sealer pc e r
    | _, _ => n
    end.
Definition raft_run (ins : list (RaftEnv * raft_input)) (n : RaftNode) : RaftNode :=
  foldl (λ n i, raft_step i.1 i.2 n) n ins.

(** What the constructor initialises. *)
Record constructed (k : KeyPair) (sealers : list Z) (minElectTime maxElectTime : Z) (c : C) (e : RaftEngine) : Prop := {
  co_base : rf_base e = newBase (bci_number c) k sealers;
  co_state : role e = EN_STATE_FOLLOWER;
  co_firstVote : rl_firstVote (rf_elect e) = InvalidIndex;
  co_term : term e = 0;
  co_lastLeaderTerm : rl_lastLeaderTerm (rf_elect e) = 0;
  co_heartbeatCount : rl_heartbeatCount (rf_elect e) = 0;
  co_min : rt_minElectTimeout (rf_timing e) = minElectTime;
  co_max : rt_maxElectTimeout (rf_timing e) = maxElectTime;
  co_block : pd_block (rf_pending e) = emptyBlock;
  co_pdnumber : pd_number (rf_pending e) = 0;
  co_waiting : pd_waiting (rf_pending e) = false;
  co_finger : pd_finger (rf_pending e) = ∅;
  co_memberBlock : rf_memberBlock e = ∅;
  co_msgQueue : rf_msgQueue e = [];
  co_chain : rf_chain e = c;
  co_log : rf_log e = [] }.
End raft.
Arguments RaftNode {_} _.
