(* ===== verification/RaftNet.v ===== *)
(** * A network of Raft nodes

    Nodes joined by a network that keeps every message until it is delivered, in any
    order. *)
From S2P Require Import Prelude CommonData RLP Crypto BlockHeader TxsParser Block PBFTMsg BlockChain EngineBase RaftMsg Raft.
Local Open Scope Z_scope.

Section net.
Context `{Crypto} {C : Type} `{BlockChainInterface C}.
Context (rand : nat → Z) (decodeTx : bytes → option Transaction) (decodeReceipt : bytes → option TransactionReceipt)
        (executeBlock : Block → BlockHeader → result engine_exn (option Block)).
Abbreviation step := (raft_step rand decodeTx decodeReceipt executeBlock).

(** The nodes by id, and the messages on their way: sender, receiver, bytes. *)
Record Net := mkNet { nt_nodes : gmap Z (RaftNode C); nt_wire : list (Z * Z * bytes) }.
Definition sent (from : Z) (evs : list raft_event) : list (Z * Z * bytes) :=
  mjoin ((λ ev, match ev with RSend to d => [(from, to, d)] | _ => [] end) <$> evs).
Definition node_acts (env : RaftEnv) (id : Z) (i : raft_input) (w : Net) : Net :=
  match nt_nodes w !! id with
  | None => w
  | Some n =>
      let n' := step env i n in
      mkNet (<[id := n']> (nt_nodes w)) (nt_wire w ++ sent id (drop (length (rf_log (rn_engine n))) (rf_log (rn_engine n'))))
  end.
Inductive net_action := Deliver (k : nat) | Act (id : Z) (i : raft_input).
Definition net_step (env : RaftEnv) (a : net_action) (w : Net) : Net :=
  match a with
  | Act id i => match i with InRecv _ _ _ => w | _ => node_acts env id i w end
  | Deliver k =>
      match nt_wire w !! k with
      | None => w
      | Some (from, to, d) => node_acts env to (InRecv from EmptyString d) (mkNet (nt_nodes w) (delete k (nt_wire w)))
      end
  end.
Definition net_run (l : list (RaftEnv * net_action)) (w : Net) : Net := foldl (λ w a, net_step a.1 a.2 w) w l.
End net.

(** ** Three honest nodes

    A network of three sealers, each started with the genesis block. *)
#[local] Existing Instance toyCrypto.
#[local] Instance raftChain : BlockChainInterface BlockChainImp := @chain_interface toyCrypto (λ _, false).
Definition raftDecodeTx (d : bytes) : option Transaction := Some (mkTx (Hash d) 0 d).
Definition raftExecute (b : Block) (parent : BlockHeader) : result engine_exn (option Block) := Ok (Some b).
Definition raftIds : list Z := [3; 5; 7].
Definition raftEnv (id t : Z) : RaftEnv := mkRaftEnv false (filter (λ n, n ≠ id) raftIds) (t * 1000000) 0 (sampleLedger raftIds) true.
Definition raftEngine (k : Z) : RaftEngineOf Z BlockChainImp :=
  mkRaftEngine (@newBase toyCrypto 0 k []) (mkElection EN_STATE_FOLLOWER 0 0 InvalidIndex 0 0 0)
    (mkTiming 0 100 200 0 0 0 0 0 0 0 0 0 0) (mkPending emptyBlock 0 false false ∅) ∅ [] 0 0
    (@genesisChain toyCrypto sampleGenesis) 0 [].
Abbreviation sstep := (raft_step (λ _, 0) raftDecodeTx (λ _, None) raftExecute).
Definition raftStart (k : Z) : RaftNode BlockChainImp :=
  sstep (raftEnv k 0) (InReport sampleGenesis) (mkNode (initRaftEnv (λ _, 0) (raftEnv k 0) (raftEngine k)).1 PcOuter SealerIdle).
Definition raftNet : Net := mkNet (list_to_map ((λ k, (k, raftStart k)) <$> raftIds)) [].
Definition works (id : Z) (ts : list Z) : list (RaftEnv * net_action) := (λ t, (raftEnv id t, Act id InWork)) <$> ts.
Definition delivered (k : nat) : list (RaftEnv * net_action) := [(raftEnv 0 0, Deliver k)].
(** Nodes 3 and 7 campaign for term 1; node 5 answers node 3 that it is its first request,
    and votes for node 7, but this vote is slow.  Both campaigns end, and both nodes start
    one for term 2.  Node 5 votes for node 3 in term 2; node 7 receives the vote of term 1
    and counts it. *)
Definition election : list (RaftEnv * net_action) :=
  works 3 [1] ++ works 5 [1] ++ works 7 [1]
  ++ works 3 [101; 101] ++ works 7 [101; 101]
  ++ delivered 0 ++ works 5 [2]
  ++ delivered 2 ++ works 5 [3]
  ++ delivered 1 ++ works 3 [102]
  ++ delivered 0 ++ works 7 [102]
  ++ delivered 0 ++ works 3 [103]
  ++ delivered 2 ++ works 3 [104]
  ++ delivered 1 ++ works 7 [103]
  ++ works 3 [202; 202] ++ works 7 [202; 202]
  ++ delivered 1 ++ works 5 [4; 5]
  ++ delivered 4 ++ works 3 [203; 203]
  ++ delivered 0 ++ works 7 [203; 203].
Abbreviation srun := (net_run (λ _, 0) raftDecodeTx (λ _, None) raftExecute).
Definition proposal (t : Z) : Block := set_b_transactions [mkTx 7 0 [byte.of_Z 1]] (set_b_header (setTimestamp t (setSealerList raftIds (b_header sampleNext))) sampleNext).
Definition acts (id t : Z) (i : raft_input) : list (RaftEnv * net_action) := [(raftEnv id t, Act id i)].
(** Each leader then seals a block, and node 5 acknowledges both. *)
Definition fork : list (RaftEnv * net_action) :=
  works 3 [230] ++ works 7 [230]
  ++ delivered 3 ++ works 5 [6; 7] ++ delivered 6 ++ works 3 [231]
  ++ delivered 5 ++ works 5 [8] ++ delivered 5 ++ works 7 [231]
  ++ acts 3 232 (InSeal (proposal 2000)) ++ works 3 [260] ++ delivered 5 ++ works 5 [9] ++ delivered 6 ++ works 3 [261] ++ acts 3 262 InWake
  ++ acts 7 262 (InSeal (proposal 3000)) ++ works 7 [290] ++ delivered 7 ++ works 5 [10] ++ delivered 7 ++ works 7 [291] ++ acts 7 292 InWake.
Definition node_view {A} (f : RaftEngineOf Z BlockChainImp → A) (id : Z) (w : Net) : option A := (λ n, f (rn_engine n)) <$> nt_nodes w !! id.

