(* ===== verification/RaftProps.v ===== *)
(** * Properties of a Raft node

    Who becomes leader, what is committed, and how long a node waits, in every run of the
    engine's thread, the sealer and the network. *)
From S2P Require Import Prelude CommonData RLP Crypto BlockHeader TxsParser Block PBFTMsg BlockChain EngineBase RaftMsg Raft RaftNet.
Local Open Scope Z_scope.

(** ** Relations an operation keeps *)

(** Whatever an operation returns or throws, the state before and after are related. *)
Definition keeps {S A} (R : S → S → Prop) (m : act S A) : Prop := ∀ s, R s (m s).1.

Section keeps.
Context {S : Type} (R : S → S → Prop) `{!PreOrder R}.
Lemma keeps_ret {A} (a : A) : keeps R (mret a).
Proof. intros s. reflexivity. Qed.
Lemma keeps_gets {A} (f : S → A) : keeps R (gets f).
Proof. intros s. reflexivity. Qed.
Lemma keeps_raise {A} x : keeps R (raise (A:=A) x).
Proof. intros s. reflexivity. Qed.
Lemma keeps_attempt {A E} (lift : E → raft_exn) (r : result E A) : keeps R (attempt lift r).
Proof. intros s. reflexivity. Qed.
Lemma keeps_modify (f : S → S) : (∀ s, R s (f s)) → keeps R (modify f).
Proof. intros Hf s. apply Hf. Qed.
Lemma keeps_bind {A B} (m : act S A) (k : A → act S B) : keeps R m → (∀ a, keeps R (k a)) → keeps R (m ≫= k).
Proof.
  intros Hm Hk s. unfold mbind, act_bind. specialize (Hm s). destruct (m s) as [s' [a|x]]; cbn in *; [|done].
  etrans; [exact Hm|apply Hk].
Qed.
Lemma keeps_caught {A} (m : act S A) : keeps R m → keeps R (caught m).
Proof. intros Hm s. unfold caught. specialize (Hm s). by destruct (m s) as [s' r]. Qed.
End keeps.

Section inversion.
Context {S : Type}.
Lemma gets_bind {A B} (f : S → A) (k : A → act S B) s : (gets f ≫= k) s = k (f s) s.
Proof. done. Qed.
Lemma modify_bind {B} (f : S → S) (k : unit → act S B) s : (modify f ≫= k) s = k tt (f s).
Proof. done. Qed.
Lemma bind_inv {A B} (m : act S A) (k : A → act S B) s s' r :
  (m ≫= k) s = (s', r) → (∃ a s1, m s = (s1, Ok a) ∧ k a s1 = (s', r)) ∨ (∃ x, m s = (s', Throw x) ∧ r = Throw x).
Proof.
  unfold mbind, act_bind. destruct (m s) as [s1 [a|x]]; [by eauto|]. intros [= <- <-]. eauto.
Qed.
Lemma keeps_result {A} R (m : act S A) s s' r : keeps R m → m s = (s', r) → R s s'.
Proof. intros Hm E. specialize (Hm s). by rewrite E in Hm. Qed.
End inversion.

Create HintDb raft.
#[export] Hint Resolve keeps_ret keeps_gets keeps_raise keeps_attempt keeps_caught : raft.
(** Takes an operation apart; what is left are the [modify]s. *)
Ltac keeps_step :=
  first
    [ solve [eauto with raft typeclass_instances]
    | apply keeps_bind; [typeclasses eauto| |intros ?]
    | match goal with
      | |- keeps _ (match ?x with _ => _ end) => destruct x
      | |- keeps _ (caught _) => apply keeps_caught
      end ].
Ltac keeps_tac := repeat keeps_step.

(** What an operation adds to the log satisfies [P]. *)
Definition adds {K C} (P : raft_event → Prop) (e e' : RaftEngineOf K C) : Prop := ∃ l, rf_log e' = rf_log e ++ l ∧ Forall P l.
#[export] Instance adds_preorder {K C} P : PreOrder (@adds K C P).
Proof.
  split.
  - intros e. exists []. split; [by rewrite app_nil_r|by apply Forall_nil].
  - intros a b c (l1 & A1 & A2) (l2 & B1 & B2). exists (l1 ++ l2). split; [by rewrite B1, A1, app_assoc|by apply Forall_app].
Qed.
Lemma adds_weaken {K C A} (P Q : raft_event → Prop) (m : act (RaftEngineOf K C) A) :
  (∀ ev, P ev → Q ev) → keeps (adds P) m → keeps (adds Q) m.
Proof. intros HPQ Hm e. destruct (Hm e) as (l & E & Hl). exists l. split; [done|]. by eapply Forall_impl. Qed.

Section props.
Context `{Crypto} {C : Type} `{BlockChainInterface C}.
Local Abbreviation RaftEngine := (RaftEngineOf KeyPair C).
Local Abbreviation RA := (act RaftEngine).
Context (rand : nat → Z) (decodeTx : bytes → option Transaction) (decodeReceipt : bytes → option TransactionReceipt)
        (executeBlock : Block → BlockHeader → result engine_exn (option Block)).

(** ** Roles *)

Lemma clear_firstVote_keeps l : rl_state (clear_firstVote l) = rl_state l ∧ rl_term (clear_firstVote l) = rl_term l.
Proof. unfold clear_firstVote. by repeat case_match. Qed.
Lemma follow_keeps t l : rl_state (follow t l).1 = rl_state l ∧ ((follow t l).2 = false → (follow t l).1 = l).
Proof. unfold follow. by repeat (case_match; simplify_eq/=). Qed.

(** Nothing but a switch makes a candidate or a leader. *)
Definition role_kept (e e' : RaftEngine) : Prop := role e' = role e ∨ role e' = EN_STATE_FOLLOWER.
#[local] Instance role_kept_preorder : PreOrder role_kept.
Proof. split; [by left|]. intros a b c. unfold role_kept. intuition congruence. Qed.

(** What a step between two switches leaves as it was, and what it may add to the log. *)
Definition noswitch_ev (ev : raft_event) : Prop := match ev with RSwitch _ _ => False | _ => True end.
Definition noswitch (l : list raft_event) : Prop := Forall noswitch_ev l.
Record quiet (e e' : RaftEngine) : Prop := {
  qt_role : role e' = role e;
  qt_term : term e' = term e;
  qt_majority : majority e' = majority e;
  qt_log : ∃ l, rf_log e' = rf_log e ++ l ∧ noswitch l }.
#[local] Instance quiet_preorder : PreOrder quiet.
Proof.
  split.
  - intros e. split; [done..|]. exists []. split; [by rewrite app_nil_r|by apply Forall_nil].
  - intros a b c [A1 A2 A3 (l1 & A4 & A5)] [B1 B2 B3 (l2 & B4 & B5)]. split; [congruence..|].
    exists (l1 ++ l2). split; [by rewrite B4, A4, app_assoc|by apply Forall_app].
Qed.
(** The node is as before, or has become a follower. *)
Definition calm (e e' : RaftEngine) : Prop := quiet e e' ∨ role e' = EN_STATE_FOLLOWER.
#[local] Instance calm_preorder : PreOrder calm.
Proof.
  split; [by left|]. intros a b c [H1|H1] [H2|H2]; try (by right).
  - left. by transitivity b.
  - right. by rewrite (qt_role _ _ H2).
Qed.
Lemma quiet_calm {A} (m : RA A) : keeps quiet m → keeps calm m.
Proof. intros Hm e. left. apply Hm. Qed.

Definition elect_kept (e e' : RaftEngine) : Prop := rf_elect e' = rf_elect e.
#[local] Instance elect_kept_preorder : PreOrder elect_kept.
Proof. split; [done|]. unfold elect_kept. congruence. Qed.

(** The votes a log holds for a candidate of term [t]: responses taken from the queue that
    grant one, of term [t - 1] at least. *)
Definition is_grant (t : Z) (ev : raft_event) : bool :=
  match ev with
  | RPop p =>
      (rp_packetType p =? RaftVoteRespPacket)
      && match decode_item voteResp_populate (rp_data p) 0 with
         | Ok resp => (voteFlag resp =? VOTE_RESP_GRANTED) && (wrapU 64 (t - 1) <=? rm_term resp)
         | Throw _ => false
         end
  | _ => false
  end.
Definition grants (t : Z) (l : list raft_event) : Z := zlen (filter (λ ev, is_grant t ev = true) l).
Lemma grants_app t l l' : grants t (l ++ l') = grants t l + grants t l'.
Proof. unfold grants. by rewrite filter_app, zlen_app. Qed.
Lemma grants_nonneg t l : 0 <= grants t l.
Proof. apply zlen_nonneg. Qed.

(** How a turn of the candidate's loop can end: it goes on with at most the votes that
    came; it gives up; the election starts again; it is won, with enough votes; an
    exception; or the loop was to end. *)
Inductive cand_outcome (e : RaftEngine) (v : VoteState) : RaftEngine → result raft_exn (VoteState * bool) → Prop :=
| cand_on e' v' l :
    role e' = role e → term e' = term e → majority e' = majority e → rf_log e' = rf_log e ++ l → noswitch l →
    0 <= vs_vote v' <= vs_vote v + grants (term e) l → cand_outcome e v e' (Ok (v', true))
| cand_follower e' r : role e' = EN_STATE_FOLLOWER → cand_outcome e v e' r
| cand_again e' v' l0 : role e' = EN_STATE_CANDIDATE → rf_log e' = l0 ++ [RSwitch EN_STATE_CANDIDATE (term e')] → cand_outcome e v e' (Ok (v', false))
| cand_won e' v' l :
    role e' = EN_STATE_LEADER → term e' = term e → majority e' = majority e →
    rf_log e' = rf_log e ++ l ++ [RSwitch EN_STATE_LEADER (term e)] → noswitch l →
    majority e <= vs_vote v + grants (term e) l → cand_outcome e v e' (Ok (v', false))
| cand_failed e' x : role e' = EN_STATE_CANDIDATE → cand_outcome e v e' (Throw x)
| cand_left v' : cand_outcome e v e (Ok (v', false)).

Section step.
Context (env : RaftEnv).

Ltac role_modify := apply keeps_modify; intros ?; unfold role_kept, role; repeat case_match; cbn -[follow Invalid256];
  rewrite ?(proj1 (clear_firstVote_keeps _)), ?(proj1 (follow_keeps _ _)); repeat case_match; first [by left|by right].
Lemma resetElectTimeout_role : keeps role_kept (resetElectTimeout rand env).
Proof. role_modify. Qed.
Lemma switchToFollower_role i : keeps role_kept (switchToFollower rand env i).
Proof. unfold switchToFollower, noteSwitch, resetElectTimeout. keeps_tac; role_modify. Qed.
Hint Resolve resetElectTimeout_role switchToFollower_role : raft.
Lemma raft_resetConfig_role : keeps role_kept (raft_resetConfig rand env).
Proof. unfold raft_resetConfig. keeps_tac; role_modify. Qed.
Hint Resolve raft_resetConfig_role : raft.
Lemma initRaftEnv_role : keeps role_kept (initRaftEnv rand env).
Proof. unfold initRaftEnv. keeps_tac; role_modify. Qed.
Lemma broadcastHeartbeat_role : keeps role_kept (broadcastHeartbeat env).
Proof. unfold broadcastHeartbeat, generateHeartbeat, raft_broadcastMsg, clearFirstVoteCache. keeps_tac; role_modify. Qed.
Hint Resolve broadcastHeartbeat_role : raft.
Lemma sendResponse_role n t fields : keeps role_kept (sendResponse env n t fields).
Proof. unfold sendResponse. keeps_tac; role_modify. Qed.
Hint Resolve sendResponse_role : raft.
Lemma handleVoteRequest_role n req : keeps role_kept (handleVoteRequest rand env n req).
Proof. unfold handleVoteRequest, reply. keeps_tac; role_modify. Qed.
Lemma handleVoteResponse_role resp v : keeps role_kept (handleVoteResponse resp v).
Proof. unfold handleVoteResponse, increaseElectTime. keeps_tac; role_modify. Qed.
Lemma handleHeartbeat_role n hb : keeps role_kept (handleHeartbeat rand decodeTx decodeReceipt env n hb).
Proof. unfold handleHeartbeat. keeps_tac; role_modify. Qed.
Lemma latestBlock_role : keeps role_kept latestBlock.
Proof. intros e. unfold latestBlock. case_match. by left. Qed.
Hint Resolve latestBlock_role : raft.
Lemma checkAndExecute_role b : keeps role_kept (checkAndExecute executeBlock env b).
Proof.
  unfold checkAndExecute, raft_execBlock, raft_checkAndSave. keeps_tac; role_modify.
Qed.
Hint Resolve handleVoteRequest_role handleVoteResponse_role handleHeartbeat_role checkAndExecute_role : raft.
Lemma raft_reportBlock_role b : keeps role_kept (raft_reportBlock rand env b).
Proof. unfold raft_reportBlock. keeps_tac; role_modify. Qed.
Hint Resolve raft_reportBlock_role : raft.
Lemma tryCommit_role resp : keeps role_kept (tryCommitUncommitedBlock rand executeBlock env resp).
Proof. unfold tryCommitUncommitedBlock, commitNow. keeps_tac; role_modify. Qed.
Lemma tryPop_role : keeps role_kept tryPop.
Proof. unfold tryPop. keeps_tac; role_modify. Qed.
Lemma body_role {A} (populate : reader dev_exn A) p : keeps role_kept (body populate p).
Proof. unfold body. keeps_tac. Qed.
Hint Resolve tryCommit_role tryPop_role body_role : raft.

Ltac quiet_modify :=
  apply keeps_modify; intros ?; repeat case_match; split; unfold role, term, majority; cbn; repeat case_match; try done;
  first [exists []; split; [by rewrite app_nil_r|by apply Forall_nil]
        |eexists; split; [reflexivity|unfold noswitch; by repeat constructor]].
Lemma resetElectTimeout_quiet : keeps quiet (resetElectTimeout rand env).
Proof. quiet_modify. Qed.
Lemma increaseElectTime_quiet : keeps quiet increaseElectTime.
Proof. quiet_modify. Qed.
Lemma broadcastMsg_quiet d : keeps quiet (raft_broadcastMsg env d).
Proof.
  apply keeps_modify. intros e. split; [done..|]. cbn. eexists. split; [reflexivity|]. apply Forall_fmap, Forall_true. done.
Qed.
Lemma sendResponse_quiet n t fields : keeps quiet (sendResponse env n t fields).
Proof. unfold sendResponse. keeps_tac; quiet_modify. Qed.
Lemma tryPop_quiet : keeps quiet tryPop.
Proof. unfold tryPop. keeps_tac; quiet_modify. Qed.
Lemma body_quiet {A} (populate : reader dev_exn A) p : keeps quiet (body populate p).
Proof. unfold body. keeps_tac. Qed.
Lemma latestBlock_quiet : keeps quiet latestBlock.
Proof.
  intros e. unfold latestBlock. case_match. split; [done..|]. exists []. cbn. split; [by rewrite app_nil_r|by apply Forall_nil].
Qed.
Hint Resolve resetElectTimeout_quiet increaseElectTime_quiet broadcastMsg_quiet sendResponse_quiet tryPop_quiet body_quiet latestBlock_quiet : raft.
Lemma broadcastVoteReq_quiet : keeps quiet (broadcastVoteReq env).
Proof. unfold broadcastVoteReq. keeps_tac. Qed.
Lemma checkAndExecute_quiet b : keeps quiet (checkAndExecute executeBlock env b).
Proof. unfold checkAndExecute, raft_execBlock, raft_checkAndSave. keeps_tac; quiet_modify. Qed.
Hint Resolve broadcastVoteReq_quiet checkAndExecute_quiet : raft.

Lemma updateConsensusNodeList_majority number lg (b : EngineBaseOf KeyPair) :
  eb_nodeNum (updateConsensusNodeList number lg b).1 = eb_nodeNum b ∧ eb_f (updateConsensusNodeList number lg b).1 = eb_f b
  ∧ eb_idx (updateConsensusNodeList number lg b).1 = eb_idx b.
Proof. unfold updateConsensusNodeList. by repeat case_match. Qed.
Lemma raft_resetConfig_calm : keeps calm (raft_resetConfig rand env).
Proof.
  unfold raft_resetConfig. apply keeps_bind; [typeclasses eauto|by eauto with raft typeclass_instances|intros limit].
  apply keeps_bind; [typeclasses eauto|apply quiet_calm; quiet_modify|intros []].
  apply keeps_bind; [typeclasses eauto| |intros []].
  { apply keeps_modify. intros e. left. destruct (updateConsensusNodeList_majority (bci_number (rf_chain e)) (rv_ledger env) (rf_base e)) as (N1 & N2 & _).
    destruct (updateConsensusNodeList _ _ _) as [b nodes]. cbn in *. split; unfold majority; cbn; [done|done|congruence|].
    destruct nodes; eexists; (split; [reflexivity|]); unfold noswitch; by repeat constructor. }
  apply keeps_bind; [typeclasses eauto|by eauto with raft typeclass_instances|intros b]. case_match; [apply quiet_calm; quiet_modify|].
  destruct (list_find _ _) as [[i x]|]; [|apply quiet_calm; quiet_modify]. destruct (_ || _).
  - intros e. right. reflexivity.
  - apply quiet_calm. keeps_tac; quiet_modify.
Qed.
Hint Resolve raft_resetConfig_calm : raft.
Lemma raft_reportBlock_calm b : keeps calm (raft_reportBlock rand env b).
Proof.
  assert (Hq : keeps calm latestBlock) by apply quiet_calm, latestBlock_quiet. unfold raft_reportBlock.
  keeps_tac; apply quiet_calm; quiet_modify.
Qed.

(** ** Votes *)

Lemma reply_result n flag m l e e' r : reply env n flag m l e = (e', r) → quiet e e' ∧ r ≠ Ok true.
Proof.
  unfold reply. intros Hr. split.
  - eapply keeps_result; [|exact Hr]. keeps_tac.
  - apply bind_inv in Hr as [(a & s1 & _ & [= <- <-])|(x & _ & ->)]; discriminate.
Qed.
Lemma handleVoteRequest_false n req e e' : handleVoteRequest rand env n req e = (e', Ok false) → quiet e e'.
Proof.
  unfold handleVoteRequest. rewrite gets_bind. repeat case_match; try (by intros [Hq _]%reply_result).
  - rewrite modify_bind. intros [Hq _]%reply_result. etrans; [|exact Hq]. split; [done..|]. exists []. cbn. split; [by rewrite app_nil_r|by apply Forall_nil].
  - rewrite modify_bind. intros [(a & s1 & _ & Hr)|(x & _ & ?)]%bind_inv; [|done].
    by apply bind_inv in Hr as [(a' & s2 & _ & [= _ ?])|(x & _ & ?)].
Qed.
Lemma handleHeartbeat_false n hb e e' : handleHeartbeat rand decodeTx decodeReceipt env n hb e = (e', Ok false) → quiet e e'.
Proof.
  unfold handleHeartbeat. rewrite gets_bind. case_match; [by intros [= <-]|]. case_match; [by intros [= <-]|].
  intros [(hash & s1 & R1 & Hr)|(x & _ & ?)]%bind_inv; [|done].
  apply bind_inv in Hr as [(a & s2 & R2 & Hr)|(x & _ & ?)]; [|done]. rewrite modify_bind in Hr.
  apply bind_inv in Hr as [(a' & s3 & R3 & Hr)|(x & _ & ?)]; [|done]. injection Hr as <- Hdown.
  assert (Q1 : quiet e s1). { eapply keeps_result; [|exact R1]. keeps_tac; quiet_modify. }
  assert (Q2 : quiet s1 s2) by (eapply keeps_result; [|exact R2]; keeps_tac).
  assert (E2 : rf_elect s2 = rf_elect e).
  { transitivity (rf_elect s1); [eapply (keeps_result elect_kept); [|exact R2]|eapply (keeps_result elect_kept); [|exact R1]];
      unfold sendResponse; keeps_tac; by apply keeps_modify. }
  etrans; [exact Q1|]. etrans; [exact Q2|]. etrans; [|eapply keeps_result; [|exact R3]; keeps_tac].
  split; unfold role, term; cbn -[follow]; rewrite ?(proj1 (clear_firstVote_keeps _)), ?(proj2 (clear_firstVote_keeps _)), ?E2, ?(proj2 (follow_keeps _ _) Hdown); [done..|].
  exists []. split; [by rewrite app_nil_r|by apply Forall_nil].
Qed.

Lemma switchToCandidate_result (e e' : RaftEngine) r :
  switchToCandidate rand env e = (e', r) →
  (r = Ok tt ∧ role e' = EN_STATE_CANDIDATE ∧ ∃ l0, rf_log e' = l0 ++ [RSwitch EN_STATE_CANDIDATE (term e')])
  ∨ (∃ x, r = Throw x ∧ role_kept e e').
Proof.
  unfold switchToCandidate. intros [([] & s1 & _ & Hr)|(x & Hx & ->)]%bind_inv.
  - injection Hr as <- <-. left. split; [done|]. split; [done|]. eexists. reflexivity.
  - right. exists x. split; [done|]. eapply keeps_result; [|exact Hx]. apply raft_resetConfig_role.
Qed.
Lemma switchToFollower_result i (e : RaftEngine) : role (switchToFollower rand env i e).1 = EN_STATE_FOLLOWER ∧ (switchToFollower rand env i e).2 = Ok tt.
Proof. done. Qed.

Lemma wrapU_le w z : 0 <= w → 0 <= z → 0 <= wrapU w z <= z.
Proof. intros. unfold wrapU. pose proof (Z.mod_pos_bound z (2 ^ w) ltac:(lia)). pose proof (Z.mod_le z (2 ^ w) ltac:(lia) ltac:(lia)). lia. Qed.
Lemma handleVoteResponse_result (resp : RaftVoteResp) v (e e' : RaftEngine) r :
  0 <= vs_vote v → handleVoteResponse resp v e = (e', r) →
  ∃ v' res, r = Ok (v', res)
    ∧ 0 <= vs_vote v' <= vs_vote v + (if (voteFlag resp =? VOTE_RESP_GRANTED) && (wrapU 64 (term e - 1) <=? rm_term resp) then 1 else 0)
    ∧ (res = VR_NONE → e' = e) ∧ (res = TO_LEADER → e' = e ∧ majority e <= vs_vote v').
Proof.
  intros Hv. unfold handleVoteResponse. rewrite gets_bind. change (id e) with e.
  destruct (rm_term resp <? wrapU 64 (term e - 1)) eqn:Ht.
  { intros [= <- <-]. exists v, VR_NONE. split_and!; try done; case_match; lia. }
  replace (wrapU 64 (term e - 1) <=? rm_term resp) with true by (symmetry; lia). rewrite andb_true_r.
  destruct (voteFlag resp =? VOTE_RESP_GRANTED) eqn:Hg.
  - apply Z.eqb_eq in Hg. rewrite Hg. cbn [Z.eqb VOTE_RESP_GRANTED VOTE_RESP_REJECT VOTE_RESP_LEADER_REJECT VOTE_RESP_LASTTERM_ERROR VOTE_RESP_FIRST_VOTE VOTE_RESP_DISCARD VOTE_RESP_OUTDATED].
    intros [= <- <-]. eexists _, _. split; [reflexivity|]. cbn. pose proof (wrapU_le 64 (vs_vote v + 1) ltac:(lia) ltac:(lia)).
    split_and!; [lia|lia|done|]. unfold isMajorityVote. case_match; [|done]. intros _. split; [done|lia].
  - repeat case_match; try (intros [= <- <-]; eexists _, _; split; [reflexivity|]; cbn; split_and!; done || lia).
Qed.

Lemma tryPop_result (e e1 : RaftEngine) r :
  tryPop e = (e1, r) →
  (r = Ok None ∧ e1 = e)
  ∨ ∃ p q, r = Ok (Some p) ∧ rf_msgQueue e = p :: q ∧ e1 = r_emit [RPop p] (set_rf_msgQueue q e).
Proof. unfold tryPop. rewrite gets_bind. destruct (rf_msgQueue e) as [|p q]; intros [= <- <-]; [by left|right; eauto]. Qed.

(** Going on after a message that changed nothing. *)
Lemma cand_quiet (e : RaftEngine) v p q e' :
  0 <= vs_vote v → quiet (r_emit [RPop p] (set_rf_msgQueue q e)) e' → cand_outcome e v e' (Ok (v, true)).
Proof.
  intros Hv [Q1 Q2 Q3 (l & Q4 & Q5)]. apply cand_on with (l := RPop p :: l); [done..| | |].
  - rewrite Q4. cbn. by rewrite <- app_assoc.
  - by apply Forall_cons.
  - pose proof (grants_nonneg (term e) (RPop p :: l)). lia.
Qed.
Lemma cand_kept (e : RaftEngine) v e' x : role e = EN_STATE_CANDIDATE → role_kept e e' → cand_outcome e v e' (Throw x).
Proof. intros Hr [E|E]; [apply cand_failed; congruence|by apply cand_follower]. Qed.

(** A vote response. *)
Lemma candidate_response (e : RaftEngine) v p q e1 e' r :
  role e = EN_STATE_CANDIDATE → 0 <= vs_vote v → (rp_packetType p =? RaftVoteRespPacket) = true →
  e1 = r_emit [RPop p] (set_rf_msgQueue q e) →
  (resp ← body voteResp_populate p; r ← handleVoteResponse resp v;
   match r.2 with
   | TO_LEADER => _ ← switchToLeader; mret (r.1, false)
   | TO_FOLLOWER => _ ← switchToFollower rand env InvalidIndex; mret (r.1, false)
   | VR_NONE => mret (r.1, true)
   end) e1 = (e', r) → cand_outcome e v e' r.
Proof.
  intros Hrole Hv Ep E1 Hr. assert (K1 : role_kept e e1) by (subst e1; by left).
  apply bind_inv in Hr as [(resp & s2 & Hb & Hr)|(x & [= -> _] & ->)]; [|by apply cand_kept].
  injection Hb as <- Hd. destruct (decode_item voteResp_populate (rp_data p) 0) as [resp'|] eqn:Ed; [|done]. injection Hd as ->.
  assert (Hg : is_grant (term e) (RPop p) = (voteFlag resp =? VOTE_RESP_GRANTED) && (wrapU 64 (term e - 1) <=? rm_term resp)) by (cbn; by rewrite Ep, Ed).
  assert (Ht : term e1 = term e) by by subst e1.
  apply bind_inv in Hr as [([v' res] & s3 & Hh & Hr)|(x & Hx & ->)].
  2: { apply handleVoteResponse_result in Hx as (? & ? & ? & _); done. }
  apply handleVoteResponse_result in Hh as (v2 & res2 & [= <- <-] & Hvote & Hnone & Hlead); [|done].
  rewrite Ht, <- Hg in Hvote. assert (Hgr : grants (term e) [RPop p] = if is_grant (term e) (RPop p) then 1 else 0).
  { unfold grants. rewrite filter_cons. destruct (is_grant (term e) (RPop p)); [by rewrite decide_True|by rewrite decide_False]. }
  cbn [fst snd] in Hr. destruct res.
  - destruct (Hlead eq_refl) as [-> Hm]. injection Hr as <- <-. apply cand_won with (l := [RPop p]); subst e1; try done.
    + cbn. by rewrite <- app_assoc.
    + by repeat constructor.
    + rewrite Hgr. change (majority (r_emit _ _)) with (majority e) in Hm. lia.
  - injection Hr as <- <-. by apply cand_follower.
  - rewrite (Hnone eq_refl) in Hr. injection Hr as <- <-. apply cand_on with (l := [RPop p]); subst e1; try done; [by repeat constructor|lia].
Qed.

Lemma candidate_turn (e : RaftEngine) v e' r :
  role e = EN_STATE_CANDIDATE → 0 <= vs_vote v →
  runAsCandidateImp rand decodeTx decodeReceipt env v e = (e', r) → cand_outcome e v e' r.
Proof.
  intros Hrole Hv. unfold runAsCandidateImp. rewrite gets_bind. change (id e) with e.
  destruct (inRole _ _); cbn [negb]; [|intros [= <- <-]; apply cand_left].
  destruct (checkElectTimeout env e).
  { intros [(a & s1 & Hs & [= <- <-])|(x & Hx & ->)]%bind_inv.
    - destruct (isMajorityVote _ _); [|injection Hs as <-; by apply cand_follower].
      apply switchToCandidate_result in Hs as [(_ & ? & l0 & ?)|(x & ? & _)]; [by eapply cand_again|done].
    - destruct (isMajorityVote _ _); [|done].
      apply switchToCandidate_result in Hx as [(? & _)|(x' & _ & Hk)]; [done|by apply cand_kept]. }
  intros [(o & s1 & [[[= ->] ->]|(p & q & [= ->] & _ & E1)]%tryPop_result & Hr)|(x & [[? _]|(p & q & ? & _)]%tryPop_result & ->)]%bind_inv; try done.
  { injection Hr as <- <-. apply cand_on with (l := []); [done..|by rewrite app_nil_r|by apply Forall_nil|change (grants (term e) []) with 0; lia]. }
  assert (K1 : role_kept e s1) by (subst s1; by left). assert (R1 : role s1 = EN_STATE_CANDIDATE) by by subst s1.
  destruct (rp_packetType p =? RaftVoteReqPacket); [|destruct (rp_packetType p =? RaftVoteRespPacket) eqn:Ep; [|destruct (rp_packetType p =? RaftHeartBeatPacket)]].
  - apply bind_inv in Hr as [(req & s2 & [= <- _] & Hr)|(x & [= -> _] & ->)]; [|by apply cand_kept].
    apply bind_inv in Hr as [([] & s3 & H3 & Hr)|(x & H3 & ->)].
    + injection Hr as <- <-. by apply cand_follower.
    + injection Hr as <- <-. eapply cand_quiet; [done|]. rewrite <- E1. by eapply handleVoteRequest_false.
    + apply cand_kept; [done|]. etrans; [exact K1|]. eapply keeps_result; [apply handleVoteRequest_role|exact H3].
  - by eapply candidate_response.
  - apply bind_inv in Hr as [(hb & s2 & [= <- _] & Hr)|(x & [= -> _] & ->)]; [|by apply cand_kept].
    apply bind_inv in Hr as [([] & s3 & H3 & Hr)|(x & H3 & ->)].
    + injection Hr as <- <-. by apply cand_follower.
    + injection Hr as <- <-. eapply cand_quiet; [done|]. rewrite <- E1. by eapply handleHeartbeat_false.
    + apply cand_kept; [done|]. etrans; [exact K1|]. eapply keeps_result; [apply handleHeartbeat_role|exact H3].
  - injection Hr as <- <-. eapply cand_quiet; [done|]. by rewrite E1.
Qed.

(** How a turn of the other loops can end: the loop was to end; the role is kept or given
    up; an election starts. *)
Inductive turn_outcome (r0 : RaftRole) (e : RaftEngine) : RaftEngine → Prop :=
| turn_left : turn_outcome r0 e e
| turn_kept e' : role e = r0 → role_kept e e' → turn_outcome r0 e e'
| turn_again e' l0 : role e' = EN_STATE_CANDIDATE → rf_log e' = l0 ++ [RSwitch EN_STATE_CANDIDATE (term e')] → turn_outcome r0 e e'.

Lemma inRole_role r (e : RaftEngine) : inRole r e = true → role e = r.
Proof. unfold inRole. by intros [?%bool_decide_eq_true _]%andb_true_iff. Qed.
Lemma turn_candidate {A} r0 (e : RaftEngine) (a : A) : role e = r0 → turn_outcome r0 e ((_ ← switchToCandidate rand env; mret a) e).1.
Proof.
  intros Hr. destruct ((_ ← switchToCandidate rand env; mret a) e) as [e' r] eqn:E.
  apply bind_inv in E as [(x & s1 & Hs & [= <- <-])|(x & Hs & ->)]; apply switchToCandidate_result in Hs as [(? & ? & l0 & ?)|(? & ? & ?)]; try done.
  - by eapply turn_again.
  - by apply turn_kept.
Qed.
Lemma turn_keeps {A} r0 (m : RA A) (e : RaftEngine) : role e = r0 → keeps role_kept m → turn_outcome r0 e (m e).1.
Proof. intros Hr Hm. apply turn_kept; [done|apply Hm]. Qed.

Lemma leader_turn log (e : RaftEngine) : turn_outcome EN_STATE_LEADER e (runAsLeaderImp rand decodeTx decodeReceipt executeBlock env log e).1.
Proof.
  unfold runAsLeaderImp. rewrite gets_bind. change (id e) with e. destruct (inRole _ _) eqn:Hr; [|apply turn_left].
  apply inRole_role in Hr. cbn [negb]. case_match; [apply turn_keeps; [done|keeps_tac]|]. case_match; [by apply turn_candidate|].
  apply turn_keeps; [done|]. keeps_tac; role_modify.
Qed.
Lemma follower_turn (e : RaftEngine) : turn_outcome EN_STATE_FOLLOWER e (runAsFollowerImp rand decodeTx decodeReceipt env e).1.
Proof.
  unfold runAsFollowerImp. rewrite gets_bind. change (id e) with e. destruct (inRole _ _) eqn:Hr; [|apply turn_left].
  apply inRole_role in Hr. cbn [negb]. case_match; [by apply turn_candidate|].
  apply turn_keeps; [done|]. keeps_tac; role_modify.
Qed.

(** ** Elections *)

(** While a node is a candidate, the log ends with the start of its campaign and what came
    since; the votes it counts are among that. *)
Definition campaign (pc : raft_pc) (e : RaftEngine) : Prop :=
  role e = EN_STATE_CANDIDATE →
  ∃ l0 mid, rf_log e = l0 ++ RSwitch EN_STATE_CANDIDATE (term e) :: mid ∧ noswitch mid
    ∧ ∀ v, pc = PcCandidate v → 0 <= vs_vote v <= 1 + grants (term e) mid.
(** How a leader got there. *)
Definition elected (e : RaftEngine) : Prop :=
  ∃ l0 mid, rf_log e = l0 ++ RSwitch EN_STATE_CANDIDATE (term e) :: mid ++ [RSwitch EN_STATE_LEADER (term e)]
    ∧ noswitch mid ∧ majority e <= 1 + grants (term e) mid.

Lemma campaign_calm pc (e e' : RaftEngine) : calm e e' → campaign pc e → campaign pc e'.
Proof.
  intros [[Q1 Q2 Q3 (l & Q4 & Q5)]|Hf] Hc Hr; [|congruence]. rewrite Q1 in Hr. destruct (Hc Hr) as (l0 & mid & E & Hm & Hv).
  exists l0, (mid ++ l). rewrite Q2, Q4, E, <- app_assoc. split; [done|]. split; [by apply Forall_app|].
  intros v Hpc. specialize (Hv v Hpc). rewrite grants_app. pose proof (grants_nonneg (term e) l). lia.
Qed.
Lemma campaign_pc pc pc' (e : RaftEngine) : (∀ v, pc' ≠ PcCandidate v) → campaign pc e → campaign pc' e.
Proof. intros Hpc Hc Hr. destruct (Hc Hr) as (l0 & mid & E & Hm & _). exists l0, mid. split_and!; [done|done|]. intros v Hv. by destruct (Hpc v). Qed.
Lemma campaign_fresh pc (e : RaftEngine) l0 :
  (∀ v, pc ≠ PcCandidate v) → rf_log e = l0 ++ [RSwitch EN_STATE_CANDIDATE (term e)] → campaign pc e.
Proof. intros Hpc E _. exists l0, []. split_and!; [done|by apply Forall_nil|]. intros v Hv. by destruct (Hpc v). Qed.
Lemma turn_campaign r0 pc pc' (e e' : RaftEngine) :
  turn_outcome r0 e e' → r0 ≠ EN_STATE_CANDIDATE → (∀ v, pc' ≠ PcCandidate v) → campaign pc e →
  campaign pc' e' ∧ (role e' = EN_STATE_LEADER → role e = EN_STATE_LEADER ∨ elected e').
Proof.
  intros [|e1 H1 [H2|H2]|e1 l0 H1 H2] H0' Hpc Hc.
  - split; [by eapply campaign_pc|by left].
  - split; [intros Hr; congruence|]. rewrite H2. by left.
  - split; intros Hr; congruence.
  - split; [by eapply campaign_fresh|]. congruence.
Qed.

Local Abbreviation wrk := (work rand decodeTx decodeReceipt executeBlock env).
Definition elects (pc : raft_pc) (e e' : RaftEngine) (r : result raft_exn raft_pc) : Prop :=
  (∀ pc', r = Ok pc' → campaign pc' e') ∧ (role e' = EN_STATE_LEADER → role e = EN_STATE_LEADER ∨ elected e').
Lemma elects_stay pc pc' (e : RaftEngine) : campaign pc e → (∀ v, pc' = PcCandidate v → pc = pc') → elects pc e e (Ok pc').
Proof.
  intros Hc Hpc. split; [|by left]. intros _ [= <-] Hr. destruct (Hc Hr) as (l0 & mid & E & Hm & Hv). exists l0, mid.
  split_and!; [done|done|]. intros v Hp. apply Hv. by rewrite (Hpc v Hp).
Qed.

Lemma candidate_elects v (e e' : RaftEngine) r :
  campaign (PcCandidate v) e →
  ('(v, go) ← runAsCandidateImp rand decodeTx decodeReceipt env v; mret (if (go : bool) then PcCandidate v else PcOuter)) e = (e', r) →
  elects (PcCandidate v) e e' r.
Proof.
  intros Hc Hr. destruct (decide (role e = EN_STATE_CANDIDATE)) as [Hrole|Hrole].
  2: { assert (Hi : inRole EN_STATE_CANDIDATE e = false) by (unfold inRole; by rewrite bool_decide_false).
       revert Hr. unfold runAsCandidateImp. unfold mbind, act_bind. cbn [gets]. change (id e) with e. rewrite Hi. intros [= <- <-]. by apply elects_stay. }
  destruct (Hc Hrole) as (l0 & mid & E & Hm & Hv). specialize (Hv v eq_refl).
  assert (Ho : ∃ r', cand_outcome e v e' r' ∧ match r' with Ok (v, go) => r = Ok (if (go : bool) then PcCandidate v else PcOuter) | Throw x => r = Throw x end).
  { apply bind_inv in Hr as [([v' go] & s1 & Ht & [= <- <-])|(x & Ht & ->)]; (eexists; split; [eapply candidate_turn; [done| |exact Ht]; lia|done]). }
  destruct Ho as (r' & Ho & Er). destruct Ho as [e' v' l H1 H2 H3 H4 H5 H6|e' r' H1|e' v' l1 H1 H2|e' v' l H1 H2 H3 H4 H5 H6|e' x H1|v'].
  - subst r. split; [|congruence]. intros _ [= <-] _. exists l0, (mid ++ l). rewrite H4, H2, E, <- app_assoc. split; [done|].
    split; [by apply Forall_app|]. intros _ [= <-]. rewrite grants_app. lia.
  - split; [intros pc' _|]; congruence.
  - subst r. split; [|congruence]. intros _ [= <-]. by eapply campaign_fresh.
  - subst r. split; [intros pc' _; congruence|]. intros _. right. exists l0, (mid ++ l). rewrite H4, H2, H3, E, grants_app.
    split; [by rewrite <- !app_assoc|]. split; [by apply Forall_app|lia].
  - subst r. split; [done|congruence].
  - subst r. by apply elects_stay.
Qed.

Lemma beginCandidate_elects (e e' : RaftEngine) r :
  role e = EN_STATE_CANDIDATE → campaign PcOuter e →
  (v ← beginCandidate env; mret (match v with Some v => PcCandidate v | None => PcOuter end)) e = (e', r) →
  elects PcOuter e e' r.
Proof.
  intros Hrole Hc. unfold beginCandidate. intros [(v & s1 & Hb & [= <- <-])|(x & Hb & ->)]%bind_inv.
  2: { apply bind_inv in Hb as [(u & s1 & _ & Hb)|(x' & Hb & _)].
       - exfalso. revert Hb. rewrite modify_bind, gets_bind. by destruct (isMajorityVote _ _).
       - split; [done|]. apply (keeps_result quiet) in Hb; [|apply broadcastVoteReq_quiet]. rewrite (qt_role _ _ Hb). congruence. }
  apply bind_inv in Hb as [([] & s2 & Hq & Hb)|(x & _ & ?)]; [|done]. rewrite modify_bind, gets_bind in Hb. set (e2 := on_elect _ s2) in Hb.
  change (id e2) with e2 in Hb. assert (Q : quiet e e2).
  { etrans; [eapply keeps_result; [apply broadcastVoteReq_quiet|exact Hq]|]. split; [done..|]. exists [].
    split; [by rewrite app_nil_r|by apply Forall_nil]. }
  apply (campaign_calm _ _ e2) in Hc; [|by left]. assert (Hr2 : role e2 = EN_STATE_CANDIDATE) by by rewrite (qt_role _ _ Q).
  destruct (Hc Hr2) as (l0 & mid & E & Hn & _). destruct (isMajorityVote 1 e2) eqn:Hm; injection Hb as <- <-.
  - split; [intros pc' _; discriminate|]. intros _. right. exists l0, mid. apply Z.leb_le in Hm. split_and!; [|done|].
    + change (rf_log e2 ++ [RSwitch EN_STATE_LEADER (term e2)] = l0 ++ RSwitch EN_STATE_CANDIDATE (term e2) :: mid ++ [RSwitch EN_STATE_LEADER (term e2)]).
      by rewrite E, <- app_assoc.
    + pose proof (grants_nonneg (term e2) mid). change (majority e2 <= 1 + grants (term e2) mid). lia.
  - split; [|congruence]. intros _ [= <-] _. exists l0, mid. split_and!; [done|done|]. intros _ [= <-]. cbn [vs_vote].
    pose proof (grants_nonneg (term e2) mid). lia.
Qed.

Lemma turn_elects {A} r0 pc (e e' : RaftEngine) r (m : RA A) (k : A → RA raft_pc) :
  r0 ≠ EN_STATE_CANDIDATE → (∀ a s, ∃ pc', k a s = (s, Ok pc') ∧ ∀ v, pc' ≠ PcCandidate v) → campaign pc e →
  turn_outcome r0 e (m e).1 → (m ≫= k) e = (e', r) → elects pc e e' r.
Proof.
  intros H0' Hk Hc Ht [(a & s1 & Em & Hr)|(x & Em & ->)]%bind_inv; rewrite Em in Ht; cbn [fst] in Ht.
  - destruct (Hk a s1) as (pc' & Ek & Hpc). rewrite Ek in Hr. injection Hr as <- <-.
    destruct (turn_campaign r0 pc pc' e s1 Ht H0' Hpc Hc) as [Hc' Hl]. split; [|done]. by intros _ [= <-].
  - split; [done|]. by destruct (turn_campaign r0 pc PcOuter e e' Ht H0' ltac:(done) Hc).
Qed.

Lemma work_elects pc (e e' : RaftEngine) r : campaign pc e → wrk pc e = (e', r) → elects pc e e' r.
Proof.
  intros Hc. unfold work. destruct pc as [|log| |v| |]; try (intros [= <- <-]; by apply elects_stay);
    (destruct (rv_syncing env); [intros [= <- <-]; by apply elects_stay|]).
  - intros [([] & s1 & Hr & Hw)|(x & Hr & ->)]%bind_inv; apply (keeps_result calm) in Hr; try apply raft_resetConfig_calm.
    2: { split; [done|]. intros Hl. destruct Hr as [Q|Q]; [rewrite <- (qt_role _ _ Q); by left|congruence]. }
    assert (Hlead : ∀ r, elects PcOuter s1 e' r → elects PcOuter e e' r).
    { intros r0 [E1 E2]. split; [done|]. intros Hl. destruct (E2 Hl) as [?|?]; [|by right]. left. destruct Hr as [Q|Q]; [by rewrite <- (qt_role _ _ Q)|congruence]. }
    apply Hlead. apply (campaign_calm _ _ _ Hr) in Hc. rewrite gets_bind in Hw. change (id s1) with s1 in Hw.
    destruct (_ || _); [injection Hw as <- <-; by apply elects_stay|]. destruct (role s1) eqn:Hrole.
    + injection Hw as <- <-. split; [|by left]. intros pc' _ Hx. change (role s1 = EN_STATE_CANDIDATE) in Hx. congruence.
    + injection Hw as <- <-. by apply elects_stay.
    + by eapply beginCandidate_elects.
  - intros Hr. refine (turn_elects _ _ _ _ _ _ _ _ _ Hc (leader_turn log e) Hr); [done|].
    intros [log' []] s; (eexists; split; [reflexivity|done]).
  - intros Hr. refine (turn_elects _ _ _ _ _ _ _ _ _ Hc (follower_turn e) Hr); [done|].
    intros [] s; (eexists; split; [reflexivity|done]).
  - by apply candidate_elects.
Qed.
Lemma commit_woken_quiet b : keeps quiet (commit_woken executeBlock env b).
Proof. unfold commit_woken. keeps_tac; quiet_modify. Qed.
Lemma onRecv_quiet session endpoint buffer (e : RaftEngine) : quiet e (onRecvRaftMessage env session endpoint buffer e).
Proof. unfold onRecvRaftMessage. repeat case_match; (split; [done..|]; exists []; split; [by rewrite app_nil_r|by apply Forall_nil]). Qed.
End step.

Local Abbreviation step := (raft_step rand decodeTx decodeReceipt executeBlock).
Local Abbreviation run := (raft_run rand decodeTx decodeReceipt executeBlock).
Definition node_campaign (n : RaftNode C) : Prop :=
  match rn_pc n with PcStopped | PcCrashed => True | pc => campaign pc (rn_engine n) end.

Lemma node_calm pc e e' s s' :
  calm e e' → node_campaign (mkNode e pc s) →
  node_campaign (mkNode e' pc s') ∧ (role e' = EN_STATE_LEADER → role e = EN_STATE_LEADER ∨ elected e').
Proof.
  intros Hcalm Hn. split.
  - unfold node_campaign in *. cbn in *. destruct pc; try done; by eapply campaign_calm.
  - intros Hl. left. destruct Hcalm as [Q|Q]; [by rewrite <- (qt_role _ _ Q)|congruence].
Qed.
Lemma after_sealer_calm {A} pc e s (e' : RaftEngine) (r : result raft_exn A) :
  calm e e' → node_campaign (mkNode e pc s) →
  node_campaign (after_sealer pc e' r) ∧ (role (rn_engine (after_sealer pc e' r)) = EN_STATE_LEADER → role e = EN_STATE_LEADER ∨ elected (rn_engine (after_sealer pc e' r))).
Proof.
  intros Hc Hn. destruct r as [a|[]]; cbn [after_sealer rn_engine]; try (by apply (node_calm pc e e' s)).
  split; [done|]. by apply (node_calm pc e e' s SealerIdle).
Qed.
Lemma step_elects env i n :
  node_campaign n →
  node_campaign (step env i n) ∧ (role (rn_engine (step env i n)) = EN_STATE_LEADER → role (rn_engine n) = EN_STATE_LEADER ∨ elected (rn_engine (step env i n))).
Proof.
  destruct n as [e pc s]. intros Hn. unfold raft_step. cbn [rn_engine rn_pc rn_sealer]. destruct (crashed pc) eqn:Ecr; [by split; [|left]|].
  destruct i as [session endpoint buffer| |b| |b]; [| |destruct s as [|b'|]..]; try (by split; [|left]).
  - apply (node_calm pc e _ s); [left; apply onRecv_quiet|done].
  - destruct (work _ _ _ _ _ _ _) as [e' r] eqn:Ew. cbn [rn_engine].
    assert (Hc : campaign pc e ∨ pc = PcStopped) by (unfold node_campaign in Hn; cbn in Hn; destruct pc; by auto).
    destruct Hc as [Hc| ->]; [|injection Ew as <- <-; by split; [|left]].
    destruct (work_elects env pc e e' r Hc Ew) as [E1 E2]. split; [|done]. unfold node_campaign. cbn. destruct r as [pc'|[]]; cbn; try done.
    destruct pc'; try done; by apply E1.
  - destruct (raft_shouldSeal e); [|by split; [|left]]. destruct (_ =? 0); (apply (node_calm pc e _ SealerIdle); [left|done]);
      (split; [done..|]; exists []; split; [by rewrite app_nil_r|by apply Forall_nil]).
  - destruct (pd_ready _); [|by split; [|left]]. destruct (commit_woken _ _ _ _) as [e' r] eqn:Ew.
    apply (keeps_result quiet) in Ew; [|apply commit_woken_quiet]. apply (after_sealer_calm pc e (SealerWaiting b')); [by left|done].
  - destruct (raft_reportBlock _ _ _ _) as [e' r] eqn:Ew. apply (keeps_result calm) in Ew; [|apply raft_reportBlock_calm]. by apply (after_sealer_calm pc e SealerIdle).
Qed.

Lemma run_campaign ins n : node_campaign n → node_campaign (run ins n).
Proof. unfold raft_run. revert n. induction ins as [|[env i] ins IH]; [done|]. intros n Hn. cbn [foldl fst snd]. by apply IH, step_elects. Qed.

End props.

(** ** A sample *)

#[local] Existing Instance toyCrypto.
#[local] Existing Instance raftChain.
Lemma raftEngine_constructed k : constructed k [] 100 200 (@genesisChain toyCrypto sampleGenesis) (raftEngine k).
Proof. by split. Qed.
(** What node 3 sees until its second campaign, and the vote that ends it. *)
Definition voteBytes (t flag : Z) : bytes :=
  match transDataToMessage (voteResp_fields (mkVoteResp (mkRaft 1 t 0 0) flag 0)) RaftVoteRespPacket with Ok d => d | Throw _ => [] end.
Definition campaigns : list (RaftEnv * raft_input) :=
  (raftEnv 3 0, InReport sampleGenesis) :: ((λ t, (raftEnv 3 t, InWork)) <$> [1; 101; 101])
  ++ [(raftEnv 3 102, InRecv 5 EmptyString (voteBytes 1 VOTE_RESP_GRANTED))].
