(* ===== verification/RaftCommit.v ===== *)
(** * What a Raft node commits

    The acknowledgements that stand behind a block when the engine commits it or wakes the
    sealer to do so. *)
From S2P Require Import Prelude CommonData RLP Crypto BlockHeader TxsParser Block PBFTMsg BlockChain EngineBase RaftMsg Raft RaftNet RaftProps.
Local Open Scope Z_scope.

Section hash.
Context `{Crypto}.
(** Encoding a block fills its memos and changes neither its hash nor its timestamp. *)
Lemma header_hash_again h h' v : header_hash h = Ok (h', v) → headerHash h' = headerHash h ∧ m_timestamp h' = m_timestamp h.
Proof.
  unfold headerHash. intros E. rewrite E. revert E. unfold header_hash. destruct (m_hash h =? 0) eqn:Hm.
  - destruct (header_encode h) as [d|] eqn:Ed; [|done]. cbn [mbind result_bind]. intros [= <- <-]. split; [|reflexivity].
    change (m_hash (set_hash (Hash d) h)) with (Hash d). destruct (Hash d =? 0) eqn:Hd; [|reflexivity].
    apply Z.eqb_eq in Hd, Hm. rewrite Hd. assert (set_hash 0 h = h) as -> by (destruct h; unfold set_hash; by rewrite <- Hm).
    rewrite Ed. cbn [mbind result_bind]. done.
  - intros [= <- <-]. by rewrite Hm.
Qed.
Lemma block_encode_header b b' d :
  block_encode b = Ok (b', d) → headerHash (b_header b') = headerHash (b_header b) ∧ headerSet (b_header b') = headerSet (b_header b).
Proof.
  unfold block_encode. intros E.
  repeat match type of E with
         | (?m ≫= _) = Ok _ => let x := fresh "x" in let Hx := fresh "Hx" in destruct m as [x|] eqn:Hx; [cbn [mbind result_bind] in E|done]
         end.
  injection E as <- _. cbn [b_header set_b_header].
  assert (Hh : b_header x0 = b_header b).
  { revert Hx0. unfold calReceiptRoot. intros E0.
    destruct (if bool_decide _ then _ else _) as [b1|] eqn:E1 in E0; [|done]. injection E0 as <-. cbn.
    revert E1. unfold calTransactionRoot. case_bool_decide.
    - intros E1. repeat match type of E1 with
         | (?m ≫= _) = Ok _ => let x := fresh "x" in destruct m as [x|]; [cbn [mbind result_bind] in E1|done] end.
      injection E1 as <-. cbn. by case_bool_decide.
    - intros [= <-]. by case_bool_decide. }
  destruct x5 as [h' v]. cbn [fst]. destruct (header_hash (b_header x0)) as [[h2 v2]|] eqn:Eh; [|done]. injection Hx5 as -> ->.
  apply header_hash_again in Eh as [E1 E2]. unfold headerSet. rewrite E1, E2, Hh. split; reflexivity.
Qed.
End hash.

Section commits.
Context `{Crypto} {C : Type} `{BlockChainInterface C}.
Local Abbreviation RaftEngine := (RaftEngineOf KeyPair C).
Local Abbreviation RA := (act RaftEngine).
Context (rand : nat → Z) (decodeTx : bytes → option Transaction) (decodeReceipt : bytes → option TransactionReceipt)
        (executeBlock : Block → BlockHeader → result engine_exn (option Block)).

(** ** Decisions in the log *)

(** The events that are decisions: a commit, and the waking of the sealer. *)
Definition decision (ev : raft_event) : bool := match ev with RCommit _ _ | RWake => true | _ => false end.
(** The indices that have acknowledged the block of hash [h]. *)
Definition finger (h : Z) (e : RaftEngine) : gset Z := default ∅ (pd_finger (rf_pending e) !! h).
(** An operation that counts no acknowledgement, and one that decides nothing either. *)
Record uncounted (P : raft_event → Prop) (e e' : RaftEngine) : Prop := {
  uc_log : adds P e e';
  uc_finger : ∀ h, finger h e' ⊆ finger h e }.
#[local] Instance uncounted_preorder P : PreOrder (uncounted P).
Proof.
  split; [intros e; by split|]. intros a b c [A1 A2] [B1 B2]. split; [by transitivity b|]. intros h. etrans; [apply B2|apply A2].
Qed.
Definition idle : RaftEngine → RaftEngine → Prop := uncounted (λ ev, decision ev = false).
#[local] Instance idle_preorder : PreOrder idle := uncounted_preorder _.
Lemma idle_uncounted {A} (m : RA A) : keeps idle m → keeps (uncounted (λ _, True)) m.
Proof. intros Hm e. destruct (Hm e) as [(l & E & Hl) Hf]. split; [|done]. exists l. split; [done|by apply Forall_true]. Qed.

Ltac idle_modify :=
  apply keeps_modify; intros ?; split;
  [repeat case_match; first [exists []; split; [symmetry; apply app_nil_r|by apply Forall_nil]|eexists; split; [reflexivity|by repeat constructor]]
  |intros ?; unfold finger; repeat case_match; cbn; repeat case_match; first [done|set_solver]].
Section step.
Context (env : RaftEnv).
Lemma resetElectTimeout_idle : keeps idle (resetElectTimeout rand env).
Proof. idle_modify. Qed.
Hint Resolve resetElectTimeout_idle : raft.
Lemma switchToFollower_idle i : keeps idle (switchToFollower rand env i).
Proof. unfold switchToFollower, noteSwitch. keeps_tac; idle_modify. Qed.
Hint Resolve switchToFollower_idle : raft.
Lemma raft_resetConfig_idle : keeps idle (raft_resetConfig rand env).
Proof. unfold raft_resetConfig. keeps_tac; idle_modify. Qed.
Hint Resolve raft_resetConfig_idle : raft.
Lemma initRaftEnv_idle : keeps idle (initRaftEnv rand env).
Proof. unfold initRaftEnv. keeps_tac; idle_modify. Qed.
Lemma switchToCandidate_idle : keeps idle (switchToCandidate rand env).
Proof. unfold switchToCandidate, noteSwitch. keeps_tac; idle_modify. Qed.
Lemma sendResponse_idle n t fields : keeps idle (sendResponse env n t fields).
Proof. unfold sendResponse. keeps_tac; idle_modify. Qed.
Hint Resolve switchToCandidate_idle sendResponse_idle : raft.
Lemma handleVoteRequest_idle n req : keeps idle (handleVoteRequest rand env n req).
Proof. unfold handleVoteRequest, reply. keeps_tac; idle_modify. Qed.
Lemma handleVoteResponse_idle resp v : keeps idle (handleVoteResponse resp v).
Proof. unfold handleVoteResponse, increaseElectTime. keeps_tac; idle_modify. Qed.
Lemma handleHeartbeat_idle n hb : keeps idle (handleHeartbeat rand decodeTx decodeReceipt env n hb).
Proof. unfold handleHeartbeat. keeps_tac; idle_modify. Qed.
Lemma tryPop_idle : keeps idle tryPop.
Proof. unfold tryPop. keeps_tac; idle_modify. Qed.
Lemma body_idle {A} (populate : reader dev_exn A) p : keeps idle (body populate p).
Proof. unfold body. keeps_tac. Qed.
Lemma latestBlock_idle : keeps idle latestBlock.
Proof. intros e. unfold latestBlock. case_match. split; [|done]. exists []. split; [by rewrite app_nil_r|by apply Forall_nil]. Qed.
Hint Resolve handleVoteRequest_idle handleVoteResponse_idle handleHeartbeat_idle tryPop_idle body_idle latestBlock_idle : raft.
Lemma raft_execBlock_idle b : keeps idle (raft_execBlock executeBlock env b).
Proof. unfold raft_execBlock. keeps_tac; idle_modify. Qed.
Hint Resolve raft_execBlock_idle : raft.
Lemma raft_reportBlock_idle b : keeps idle (raft_reportBlock rand env b).
Proof.
  unfold raft_reportBlock. keeps_tac; try idle_modify.
  apply keeps_modify. intros e. split; [exists []; split; [symmetry; apply app_nil_r|by apply Forall_nil]|].
  intros h. unfold finger. cbn. destruct (decide (uncommittedHash e = h)) as [<-|Hne]; [by rewrite lookup_delete_eq|by rewrite lookup_delete_ne].
Qed.
Hint Resolve raft_reportBlock_idle : raft.

(** ** One turn of the leader up to the acknowledgement *)

Record same_round (e e' : RaftEngine) : Prop := {
  sr_base : rf_base e' = rf_base e; sr_role : role e' = role e; sr_term : term e' = term e;
  sr_number : pd_number (rf_pending e') = pd_number (rf_pending e); sr_set : uncommitted e' = uncommitted e;
  sr_hash : uncommittedHash e' = uncommittedHash e }.
#[local] Instance same_round_preorder : PreOrder same_round.
Proof. split; [done|]. intros a b c [] []. split; congruence. Qed.
(** Sending a heartbeat decides nothing; of the acknowledgements it only adds this node's
    own. *)
Record own_ack (e e' : RaftEngine) : Prop := {
  oa_round : same_round e e';
  oa_log : adds (λ ev, decision ev = false) e e';
  oa_finger : ∀ h, finger h e' ⊆ finger h e ∪ {[eb_idx (rf_base e)]} }.
#[local] Instance own_ack_preorder : PreOrder own_ack.
Proof.
  split; [intros e; split; [done|done|set_solver]|]. intros a b c [A1 A2 A3] [B1 B2 B3]. split; [by transitivity b|by transitivity b|].
  intros h. specialize (A3 h). specialize (B3 h). rewrite (sr_base _ _ A1) in B3. set_solver.
Qed.
Ltac own_modify :=
  apply keeps_modify; intros ?; split;
  [split; unfold role, term; cbn; rewrite ?(proj1 (clear_firstVote_keeps _)), ?(proj2 (clear_firstVote_keeps _)); reflexivity
  |first [exists []; split; [symmetry; apply app_nil_r|by apply Forall_nil]|eexists; split; [reflexivity|by repeat constructor]]
  |intros ?; unfold finger; cbn; set_solver].
Lemma generateHeartbeat_own : keeps own_ack generateHeartbeat.
Proof.
  unfold generateHeartbeat. intros e. rewrite gets_bind. change (id e) with e. destruct (uncommitted e) eqn:Hu.
  2: { unfold mbind, act_bind. cbn. reflexivity. }
  unfold attempt. destruct (block_encode (pd_block (rf_pending e))) as [[b' d]|x] eqn:Eb; [|reflexivity].
  apply block_encode_header in Eb as [E1 E2]. unfold mbind, act_bind, modify, mret, act_ret. cbn -[transDataToMessage insert lookup union]. split.
  - split; try reflexivity; cbn; [exact E2|exact E1].
  - exists []. split; [symmetry; apply app_nil_r|by apply Forall_nil].
  - intros h. unfold finger. cbn -[insert lookup union]. destruct (decide (uncommittedHash e = h)) as [<-|Hne].
    + rewrite lookup_insert_eq. done.
    + rewrite lookup_insert_ne by done. set_solver.
Qed.
Lemma broadcastHeartbeat_own : keeps own_ack (broadcastHeartbeat env).
Proof.
  pose proof generateHeartbeat_own. unfold broadcastHeartbeat, clearFirstVoteCache, raft_broadcastMsg. keeps_tac; try own_modify.
  apply keeps_modify. intros e. split; [done|eexists; split; [reflexivity|apply Forall_fmap, Forall_true; done]|intros h; unfold finger; cbn; set_solver].
Qed.

Lemma checkAndExecute_uncounted b : keeps (uncounted (λ _, True)) (checkAndExecute executeBlock env b).
Proof.
  unfold checkAndExecute, raft_checkAndSave. pose proof (idle_uncounted _ (raft_execBlock_idle b)). keeps_tac; idle_modify.
Qed.
Lemma commitNow_uncounted : keeps (uncounted (λ _, True)) (commitNow rand executeBlock env).
Proof.
  pose proof checkAndExecute_uncounted. pose proof (λ b, idle_uncounted _ (raft_reportBlock_idle b)). unfold commitNow. keeps_tac; idle_modify.
Qed.

(** What [tryCommitUncommitedBlock] decides, and what it counts. *)
Definition enough (e : RaftEngine) (resp : RaftHeartBeatResp) : Prop :=
  uncommitted e = true ∧ pd_number (rf_pending e) = eb_consensusBlockNumber (rf_base e)
  ∧ (uncommitedBlockHash resp = 0
     ∨ uncommitedBlockHash resp = uncommittedHash e ∧ majority e <= Z.of_nat (size (finger (uncommittedHash e) e ∪ {[rm_idx resp]}))).
Lemma tryCommit_decides resp (e : RaftEngine) :
  let e' := (tryCommitUncommitedBlock rand executeBlock env resp e).1 in
  (∃ l, rf_log e' = rf_log e ++ l ∧ (Exists (λ ev, decision ev = true) l → enough e resp))
  ∧ ∀ h, finger h e' ⊆ finger h e ∪ (if decide (uncommitedBlockHash resp = h ∧ h ≠ 0) then {[rm_idx resp]} else ∅).
Proof.
  cbv zeta. unfold tryCommitUncommitedBlock. rewrite gets_bind. change (id e) with e.
  assert (Hstay : ∀ e', rf_log e' = rf_log e → (∀ h, finger h e' ⊆ finger h e) →
    (∃ l, rf_log e' = rf_log e ++ l ∧ (Exists (λ ev, decision ev = true) l → enough e resp))
    ∧ ∀ h, finger h e' ⊆ finger h e ∪ (if decide (uncommitedBlockHash resp = h ∧ h ≠ 0) then {[rm_idx resp]} else ∅)).
  { intros e' E Hf. split; [|intros h; specialize (Hf h); set_solver]. exists []. split; [by rewrite app_nil_r|by intros ?%Exists_nil]. }
  assert (Hnow : ∀ e1, rf_log e1 = rf_log e → (∀ h, finger h e1 ⊆ finger h e ∪ (if decide (uncommitedBlockHash resp = h ∧ h ≠ 0) then {[rm_idx resp]} else ∅)) →
    enough e resp → let e' := (commitNow rand executeBlock env e1).1 in
    (∃ l, rf_log e' = rf_log e ++ l ∧ (Exists (λ ev, decision ev = true) l → enough e resp))
    ∧ ∀ h, finger h e' ⊆ finger h e ∪ (if decide (uncommitedBlockHash resp = h ∧ h ≠ 0) then {[rm_idx resp]} else ∅)).
  { intros e1 E Hf He. destruct (commitNow_uncounted e1) as [(l & El & _) Hf1]. split; [exists l; by rewrite El, E|]. intros h. etrans; [apply Hf1|apply Hf]. }
  destruct (uncommitted e) eqn:Hu; cbn [negb]; [|by apply Hstay].
  destruct (pd_number (rf_pending e) =? eb_consensusBlockNumber (rf_base e)) eqn:Hn; cbn [negb]; [apply Z.eqb_eq in Hn|by apply Hstay].
  destruct (uncommitedBlockHash resp =? 0) eqn:Hz; cbn [negb andb]; [apply Z.eqb_eq in Hz|].
  { apply Hnow; [done|set_solver|]. split_and!; [done|done|by left]. }
  destruct (uncommitedBlockHash resp =? uncommittedHash e) eqn:Hh; [apply Z.eqb_eq in Hh|by apply Hstay].
  rewrite modify_bind. set (e1 := on_pending _ e).
  assert (Hf : ∀ h, finger h e1 ⊆ finger h e ∪ (if decide (uncommitedBlockHash resp = h ∧ h ≠ 0) then {[rm_idx resp]} else ∅)).
  { intros h. subst e1. unfold finger. cbn -[insert lookup union]. destruct (decide (uncommittedHash e = h)) as [<-|Hne].
    - rewrite lookup_insert_eq. apply Z.eqb_neq in Hz. rewrite decide_True by (split; congruence). done.
    - rewrite lookup_insert_ne by done. set_solver. }
  destruct (majority e <=? _) eqn:Hm.
  - apply Hnow; [done|done|]. apply Z.leb_le in Hm. split_and!; [done|done|right]. by split.
  - split; [|done]. exists []. split; [by rewrite app_nil_r|by intros ?%Exists_nil].
Qed.

(** ** Steps of the engine's thread *)

(** In the log, index [i] acknowledges the block of hash [h]. *)
Definition acked (l : list raft_event) (h i : Z) : Prop :=
  ∃ p resp, RPop p ∈ l ∧ decode_item heartBeatResp_populate (rp_data p) 0 = Ok resp ∧ rm_idx (hr_msg resp) = i ∧ uncommitedBlockHash resp = h.
(** In the log, a response of the term [t] acknowledges no block. *)
Definition acked_nothing (l : list raft_event) (t : Z) : Prop :=
  ∃ p resp, RPop p ∈ l ∧ decode_item heartBeatResp_populate (rp_data p) 0 = Ok resp ∧ rm_term (hr_msg resp) = t ∧ uncommitedBlockHash resp = 0.
(** What stands behind a decision made in state [e] on the messages of [l]. *)
Definition decided (e : RaftEngine) (l : list raft_event) : Prop :=
  role e = EN_STATE_LEADER ∧ uncommitted e = true ∧ pd_number (rf_pending e) = eb_consensusBlockNumber (rf_base e)
  ∧ (eb_nodeNum (rf_base e) <= 1 ∨ acked_nothing l (term e)
     ∨ ∃ A : gset Z, majority e <= Z.of_nat (size A)
         ∧ ∀ i, i ∈ A → i ∈ finger (uncommittedHash e) e ∨ i = eb_idx (rf_base e) ∨ acked l (uncommittedHash e) i).
Definition decides (e e' : RaftEngine) : Prop :=
  ∃ l, rf_log e' = rf_log e ++ l ∧ (Exists (λ ev, decision ev = true) l → decided e l)
    ∧ ∀ h i, i ∈ finger h e' → i ∈ finger h e ∨ i = eb_idx (rf_base e) ∨ acked l h i.

Lemma undecided l : Forall (λ ev, decision ev = false) l → ¬ Exists (λ ev, decision ev = true) l.
Proof. intros Hf He. rewrite Forall_forall in Hf. apply Exists_exists in He as (ev & Hin & Hd). rewrite (Hf ev Hin) in Hd. done. Qed.
Lemma own_decides (e e1 e' : RaftEngine) : own_ack e e1 → idle e1 e' → decides e e'.
Proof.
  intros [A1 (l1 & L1 & F1) A3] [(l2 & L2 & F2) B2]. exists (l1 ++ l2). rewrite L2, L1, app_assoc. split; [done|]. split.
  - intros Hex. exfalso. apply (undecided (l1 ++ l2)); [by apply Forall_app|done].
  - intros h i Hi. apply B2, A3 in Hi. set_solver.
Qed.
Lemma own_idle_decides {A} (m : RA A) (e e1 e2 : RaftEngine) : own_ack e e1 → idle e1 e2 → keeps idle m → decides e (m e2).1.
Proof. intros Ho Hi Hm. apply (own_decides e e1); [done|]. etrans; [exact Hi|apply Hm]. Qed.
Lemma idle_decides {A} (m : RA A) (e : RaftEngine) : keeps idle m → decides e (m e).1.
Proof. intros Hm. apply (own_decides e e); [reflexivity|apply Hm]. Qed.

Lemma bind_ret_state {A B} (m : RA A) (f : A → B) e : ((a ← m; mret (f a)) e).1 = (m e).1.
Proof. unfold mbind, act_bind. by destruct (m e) as [e' [a|x]]. Qed.
Lemma lone_decides {A} (e : RaftEngine) (a : A) :
  role e = EN_STATE_LEADER → eb_nodeNum (rf_base e) <= 1 →
  decides e ((_ ← tryCommitUncommitedBlock rand executeBlock env (mkHeartBeatResp (mkRaft 0 0 0 0) 0); mret a) e).1.
Proof.
  intros Hr Hn. rewrite (bind_ret_state _ (λ _, a)). destruct (tryCommit_decides (mkHeartBeatResp (mkRaft 0 0 0 0) 0) e) as [(l & El & Hl) Hf].
  exists l. split; [done|]. split.
  - intros (H1 & H2 & _)%Hl. split_and!; [done|done|done|by left].
  - intros h i Hi. apply Hf in Hi. cbn [uncommitedBlockHash] in Hi. rewrite decide_False in Hi by naive_solver. left. set_solver.
Qed.
Lemma response_decides (e e1 e2 : RaftEngine) p resp :
  own_ack e e1 → same_round e1 e2 → rf_log e2 = rf_log e1 ++ [RPop p] → (∀ h, finger h e2 = finger h e1) →
  role e = EN_STATE_LEADER → decode_item heartBeatResp_populate (rp_data p) 0 = Ok resp → rm_term (hr_msg resp) = term e →
  decides e (tryCommitUncommitedBlock rand executeBlock env resp e2).1.
Proof.
  intros [A1 (l1 & L1 & F1) A3] S2 L2 F2 Hr Hd Ht. destruct (tryCommit_decides resp e2) as [(l & El & Hl) Hf].
  assert (S : same_round e e2) by by transitivity e1. destruct S as [S1' _ _ S4 S5 S6].
  exists (l1 ++ [RPop p] ++ l). rewrite El, L2, L1, <- !app_assoc. split; [done|].
  assert (Hin : RPop p ∈ l1 ++ [RPop p] ++ l) by set_solver.
  assert (Hfin : ∀ h i, i ∈ finger h e2 ∪ (if decide (uncommitedBlockHash resp = h ∧ h ≠ 0) then {[rm_idx resp]} else ∅) →
    i ∈ finger h e ∨ i = eb_idx (rf_base e) ∨ acked (l1 ++ [RPop p] ++ l) h i).
  { intros h i. rewrite F2, elem_of_union. intros [Hi|Hi]; [apply A3 in Hi; set_solver|]. destruct (decide _) as [[? _]|]; [|set_solver].
    right. right. exists p, resp. set_solver. }
  split; [|intros h i Hi; by apply Hfin, Hf].
  intros Hex. assert (He : enough e2 resp).
  { apply Hl. rewrite !Exists_app in Hex. destruct Hex as [Hex|[Hex|Hex]]; [|by apply Exists_cons in Hex as [?|?%Exists_nil]|done].
    by apply undecided in Hex. }
  destruct He as (E1 & E2 & E3). unfold majority in E3. rewrite S1', S4, S5, S6 in *. split_and!; [done|done|done|right].
  destruct E3 as [E3|[E3 E4]]; [left; by exists p, resp|right]. eexists. split; [exact E4|]. intros i Hi.
  destruct (decide (uncommittedHash e = 0)) as [Hz|Hz]; [|apply Hfin; rewrite decide_True by done; exact Hi].
  rewrite F2, elem_of_union in Hi. destruct Hi as [Hi|Hi]; [apply A3 in Hi; set_solver|]. right. right. exists p, resp. set_solver.
Qed.

Lemma leader_decides log (e : RaftEngine) : decides e (runAsLeaderImp rand decodeTx decodeReceipt executeBlock env log e).1.
Proof.
  unfold runAsLeaderImp. rewrite gets_bind. change (id e) with e.
  destruct (inRole _ _) eqn:Hr; cbn [negb]; [apply inRole_role in Hr|apply (own_decides e e); reflexivity].
  destruct (1 <? eb_nodeNum (rf_base e)) eqn:Hn; cbn [negb]; [|apply lone_decides; [done|lia]].
  case_match; [apply idle_decides; keeps_tac|].
  pose proof (broadcastHeartbeat_own e) as Ho. unfold mbind at 1, act_bind at 1.
  destruct (broadcastHeartbeat env e) as [e1 [[]|x]]; cbn [fst] in Ho; [|apply (own_decides e e1); [done|reflexivity]].
  unfold mbind at 1, act_bind at 1. destruct (tryPop e1) as [e2 o] eqn:Ep.
  apply tryPop_result in Ep as [[-> ->]|(p & q & -> & _ & ->)]; [apply (own_decides e e1); [done|reflexivity]|].
  set (e2 := r_emit _ _). assert (I2 : idle e1 e2).
  { split; [exists [RPop p]; split; [done|by repeat constructor]|done]. }
  destruct (rp_packetType p =? RaftVoteReqPacket); [|destruct (rp_packetType p =? RaftHeartBeatPacket)].
  1,2: eapply own_idle_decides; [exact Ho|exact I2|keeps_tac].
  destruct (rp_packetType p =? RaftHeartBeatRespPacket); [|apply (own_decides e e1); [done|exact I2]].
  unfold body, attempt, mbind at 1, act_bind at 1.
  destruct (decode_item heartBeatResp_populate (rp_data p) 0) as [resp|x] eqn:Ed; [|apply (own_decides e e1); [done|exact I2]].
  rewrite gets_bind. change (id e2) with e2. destruct (rm_term (hr_msg resp) =? term e2) eqn:Ht; cbn [negb]; [|apply (own_decides e e1); [done|exact I2]].
  rewrite modify_bind. destruct (heard _ _ _) as [log' half]. apply Z.eqb_eq in Ht. change (term e2) with (term e1) in Ht.
  rewrite (sr_term _ _ (oa_round _ _ Ho)) in Ht. unfold mbind at 1, act_bind at 1.
  destruct half; cbn [modify mret act_ret]; rewrite (bind_ret_state _ (λ _, (log', true))); by eapply response_decides.
Qed.

Lemma raft_broadcastMsg_idle d : keeps idle (raft_broadcastMsg env d).
Proof.
  apply keeps_modify. intros e. split; [|done]. eexists. split; [reflexivity|apply Forall_fmap, Forall_true; done].
Qed.
Lemma work_decides pc (e : RaftEngine) : decides e (work rand decodeTx decodeReceipt executeBlock env pc e).1.
Proof.
  unfold work. pose proof raft_broadcastMsg_idle.
  destruct pc as [|log| |v| |]; try (apply idle_decides; keeps_tac; fail); (destruct (rv_syncing env); [apply idle_decides; keeps_tac|]).
  - apply idle_decides. unfold beginLeader, beginCandidate, broadcastVoteReq, switchToLeader, recoverElectTime, noteSwitch. keeps_tac; idle_modify.
  - unfold mbind, act_bind. pose proof (leader_decides log e) as Hd. destruct (runAsLeaderImp _ _ _ _ _ _ _) as [e' [[log' go]|x]]; exact Hd.
  - apply idle_decides. unfold runAsFollowerImp. keeps_tac; idle_modify.
  - apply idle_decides. unfold runAsCandidateImp, increaseElectTime, switchToLeader, recoverElectTime, noteSwitch. keeps_tac; idle_modify.
Qed.

Lemma commit_woken_uncounted b : keeps (uncounted (λ _, True)) (commit_woken executeBlock env b).
Proof. pose proof checkAndExecute_uncounted. unfold commit_woken. keeps_tac; idle_modify. Qed.
End step.

(** ** Every run *)

#[local] Existing Instances idle_preorder own_ack_preorder.

Local Abbreviation step := (raft_step rand decodeTx decodeReceipt executeBlock).
Local Abbreviation run := (raft_run rand decodeTx decodeReceipt executeBlock).
Definition counts (e e' : RaftEngine) (l : list raft_event) : Prop :=
  rf_log e' = rf_log e ++ l ∧ ∀ h i, i ∈ finger h e' → i ∈ finger h e ∨ i = eb_idx (rf_base e) ∨ acked l h i.
Lemma uncounted_counts (e e' : RaftEngine) : uncounted (λ _, True) e e' → ∃ l, counts e e' l.
Proof. intros [(l & E & _) Hf]. exists l. split; [done|]. intros h i Hi. left. by apply Hf. Qed.
Lemma same_counts (e e' : RaftEngine) : rf_log e' = rf_log e → (∀ h, finger h e' = finger h e) → ∃ l, counts e e' l.
Proof. intros E Hf. exists []. split; [by rewrite app_nil_r|]. intros h i. rewrite Hf. by left. Qed.
Lemma step_counts env i n : ∃ l, counts (rn_engine n) (rn_engine (step env i n)) l.
Proof.
  destruct n as [e pc s]. unfold raft_step. cbn [rn_engine rn_pc rn_sealer]. destruct (crashed pc); [by apply same_counts|].
  destruct i as [session endpoint buffer| |b| |b]; [| |destruct s as [|b'|]..]; try (by apply same_counts).
  - unfold onRecvRaftMessage. repeat case_match; by apply same_counts.
  - pose proof (work_decides env pc e) as (l & E & _ & Hf). destruct (work _ _ _ _ _ _ _) as [e' r]. by exists l.
  - repeat case_match; by apply same_counts.
  - case_match; [|by apply same_counts]. pose proof (commit_woken_uncounted env b' e) as Hu. destruct (commit_woken _ _ _ _) as [e' r].
    apply uncounted_counts. by destruct r as [|[]].
  - pose proof (idle_uncounted _ (raft_reportBlock_idle env b) e) as Hu. destruct (raft_reportBlock _ _ _ _) as [e' r].
    apply uncounted_counts. by destruct r as [|[]].
Qed.
Lemma acked_app l l' h i : acked l h i ∨ acked l' h i → acked (l ++ l') h i.
Proof. intros [(p & resp & Hp & Hd)|(p & resp & Hp & Hd)]; exists p, resp; (split; [set_solver|done]). Qed.

(** The indices the node has had. *)
Definition own_index (ins : list (RaftEnv * raft_input)) (n0 : RaftNode C) (i : Z) : Prop :=
  ∃ k, eb_idx (rf_base (rn_engine (run (take k ins) n0))) = i.
Lemma own_index_app ins x n0 i : own_index ins n0 i → own_index (ins ++ [x]) n0 i.
Proof.
  intros (k & Hk). exists (k `min` length ins)%nat. rewrite take_app_le by lia. rewrite <- Hk. f_equal. f_equal. f_equal. f_equal.
  destruct (decide (k <= length ins)%nat); [by rewrite Nat.min_l by lia|]. rewrite Nat.min_r by lia. by rewrite !take_ge by lia.
Qed.
Lemma run_counted ins n0 :
  (∀ h, finger h (rn_engine n0) = ∅) →
  ∀ h i, i ∈ finger h (rn_engine (run ins n0)) → acked (rf_log (rn_engine (run ins n0))) h i ∨ own_index ins n0 i.
Proof.
  intros H0'. induction ins as [|[env x] ins IH] using rev_ind; intros h i.
  { unfold raft_run. cbn. rewrite H0'. set_solver. }
  unfold raft_run. rewrite foldl_app. cbn [foldl fst snd]. fold (run ins n0). destruct (step_counts env x (run ins n0)) as (l & E & Hf).
  rewrite E. intros [Hi|[Hi|Hi]]%Hf.
  - destruct (IH h i Hi) as [?|?]; [left; apply acked_app; by left|right; by apply own_index_app].
  - right. apply own_index_app. exists (length ins). by rewrite take_ge by lia.
  - left. apply acked_app. by right.
Qed.

End commits.

(** ** A sample *)

#[local] Existing Instance toyCrypto.
#[local] Existing Instance raftChain.
(** Node 3 has won its election, hears from node 5, seals a block and hears that node 5
    has it. *)
Definition ackBytes (hash : Z) : bytes :=
  match transDataToMessage (heartBeatResp_fields (mkHeartBeatResp (mkRaft 1 1 0 (headerHash (b_header sampleGenesis))) hash)) RaftHeartBeatRespPacket with
  | Ok d => d
  | Throw _ => []
  end.
Definition sealed_and_acknowledged : list (RaftEnv * raft_input) :=
  campaigns ++ [(raftEnv 3 103, InWork); (raftEnv 3 104, InWork); (raftEnv 3 105, InRecv 5 EmptyString (ackBytes 0));
    (raftEnv 3 106, InWork); (raftEnv 3 107, InSeal (proposal 2000)); (raftEnv 3 130, InWork);
    (raftEnv 3 131, InRecv 5 EmptyString (ackBytes (headerHash (b_header (proposal 2000)))))].

(** A response to a heartbeat without a block, received once the leader has sealed one,
    commits this block before any other node was sent it. *)
Definition before_sealing : list (RaftEnv * raft_input) :=
  campaigns ++ [(raftEnv 3 103, InWork); (raftEnv 3 104, InWork); (raftEnv 3 105, InRecv 5 EmptyString (ackBytes 0)); (raftEnv 3 106, InWork)].
Definition sealed_alone : list (RaftEnv * raft_input) :=
  [(raftEnv 3 107, InSeal (proposal 2000)); (raftEnv 3 108, InRecv 7 EmptyString (ackBytes 0)); (raftEnv 3 109, InWork); (raftEnv 3 110, InWake)].
Lemma zero_acknowledgement_commits :
  let n := raft_run (λ _, 0) raftDecodeTx (λ _, None) raftExecute before_sealing
             (mkNode (initRaftEnv (λ _, 0) (raftEnv 3 0) (raftEngine 3)).1 PcOuter SealerIdle) in
  let n' := raft_run (λ _, 0) raftDecodeTx (λ _, None) raftExecute sealed_alone n in
  majority (rn_engine n') = 2 ∧ number (rf_chain (rn_engine n)) = 0 ∧ number (rf_chain (rn_engine n')) = 1
  ∧ sent 3 (drop (length (rf_log (rn_engine n))) (rf_log (rn_engine n'))) = [].
Proof. vm_compute. repeat split; reflexivity. Qed.
