(* ===== verification/RaftTimers.v ===== *)
(** * The timers of a Raft node

    How long followers and candidates wait, in every run. *)
From S2P Require Import Prelude CommonData RLP Crypto BlockHeader TxsParser Block PBFTMsg BlockChain EngineBase RaftMsg Raft RaftNet RaftProps.
Local Open Scope Z_scope.

Section timers.
Context `{Crypto} {C : Type} `{BlockChainInterface C}.
Local Abbreviation RaftEngine := (RaftEngineOf KeyPair C).
Context (rand : nat → Z) (decodeTx : bytes → option Transaction) (decodeReceipt : bytes → option TransactionReceipt)
        (executeBlock : Block → BlockHeader → result engine_exn (option Block)).
Context (minT maxT : Z) (rand_nonneg : ∀ k, 0 <= rand k) (times : 0 < minT < maxT) (short : maxT < 2 ^ 24).

Definition boundary : Z := maxT + (maxT - minT) / 2.
(** The window an election timeout is drawn from stays between the configured minimum and
    the boundary, whatever [increaseElectTime] and [recoverElectTime] do. *)
Record window (t : Timing) : Prop := {
  wi_minInit : rt_minElectTimeoutInit t = minT; wi_maxInit : rt_maxElectTimeoutInit t = maxT;
  wi_boundary : rt_maxElectTimeoutBoundary t = boundary; wi_increase : rt_increaseTime t = (maxT - minT) / 4;
  wi_min : minT <= rt_minElectTimeout t; wi_max : rt_minElectTimeout t < rt_maxElectTimeout t <= boundary;
  wi_hbTimeout : rt_heartbeatTimeout t = minT; wi_hbInterval : rt_heartbeatInterval t = minT / 4;
  wi_elect : minT <= rt_electTimeout t < boundary }.
Definition window_kept (e e' : RaftEngine) : Prop := window (rf_timing e) → window (rf_timing e').
#[local] Instance window_preorder : PreOrder window_kept.
Proof. split; unfold window_kept; intros ?; auto. Qed.

Lemma boundary_range : maxT <= boundary < 2 ^ 25.
Proof using times short. unfold boundary. pose proof (Z.div_pos (maxT - minT) 2). pose proof (Z.div_le_upper_bound (maxT - minT) 2 maxT). lia. Qed.

Lemma increase_window t : window t → window (increase_time t).
Proof using times short.
  intros []. unfold increase_time. pose proof boundary_range. pose proof (Z.div_pos (maxT - minT) 4).
  pose proof (Z.div_le_upper_bound (maxT - minT) 4 maxT). rewrite wi_boundary0, wi_increase0.
  rewrite (wrapU_id 32 (rt_maxElectTimeout t + _)) by lia. rewrite (wrapU_id 32 (rt_minElectTimeout t + _)) by lia.
  destruct (Z.ltb_spec boundary (rt_maxElectTimeout t + (maxT - minT) / 4)); split; cbn; done || lia.
Qed.

(** The timeout drawn lies in the window. *)
Lemma drawn_range lo hi r :
  0 <= r → 0 <= lo < hi → hi < 2 ^ 25 → lo <= wrapU 32 (lo + wrapU 32 (Z.rem r 100 * wrapU 32 (hi - lo)) / 100) < hi.
Proof.
  intros Hr Hlo Hhi. pose proof (Z.rem_bound_pos r 100 Hr ltac:(lia)) as Hb. set (q := Z.rem r 100) in *.
  rewrite (wrapU_id 32 (hi - lo)) by lia. rewrite (wrapU_id 32 (q * (hi - lo))) by nia.
  assert (0 <= q * (hi - lo) / 100 < hi - lo).
  { split; [apply Z.div_pos; nia|]. apply Z.div_lt_upper_bound; [lia|]. nia. }
  rewrite wrapU_id by lia. lia.
Qed.

Section step.
Context (env : RaftEnv).
Ltac window_modify := apply keeps_modify; intros ? []; repeat case_match; split; done.
Lemma resetElectTimeout_window : keeps window_kept (resetElectTimeout rand env).
Proof using times short rand_nonneg.
  apply keeps_modify. intros e []. pose proof boundary_range.
  pose proof (drawn_range (rt_minElectTimeout (rf_timing e)) (rt_maxElectTimeout (rf_timing e)) (rand (rf_rnd e)) (rand_nonneg _) ltac:(lia) ltac:(lia)).
  split; cbn; done || lia.
Qed.
Lemma increaseElectTime_window : keeps window_kept increaseElectTime.
Proof using times short. apply keeps_modify. intros e Hw. by apply increase_window. Qed.
Lemma recoverElectTime_window : keeps window_kept recoverElectTime.
Proof using times short.
  apply keeps_modify. intros e []. pose proof boundary_range. split; cbn; rewrite ?wi_minInit0, ?wi_maxInit0; done || lia.
Qed.
Lemma latestBlock_window : keeps window_kept latestBlock.
Proof. intros e Hw. unfold latestBlock. by case_match. Qed.
Hint Resolve resetElectTimeout_window increaseElectTime_window recoverElectTime_window latestBlock_window : raft.
Lemma switchToFollower_window i : keeps window_kept (switchToFollower rand env i).
Proof using times short rand_nonneg. unfold switchToFollower, noteSwitch. keeps_tac; window_modify. Qed.
Hint Resolve switchToFollower_window : raft.
Lemma raft_resetConfig_window : keeps window_kept (raft_resetConfig rand env).
Proof using times short rand_nonneg. unfold raft_resetConfig. keeps_tac; window_modify. Qed.
Hint Resolve raft_resetConfig_window : raft.
Lemma switchToCandidate_window : keeps window_kept (switchToCandidate rand env).
Proof using times short rand_nonneg. unfold switchToCandidate, noteSwitch. keeps_tac; window_modify. Qed.
Lemma switchToLeader_window : keeps window_kept switchToLeader.
Proof using times short. unfold switchToLeader, noteSwitch. keeps_tac; window_modify. Qed.
Lemma broadcastHeartbeat_window : keeps window_kept (broadcastHeartbeat env).
Proof. unfold broadcastHeartbeat, generateHeartbeat, raft_broadcastMsg, clearFirstVoteCache. keeps_tac; window_modify. Qed.
Lemma sendResponse_window n t fields : keeps window_kept (sendResponse env n t fields).
Proof. unfold sendResponse. keeps_tac; window_modify. Qed.
Hint Resolve switchToCandidate_window switchToLeader_window broadcastHeartbeat_window sendResponse_window : raft.
Lemma checkAndExecute_window b : keeps window_kept (checkAndExecute executeBlock env b).
Proof. unfold checkAndExecute, raft_execBlock, raft_checkAndSave. keeps_tac; window_modify. Qed.
Lemma raft_reportBlock_window b : keeps window_kept (raft_reportBlock rand env b).
Proof using times short rand_nonneg. unfold raft_reportBlock. keeps_tac; window_modify. Qed.
Hint Resolve checkAndExecute_window raft_reportBlock_window : raft.
Lemma tryCommit_window resp : keeps window_kept (tryCommitUncommitedBlock rand executeBlock env resp).
Proof using times short rand_nonneg. unfold tryCommitUncommitedBlock, commitNow. keeps_tac; window_modify. Qed.
Lemma handleVoteRequest_window n req : keeps window_kept (handleVoteRequest rand env n req).
Proof using times short rand_nonneg. unfold handleVoteRequest, reply. keeps_tac; window_modify. Qed.
Lemma handleVoteResponse_window resp v : keeps window_kept (handleVoteResponse resp v).
Proof using times short. unfold handleVoteResponse. keeps_tac; window_modify. Qed.
Lemma handleHeartbeat_window n hb : keeps window_kept (handleHeartbeat rand decodeTx decodeReceipt env n hb).
Proof using times short rand_nonneg. unfold handleHeartbeat. keeps_tac; window_modify. Qed.
Lemma tryPop_window : keeps window_kept tryPop.
Proof. unfold tryPop. keeps_tac; window_modify. Qed.
Hint Resolve tryCommit_window handleVoteRequest_window handleVoteResponse_window handleHeartbeat_window tryPop_window : raft.
Lemma work_window pc : keeps window_kept (work rand decodeTx decodeReceipt executeBlock env pc).
Proof using times short rand_nonneg.
  unfold work, runAsLeaderImp, runAsCandidateImp, runAsFollowerImp, beginLeader, beginCandidate, broadcastVoteReq, raft_broadcastMsg, body.
  keeps_tac; window_modify.
Qed.
Lemma commit_woken_window b : keeps window_kept (commit_woken executeBlock env b).
Proof. unfold commit_woken. keeps_tac; window_modify. Qed.

Lemma step_window i n :
  window (rf_timing (rn_engine n)) → window (rf_timing (rn_engine (raft_step rand decodeTx decodeReceipt executeBlock env i n))).
Proof using times short rand_nonneg.
  destruct n as [e pc s]. intros Hw. unfold raft_step. cbn [rn_engine rn_pc rn_sealer]. destruct (crashed pc); [done|].
  destruct i as [session endpoint buffer| |b| |b]; [| |destruct s as [|b'|]..]; try done.
  - unfold onRecvRaftMessage. by repeat case_match.
  - pose proof (work_window pc e Hw). by destruct (work _ _ _ _ _ _ _).
  - by repeat case_match.
  - case_match; [|done]. pose proof (commit_woken_window b' e Hw). by destruct (commit_woken _ _ _ _) as [e' [|[]]].
  - pose proof (raft_reportBlock_window b e Hw). by destruct (raft_reportBlock _ _ _ _) as [e' [|[]]].
Qed.

(** The configuration's times are not touched before [initRaftEnv] reads them. *)
Definition limits_kept (e e' : RaftEngine) : Prop :=
  rt_minElectTimeout (rf_timing e') = rt_minElectTimeout (rf_timing e) ∧ rt_maxElectTimeout (rf_timing e') = rt_maxElectTimeout (rf_timing e).
#[local] Instance limits_preorder : PreOrder limits_kept.
Proof. split; [done|]. unfold limits_kept. intros ???. intuition congruence. Qed.
Lemma raft_resetConfig_limits : keeps limits_kept (raft_resetConfig rand env).
Proof.
  unfold raft_resetConfig, switchToFollower, resetElectTimeout, noteSwitch.
  keeps_tac; apply keeps_modify; intros ?; by repeat case_match.
Qed.
Lemma initRaftEnv_window e e' :
  rt_minElectTimeout (rf_timing e) = minT → rt_maxElectTimeout (rf_timing e) = maxT → initRaftEnv rand env e = (e', Ok tt) → window (rf_timing e').
Proof using times short rand_nonneg.
  intros Hmin Hmax [([] & e1 & H1 & H2)|(x & _ & ?)]%bind_inv; [|done].
  pose proof (keeps_result _ _ _ _ _ raft_resetConfig_limits H1) as [L1 L2]. rewrite modify_bind in H2.
  rewrite Hmin in L1. rewrite Hmax in L2. injection H2 as <-.
  pose proof boundary_range as Hb. pose proof (drawn_range minT maxT (rand (rf_rnd e1)) (rand_nonneg _) ltac:(lia) ltac:(lia)).
  assert (E : wrapU 32 (maxT - minT) = maxT - minT) by (apply wrapU_id; lia).
  split; cbn -[Z.div Z.rem wrapU]; rewrite ?L1, ?L2, ?E in *; try (done || lia). apply wrapU_id. unfold boundary in *. lia.
Qed.
End step.

Lemma run_window ins n :
  window (rf_timing (rn_engine n)) → window (rf_timing (rn_engine (raft_run rand decodeTx decodeReceipt executeBlock ins n))).
Proof using times short rand_nonneg.
  unfold raft_run. revert n. induction ins as [|[env i] ins IH]; [done|]. intros n Hn. cbn [foldl fst snd]. by apply IH, step_window.
Qed.
End timers.

(** C12. How long a Raft node waits, in every run from a start that succeeded, with the
    configured election times below 2^24 ms: the election timeout lies between the
    configured minimum and one and a half of the configured range above it, however often
    elections failed; and the leader waits for answers as long as the shortest election
    timeout and sends four heartbeats in that time. *)
Theorem raft_timeouts `{Crypto} {C : Type} `{BlockChainInterface C}
    (rand : nat → Z) decodeTx decodeReceipt executeBlock k sealers minElectTime maxElectTime (c : C) e0 env0 e1 ins :
  (∀ j, 0 <= rand j) → 0 < minElectTime < maxElectTime → maxElectTime < 2 ^ 24 →
  constructed k sealers minElectTime maxElectTime c e0 → initRaftEnv rand env0 e0 = (e1, Ok tt) →
  let t := rf_timing (rn_engine (raft_run rand decodeTx decodeReceipt executeBlock ins (mkNode e1 PcOuter SealerIdle))) in
  minElectTime <= rt_electTimeout t < maxElectTime + (maxElectTime - minElectTime) / 2
  ∧ minElectTime <= rt_minElectTimeout t < rt_maxElectTimeout t
  ∧ rt_heartbeatTimeout t = minElectTime ∧ rt_heartbeatInterval t = minElectTime / 4.
Proof.
  intros Hr Ht Hs Hco Hi t. assert (Hw : window minElectTime maxElectTime (rf_timing e1)).
  { apply (initRaftEnv_window rand minElectTime maxElectTime Hr Ht Hs env0 e0); [apply Hco|apply Hco|done]. }
  destruct (run_window rand decodeTx decodeReceipt executeBlock minElectTime maxElectTime Hr Ht Hs ins (mkNode e1 PcOuter SealerIdle) Hw).
  fold t in wi_elect0, wi_min0, wi_max0, wi_hbTimeout0, wi_hbInterval0. unfold boundary in *. split_and!; done || lia.
Qed.

#[local] Existing Instance toyCrypto.
#[local] Existing Instance raftChain.
Lemma raft_timeouts_witness :
  let t := rf_timing (rn_engine (raft_run (λ _, 0) raftDecodeTx (λ _, None) raftExecute campaigns
             (mkNode (initRaftEnv (λ _, 0) (raftEnv 3 0) (raftEngine 3)).1 PcOuter SealerIdle))) in
  100 <= rt_electTimeout t < 200 + (200 - 100) / 2 ∧ 100 <= rt_minElectTimeout t < rt_maxElectTimeout t
  ∧ rt_heartbeatTimeout t = 100 ∧ rt_heartbeatInterval t = 100 / 4.
Proof.
  eapply raft_timeouts; [intros _|..]; [lia..|apply raftEngine_constructed|].
  rewrite (surjective_pairing (initRaftEnv _ _ _)). by f_equal.
Defined.
