(* ===== verification/Table.v ===== *)
(** * Tables (libstorage/Table, Common, MemoryTable2)

    The rows a block reads and writes.  A table overlays the rows the storage holds
    ([db], by key) with the changes of the block: rows that were changed ([mt_dirty], by
    id) and rows that were inserted ([mt_newEntries], by key).  A row in the overlay is an
    object that a later operation changes in place; its position never changes.  The
    version of the protocol is a parameter, from 2.2.0 on. *)
From stdpp Require Import sorting.
From Stdlib Require Import Ascii.
From Stdlib Require String.
From S2P Require Import Prelude CommonData Crypto ABI.
Local Open Scope Z_scope.

Definition ID_FIELD : string := "_id_".
Definition NUM_FIELD : string := "_num_".
Definition STATUS : string := "_status_".
Definition CODE_NO_AUTHORIZED : Z := -50000.
Definition V2_2_0 : Z := 0x02020000.
Definition V2_3_0 : Z := 0x02030000.
Definition V2_5_0 : Z := 0x02050000.

(** [isHashField]: names that begin or end with an underscore do not count. *)
Fixpoint last_char (s : string) : option ascii :=
  match s with EmptyString => None | String c EmptyString => Some c | String _ s' => last_char s' end.
Definition isHashField (key : string) : bool :=
  match key with
  | EmptyString => false
  | String c _ => negb (bool_decide (c = "_"%char)) && negb (bool_decide (last_char key = Some "_"%char))
  end.

(** ** Entries *)

Record Entry := mkEntry {
  en_id : Z; en_status : Z; en_tempIndex : nat; en_force : bool; en_deleted : bool; en_capacity : Z;
  en_capacityOfHashField : Z; en_fields : gmap string string }.
#[export] Instance Entry_eq_dec : EqDecision Entry.
Proof. solve_decision. Defined.
Definition newEntry : Entry := mkEntry 0 0 0 false false 0 0 ∅.
Definition getField (key : string) (e : Entry) : string := default EmptyString (en_fields e !! key).
Definition slen (s : string) : Z := Z.of_nat (String.length s).

(** [setField], both forms. *)
Definition setField (key value : string) (e : Entry) : Entry :=
  let updatedCapacity :=
    match en_fields e !! key with Some old => slen value - slen old | None => slen key + slen value end in
  mkEntry (en_id e) (en_status e) (en_tempIndex e) (en_force e) (en_deleted e) (en_capacity e + updatedCapacity)
    (if isHashField key then en_capacityOfHashField e + updatedCapacity else en_capacityOfHashField e)
    (<[key := value]> (en_fields e)).
Definition setStatus (status : Z) (e : Entry) : Entry :=
  mkEntry (en_id e) status (en_tempIndex e) (en_force e) (en_deleted e) (en_capacity e) (en_capacityOfHashField e) (en_fields e).
Definition setDeleted (deleted : bool) (e : Entry) : Entry :=
  mkEntry (en_id e) (en_status e) (en_tempIndex e) (en_force e) deleted (en_capacity e) (en_capacityOfHashField e) (en_fields e).
Definition setTempIndex (i : nat) (e : Entry) : Entry :=
  mkEntry (en_id e) (en_status e) i (en_force e) (en_deleted e) (en_capacity e) (en_capacityOfHashField e) (en_fields e).
Definition setForce (force : bool) (e : Entry) : Entry :=
  mkEntry (en_id e) (en_status e) (en_tempIndex e) force (en_deleted e) (en_capacity e) (en_capacityOfHashField e) (en_fields e).

(** [for (auto& it : *entry)]: a [std::map] is visited in the order of its keys. *)
Definition field_le (x y : string * string) : Prop := String.leb x.1 y.1 = true.
#[export] Instance field_le_dec x y : Decision (field_le x y) := bool_eq_dec _ _.
Definition fields_of (e : Entry) : list (string * string) := merge_sort field_le (map_to_list (en_fields e)).

(** [EntryLessNoLock]: id, key, number of fields, then the fields. *)
Fixpoint fields_less (l r : list (string * string)) : bool :=
  match l, r with
  | (k, v) :: l, (k', v') :: r =>
      if negb (String.eqb k k') then String.ltb k k'
      else if negb (String.eqb v v') then String.ltb v v'
      else fields_less l r
  | _, _ => false
  end.
Definition entry_less (keyField : string) (a b : Entry) : bool :=
  if negb (en_id a =? en_id b) then en_id a <? en_id b
  else if negb (String.eqb (getField keyField a) (getField keyField b)) then String.ltb (getField keyField a) (getField keyField b)
  else if negb (size (en_fields a) =? size (en_fields b))%nat then (size (en_fields a) <? size (en_fields b))%nat
  else fields_less (fields_of a) (fields_of b).

(** ** Conditions *)

(** A bound with whether it is inclusive; [UNLIMITED] is no bound. *)
Record Range := mkRange { rg_left : bool * string; rg_right : bool * string }.
Record Condition := mkCondition { cd_offset : Z; cd_count : Z; cd_conditions : gmap string Range }.
Definition newCondition : Condition := mkCondition (-1) (-1) ∅.
Definition UNLIMITED : string := "_VALUE_UNLIMITED_".
Definition set_range (key : string) (f : Range → Range) (fresh : Range) (c : Condition) : Condition :=
  mkCondition (cd_offset c) (cd_count c) (<[key := match cd_conditions c !! key with Some r => f r | None => fresh end]> (cd_conditions c)).
Definition EQ (key value : string) : Condition → Condition := set_range key (λ _, mkRange (true, value) (true, value)) (mkRange (true, value) (true, value)).
Definition NE (key value : string) : Condition → Condition := set_range key (λ _, mkRange (false, value) (false, value)) (mkRange (false, value) (false, value)).
Definition GT (key value : string) : Condition → Condition :=
  set_range key (λ r, mkRange (false, value) (rg_right r)) (mkRange (false, value) (false, UNLIMITED)).
Definition GE (key value : string) : Condition → Condition :=
  set_range key (λ r, mkRange (true, value) (rg_right r)) (mkRange (true, value) (false, UNLIMITED)).
Definition LT (key value : string) : Condition → Condition :=
  set_range key (λ r, mkRange (rg_left r) (false, value)) (mkRange (false, UNLIMITED) (false, value)).
Definition LE (key value : string) : Condition → Condition :=
  set_range key (λ r, mkRange (rg_left r) (true, value)) (mkRange (false, UNLIMITED) (true, value)).
Definition limit (offset count : Z) (c : Condition) : Condition := mkCondition offset count (cd_conditions c).

(** [boost::lexical_cast<int64_t>]; [None] is the exception. *)
Fixpoint decimal (acc : Z) (s : string) : option Z :=
  match s with
  | EmptyString => Some acc
  | String c s' => let d := char_code c - 48 in if (0 <=? d) && (d <=? 9) then decimal (acc * 10 + d) s' else None
  end.
Definition lexical_int64 (s : string) : option Z :=
  let '(negative, body) :=
    match s with String "-" s' => (true, s') | String "+" s' => (false, s') | _ => (false, s) end in
  match body with
  | EmptyString => None
  | _ => z ← decimal 0 body;
         let z := if (negative : bool) then - z else z in
         if (- 2 ^ 63 <=? z) && (z <? 2 ^ 63) then Some z else None
  end.

Section table.
Context (version : Z).

(** [Condition::process].  Its loop over the conditions ends with [false] at the first that
    fails or throws. *)
Definition bound_ok (bound : bool * string) (value : string) (test : bool → Z → Z → bool) : bool :=
  if String.eqb bound.2 UNLIMITED then true
  else match lexical_int64 bound.2, (if String.eqb value EmptyString then Some 0 else lexical_int64 value) with
       | Some lhs, Some rhs => test bound.1 lhs rhs
       | _, _ => false
       end.
Definition range_ok (r : Range) (value : string) : bool :=
  let '(leftIn, lo) := rg_left r in
  let '(rightIn, hi) := rg_right r in
  if String.eqb lo hi && leftIn && rightIn then String.eqb lo value
  else if (V2_3_0 <=? version) && String.eqb lo hi && negb leftIn && negb rightIn then negb (String.eqb lo value)
  else bound_ok (rg_left r) value (λ incl lhs rhs, if incl then lhs <=? rhs else lhs <? rhs)
       && bound_ok (rg_right r) value (λ incl lhs rhs, if incl then rhs <=? lhs else rhs <? lhs).
Definition condition_ok (e : Entry) (x : string * Range) : bool :=
  if negb (isHashField x.1) then true
  else match en_fields e !! x.1 with Some v => range_ok x.2 v | None => false end.
Definition process (c : Condition) (e : Entry) : bool :=
  negb ((en_status e =? 1) || en_deleted e) && forallb (condition_ok e) (map_to_list (cd_conditions c)).

(** ** The table *)

Record TableInfo := mkTableInfo {
  ti_name : string; ti_key : string; ti_fields : list string; ti_authorizedAddress : list Z; ti_enableConsensus : bool }.
Record MemoryTable2 := mkTable {
  mt_info : TableInfo; mt_newEntries : gmap string (list Entry); mt_dirty : gmap Z Entry;
  mt_dirtyUpdated : gmap string (gset Z); mt_hashDirty : bool; mt_dataDirty : bool; mt_hash : Z }.
Definition set_overlay (news : gmap string (list Entry)) (dirty : gmap Z Entry) (updated : gmap string (gset Z)) (t : MemoryTable2) : MemoryTable2 :=
  mkTable (mt_info t) news dirty updated (mt_hashDirty t) (mt_dataDirty t) (mt_hash t).
Definition set_touched (t : MemoryTable2) : MemoryTable2 :=
  mkTable (mt_info t) (mt_newEntries t) (mt_dirty t) (mt_dirtyUpdated t) true true (mt_hash t).

(** The rows of the table in the storage; [CachedStorage::select] gives copies of those
    that satisfy the condition. *)
Context (db : string → list Entry).
Definition db_select (key : string) (c : Condition) : list Entry := filter (λ e, process c e = true) (db key).

(** Where a selected entry lives: a copy of the storage's row, a changed row, or an
    inserted one. *)
Inductive place := InDb | InDirty | InNew (i : nat).

(** [getOffset] and [getCount] return an [int]. *)
Definition getOffset (c : Condition) : Z := wrapS 32 (cd_offset c).
Definition getCount (c : Condition) : Z := wrapS 32 (cd_count c).
Definition proccessLimit {A} (c : Condition) (l : list A) : list A :=
  let begin := getOffset c in
  let stop := Z.min (2 ^ 31 - 1) (begin + getCount c) in
  take (Z.to_nat (stop - begin)) (drop (Z.to_nat begin) l).

(** What [selectNoLock] finds in the storage and in [m_dirty]. *)
Definition select_stored (key : string) (c : Condition) (t : MemoryTable2) : list (place * Entry) :=
  let rows := db_select key c in
  let found := mjoin ((λ e, match mt_dirty t !! en_id e with
                            | Some d => if (V2_5_0 <=? version) && negb (process c d) then [] else [(InDirty, d)]
                            | None => [(InDb, e)]
                            end) <$> rows) in
  let processed := list_to_set (en_id <$> filter (λ e, is_Some (mt_dirty t !! en_id e)) rows) : gset Z in
  let diff := merge_sort Z.le (elements (default ∅ (mt_dirtyUpdated t !! key) ∖ processed)) in
  found ++ (if V2_5_0 <=? version then
              mjoin ((λ id, match mt_dirty t !! id with Some d => if process c d then [(InDirty, d)] else [] | None => [] end) <$> diff)
            else []).
(** [processEntries], with the index noted in each entry it finds. *)
Definition select_new (key : string) (c : Condition) (t : MemoryTable2) : list (place * Entry) :=
  mjoin (imap (λ i e, if process c e then [(InNew i, setTempIndex i e)] else []) (default [] (mt_newEntries t !! key))).
Definition selectNoLock (key : string) (c : Condition) (t : MemoryTable2) : MemoryTable2 * list (place * Entry) :=
  let c := EQ (ti_key (mt_info t)) key c in
  let l := select_stored key c t ++ select_new key c t in
  let t := set_overlay (alter (imap (λ i e, if process c e then setTempIndex i e else e)) key (mt_newEntries t)) (mt_dirty t) (mt_dirtyUpdated t) t in
  (t, if (0 <=? getOffset c) && (0 <=? getCount c) then proccessLimit c l else l).
Definition select (key : string) (c : Condition) (t : MemoryTable2) : list Entry := (selectNoLock key c t).2.*2.

(** ** Changes *)

Inductive ChangeKind := Insert | Update | Remove.
Record ChangeRecord := mkRecord { cr_index : nat; cr_key : string; cr_oldValue : string; cr_id : Z }.
Record Change := mkChange { ch_table : string; ch_kind : ChangeKind; ch_key : string; ch_value : list ChangeRecord }.
Definition change (kind : ChangeKind) (key : string) (records : list ChangeRecord) (t : MemoryTable2) : Change :=
  mkChange (ti_name (mt_info t)) kind key records.

(** The exception that leaves [update] and [insert]: [std::invalid_argument]. *)
Inductive table_exn := InvalidArgument.
Record AccessOptions := mkOptions { ao_origin : Z; ao_check : bool }.
Definition checkAuthority (origin : Z) (t : MemoryTable2) : bool :=
  match ti_authorizedAddress (mt_info t) with [] => true | l => bool_decide (origin ∈ l) end.
Definition checkField (e : Entry) (t : MemoryTable2) : bool := forallb (λ x, bool_decide (x.1 ∈ ti_fields (mt_info t))) (fields_of e).

(** The place of an entry is written back; a copy of a stored row becomes a changed row. *)
Definition put (key : string) (x : place * Entry) (t : MemoryTable2) : MemoryTable2 :=
  match x.1 with
  | InNew i => set_overlay (alter (λ l, <[i := x.2]> l) key (mt_newEntries t)) (mt_dirty t) (mt_dirtyUpdated t) t
  | _ => if en_id x.2 =? 0 then t
         else set_overlay (mt_newEntries t) (<[en_id x.2 := x.2]> (mt_dirty t)) (mt_dirtyUpdated t) t
  end.
Definition note_updated (key : string) (x : place * Entry) (t : MemoryTable2) : MemoryTable2 :=
  match x.1 with
  | InDb => if en_id x.2 =? 0 then t
            else set_overlay (mt_newEntries t) (mt_dirty t) (<[key := default ∅ (mt_dirtyUpdated t !! key) ∪ {[en_id x.2]}]> (mt_dirtyUpdated t)) t
  | _ => t
  end.

(** The inner loop of [update]. *)
Definition written (t : MemoryTable2) (e : Entry) : list (string * string) :=
  filter (λ x, x.1 ≠ ID_FIELD ∧ x.1 ≠ ti_key (mt_info t)) (fields_of e).
Definition update_entry (fs : list (string * string)) (e : Entry) : Entry * list ChangeRecord :=
  foldl (λ s x, (setField x.1 x.2 s.1, s.2 ++ [mkRecord (en_tempIndex s.1) x.1 (getField x.1 s.1) (en_id s.1)])) (e, []) fs.
Definition update (key : string) (entry : Entry) (c : Condition) (o : AccessOptions) (t : MemoryTable2)
  : result table_exn (MemoryTable2 * list Change * Z) :=
  if ao_check o && negb (checkAuthority (ao_origin o) t) then Ok (t, [], CODE_NO_AUTHORIZED)
  else if negb (checkField entry t) then Throw InvalidArgument
  else
    let '(t, l) := selectNoLock key c t in
    let fs := written t entry in
    let t' := foldl (λ t x, note_updated key x (put key (x.1, (update_entry fs x.2).1) t)) t l in
    let records := l ≫= (λ x, (update_entry fs x.2).2) in
    Ok (set_touched t', [change Update key records t], zlen l).

Definition insert (key : string) (entry : Entry) (o : AccessOptions) (t : MemoryTable2)
  : result table_exn (MemoryTable2 * list Change * Z) :=
  if ao_check o && negb (checkAuthority (ao_origin o) t) then Ok (t, [], CODE_NO_AUTHORIZED)
  else if negb (checkField entry t) then Throw InvalidArgument
  else
    let entries := default [] (mt_newEntries t !! key) in
    let t' := set_overlay (<[key := entries ++ [setField (ti_key (mt_info t)) key entry]]> (mt_newEntries t)) (mt_dirty t) (mt_dirtyUpdated t) t in
    Ok (set_touched t', [change Insert key [mkRecord (length entries) EmptyString EmptyString 0] t], 1).

Definition remove (key : string) (c : Condition) (o : AccessOptions) (t : MemoryTable2) : MemoryTable2 * list Change * Z :=
  if ao_check o && negb (checkAuthority (ao_origin o) t) then (t, [], CODE_NO_AUTHORIZED)
  else
    let '(t, l) := selectNoLock key c t in
    let t' := foldl (λ t x, put key (x.1, setStatus 1 x.2) t) t l in
    (set_touched t', [change Remove key ((λ x, mkRecord (en_tempIndex x.2) EmptyString EmptyString (en_id x.2)) <$> l) t], zlen l).

(** [rollback] of one change.  An index that does not exist would throw. *)
Definition alter_row (key : string) (r : ChangeRecord) (f : Entry → Entry) (t : MemoryTable2) : MemoryTable2 :=
  if negb (cr_id r =? 0) then set_overlay (mt_newEntries t) (alter f (cr_id r) (mt_dirty t)) (mt_dirtyUpdated t) t
  else set_overlay (alter (alter f (cr_index r)) key (mt_newEntries t)) (mt_dirty t) (mt_dirtyUpdated t) t.
Definition rollback (ch : Change) (t : MemoryTable2) : MemoryTable2 :=
  match ch_kind ch with
  | Insert =>
      match ch_value ch with
      | r :: _ => set_overlay (alter (alter (setDeleted true) (cr_index r)) (ch_key ch) (mt_newEntries t)) (mt_dirty t) (mt_dirtyUpdated t) t
      | [] => t
      end
  | Update => foldl (λ t r, alter_row (ch_key ch) r (setField (cr_key r) (cr_oldValue r)) t) t (ch_value ch)
  | Remove => foldl (λ t r, alter_row (ch_key ch) r (setStatus 0) t) t (ch_value ch)
  end.
End table.
