(* ===== verification/TableProps.v ===== *)
(** * Rolling back a table

    The change log of a table undoes every sequence of operations: after it is played
    back, each row reads as before. *)
From stdpp Require Import sorting.
From S2P Require Import Prelude CommonData Crypto ABI Table.
Local Open Scope Z_scope.

(** ** Reading *)

(** Two entries a reader cannot tell apart by [getField]. *)
Record same (e e' : Entry) : Prop := {
  sm_id : en_id e' = en_id e; sm_status : en_status e' = en_status e; sm_deleted : en_deleted e' = en_deleted e;
  sm_field : ∀ k, getField k e' = getField k e }.
#[export] Instance same_equiv : Equivalence same.
Proof.
  split; [by split|intros a b []; split; congruence|]. intros a b c [A1 A2 A3 A4] [B1 B2 B3 B4]. split; [congruence..|].
  intros k. by rewrite B4.
Qed.

(** The rows of the overlay, by address. *)
Definition address : Type := Z + string * nat.
Definition row (t : MemoryTable2) (a : address) : option Entry :=
  match a with inl id => mt_dirty t !! id | inr (key, i) => mt_newEntries t !! key ≫= (.!! i) end.
Definition place_address (key : string) (x : place * Entry) : address :=
  match x.1 with InNew i => inr (key, i) | _ => inl (en_id x.2) end.
Definition record_address (key : string) (r : ChangeRecord) : address :=
  if negb (cr_id r =? 0) then inl (cr_id r) else inr (key, cr_index r).

Lemma getField_setField k v k' e : getField k' (setField k v e) = if decide (k = k') then v else getField k' e.
Proof.
  unfold getField, setField. cbn. case_decide as Hk; [subst; by rewrite lookup_insert_eq|by rewrite lookup_insert_ne].
Qed.
Lemma setField_same k v e e' : same e e' → same (setField k v e) (setField k v e').
Proof. intros []. split; [done..|]. intros k'. rewrite !getField_setField. by case_decide. Qed.
Lemma setStatus_same s e e' : same e e' → same (setStatus s e) (setStatus s e').
Proof. by intros []. Qed.
Lemma setDeleted_same b e e' : same e e' → same (setDeleted b e) (setDeleted b e').
Proof. by intros []. Qed.
Lemma setTempIndex_same i e : same e (setTempIndex i e).
Proof. done. Qed.

(** ** Writing at an address *)

Lemma row_set_news t news a :
  row (set_overlay news (mt_dirty t) (mt_dirtyUpdated t) t) a
  = match a with inl id => mt_dirty t !! id | inr (key, i) => news !! key ≫= (.!! i) end.
Proof. by destruct a as [|[]]. Qed.
Lemma row_alter_row key r f t a :
  row (alter_row key r f t) a = if decide (a = record_address key r) then f <$> row t a else row t a.
Proof.
  unfold alter_row, record_address. destruct (negb _); destruct a as [id|[k i]]; cbn.
  - case_decide as E; [injection E as ->; by rewrite lookup_alter_eq|]. rewrite lookup_alter_ne by congruence. done.
  - by rewrite decide_False by congruence.
  - by rewrite decide_False by congruence.
  - destruct (decide (k = key)) as [->|Hk].
    + rewrite lookup_alter_eq. destruct (mt_newEntries t !! key) as [l|]; cbn; [|by case_decide].
      destruct (decide (i = cr_index r)) as [->|Hi].
      * rewrite decide_True by done. by rewrite list_lookup_alter_eq.
      * rewrite decide_False by congruence. by rewrite list_lookup_alter_ne.
    + rewrite lookup_alter_ne by done. by rewrite decide_False by congruence.
Qed.
Lemma row_put key x t a :
  (match x.1 with InNew i => is_Some (row t (inr (key, i))) | _ => en_id x.2 ≠ 0 end) →
  row (put key x t) a = if decide (a = place_address key x) then Some x.2 else row t a.
Proof.
  intros Hx. unfold put, place_address. destruct x as [[| |i] e]; cbn [fst snd] in *.
  1,2: rewrite (proj2 (Z.eqb_neq _ _) Hx); destruct a as [id|[k i]]; cbn;
    [case_decide as E; [injection E as ->; by rewrite lookup_insert_eq|by rewrite lookup_insert_ne by congruence]
    |by rewrite decide_False by congruence].
  destruct a as [id|[k j]]; cbn; [by rewrite decide_False by congruence|]. cbn in Hx.
  destruct (decide (k = key)) as [->|Hk].
  - rewrite lookup_alter_eq. destruct (mt_newEntries t !! key) as [l|]; cbn in *; [|by destruct Hx].
    destruct (decide (j = i)) as [->|Hj].
    + rewrite decide_True by done. rewrite list_lookup_insert_eq; [done|]. by apply lookup_lt_is_Some.
    + rewrite decide_False by congruence. by rewrite list_lookup_insert_ne.
  - rewrite lookup_alter_ne by done. by rewrite decide_False by congruence.
Qed.
Lemma row_note_updated key x t a : row (note_updated key x t) a = row t a.
Proof. unfold note_updated. destruct x as [[] e]; cbn; try case_match; by destruct a as [|[]]. Qed.

(** The changes of a loop at distinct addresses. *)
Lemma row_puts key (f : Entry → Entry) (note : place * Entry → MemoryTable2 → MemoryTable2) l t :
  (∀ x t a, row (note x t) a = row t a) → (∀ e, en_id (f e) = en_id e) → NoDup (place_address key <$> l) →
  (∀ x, x ∈ l → match x.1 with InNew i => is_Some (row t (inr (key, i))) | _ => en_id x.2 ≠ 0 end) →
  ∀ a, row (foldl (λ t x, note x (put key (x.1, f x.2) t)) t l) a
       = match list_find (λ x, place_address key x = a) l with Some (_, x) => Some (f x.2) | None => row t a end.
Proof.
  intros Hnote Hf. revert t. induction l as [|x l IH]; intros t Hnd Hl a; [done|]. cbn [foldl fmap list_fmap] in *.
  apply NoDup_cons in Hnd as [Hx Hnd]. assert (Hp : place_address key (x.1, f x.2) = place_address key x).
  { unfold place_address. cbn. by rewrite Hf. }
  assert (Hput : ∀ a, row (note x (put key (x.1, f x.2) t)) a = if decide (a = place_address key x) then Some (f x.2) else row t a).
  { intros a'. rewrite Hnote, row_put, Hp; [done|]. cbn. rewrite Hf. apply Hl. set_solver. }
  rewrite IH; [|done|].
  - cbn [list_find]. case_decide as Ha.
    + destruct (list_find _ l) as [[i y]|] eqn:E.
      * apply list_find_Some in E as (E & Ey & _). exfalso. apply Hx. rewrite Ha, <- Ey. apply list_elem_of_fmap. eexists. split; [done|]. by eapply list_elem_of_lookup_2.
      * rewrite Hput, decide_True by done. done.
    + destruct (list_find _ l) as [[i y]|] eqn:E; [done|]. cbn. rewrite Hput, decide_False by congruence. done.
  - intros y Hy. specialize (Hl y ltac:(set_solver)). destruct y as [[| |i] e]; cbn in *; [done|done|]. change (is_Some (row t (inr (key, i)))) in Hl.
    change (is_Some (row (note x (put key (x.1, f x.2) t)) (inr (key, i)))). rewrite Hput. by case_decide.
Qed.
Lemma row_records key (f : ChangeRecord → Entry → Entry) rs t a :
  row (foldl (λ t r, alter_row key r (f r) t) t rs) a
  = foldl (λ o r, if decide (a = record_address key r) then f r <$> o else o) (row t a) rs.
Proof. revert t. induction rs as [|r rs IH]; intros t; [done|]. cbn [foldl]. rewrite IH, row_alter_row. done. Qed.

(** Lists of at most one element for each element of another. *)
Lemma NoDup_mjoin {A B K} (f : A → list B) (g : B → K) (h : A → K) l :
  NoDup (h <$> l) → (∀ a b, a ∈ l → b ∈ f a → g b = h a) → (∀ a, (length (f a) <= 1)%nat) → NoDup (g <$> mjoin (f <$> l)).
Proof.
  induction l as [|a l IH]; intros Hnd Hg Hlen; [by apply NoDup_nil|]. cbn [fmap list_fmap mjoin list_join] in *. apply NoDup_cons in Hnd as [Ha Hnd].
  rewrite fmap_app. apply NoDup_app. split; [|split].
  - specialize (Hlen a). destruct (f a) as [|b [|]]; cbn in *; [by apply NoDup_nil|by apply NoDup_singleton|lia].
  - intros k (b & -> & Hb)%list_elem_of_fmap (b' & Hk & Hb')%list_elem_of_fmap. apply Ha.
    apply list_elem_of_join in Hb' as (lb & Hb' & (a' & -> & Ha')%list_elem_of_fmap).
    rewrite <- (Hg a b) by set_solver. rewrite Hk, (Hg a' b') by set_solver. apply list_elem_of_fmap. eauto.
  - apply IH; [done| |done]. intros. apply Hg; set_solver.
Qed.
Lemma elem_of_mjoin_imap {A B} (f : nat → A → list B) l b : b ∈ mjoin (imap f l) ↔ ∃ i a, l !! i = Some a ∧ b ∈ f i a.
Proof.
  rewrite list_elem_of_join. split.
  - intros (lb & Hb & Hl). apply elem_of_lookup_imap in Hl as (i & a & -> & Ha). eauto.
  - intros (i & a & Ha & Hb). exists (f i a). split; [done|]. apply elem_of_lookup_imap. eauto.
Qed.
Lemma NoDup_mjoin_imap {A B K} (f : nat → A → list B) (g : B → K) (h : nat → K) l :
  (∀ i j, h i = h j → i = j) → (∀ i a b, b ∈ f i a → g b = h i) → (∀ i a, (length (f i a) <= 1)%nat) → NoDup (g <$> mjoin (imap f l)).
Proof.
  revert f h. induction l as [|a l IH]; intros f h Hinj Hg Hlen; [by apply NoDup_nil|]. rewrite imap_cons. cbn [mjoin list_join].
  rewrite fmap_app. apply NoDup_app. split; [|split].
  - specialize (Hlen 0%nat a). destruct (f 0%nat a) as [|b [|]]; cbn in *; [by apply NoDup_nil|by apply NoDup_singleton|lia].
  - intros k (b & -> & Hb)%list_elem_of_fmap (b' & Hk & (i & a' & _ & Hb')%elem_of_mjoin_imap)%list_elem_of_fmap.
    rewrite (Hg _ _ _ Hb), (Hg _ _ _ Hb') in Hk. by apply Hinj in Hk.
  - apply (IH _ (h ∘ S)); [intros i j E%Hinj; lia| |intros ??; apply Hlen]. intros i b b' Hb'. by apply (Hg (S i) b).
Qed.

Section undo.
Context (version : Z) (recent : V2_5_0 <= version) (db : string → list Entry).

(** What the storage holds for a table with key field [kf]: live rows with their key, and
    ids that are not zero and belong to one row. *)
Record db_ok (kf : string) : Prop := {
  dk_id : ∀ key e, e ∈ db key → en_id e ≠ 0;
  dk_nodup : ∀ key, NoDup (en_id <$> db key);
  dk_disjoint : ∀ key key' e e', e ∈ db key → e' ∈ db key' → en_id e = en_id e' → key = key';
  dk_live : ∀ key e, e ∈ db key → en_status e = 0 ∧ en_deleted e = false ∧ en_fields e !! kf = Some key }.
(** The type of a table. *)
Record table_ok (t : MemoryTable2) : Prop := {
  tk_db : db_ok (ti_key (mt_info t));
  tk_dirty : ∀ id d, mt_dirty t !! id = Some d → en_id d = id
    ∧ ∃ key e, e ∈ db key ∧ en_id e = id ∧ en_fields d !! ti_key (mt_info t) = Some key;
  tk_new : ∀ key l e, mt_newEntries t !! key = Some l → e ∈ l → en_id e = 0 ∧ en_fields e !! ti_key (mt_info t) = Some key;
  tk_status : ∀ a e, row t a = Some e → en_status e = 0 ∨ en_status e = 1;
  tk_updated : ∀ key ids id, mt_dirtyUpdated t !! key = Some ids → id ∈ ids → is_Some (mt_dirty t !! id) ∧ ∃ e, e ∈ db key ∧ en_id e = id }.

(** What a select hands to the loops of [update] and [remove]. *)
Record selected (key : string) (t : MemoryTable2) (l : list (place * Entry)) : Prop := {
  se_nodup : NoDup (place_address key <$> l);
  se_rows : ∀ x, x ∈ l →
    match x.1 with
    | InNew i => row t (inr (key, i)) = Some x.2 ∧ en_tempIndex x.2 = i ∧ en_id x.2 = 0
    | InDirty => row t (inl (en_id x.2)) = Some x.2 ∧ en_id x.2 ≠ 0
    | InDb => row t (inl (en_id x.2)) = None ∧ x.2 ∈ db key ∧ en_id x.2 ≠ 0
    end;
  se_live : ∀ x, x ∈ l → en_status x.2 = 0 }.

(** Nothing is in the empty list. *)
Ltac no_elem := match goal with H : _ ∈ [] |- _ => by apply not_elem_of_nil in H | H : _ ∈ _ <$> [] |- _ => by apply not_elem_of_nil in H end.
Lemma select_stored_rows key c t x :
  table_ok t → x ∈ select_stored version db key c t →
  (x.1 = InDirty ∧ row t (inl (en_id x.2)) = Some x.2 ∧ en_id x.2 ≠ 0) ∨ (x.1 = InDb ∧ row t (inl (en_id x.2)) = None ∧ x.2 ∈ db key ∧ en_id x.2 ≠ 0).
Proof.
  intros [Hdb Hd _ _ _] [Hx|Hx]%elem_of_app.
  - apply list_elem_of_join in Hx as (l & Hx & (e & -> & [_ He]%list_elem_of_filter)%list_elem_of_fmap). destruct (mt_dirty t !! en_id e) as [d|] eqn:E.
    + case_match; [no_elem|]. apply list_elem_of_singleton in Hx as ->. left. destruct (Hd _ _ E) as [Hid _]. cbn. rewrite Hid. split_and!; [done|done|].
      by eapply dk_id.
    + apply list_elem_of_singleton in Hx as ->. right. split_and!; [done|done|done|]. by eapply dk_id.
  - case_match; [|no_elem]. apply list_elem_of_join in Hx as (l & Hx & (id & -> & _)%list_elem_of_fmap). destruct (mt_dirty t !! id) as [d|] eqn:E; [|no_elem].
    case_match; [|no_elem]. apply list_elem_of_singleton in Hx as ->. left. destruct (Hd _ _ E) as (Hid & k & e & He & Hk & _). cbn. rewrite Hid. split_and!; [done|done|].
    subst id. rewrite <- Hk. by eapply dk_id.
Qed.
Lemma select_stored_nodup key c t : table_ok t → NoDup (place_address key <$> select_stored version db key c t).
Proof.
  intros [Hdb Hd _ _ Hu]. unfold select_stored. rewrite fmap_app. apply NoDup_app. split; [|split].
  - apply (NoDup_mjoin _ _ (inl ∘ en_id)).
    + rewrite list_fmap_compose. apply (NoDup_fmap_2 inl). eapply sublist_NoDup; [apply (dk_nodup _ Hdb key)|]. apply fmap_sublist, sublist_filter.
    + intros e x _ Hx. destruct (mt_dirty t !! en_id e) as [d|] eqn:E; [|apply list_elem_of_singleton in Hx as ->; done].
      case_match; [no_elem|]. apply list_elem_of_singleton in Hx as ->. destruct (Hd _ _ E) as [Hid _]. by unfold place_address; cbn; rewrite Hid.
    + intros e. repeat case_match; cbn; lia.
  - intros a (x & -> & Hx)%list_elem_of_fmap Hy. case_match; [|no_elem]. apply list_elem_of_fmap in Hy as (y & Hxy & Hy).
    apply list_elem_of_join in Hy as (l & Hy & (id & -> & Hid)%list_elem_of_fmap). destruct (mt_dirty t !! id) as [d'|] eqn:E'; [|no_elem].
    case_match; [|no_elem]. apply list_elem_of_singleton in Hy as ->. destruct (Hd _ _ E') as [Hid' _].
    rewrite merge_sort_Permutation in Hid. apply elem_of_elements, elem_of_difference in Hid as [_ Hid].
    apply list_elem_of_join in Hx as (l & Hx & (e & -> & He)%list_elem_of_fmap). unfold place_address in Hxy. cbn in Hxy. rewrite Hid' in Hxy.
    destruct (mt_dirty t !! en_id e) as [d|] eqn:E.
    + destruct (_ && _); [no_elem|]. apply list_elem_of_singleton in Hx as ->. cbn in Hxy. destruct (Hd _ _ E) as [He' _]. injection Hxy as Hxy. rewrite He' in Hxy.
      apply Hid, elem_of_list_to_set, list_elem_of_fmap. exists e. split; [done|]. apply list_elem_of_filter. by rewrite E.
    + apply list_elem_of_singleton in Hx as ->. cbn in Hxy. injection Hxy as Hxy. congruence.
  - case_match; [|by apply NoDup_nil]. apply (NoDup_mjoin _ _ inl).
    + apply (NoDup_fmap_2 inl). rewrite merge_sort_Permutation. apply NoDup_elements.
    + intros id x _ Hx. destruct (mt_dirty t !! id) as [d|] eqn:E; [|no_elem]. case_match; [|no_elem]. apply list_elem_of_singleton in Hx as ->.
      destruct (Hd _ _ E) as [Hid _]. by unfold place_address; cbn; rewrite Hid.
    + intros id. repeat case_match; cbn; lia.
Qed.
Lemma select_new_rows key c t x :
  x ∈ select_new version key c t → ∃ i e, x = (InNew i, setTempIndex i e) ∧ row t (inr (key, i)) = Some e ∧ process version c e = true.
Proof.
  intros (i & e & Hi & Hx)%elem_of_mjoin_imap. case_match eqn:Ep; [|no_elem]. apply list_elem_of_singleton in Hx as ->. exists i, e.
  cbn. by destruct (mt_newEntries t !! key).
Qed.
Lemma select_new_nodup key c t : NoDup (place_address key <$> select_new version key c t).
Proof.
  apply (NoDup_mjoin_imap _ _ (λ i, inr (key, i))); [by intros ?? [=]| |intros ??; by case_match; cbn; lia].
  intros i e x Hx. case_match; [|no_elem]. by apply list_elem_of_singleton in Hx as ->.
Qed.

Lemma process_status c e : process version c e = true → en_status e ≠ 1 ∧ en_deleted e = false.
Proof. unfold process. intros [[H1 H2]%negb_true_iff%orb_false_iff _]%andb_true_iff. split; [by apply Z.eqb_neq|done]. Qed.
Lemma select_stored_process key c t x : x ∈ select_stored version db key c t → process version c x.2 = true.
Proof using recent.
  unfold select_stored. rewrite (proj2 (Z.leb_le _ _) recent). cbn [andb]. intros [Hx|Hx]%elem_of_app.
  - apply list_elem_of_join in Hx as (l & Hx & (e & -> & [He _]%list_elem_of_filter)%list_elem_of_fmap).
    destruct (mt_dirty t !! en_id e) as [d|]; [destruct (process version c d) eqn:Ep; cbn in Hx; [|no_elem]|]; by apply list_elem_of_singleton in Hx as ->.
  - apply list_elem_of_join in Hx as (l & Hx & (id & -> & _)%list_elem_of_fmap).
    destruct (mt_dirty t !! id) as [d|]; [|no_elem]. destruct (process version c d) eqn:Ep; [|no_elem]. by apply list_elem_of_singleton in Hx as ->.
Qed.

(** A select changes nothing but the indices noted in entries. *)
Definition indexed (o o' : option Entry) : Prop :=
  match o, o' with Some e, Some e' => e' = e ∨ ∃ i, e' = setTempIndex i e | None, None => True | _, _ => False end.
Lemma indexed_refl o : indexed o o.
Proof. destruct o; cbn; auto. Qed.
Lemma row_selectNoLock key c t a :
  row (selectNoLock version db key c t).1 a
  = match a with
    | inr (k, i) => (λ e, if decide (k = key) then (if process version (EQ (ti_key (mt_info t)) key c) e then setTempIndex i e else e) else e) <$> row t a
    | _ => row t a
    end.
Proof.
  destruct a as [id|[k i]]; [done|]. cbn. destruct (decide (k = key)) as [->|Hk].
  - rewrite lookup_alter_eq. destruct (mt_newEntries t !! key) as [l|]; cbn; [|done]. by rewrite list_lookup_imap.
  - rewrite lookup_alter_ne by done. destruct (_ ≫= _); done.
Qed.
Lemma selectNoLock_indexed key c t a : indexed (row t a) (row (selectNoLock version db key c t).1 a).
Proof.
  rewrite row_selectNoLock. destruct a as [id|[k i]]; [apply indexed_refl|]. destruct (row t _); cbn; [|done].
  case_decide; [|by left]. case_match; [right; eauto|by left].
Qed.
Lemma sublist_selected key t l l' : l' `sublist_of` l → selected key t l → selected key t l'.
Proof.
  intros Hs []. split; [|intros x Hx..].
  - eapply sublist_NoDup; [exact se_nodup0|]. by apply fmap_sublist.
  - by apply se_rows0, (elem_of_sublist l').
  - by apply se_live0, (elem_of_sublist l').
Qed.

Lemma selectNoLock_selected key c t :
  table_ok t → selected key (selectNoLock version db key c t).1 (selectNoLock version db key c t).2.
Proof using recent.
  intros Hok. set (c' := EQ (ti_key (mt_info t)) key c).
  assert (Hall : selected key (selectNoLock version db key c t).1 (select_stored version db key c' t ++ select_new version key c' t)).
  { split.
    - rewrite fmap_app. apply NoDup_app. split; [by apply select_stored_nodup|]. split; [|apply select_new_nodup].
      intros a (x & -> & Hx)%list_elem_of_fmap (y & Hxy & (i & e & -> & _)%select_new_rows)%list_elem_of_fmap.
      destruct (select_stored_rows _ _ _ _ Hok Hx) as [(E & _)|(E & _)]; unfold place_address in Hxy; rewrite E in Hxy; discriminate.
    - intros x [Hx|Hx]%elem_of_app.
      + destruct (select_stored_rows _ _ _ _ Hok Hx) as [(-> & ?)|(-> & ?)]; done.
      + destruct (select_new_rows _ _ _ _ Hx) as (i & e & -> & Hr & Hp). cbn [fst snd]. rewrite row_selectNoLock, Hr. cbn. rewrite decide_True by done.
        change (process version (EQ (ti_key (mt_info t)) key c) e) with (process version c' e). rewrite Hp. split_and!; [done|done|].
        cbn in Hr. destruct (mt_newEntries t !! key) as [l|] eqn:El; [|done]. cbn in Hr. eapply tk_new; [done|done|]. by eapply list_elem_of_lookup_2.
    - intros x Hx. assert (Hs : (en_status x.2 = 0 ∨ en_status x.2 = 1) ∧ en_status x.2 ≠ 1); [|naive_solver].
      apply elem_of_app in Hx as [Hx|Hx].
      + split; [|by eapply process_status, select_stored_process].
        destruct (select_stored_rows _ _ _ _ Hok Hx) as [(_ & Hr & _)|(_ & _ & Hr & _)]; [by eapply tk_status|]. left. by eapply dk_live; [apply Hok|].
      + destruct (select_new_rows _ _ _ _ Hx) as (i & e & -> & Hr & Hp). split; [exact (tk_status _ Hok _ _ Hr)|exact (proj1 (process_status _ _ Hp))]. }
  unfold selectNoLock at 2. cbn [snd]. case_match; [|exact Hall]. eapply sublist_selected; [|exact Hall].
  unfold proccessLimit. etrans; [apply sublist_take|apply sublist_drop].
Qed.

(** ** A table that reads as another *)

(** A row that is not in the one overlay but in the other: a copy of the storage's row, or
    a deleted one. *)
Definition fresh (a : address) (e' : Entry) : Prop :=
  match a with inl id => ∃ key e, e ∈ db key ∧ en_id e = id ∧ same e e' | inr _ => en_deleted e' = true end.
Definition reads (a : address) (o o' : option Entry) : Prop :=
  match o, o' with Some e, Some e' => same e e' | None, Some e' => fresh a e' | None, None => True | Some _, None => False end.
Record extends (t t' : MemoryTable2) : Prop := { ex_info : mt_info t' = mt_info t; ex_rows : ∀ a, reads a (row t a) (row t' a) }.
Lemma fresh_same a e e' : fresh a e → same e e' → fresh a e'.
Proof. destruct a as [id|]; cbn; [|by intros ? [_ _ -> _]]. intros (key & x & H1 & H2 & H3) Hs. exists key, x. split_and!; [done|done|]. by transitivity e. Qed.
#[export] Instance extends_preorder : PreOrder extends.
Proof.
  split.
  - intros t. split; [done|]. intros a. destruct (row t a); [exact (reflexivity (R:=same) _)|done].
  - intros t t1 t2 [I1 R1] [I2 R2]. split; [congruence|]. intros a. specialize (R1 a). specialize (R2 a). unfold reads in *.
    destruct (row t a), (row t1 a), (row t2 a); try done; [exact (transitivity (R:=same) R1 R2)|by eapply fresh_same].
Qed.
Lemma indexed_reads a o o' : indexed o o' → reads a o o'.
Proof. destruct o, o'; cbn; try done. intros [->|[i ->]]; [exact (reflexivity (R:=same) _)|apply setTempIndex_same]. Qed.

(** ** Undoing a loop *)

Lemma records_at key (f : ChangeRecord → Entry → Entry) recs l (o : option Entry) a :
  NoDup (place_address key <$> l) → (∀ x r, x ∈ l → r ∈ recs x → record_address key r = place_address key x) →
  foldl (λ o r, if decide (a = record_address key r) then f r <$> o else o) o (l ≫= recs)
  = match list_find (λ x, place_address key x = a) l with Some (_, x) => foldl (λ o r, f r <$> o) o (recs x) | None => o end.
Proof.
  revert o. induction l as [|x l IH]; intros o Hnd Hr; [done|]. cbn [fmap list_fmap] in Hnd. apply NoDup_cons in Hnd as [Hx Hnd].
  change ((x :: l) ≫= recs) with (recs x ++ (l ≫= recs)). rewrite foldl_app, IH; [|done|intros; apply Hr; set_solver].
  assert (E : ∀ rs (o : option Entry), (∀ r, r ∈ rs → record_address key r = place_address key x) →
    foldl (λ o r, if decide (a = record_address key r) then f r <$> o else o) o rs
    = if decide (place_address key x = a) then foldl (λ o r, f r <$> o) o rs else o).
  { induction rs as [|r rs IHr]; intros o' Hrs; cbn [foldl]; [by case_decide|]. rewrite IHr by (intros; apply Hrs; set_solver).
    rewrite (Hrs r) by set_solver. case_decide; [by rewrite decide_True by done|by rewrite decide_False by congruence]. }
  rewrite E by (intros; apply Hr; set_solver). cbn [list_find]. case_decide as Ha.
  - destruct (list_find _ l) as [[i y]|] eqn:El; [|done]. apply list_find_Some in El as (El & Ey & _). exfalso. apply Hx. rewrite Ha, <- Ey.
    apply list_elem_of_fmap. eexists. split; [done|]. by eapply list_elem_of_lookup_2.
  - by destruct (list_find _ l) as [[i y]|].
Qed.
Lemma foldl_Some (f : ChangeRecord → Entry → Entry) rs e : foldl (λ o r, f r <$> o) (Some e) rs = Some (foldl (λ e r, f r e) e rs).
Proof. revert e. induction rs; intros e; [done|]. cbn. apply IHrs. Qed.

Lemma put_info key x t : mt_info (put key x t) = mt_info t.
Proof. unfold put. by repeat case_match. Qed.
Lemma note_updated_info key x t : mt_info (note_updated key x t) = mt_info t.
Proof. unfold note_updated. by repeat case_match. Qed.
Lemma puts_info key (f : Entry → Entry) (note : place * Entry → MemoryTable2 → MemoryTable2) l t :
  (∀ x t, mt_info (note x t) = mt_info t) → mt_info (foldl (λ t x, note x (put key (x.1, f x.2) t)) t l) = mt_info t.
Proof. intros Hn. revert t. induction l as [|x l IH]; intros t; [done|]. cbn. by rewrite IH, Hn, put_info. Qed.
Lemma records_info key (g : ChangeRecord → Entry → Entry) rs t : mt_info (foldl (λ t r, alter_row key r (g r) t) t rs) = mt_info t.
Proof. revert t. induction rs as [|r rs IH]; intros t; [done|]. cbn. rewrite IH. unfold alter_row. by case_match. Qed.

Definition of_place (x : place * Entry) (r : ChangeRecord) : Prop := cr_id r = en_id x.2 ∧ cr_index r = en_tempIndex x.2.
Lemma of_place_address key t l x r : selected key t l → x ∈ l → of_place x r → record_address key r = place_address key x.
Proof.
  intros Hs Hx [H1 H2]. pose proof (se_rows _ _ _ Hs x Hx) as Hr. unfold record_address, place_address. rewrite H1, H2. destruct x as [[| |i] e]; cbn in *.
  - rewrite (proj2 (Z.eqb_neq _ _)); [done|]. apply Hr.
  - rewrite (proj2 (Z.eqb_neq _ _)); [done|]. apply Hr.
  - destruct Hr as (_ & -> & ->). done.
Qed.
Lemma selected_present key t l x :
  selected key t l → x ∈ l → match x.1 with InNew i => is_Some (row t (inr (key, i))) | _ => en_id x.2 ≠ 0 end.
Proof. intros Hs Hx. pose proof (se_rows _ _ _ Hs x Hx) as Hr. destruct x as [[| |i] e]; cbn in *; [apply Hr|apply Hr|]. destruct Hr as [Hr _]. by eexists. Qed.
Lemma list_find_elem {A} (P : A → Prop) `{∀ x, Decision (P x)} l i x : list_find P l = Some (i, x) → x ∈ l ∧ P x.
Proof. intros (E & Hp & _)%list_find_Some. split; [by eapply list_elem_of_lookup_2|done]. Qed.

(** A loop over what was selected, undone by its records. *)
Lemma undo_loop key c t (f : Entry → Entry) (g : ChangeRecord → Entry → Entry) note (recs : place * Entry → list ChangeRecord) :
  table_ok t → (∀ x t a, row (note x t) a = row t a) → (∀ x t, mt_info (note x t) = mt_info t) → (∀ e, en_id (f e) = en_id e) →
  let '(t1, l) := selectNoLock version db key c t in
  (∀ x r, x ∈ l → r ∈ recs x → of_place x r) →
  (∀ x, x ∈ l → same x.2 (foldl (λ e r, g r e) (f x.2) (recs x))) →
  extends t (foldl (λ t r, alter_row key r (g r) t) (set_touched (foldl (λ t x, note x (put key (x.1, f x.2) t)) t1 l)) (l ≫= recs)).
Proof using recent.
  intros Hok Hnote Hinfo Hf. pose proof (selectNoLock_selected key c t Hok) as Hsel. pose proof (selectNoLock_indexed key c t) as Hidx.
  assert (Hi : mt_info (selectNoLock version db key c t).1 = mt_info t) by done.
  destruct (selectNoLock version db key c t) as [t1 l]. cbn [fst snd] in *. intros Hrecs Hsame. split.
  { rewrite records_info. cbn [set_touched mt_info]. by rewrite puts_info. }
  intros a. rewrite row_records, (records_at key g recs l _ a); [|apply Hsel|by intros; eapply of_place_address; eauto].
  change (row (set_touched ?t) a) with (row t a). rewrite (row_puts key f note l t1 Hnote Hf (se_nodup _ _ _ Hsel) (λ x, selected_present key t1 l x Hsel)).
  specialize (Hidx a). destruct (list_find _ l) as [[i x]|] eqn:El; [|by apply indexed_reads].
  apply list_find_elem in El as [Hx Ha]. rewrite foldl_Some. specialize (Hsame x Hx). pose proof (se_rows _ _ _ Hsel x Hx) as Hr. subst a.
  destruct x as [[| |j] e]; cbn [fst snd place_address] in *.
  - destruct Hr as (Hr & Hin & _). rewrite Hr in Hidx. destruct (row t _); [done|]. cbn. eauto.
  - destruct Hr as (Hr & _). rewrite Hr in Hidx. destruct (row t _) as [e0|]; [|done]. cbn. destruct Hidx as [->|[j ->]]; [done|].
    by apply (transitivity (R:=same) (setTempIndex_same j e0)).
  - destruct Hr as (Hr & _). rewrite Hr in Hidx. destruct (row t _) as [e0|]; [|done]. cbn. destruct Hidx as [->|[j' ->]]; [done|].
    by apply (transitivity (R:=same) (setTempIndex_same j' e0)).
Qed.

(** ** Undoing each operation *)

Lemma fields_of_nodup e : NoDup (fields_of e).*1.
Proof. unfold fields_of. rewrite merge_sort_Permutation. apply NoDup_fst_map_to_list. Qed.
Lemma written_nodup t e : NoDup (written t e).*1.
Proof. eapply sublist_NoDup; [apply (fields_of_nodup e)|]. apply fmap_sublist, sublist_filter. Qed.
Definition set_fields (fs : list (string * string)) (e : Entry) : Entry := foldl (λ e x, setField x.1 x.2 e) e fs.
Lemma set_fields_kept fs e :
  en_id (set_fields fs e) = en_id e ∧ en_status (set_fields fs e) = en_status e ∧ en_deleted (set_fields fs e) = en_deleted e
  ∧ en_tempIndex (set_fields fs e) = en_tempIndex e ∧ ∀ k, k ∉ fs.*1 → en_fields (set_fields fs e) !! k = en_fields e !! k.
Proof.
  revert e. induction fs as [|[k v] fs IH]; intros e; [done|]. change (set_fields ((k, v) :: fs) e) with (set_fields fs (setField k v e)).
  destruct (IH (setField k v e)) as (-> & -> & -> & -> & Hk). split_and!; [done..|].
  intros k' [Hne Hk']%not_elem_of_cons. rewrite Hk by done. cbn. by rewrite lookup_insert_ne.
Qed.
Lemma update_entry_acc fs e acc :
  NoDup fs.*1 →
  foldl (λ s x, (setField x.1 x.2 s.1, s.2 ++ [mkRecord (en_tempIndex s.1) x.1 (getField x.1 s.1) (en_id s.1)])) (e, acc) fs
  = (set_fields fs e, acc ++ ((λ x, mkRecord (en_tempIndex e) x.1 (getField x.1 e) (en_id e)) <$> fs)).
Proof.
  revert e acc. induction fs as [|x fs IH]; intros e acc Hnd; [by rewrite app_nil_r|]. cbn [foldl fst snd fmap list_fmap] in *. apply NoDup_cons in Hnd as [Hx Hnd].
  rewrite IH by done. f_equal. rewrite <- app_assoc. cbn. f_equal. f_equal. apply list_fmap_ext. intros i y Hy.
  rewrite getField_setField, decide_False; [done|]. intros E. apply Hx. rewrite E. apply list_elem_of_fmap. exists y. split; [done|]. by eapply list_elem_of_lookup_2.
Qed.
Lemma update_entry_eq fs e :
  NoDup fs.*1 → update_entry fs e = (set_fields fs e, (λ x, mkRecord (en_tempIndex e) x.1 (getField x.1 e) (en_id e)) <$> fs).
Proof. intros Hnd. unfold update_entry. by rewrite update_entry_acc. Qed.
Lemma restore_fields (fs : list (string * string)) e0 e :
  (∀ k, k ∉ fs.*1 → getField k e = getField k e0) → en_id e = en_id e0 → en_status e = en_status e0 → en_deleted e = en_deleted e0 → ∀ i id,
  same e0 (foldl (λ e r, setField (cr_key r) (cr_oldValue r) e) e ((λ x, mkRecord i x.1 (getField x.1 e0) id) <$> fs)).
Proof.
  revert e. induction fs as [|[k v] fs IH]; intros e Hk H1 H2 H3 i id; cbn.
  { split; [done..|]. intros k. apply Hk. cbn. by apply not_elem_of_nil. }
  apply IH; [|done..]. intros k' Hk'. rewrite getField_setField. case_decide as E; [by subst|]. apply Hk. apply not_elem_of_cons. split; [cbn; congruence|done].
Qed.

(** [update] with its loops in closed form. *)
Definition undo_records (fs : list (string * string)) (x : place * Entry) : list ChangeRecord :=
  (λ y, mkRecord (en_tempIndex x.2) y.1 (getField y.1 x.2) (en_id x.2)) <$> fs.
Lemma update_loops key fs l t :
  NoDup fs.*1 →
  foldl (λ t x, note_updated key x (put key (x.1, (update_entry fs x.2).1) t)) t l = foldl (λ t x, note_updated key x (put key (x.1, set_fields fs x.2) t)) t l
  ∧ (l ≫= (λ x, (update_entry fs x.2).2)) = (l ≫= undo_records fs).
Proof.
  intros Hnd. split.
  - revert t. induction l as [|x l IH]; intros t; [done|]. cbn [foldl]. by rewrite update_entry_eq, IH.
  - apply list_bind_ext; [|done]. intros x. by rewrite update_entry_eq.
Qed.
Lemma update_undo key entry c o t t' chs n :
  table_ok t → update version db key entry c o t = Ok (t', chs, n) → extends t (foldl (λ t ch, rollback ch t) t' (reverse chs)).
Proof using recent.
  intros Hok. unfold update. case_match; [intros [= <- <- _]; reflexivity|]. case_match; [done|].
  pose proof (undo_loop key c t (set_fields (written t entry)) (λ r, setField (cr_key r) (cr_oldValue r)) (note_updated key)
    (undo_records (written t entry)) Hok (row_note_updated key) (note_updated_info key) (λ e, proj1 (set_fields_kept _ e))) as Hu.
  assert (Hw : written (selectNoLock version db key c t).1 entry = written t entry) by done.
  destruct (selectNoLock version db key c t) as [t1 l]. cbn [fst] in Hw. rewrite Hw.
  destruct (update_loops key (written t entry) l t1 (written_nodup t entry)) as [-> ->]. intros [= <- <- _]. apply Hu.
  - intros x r _ (y & -> & _)%list_elem_of_fmap. done.
  - intros x _. destruct (set_fields_kept (written t entry) x.2) as (K1 & K2 & K3 & _ & K4). apply restore_fields; [|done..].
    intros k Hk. unfold getField. by rewrite K4.
Qed.
Lemma remove_undo key c o t t' chs n :
  table_ok t → remove version db key c o t = (t', chs, n) → extends t (foldl (λ t ch, rollback ch t) t' (reverse chs)).
Proof using recent.
  intros Hok. unfold remove. case_match; [intros [= <- <- _]; reflexivity|].
  pose proof (undo_loop key c t (setStatus 1) (λ _, setStatus 0) (λ _ t, t) (λ x, [mkRecord (en_tempIndex x.2) EmptyString EmptyString (en_id x.2)]) Hok) as Hu.
  pose proof (selectNoLock_selected key c t Hok) as Hsel. destruct (selectNoLock version db key c t) as [t1 l]. intros [= <- <- _].
  cbn [reverse rev rev_append foldl]. unfold rollback. cbn [ch_kind change ch_value ch_key fst snd] in *.
  replace ((λ x : place * Entry, mkRecord (en_tempIndex x.2) EmptyString EmptyString (en_id x.2)) <$> l)
    with (l ≫= λ x, [mkRecord (en_tempIndex x.2) EmptyString EmptyString (en_id x.2)]) by (clear; induction l as [|x l IH]; [done|]; cbn; by rewrite IH).
  apply Hu; [done|done|done| |].
  - intros x r _ ->%list_elem_of_singleton. done.
  - intros x Hx. split; [done| |done|done]. cbn. symmetry. by apply (se_live _ _ _ Hsel).
Qed.
Lemma insert_undo key entry o t t' chs n :
  insert key entry o t = Ok (t', chs, n) → extends t (foldl (λ t ch, rollback ch t) t' (reverse chs)).
Proof.
  unfold insert. case_match; [intros [= <- <- _]; reflexivity|]. case_match; [done|]. intros [= <- <- _]. split; [done|].
  intros a. cbn. destruct a as [id|[k i]]; cbn; [destruct (mt_dirty t !! id); [exact (reflexivity (R:=same) _)|done]|].
  destruct (decide (k = key)) as [->|Hk]; [|rewrite lookup_alter_ne, lookup_insert_ne by done; destruct (_ ≫= _); [exact (reflexivity (R:=same) _)|done]].
  rewrite lookup_alter_eq, lookup_insert_eq. cbn. set (l := default [] (mt_newEntries t !! key)).
  replace (mt_newEntries t !! key ≫= (.!! i)) with (l !! i) by (subst l; by destruct (mt_newEntries t !! key)).
  destruct (decide (i = length l)) as [->|Hi].
  - rewrite list_lookup_alter_eq, list_lookup_middle by done. rewrite (lookup_ge_None_2 l) by done. done.
  - rewrite list_lookup_alter_ne by done. destruct (l !! i) as [e|] eqn:E.
    + rewrite lookup_app_l by (by eapply lookup_lt_Some). rewrite E. exact (reflexivity (R:=same) _).
    + apply lookup_ge_None in E. rewrite lookup_ge_None_2; [done|]. rewrite length_app. cbn. lia.
Qed.

(** ** Operations in sequence *)

Definition undo_change (kind : ChangeKind) (r : ChangeRecord) : Entry → Entry :=
  match kind with Insert => setDeleted true | Update => setField (cr_key r) (cr_oldValue r) | Remove => setStatus 0 end.
Lemma undo_change_same kind r e e' : same e e' → same (undo_change kind r e) (undo_change kind r e').
Proof. destruct kind; [apply setDeleted_same|apply setField_same|apply setStatus_same]. Qed.
Lemma rollback_info ch t : mt_info (rollback ch t) = mt_info t.
Proof.
  unfold rollback. destruct (ch_kind ch); [by case_match|apply (records_info _ (λ r, setField (cr_key r) (cr_oldValue r)))|apply (records_info _ (λ _, setStatus 0))].
Qed.
(** A change as the operations make them, whose rows are in the table. *)
Record change_ok (t : MemoryTable2) (ch : Change) : Prop := {
  co_insert : ch_kind ch = Insert → ∃ i, ch_value ch = [mkRecord i EmptyString EmptyString 0];
  co_present : ∀ r, r ∈ ch_value ch → is_Some (row t (record_address (ch_key ch) r));
  co_key : ch_kind ch = Update → ∀ r, r ∈ ch_value ch → cr_key r ≠ ti_key (mt_info t) }.
Lemma rollback_rows t t1 ch :
  change_ok t ch → rollback ch t1 = foldl (λ t r, alter_row (ch_key ch) r (undo_change (ch_kind ch) r) t) t1 (ch_value ch).
Proof. intros [Hi _ _]. unfold rollback. destruct (ch_kind ch) eqn:E; [|done..]. destruct (Hi eq_refl) as [i ->]. done. Qed.
Lemma alter_row_extends key r f t t' :
  (∀ e e', same e e' → same (f e) (f e')) → is_Some (row t (record_address key r)) → extends t t' → extends (alter_row key r f t) (alter_row key r f t').
Proof.
  intros Hf Hp [Hi Hr]. split; [unfold alter_row; by case_match|]. intros a. rewrite !row_alter_row. case_decide as Ha; [|done]. subst a.
  specialize (Hr (record_address key r)). destruct Hp as [e Hp]. rewrite Hp in *. cbn in *. destruct (row t' _); [|done]. by apply Hf.
Qed.
Lemma alter_row_present key r f t a : is_Some (row t a) → is_Some (row (alter_row key r f t) a).
Proof. intros Ha. rewrite row_alter_row. case_decide; [by apply fmap_is_Some|done]. Qed.
Lemma rollback_extends t t' ch : change_ok t ch → extends t t' → extends (rollback ch t) (rollback ch t').
Proof. clear recent.
  intros Hc. rewrite !(rollback_rows t _ ch Hc). pose proof (co_present _ _ Hc) as Hp. clear Hc. revert t t' Hp.
  induction (ch_value ch) as [|r rs IH]; intros t t' Hp He; [done|]. cbn [foldl]. apply IH.
  - intros r' Hr'. apply alter_row_present, Hp. set_solver.
  - apply alter_row_extends; [apply undo_change_same|apply Hp; set_solver|done].
Qed.
Lemma rollback_present t ch a : change_ok t ch → is_Some (row t a) → is_Some (row (rollback ch t) a).
Proof.
  intros Hc. rewrite (rollback_rows t _ ch Hc). clear Hc. revert t. induction (ch_value ch) as [|r rs IH]; intros t Ha; [done|]. cbn [foldl].
  by apply IH, alter_row_present.
Qed.
Definition keeps_rows (t t' : MemoryTable2) : Prop := mt_info t' = mt_info t ∧ ∀ a, is_Some (row t a) → is_Some (row t' a).
#[export] Instance keeps_rows_preorder : PreOrder keeps_rows.
Proof. split; [by intros t|]. intros t t1 t2 [I1 H1] [I2 H2]. split; [congruence|]. intros a Ha. by apply H2, H1. Qed.
Lemma change_ok_mono t t' ch : keeps_rows t t' → change_ok t ch → change_ok t' ch.
Proof. intros [Hi Ht] [H1 H2 H3]. split; [done| |by rewrite Hi]. intros r Hr. by apply Ht, H2. Qed.
Lemma rollback_keeps_rows t ch : change_ok t ch → keeps_rows t (rollback ch t).
Proof.
  intros Hc. split; [|by intros a; apply rollback_present]. rewrite (rollback_rows t _ ch Hc).
  apply (records_info _ (λ r, undo_change (ch_kind ch) r)).
Qed.

(** ** The type of a table is kept *)

Definition row_ok (info : TableInfo) (a : address) (e : Entry) : Prop :=
  (en_status e = 0 ∨ en_status e = 1)
  ∧ match a with
    | inl id => en_id e = id ∧ ∃ key e0, e0 ∈ db key ∧ en_id e0 = id ∧ en_fields e !! ti_key info = Some key
    | inr (key, _) => en_id e = 0 ∧ en_fields e !! ti_key info = Some key
    end.
Lemma table_ok_row t a e : table_ok t → row t a = Some e → row_ok (mt_info t) a e.
Proof.
  intros Hok Hr. split; [by eapply tk_status|]. destruct a as [id|[key i]]; cbn in Hr; [by eapply tk_dirty|].
  destruct (mt_newEntries t !! key) as [l|] eqn:E; [|done]. eapply tk_new; [done..|]. by eapply list_elem_of_lookup_2.
Qed.
Lemma table_ok_intro t :
  db_ok (ti_key (mt_info t)) → (∀ a e, row t a = Some e → row_ok (mt_info t) a e) →
  (∀ key ids id, mt_dirtyUpdated t !! key = Some ids → id ∈ ids → is_Some (mt_dirty t !! id) ∧ ∃ e, e ∈ db key ∧ en_id e = id) → table_ok t.
Proof.
  intros Hdb Hr Hu. split; [done| | | |done].
  - intros id d Hd. by apply (Hr (inl id) d).
  - intros key l e Hl He. apply list_elem_of_lookup in He as [i Hi]. apply (Hr (inr (key, i)) e). cbn. by rewrite Hl.
  - intros a e He. by apply (Hr a).
Qed.
(** Changes of rows in place. *)
Lemma table_ok_step t t' :
  table_ok t → mt_info t' = mt_info t → mt_dirtyUpdated t' = mt_dirtyUpdated t → (∀ id, is_Some (mt_dirty t !! id) → is_Some (mt_dirty t' !! id)) →
  (∀ a e, row t' a = Some e → row_ok (mt_info t) a e) → table_ok t'.
Proof.
  intros Hok Hi Hu Hd Hr. apply table_ok_intro; rewrite ?Hi, ?Hu; [apply Hok|done|]. intros key ids id H1 H2.
  destruct (tk_updated _ Hok _ _ _ H1 H2) as [H3 H4]. split; [by apply Hd|done].
Qed.
Lemma select_ok key c t : table_ok t → table_ok (selectNoLock version db key c t).1.
Proof.
  intros Hok. eapply table_ok_step; [exact Hok|done|done|done|]. intros a e He. pose proof (selectNoLock_indexed key c t a) as Hx.
  rewrite He in Hx. destruct (row t a) as [e0|] eqn:E; [|done]. apply (table_ok_row _ _ _ Hok) in E. by destruct Hx as [->|[i ->]].
Qed.
Lemma alter_row_ok key r f t :
  (∀ a e, row_ok (mt_info t) a e → row_ok (mt_info t) a (f e)) → table_ok t → table_ok (alter_row key r f t).
Proof.
  intros Hf Hok. eapply table_ok_step; [exact Hok|unfold alter_row; by case_match..| |].
  - intros id Hid. exact (alter_row_present key r f t (inl id) Hid).
  - intros a e. rewrite row_alter_row. case_decide; [|intros He; by apply table_ok_row]. intros (e0 & He & ->)%fmap_Some. by apply Hf, table_ok_row.
Qed.
Lemma undo_change_ok info kind r a e :
  (kind = Update → cr_key r ≠ ti_key info) → row_ok info a e → row_ok info a (undo_change kind r e).
Proof.
  intros Hk [Hs Ha]. destruct kind; cbn; [done| |].
  - split; [done|]. assert (E : en_fields (setField (cr_key r) (cr_oldValue r) e) !! ti_key info = en_fields e !! ti_key info).
    { cbn. apply lookup_insert_ne. by apply Hk. }
    destruct a as [id|[key i]]; by rewrite E.
  - split; [by left|done].
Qed.
Lemma rollback_ok t ch : table_ok t → change_ok t ch → table_ok (rollback ch t).
Proof. clear recent.
  intros Hok Hc. rewrite (rollback_rows t t ch Hc). pose proof (co_key _ _ Hc) as Hk. clear Hc. revert t Hok Hk.
  induction (ch_value ch) as [|r rs IH]; intros t Hok Hk; [done|]. cbn [foldl]. apply IH.
  - apply alter_row_ok; [|done]. intros a e. apply undo_change_ok. intros Hu. apply (Hk Hu). set_solver.
  - intros Hu r' Hr'. replace (mt_info (alter_row _ _ _ _)) with (mt_info t) by (unfold alter_row; by case_match). apply (Hk Hu). set_solver.
Qed.

(** The loops of [update] and [remove]. *)
Lemma put_ok key x t : row_ok (mt_info t) (place_address key x) x.2 → table_ok t → table_ok (put key x t).
Proof.
  intros Hx Hok. unfold put. destruct x as [[| |i] e]; cbn [fst snd place_address] in *.
  1,2: case_match; [done|]; eapply table_ok_step; [exact Hok|done|done| |];
    [intros id Hid; cbn; by apply lookup_insert_is_Some'; right|intros [id|[k j]] e'; [cbn; intros [[<- <-]|[_ He]]%lookup_insert_Some; [done|]|intros He]; by apply (table_ok_row t)].
  eapply table_ok_step; [exact Hok|done|done|done|]. intros [id|[k j]] e' He; [by apply (table_ok_row t)|]. cbn in He.
  destruct (decide (k = key)) as [->|Hk]; [|rewrite lookup_alter_ne in He by done; by apply (table_ok_row t (inr (k, j)))].
  rewrite lookup_alter_eq in He. destruct (mt_newEntries t !! key) as [l|] eqn:E; [|done]. cbn in He.
  apply list_lookup_insert_Some in He as [(-> & <- & _)|[_ He]]; [done|]. apply (table_ok_row t (inr (key, j)) e' Hok). cbn. by rewrite E.
Qed.
Lemma note_updated_ok key x t :
  (x.1 = InDb → is_Some (mt_dirty t !! en_id x.2) ∧ x.2 ∈ db key) → table_ok t → table_ok (note_updated key x t).
Proof.
  intros Hx Hok. unfold note_updated. destruct x as [[| |i] e]; cbn [fst snd] in *; [|done..]. case_match; [done|].
  destruct (Hx eq_refl) as [Hd He]. apply table_ok_intro; [apply Hok|intros a e'; apply (table_ok_row t a e' Hok)|].
  intros k ids id. cbn. intros [[<- <-]|[_ Hids]]%lookup_insert_Some Hid; [|by eapply tk_updated].
  apply elem_of_union in Hid as [Hid| ->%elem_of_singleton]; [|eauto]. destruct (mt_dirtyUpdated t !! key) as [ids|] eqn:E; [|by apply elem_of_empty in Hid].
  by eapply tk_updated.
Qed.
Lemma put_dirty key x t : x.1 = InDb → en_id x.2 ≠ 0 → mt_dirty (put key x t) !! en_id x.2 = Some x.2.
Proof. intros E Hid. unfold put. rewrite E, (proj2 (Z.eqb_neq _ _) Hid). cbn. apply lookup_insert_eq. Qed.
Lemma selected_row_ok key c t x :
  table_ok t → x ∈ (selectNoLock version db key c t).2 →
  row_ok (mt_info t) (place_address key x) x.2 ∧ (x.1 = InDb → x.2 ∈ db key) ∧ (x.1 = InDb → en_id x.2 ≠ 0).
Proof using recent.
  intros Hok Hx. pose proof (se_rows _ _ _ (selectNoLock_selected key c t Hok) x Hx) as Hr. unfold place_address.
  destruct x as [[| |i] e]; cbn [fst snd] in *.
  - destruct Hr as (_ & He & Hid). split; [|done]. destruct (dk_live _ (tk_db _ Hok) _ _ He) as (H1 & _ & H2). split; [by left|]. split; [done|]. eauto.
  - split; [|done]. exact (table_ok_row _ _ _ (select_ok key c t Hok) (proj1 Hr)).
  - split; [|done]. exact (table_ok_row _ _ _ (select_ok key c t Hok) (proj1 Hr)).
Qed.
Lemma puts_ok key (f : Entry → Entry) noted l t :
  (∀ e, en_id (f e) = en_id e) → (∀ a e, row_ok (mt_info t) a e → row_ok (mt_info t) a (f e)) →
  (∀ x, x ∈ l → row_ok (mt_info t) (place_address key x) x.2 ∧ (x.1 = InDb → x.2 ∈ db key) ∧ (x.1 = InDb → en_id x.2 ≠ 0)) →
  table_ok t → table_ok (foldl (λ t x, (if noted : bool then note_updated key x else id) (put key (x.1, f x.2) t)) t l).
Proof. clear recent.
  intros Hid Hf. revert t Hf. induction l as [|x l IH]; intros t Hf Hl Hok; [done|]. cbn [foldl].
  destruct (Hl x ltac:(set_solver)) as (Hx & Hdb & Hnz). assert (Hi : ∀ y, mt_info ((if noted then note_updated key y else id) (put key (x.1, f x.2) t)) = mt_info t).
  { intros y. destruct noted; cbn [id]; [rewrite note_updated_info|]; apply put_info. }
  apply IH; [by rewrite Hi|intros y Hy; rewrite Hi; apply Hl; set_solver|].
  assert (Hp : table_ok (put key (x.1, f x.2) t)).
  { apply put_ok; [|done]. cbn [snd]. replace (place_address key (x.1, f x.2)) with (place_address key x) by (unfold place_address; cbn; by rewrite Hid). by apply Hf. }
  destruct noted; [|exact Hp]. apply note_updated_ok; [|exact Hp]. intros E. split; [|by apply Hdb].
  pose proof (put_dirty key (x.1, f x.2) t E) as Hd. cbn [snd] in Hd. rewrite Hid in Hd. rewrite Hd; [done|]. by apply Hnz.
Qed.

(** The operations of a table; one that throws changes nothing. *)
Inductive table_op :=
| OpSelect (key : string) (c : Condition)
| OpUpdate (key : string) (entry : Entry) (c : Condition) (o : AccessOptions)
| OpInsert (key : string) (entry : Entry) (o : AccessOptions)
| OpRemove (key : string) (c : Condition) (o : AccessOptions).
Definition run_op (op : table_op) (t : MemoryTable2) : MemoryTable2 * list Change :=
  match op with
  | OpSelect key c => ((selectNoLock version db key c t).1, [])
  | OpUpdate key entry c o => match update version db key entry c o t with Ok (t, chs, _) => (t, chs) | Throw _ => (t, []) end
  | OpInsert key entry o => match insert key entry o t with Ok (t, chs, _) => (t, chs) | Throw _ => (t, []) end
  | OpRemove key c o => (remove version db key c o t).1
  end.
(** Entries that are inserted were made by [newEntry]. *)
Definition op_ok (op : table_op) : Prop :=
  match op with OpInsert _ entry _ => en_id entry = 0 ∧ en_status entry = 0 | _ => True end.

Lemma set_fields_ok t entry a e : row_ok (mt_info t) a e → row_ok (mt_info t) a (set_fields (written t entry) e).
Proof.
  destruct (set_fields_kept (written t entry) e) as (K1 & K2 & _ & _ & K4). unfold row_ok. rewrite K1, K2, K4; [done|].
  intros (x & E & [[_ Hx] _]%list_elem_of_filter)%list_elem_of_fmap. by rewrite <- E in Hx.
Qed.
Lemma puts_keep key c t (f : Entry → Entry) note :
  table_ok t → (∀ x t a, row (note x t) a = row t a) → (∀ x t, mt_info (note x t) = mt_info t) → (∀ e, en_id (f e) = en_id e) →
  let '(t1, l) := selectNoLock version db key c t in
  let t' := set_touched (foldl (λ t x, note x (put key (x.1, f x.2) t)) t1 l) in
  keeps_rows t t' ∧ ∀ x r, x ∈ l → of_place x r → is_Some (row t' (record_address key r)).
Proof using recent.
  intros Hok Hn Hi Hf. pose proof (selectNoLock_selected key c t Hok) as Hsel. pose proof (selectNoLock_indexed key c t) as Hx.
  assert (Ht1 : mt_info (selectNoLock version db key c t).1 = mt_info t) by done. destruct (selectNoLock version db key c t) as [t1 l]. cbn [fst snd] in *.
  pose proof (row_puts key f note l t1 Hn Hf (se_nodup _ _ _ Hsel) (λ x, selected_present key t1 l x Hsel)) as Hr. split; [split|].
  - cbn. by rewrite puts_info.
  - intros a Ha. change (is_Some (row (foldl (λ t x, note x (put key (x.1, f x.2) t)) t1 l) a)). rewrite Hr. case_match; [by case_match|].
    specialize (Hx a). destruct (row t a), (row t1 a); [done|done|by destruct Ha..].
  - intros x r Hl Hp. rewrite (of_place_address key t1 l x r Hsel Hl Hp).
    change (is_Some (row (foldl (λ t x, note x (put key (x.1, f x.2) t)) t1 l) (place_address key x))). rewrite Hr.
    destruct (list_find _ l) as [[]|] eqn:E; [done|]. apply list_find_None in E. eapply Forall_forall in E; [|exact Hl]. done.
Qed.
Lemma touched_ok t : table_ok t → table_ok (set_touched t).
Proof. by intros []. Qed.
Lemma run_update_ok key entry c o t t' chs n :
  table_ok t → update version db key entry c o t = Ok (t', chs, n) → table_ok t' ∧ keeps_rows t t' ∧ ∀ ch, ch ∈ chs → change_ok t' ch ∧ ch_table ch = ti_name (mt_info t).
Proof using recent.
  intros Hok. unfold update. case_match; [intros [= <- <- _]; split_and!; [done|done|intros ? ?; no_elem]|]. case_match; [done|].
  pose proof (puts_keep key c t (set_fields (written t entry)) (note_updated key) Hok (row_note_updated key) (note_updated_info key) (λ e, proj1 (set_fields_kept _ e))) as Hk.
  assert (Hw : written (selectNoLock version db key c t).1 entry = written t entry) by done.
  pose proof (puts_ok key (set_fields (written t entry)) true (selectNoLock version db key c t).2 (selectNoLock version db key c t).1 (λ e, proj1 (set_fields_kept _ e))) as Hp.
  specialize (Hp (set_fields_ok t entry) (λ x, selected_row_ok key c t x Hok) (select_ok key c t Hok)).
  assert (Hi1 : mt_info (selectNoLock version db key c t).1 = mt_info t) by done. destruct (selectNoLock version db key c t) as [t1 l]. cbn [fst snd] in *. rewrite Hw.
  destruct (update_loops key (written t entry) l t1 (written_nodup t entry)) as [-> ->]. destruct Hk as [Hk Hrec]. intros [= <- <- _].
  split_and!; [by apply touched_ok|done|]. intros ch ->%list_elem_of_singleton. split; [|cbn; by rewrite Hi1]. split; [done| |].
  - intros r (x & Hr & Hx)%list_elem_of_bind. apply (Hrec x r Hx). by apply list_elem_of_fmap in Hr as (y & -> & _).
  - intros _ r (x & Hr & Hx)%list_elem_of_bind. apply list_elem_of_fmap in Hr as (y & -> & [[_ Hy] _]%list_elem_of_filter). cbn [cr_key]. by rewrite (proj1 Hk).
Qed.
Lemma run_remove_ok key c o t t' chs n :
  table_ok t → remove version db key c o t = (t', chs, n) → table_ok t' ∧ keeps_rows t t' ∧ ∀ ch, ch ∈ chs → change_ok t' ch ∧ ch_table ch = ti_name (mt_info t).
Proof using recent.
  intros Hok. unfold remove. case_match; [intros [= <- <- _]; split_and!; [done|done|intros ? ?; no_elem]|].
  pose proof (puts_keep key c t (setStatus 1) (λ _ t, t) Hok (λ _ _ _, eq_refl) (λ _ _, eq_refl) (λ _, eq_refl)) as Hk.
  pose proof (puts_ok key (setStatus 1) false (selectNoLock version db key c t).2 (selectNoLock version db key c t).1 (λ _, eq_refl)
    (λ a e H, conj (or_intror eq_refl) (proj2 H)) (λ x, selected_row_ok key c t x Hok) (select_ok key c t Hok)) as Hp.
  assert (Hi1 : mt_info (selectNoLock version db key c t).1 = mt_info t) by done. destruct (selectNoLock version db key c t) as [t1 l]. cbn [fst snd] in *.
  destruct Hk as [Hk Hrec]. intros [= <- <- _]. split_and!; [by apply touched_ok|done|]. intros ch ->%list_elem_of_singleton. split; [|cbn; by rewrite Hi1].
  split; [done| |done]. intros r (x & -> & Hx)%list_elem_of_fmap. by apply (Hrec x).
Qed.
Lemma row_insert key e t a :
  row (set_overlay (<[key := default [] (mt_newEntries t !! key) ++ [e]]> (mt_newEntries t)) (mt_dirty t) (mt_dirtyUpdated t) t) a
  = if decide (a = inr (key, length (default [] (mt_newEntries t !! key)))) then Some e else row t a.
Proof.
  destruct a as [id|[k i]]; cbn; [done|]. destruct (decide (k = key)) as [->|Hk]; [|rewrite lookup_insert_ne by done; by rewrite decide_False by congruence].
  rewrite lookup_insert_eq. cbn. replace (mt_newEntries t !! key ≫= (.!! i)) with (default [] (mt_newEntries t !! key) !! i) by (by destruct (mt_newEntries t !! key)).
  set (l := default [] _). case_decide as E; [injection E as ->; by apply list_lookup_middle|]. destruct (decide (i < length l)%nat); [by apply lookup_app_l|].
  assert (i ≠ length l) by congruence. rewrite !lookup_ge_None_2; [done|lia|]. rewrite length_app. cbn. lia.
Qed.
Lemma run_insert_ok key entry o t t' chs n :
  en_id entry = 0 → en_status entry = 0 → table_ok t → insert key entry o t = Ok (t', chs, n) →
  table_ok t' ∧ keeps_rows t t' ∧ ∀ ch, ch ∈ chs → change_ok t' ch ∧ ch_table ch = ti_name (mt_info t).
Proof.
  intros Hid Hst Hok. unfold insert. case_match; [intros [= <- <- _]; split_and!; [done|done|intros ? ?; no_elem]|]. case_match; [done|].
  pose proof (row_insert key (setField (ti_key (mt_info t)) key entry) t) as Hr. intros [= <- <- _]. set (t' := set_overlay _ _ _ _) in *. split_and!.
  - apply touched_ok. eapply table_ok_step; [exact Hok|done|done|done|]. intros a e. rewrite Hr. case_decide as E; [|by apply table_ok_row].
    intros [= <-]. subst a. split; [by left|]. split; [done|]. cbn. apply lookup_insert_eq.
  - split; [done|]. intros a Ha. change (is_Some (row t' a)). rewrite Hr. by case_decide.
  - intros ch ->%list_elem_of_singleton. split; [|done]. split; [cbn; eauto| |done]. intros r ->%list_elem_of_singleton. cbn [ch_key change].
    change (is_Some (row t' (inr (key, length (default [] (mt_newEntries t !! key)))))). rewrite Hr. by rewrite decide_True.
Qed.
(** Every operation keeps the type of the table, its rows, and makes changes that can be undone. *)
Lemma run_op_ok op t :
  op_ok op → table_ok t →
  table_ok (run_op op t).1 ∧ keeps_rows t (run_op op t).1 ∧ ∀ ch, ch ∈ (run_op op t).2 → change_ok (run_op op t).1 ch ∧ ch_table ch = ti_name (mt_info t).
Proof using recent.
  intros Hop Hok. assert (Hnil : table_ok t ∧ keeps_rows t t ∧ ∀ ch, ch ∈ [] → change_ok t ch ∧ ch_table ch = ti_name (mt_info t)).
  { split_and!; [done|done|]. intros ch Hch. by apply not_elem_of_nil in Hch. }
  destruct op as [key c|key entry c o|key entry o|key c o]; cbn [run_op].
  - split_and!; [by apply select_ok| |intros ch Hch; by apply not_elem_of_nil in Hch]. split; [done|]. cbn [fst]. intros a Ha. pose proof (selectNoLock_indexed key c t a) as Hx.
    destruct (row t a), (row (selectNoLock version db key c t).1 a); [done|done|by destruct Ha..].
  - destruct (update _ _ _ _ _ _ _) as [[[t' chs] n]|] eqn:E; [|exact Hnil]. by eapply run_update_ok.
  - destruct (insert _ _ _ _) as [[[t' chs] n]|] eqn:E; [|exact Hnil]. destruct Hop. by eapply run_insert_ok.
  - destruct (remove _ _ _ _ _ _) as [[t' chs] n] eqn:E. by eapply run_remove_ok.
Qed.
Lemma run_op_info op t : mt_info (run_op op t).1 = mt_info t.
Proof.
  destruct op as [key c|key entry c o|key entry o|key c o]; cbn [run_op]; [done|..].
  - unfold update. case_match eqn:E; [|done]. revert E. case_match; [by intros [= <-]|]. case_match; [done|].
    assert (Hsel : mt_info (selectNoLock version db key c t).1 = mt_info t) by done. destruct (selectNoLock version db key c t) as [t1 l]. intros [= <-]. cbn.
    by rewrite (puts_info key (λ e, (update_entry (written t1 entry) e).1) (note_updated key)); [|apply note_updated_info].
  - unfold insert. case_match eqn:E; [|done]. revert E. case_match; [by intros [= <-]|]. case_match; [done|]. by intros [= <-].
  - unfold remove. case_match; [done|]. assert (Hsel : mt_info (selectNoLock version db key c t).1 = mt_info t) by done.
    destruct (selectNoLock version db key c t) as [t1 l]. cbn. by rewrite (puts_info key (setStatus 1) (λ _ t, t)).
Qed.
Lemma run_op_undo op t : table_ok t → extends t (foldl (λ t ch, rollback ch t) (run_op op t).1 (reverse (run_op op t).2)).
Proof using recent.
  intros Hok. destruct op as [key c|key entry c o|key entry o|key c o]; cbn [run_op].
  - cbn. split; [done|]. intros a. apply indexed_reads, (selectNoLock_indexed key c t a).
  - destruct (update _ _ _ _ _ _ _) as [[[t' chs] n]|] eqn:E; [|reflexivity]. by eapply update_undo.
  - destruct (insert _ _ _ _) as [[[t' chs] n]|] eqn:E; [|reflexivity]. by eapply insert_undo.
  - destruct (remove _ _ _ _ _ _) as [[t' chs] n] eqn:E. by eapply remove_undo.
Qed.

(** ** What a reader sees *)

Definition live (e : Entry) : bool := negb ((en_status e =? 1) || en_deleted e).
Lemma live_same e e' : same e e' → live e' = live e.
Proof. intros [_ H1 H2 _]. unfold live. by rewrite H1, H2. Qed.
Lemma process_key kf key e : en_fields e !! kf = Some key → process version (EQ kf key newCondition) e = live e.
Proof.
  intros Hk. unfold process, EQ, set_range. cbn [cd_conditions newCondition]. rewrite lookup_empty, insert_empty, map_to_list_singleton. cbn [forallb].
  unfold condition_ok. cbn [fst snd]. rewrite Hk. unfold range_ok. cbn. rewrite !String.eqb_refl. cbn. destruct (negb (isHashField kf)); by rewrite !andb_true_r.
Qed.
Lemma db_select_key kf key : db_ok kf → db_select version db key (EQ kf key newCondition) = db key.
Proof. clear recent.
  intros Hdb. unfold db_select. assert (H : ∀ e, e ∈ db key → process version (EQ kf key newCondition) e = true).
  { intros e He. destruct (dk_live _ Hdb _ _ He) as (H1 & H2 & H3). rewrite process_key by done. unfold live. by rewrite H1, H2. }
  revert H. induction (db key) as [|e l IH]; intros H; [done|]. rewrite filter_cons, decide_True by (apply H; set_solver). rewrite IH; [done|]. intros; apply H; set_solver.
Qed.
Lemma db_unique kf key key' e e0 : db_ok kf → e ∈ db key → e0 ∈ db key' → en_id e0 = en_id e → e0 = e.
Proof.
  intros Hdb He He0 Hid. pose proof (dk_disjoint _ Hdb _ _ _ _ He0 He Hid) as ->.
  apply list_elem_of_lookup in He as [i Hi]. apply list_elem_of_lookup in He0 as [j Hj].
  assert (i = j) as ->; [|congruence]. eapply NoDup_lookup; [apply (dk_nodup _ Hdb key)|rewrite list_lookup_fmap, Hi; done|rewrite list_lookup_fmap, Hj; cbn; by rewrite Hid].
Qed.
(** A select by key reads the rows of the storage, each as it was changed. *)
Definition stored_row (t : MemoryTable2) (e : Entry) : list Entry :=
  match mt_dirty t !! en_id e with Some d => if live d then [d] else [] | None => [e] end.
Lemma select_stored_key key t :
  table_ok t → (select_stored version db key (EQ (ti_key (mt_info t)) key newCondition) t).*2 = db key ≫= stored_row t.
Proof using recent.
  intros Hok. pose proof (tk_db _ Hok) as Hdb. unfold select_stored. rewrite (proj2 (Z.leb_le _ _) recent), db_select_key by done. cbn [andb].
  replace (elements _) with (@nil Z).
  2:{ symmetry. apply elements_empty_iff. apply elem_of_equiv_empty. intros id [Hid Hn]%elem_of_difference. apply Hn.
      destruct (mt_dirtyUpdated t !! key) as [ids|] eqn:E; [|by apply elem_of_empty in Hid]. destruct (tk_updated _ Hok _ _ _ E Hid) as [Hd (e & He & <-)].
      apply elem_of_list_to_set, list_elem_of_fmap. exists e. split; [done|]. by apply list_elem_of_filter. }
  cbn [merge_sort fmap list_fmap mjoin list_join]. rewrite app_nil_r.
  assert (H : ∀ e, e ∈ db key → snd <$> match mt_dirty t !! en_id e with
      | Some d => if negb (process version (EQ (ti_key (mt_info t)) key newCondition) d) then [] else [(InDirty, d)] | None => [(InDb, e)] end = stored_row t e).
  { intros e He. unfold stored_row. destruct (mt_dirty t !! en_id e) as [d|] eqn:E; [|done]. destruct (tk_dirty _ Hok _ _ E) as (_ & k & e0 & He0 & Hid & Hk).
    pose proof (dk_disjoint _ Hdb _ _ _ _ He0 He Hid) as ->. rewrite process_key by done. by destruct (live d). }
  revert H. induction (db key) as [|e l IH]; intros H; [done|]. cbn [fmap list_fmap mjoin list_join mbind list_bind]. rewrite fmap_app, H by set_solver.
  f_equal. apply IH. intros; apply H; set_solver.
Qed.
Lemma select_new_key key t :
  table_ok t → Forall2 same (filter (λ e, live e = true) (default [] (mt_newEntries t !! key))) (select_new version key (EQ (ti_key (mt_info t)) key newCondition) t).*2.
Proof.
  intros Hok. unfold select_new. assert (H : ∀ e, e ∈ default [] (mt_newEntries t !! key) → en_fields e !! ti_key (mt_info t) = Some key).
  { intros e He. destruct (mt_newEntries t !! key) as [l|] eqn:E; [|by apply not_elem_of_nil in He]. by eapply tk_new. }
  assert (G : ∀ l (f : nat → nat), (∀ e, e ∈ l → en_fields e !! ti_key (mt_info t) = Some key) → Forall2 same (filter (λ e, live e = true) l)
    (mjoin (imap (λ i e, if process version (EQ (ti_key (mt_info t)) key newCondition) e then [(InNew (f i), setTempIndex (f i) e)] else []) l)).*2);
    [|exact (G _ id H)].
  clear H. induction l as [|e l IH]; intros f H; [constructor|]. rewrite imap_cons, filter_cons. cbn [mjoin list_join]. rewrite fmap_app, process_key by (apply H; set_solver).
  specialize (IH (f ∘ S) ltac:(intros; apply H; set_solver)). destruct (live e); [rewrite decide_True by done|rewrite decide_False by done; exact IH].
  apply Forall2_cons. split; [apply setTempIndex_same|exact IH].
Qed.
Lemma extends_stored key t t' :
  table_ok t → extends t t' → Forall2 same (db key ≫= stored_row t) (db key ≫= stored_row t').
Proof. clear recent.
  intros Hok [_ Hr]. assert (H : ∀ e, e ∈ db key → Forall2 same (stored_row t e) (stored_row t' e)).
  { intros e He. specialize (Hr (inl (en_id e))). cbn in Hr. unfold stored_row. destruct (mt_dirty t !! en_id e) as [d|], (mt_dirty t' !! en_id e) as [d'|]; cbn in Hr; [|done| |].
    - rewrite (live_same _ _ Hr). by destruct (live d); repeat constructor; apply Hr.
    - destruct Hr as (k & e0 & He0 & Hid & Hs). pose proof (db_unique _ _ _ _ _ (tk_db _ Hok) He He0 Hid) as ->. rewrite (live_same _ _ Hs).
      destruct (dk_live _ (tk_db _ Hok) _ _ He) as (H1 & H2 & _). unfold live. rewrite H1, H2. repeat constructor; apply Hs.
    - by repeat constructor. }
  revert H. induction (db key) as [|e l IH]; intros H; [constructor|]. cbn [mbind list_bind]. apply Forall2_app; [apply H; set_solver|]. apply IH. intros; apply H; set_solver.
Qed.
Lemma extends_new (l l' : list Entry) key :
  (∀ i, reads (inr (key, i)) (l !! i) (l' !! i)) → Forall2 same (filter (λ e, live e = true) l) (filter (λ e, live e = true) l').
Proof.
  revert l'. induction l as [|e l IH]; intros l' Hr.
  - assert (filter (λ e, live e = true) l' = []) as ->; [|constructor]. revert Hr. induction l' as [|e' l' IH]; intros Hr; [done|].
    pose proof (Hr 0%nat) as Hd. cbn in Hd. rewrite filter_cons, decide_False; [|unfold live; rewrite Hd, orb_true_r; done]. apply IH. intros i. exact (Hr (S i)).
  - destruct l' as [|e' l']; [exact (False_rect _ (Hr 0%nat))|]. pose proof (Hr 0%nat) as Hs. cbn in Hs. specialize (IH l' (λ i, Hr (S i))).
    rewrite !filter_cons, (live_same _ _ Hs). case_decide; [|exact IH]. apply Forall2_cons. by split.
Qed.
(** Tables that read alike answer every select by key alike. *)
Lemma extends_select key t t' :
  table_ok t → table_ok t' → extends t t' → Forall2 same (select version db key newCondition t) (select version db key newCondition t').
Proof using recent.
  intros Hok Hok' Hex. assert (E : ∀ t, (selectNoLock version db key newCondition t).2
    = select_stored version db key (EQ (ti_key (mt_info t)) key newCondition) t ++ select_new version key (EQ (ti_key (mt_info t)) key newCondition) t) by done.
  unfold select. rewrite !E, !fmap_app. apply Forall2_app; [rewrite !select_stored_key by done; by apply extends_stored|].
  pose proof (select_new_key key t Hok) as H1. pose proof (select_new_key key t' Hok') as H2.
  assert (H3 : Forall2 same (filter (λ e, live e = true) (default [] (mt_newEntries t !! key))) (filter (λ e, live e = true) (default [] (mt_newEntries t' !! key)))).
  { apply (extends_new _ _ key). intros i. pose proof (ex_rows _ _ Hex (inr (key, i))) as Hr. cbn in Hr.
    destruct (mt_newEntries t !! key), (mt_newEntries t' !! key); exact Hr. }
  etrans; [symmetry; exact H1|]. etrans; [exact H3|exact H2].
Qed.
End undo.
