(* ===== verification/TableFactory.v ===== *)
(** * The tables of a block (libstorage/MemoryTableFactory2, getSysTableInfo of Table.cpp)

    A factory opens tables by name, creates them, and keeps the log of the changes that one
    thread made to them; a savepoint is a length of the log, and rolling back to it undoes
    the later changes, newest first.  A table is named by its key in the map of open
    tables: a pointer to it is its name. *)
From stdpp Require Import sorting.
From Stdlib Require Import Ascii.
From Stdlib Require String.
From S2P Require Import Prelude CommonData Crypto ABI Table TableProps.
Local Open Scope Z_scope.

Definition SYS_KEY_CURRENT_ID : string := "current_id".
Definition SYS_VALUE : string := "value".
Definition SYS_SIG_LIST : string := "sigs".
Definition SYS_KEY : string := "key".
Definition SYS_TABLES : string := "_sys_tables_".
Definition SYS_CONSENSUS : string := "_sys_consensus_".
Definition SYS_CURRENT_STATE : string := "_sys_current_state_".
Definition SYS_TX_HASH_2_BLOCK : string := "_sys_tx_hash_2_block_".
Definition SYS_NUMBER_2_HASH : string := "_sys_number_2_hash_".
Definition SYS_HASH_2_BLOCK : string := "_sys_hash_2_block_".
Definition SYS_CNS : string := "_sys_cns_".
Definition SYS_CONFIG : string := "_sys_config_".
Definition SYS_ACCESS_TABLE : string := "_sys_table_access_".
Definition SYS_BLOCK_2_NONCES : string := "_sys_block_2_nonces_".
Definition SYS_HASH_2_BLOCKHEADER : string := "_sys_hash_2_header_".
Definition sysTables : list string :=
  [SYS_CONSENSUS; SYS_TABLES; SYS_ACCESS_TABLE; SYS_CURRENT_STATE; SYS_NUMBER_2_HASH; SYS_TX_HASH_2_BLOCK; SYS_HASH_2_BLOCK; SYS_CNS;
   SYS_CONFIG; SYS_BLOCK_2_NONCES; SYS_HASH_2_BLOCKHEADER].

Definition sys_info (name key : string) (fields : list string) (consensus : bool) : TableInfo := mkTableInfo name key fields [] consensus.
Definition getSysTableInfo (name : string) : TableInfo :=
  if String.eqb name SYS_CONSENSUS then sys_info name "name" ["type"; "node_id"; "enable_num"] true
  else if String.eqb name SYS_TABLES then sys_info name "table_name" ["key_field"; "value_field"] true
  else if String.eqb name SYS_ACCESS_TABLE then sys_info name "table_name" ["address"; "enable_num"] true
  else if String.eqb name SYS_CURRENT_STATE then sys_info name SYS_KEY ["value"] false
  else if String.eqb name SYS_NUMBER_2_HASH then sys_info name "number" ["value"] true
  else if String.eqb name SYS_TX_HASH_2_BLOCK then sys_info name "hash" ["value"; "index"] false
  else if String.eqb name SYS_HASH_2_BLOCK then sys_info name "hash" ["value"] false
  else if String.eqb name SYS_HASH_2_BLOCKHEADER then sys_info name "hash" [SYS_VALUE; SYS_SIG_LIST] false
  else if String.eqb name SYS_CNS then sys_info name "name" ["version"; "address"; "abi"] true
  else if String.eqb name SYS_CONFIG then sys_info name "key" ["value"; "enable_num"] true
  else if String.eqb name SYS_BLOCK_2_NONCES then sys_info name "number" [SYS_VALUE] false
  else sys_info name EmptyString [] true.

(** [boost::split] at commas: the text of no comma is one field. *)
Fixpoint split_commas (s : string) : list string :=
  match s with
  | EmptyString => [EmptyString]
  | String c s' =>
      if bool_decide (c = ","%char) then EmptyString :: split_commas s'
      else match split_commas s' with w :: ws => String c w :: ws | [] => [String c EmptyString] end
  end.

(** [std::stoi]: white space, a sign, digits up to the first other character; it throws
    when there is no digit or the number does not fit an [int]. *)
Definition is_space (c : ascii) : bool := let n := char_code c in (n =? 32) || ((9 <=? n) && (n <=? 13)).
Fixpoint skip_space (s : string) : string :=
  match s with String c s' => if is_space c then skip_space s' else s | EmptyString => s end.
Fixpoint digits (s : string) : list Z :=
  match s with
  | String c s' => let d := char_code c - 48 in if (0 <=? d) && (d <=? 9) then d :: digits s' else []
  | EmptyString => []
  end.
Definition stoi (s : string) : option Z :=
  let s := skip_space s in
  let '(negative, body) := match s with String "-" s' => (true, s') | String "+" s' => (false, s') | _ => (false, s) end in
  match digits body with
  | [] => None
  | ds => let z := foldl (λ n d, n * 10 + d) 0 ds in
          let z := if (negative : bool) then - z else z in
          if (- 2 ^ 31 <=? z) && (z <? 2 ^ 31) then Some z else None
  end.
(** [Address(std::string)]: hexadecimal; zero when it does not have 20 bytes. *)
Definition address_of (s : string) : result dev_exn Z :=
  match fromHex s true with Ok b => Ok (if zlen b =? 20 then be_val b else 0) | Throw x => Throw x end.

(** What leaves a factory's operation: [std::stoi]'s exception, [BadHexCharacter],
    [StorageException], or the [std::invalid_argument] of an insert. *)
Inductive factory_exn := StoiFailed | BadAddress | StorageException | FieldRefused.
Record MemoryTableFactory2 := mkFactory {
  mf_tables : gmap string MemoryTable2; mf_changeLog : list Change; mf_ID : Z; mf_blockNum : Z }.
Definition set_tables (tables : gmap string MemoryTable2) (f : MemoryTableFactory2) : MemoryTableFactory2 :=
  mkFactory tables (mf_changeLog f) (mf_ID f) (mf_blockNum f).
Definition set_log (log : list Change) (f : MemoryTableFactory2) : MemoryTableFactory2 :=
  mkFactory (mf_tables f) log (mf_ID f) (mf_blockNum f).

(** State that survives an exception. *)
Definition factory (A : Type) : Type := MemoryTableFactory2 → MemoryTableFactory2 * result factory_exn A.
#[export] Instance factory_ret : MRet factory := λ A x f, (f, Ok x).
#[export] Instance factory_bind : MBind factory :=
  λ A B k m f, match m f with (f', Ok x) => k x f' | (f', Throw e) => (f', Throw e) end.
Definition throws {A} (e : factory_exn) : factory A := λ f, (f, Throw e).

Definition newTable (info : TableInfo) : MemoryTable2 := mkTable info ∅ ∅ ∅ false false 0.
Definition with_fields (info : TableInfo) : TableInfo :=
  mkTableInfo (ti_name info) (ti_key info) (ti_fields info ++ [STATUS; ti_key info; NUM_FIELD; ID_FIELD]) (ti_authorizedAddress info) (ti_enableConsensus info).
Definition authorize (l : list Z) (info : TableInfo) : TableInfo :=
  mkTableInfo (ti_name info) (ti_key info) (ti_fields info) (ti_authorizedAddress info ++ l) (ti_enableConsensus info).
(** [m_name2Table.insert] keeps a table that is there. *)
Definition add_table (name : string) (info : TableInfo) : factory unit :=
  λ f, (match mf_tables f !! name with Some _ => f | None => set_tables (<[name := newTable info]> (mf_tables f)) f end, Ok tt).

(** The addresses of the entries that are enabled at the block. *)
Fixpoint enabled_addresses (blockNum : Z) (l : list Entry) : result factory_exn (list Z) :=
  match l with
  | [] => Ok []
  | e :: l' =>
      match stoi (getField "enable_num" e) with
      | None => Throw StoiFailed
      | Some n =>
          if n <=? blockNum then
            match address_of (getField "address" e) with
            | Throw _ => Throw BadAddress
            | Ok a => match enabled_addresses blockNum l' with Ok r => Ok (a :: r) | Throw x => Throw x end
            end
          else enabled_addresses blockNum l'
      end
  end.
Definition get_enabled (l : list Entry) : factory (list Z) := λ f, (f, enabled_addresses (mf_blockNum f) l).

Section factory.
Context (version : Z) (db : string → string → list Entry).

(** A select through the pointer to an open table. *)
Definition select_in (name key : string) (c : Condition) : factory (list Entry) :=
  λ f, match mf_tables f !! name with
       | Some t => let '(t, l) := selectNoLock version (db name) key c t in (set_tables (<[name := t]> (mf_tables f)) f, Ok l.*2)
       | None => (f, Ok [])
       end.

(** The addresses that [setAuthorizedAddress] adds. *)
Definition setAuthorizedAddress (openAccess : factory bool) (info : TableInfo) : factory (list Z) :=
  opened ← openAccess;
  if (opened : bool) then l ← select_in SYS_ACCESS_TABLE (ti_name info) newCondition; get_enabled l else mret [].

(** [openTableWithoutLock], given its calls of itself.  [false] is the null pointer. *)
Definition is_open (name : string) : factory bool := λ f, (f, Ok (bool_decide (is_Some (mf_tables f !! name)))).
Definition openBody (openSysTables openAccess : factory bool) (name : string) (authorityFlag : bool) : factory bool :=
  known ← is_open name;
  if (known : bool) then mret true
  else
    found ← (if bool_decide (name ∈ sysTables) then mret (Some (getSysTableInfo name))
             else (_ ← openSysTables;
                   l ← select_in SYS_TABLES name newCondition;
                   mret (match l with
                         | [] => None
                         | e :: _ => Some (mkTableInfo name (getField "key_field" e) (split_commas (getField "value_field" e)) [] true)
                         end)));
    match found with
    | None => mret false
    | Some info =>
        let info := with_fields info in
        addresses ← (if negb authorityFlag then mret []
                     else if negb (String.eqb name SYS_ACCESS_TABLE) then setAuthorizedAddress openAccess info
                     else get_enabled (select version (db name) SYS_ACCESS_TABLE newCondition (newTable info)));
        _ ← add_table name (authorize addresses info);
        mret true
    end.
(** A name leads to [SYS_TABLES], that to [SYS_ACCESS_TABLE], and that to no other. *)
Definition openAccess : factory bool := openBody (mret false) (mret false) SYS_ACCESS_TABLE true.
Definition openSysTables : factory bool := openBody (mret false) openAccess SYS_TABLES true.
Definition openTableWithoutLock : string → bool → factory bool := openBody openSysTables openAccess.
Definition openTable : string → bool → factory bool := openTableWithoutLock.

(** An operation through the pointer to an open table, its changes recorded in the log. *)
Definition run_table {A} (name : string) (op : MemoryTable2 → MemoryTable2 * list Change * A) (absent : A) : factory A :=
  λ f, match mf_tables f !! name with
       | Some t => let '(t, chs, x) := op t in
                   (set_log (mf_changeLog f ++ chs) (set_tables (<[name := t]> (mf_tables f)) f), Ok x)
       | None => (f, Ok absent)
       end.
Definition table_entry (name keyField valueField : string) : Entry :=
  setField "value_field" valueField (setField "key_field" keyField (setField "table_name" name newEntry)).
Definition insert_entry (key : string) (entry : Entry) (o : AccessOptions) (t : MemoryTable2) : MemoryTable2 * list Change * option Z :=
  match insert key entry o t with Ok (t, chs, n) => (t, chs, Some n) | Throw _ => (t, [], None) end.
Definition createTable (name keyField valueField : string) (authorityFlag : bool) (origin : Z) : factory bool :=
  _ ← openTable SYS_TABLES authorityFlag;
  l ← select_in SYS_TABLES name newCondition;
  if negb (bool_decide (l = [])) then mret false
  else
    result ← run_table SYS_TABLES (insert_entry name (table_entry name keyField valueField) (mkOptions origin authorityFlag)) None;
    match (result : option Z) with
    | None => throws FieldRefused
    | Some result => if result =? CODE_NO_AUTHORIZED then throws StorageException else openTable name authorityFlag
    end.

Definition savepoint (f : MemoryTableFactory2) : nat := length (mf_changeLog f).
Definition commit : MemoryTableFactory2 → MemoryTableFactory2 := set_log [].
(** [rollback]: while the log is longer than the savepoint, its last change is undone. *)
Definition undo_last (ch : Change) (f : MemoryTableFactory2) : MemoryTableFactory2 :=
  set_tables (alter (Table.rollback ch) (ch_table ch) (mf_tables f)) f.
Definition rollback (sp : nat) (f : MemoryTableFactory2) : MemoryTableFactory2 :=
  set_log (take sp (mf_changeLog f)) (foldl (λ f ch, undo_last ch f) f (reverse (drop sp (mf_changeLog f)))).

(** What a thread does with the factory; an operation through a null pointer is not made. *)
Inductive factory_op :=
| OpOpen (name : string) (authorityFlag : bool)
| OpCreate (name keyField valueField : string) (authorityFlag : bool) (origin : Z)
| OpTable (name : string) (op : table_op).
Definition run_factory_op (op : factory_op) (f : MemoryTableFactory2) : MemoryTableFactory2 :=
  match op with
  | OpOpen name flag => (openTable name flag f).1
  | OpCreate name keyField valueField flag origin => (createTable name keyField valueField flag origin f).1
  | OpTable name op => (run_table name (λ t, (run_op version (db name) op t, tt)) tt f).1
  end.
(** With rollbacks to savepoints in between. *)
Inductive factory_step := Do (op : factory_op) | Back (sp : nat).
Definition run_step (f : MemoryTableFactory2) (s : factory_step) : MemoryTableFactory2 :=
  match s with Do op => run_factory_op op f | Back sp => rollback sp f end.

Lemma sys_name name : ti_name (getSysTableInfo name) = name.
Proof. unfold getSysTableInfo. by repeat case_match. Qed.

(** ** What every operation does

    A preorder that holds across each operation on one table and across the opening of one
    holds across everything a thread does with the factory. *)
Section operations.
Context (R : MemoryTableFactory2 → MemoryTableFactory2 → Prop) `{!PreOrder R} (Q : table_op → Prop).
Context (Rtable : ∀ A name (op : MemoryTable2 → MemoryTable2 * list Change * A) top absent f,
  Q top → (∀ t, (op t).1 = run_op version (db name) top t) → R f (run_table name op absent f).1).
Context (Radd : ∀ name info f, ti_name info = name → R f (add_table name info f).1).
Context (Qselect : ∀ key c, Q (OpSelect key c)) (Qcreate : ∀ name keyField valueField o, Q (OpInsert name (table_entry name keyField valueField) o)).

Definition doing {A} (P : A → Prop) (m : factory A) : Prop := ∀ f, R f (m f).1 ∧ ∀ x, (m f).2 = Ok x → P x.
Lemma doing_ret {A} (P : A → Prop) x : P x → doing P (mret x).
Proof. intros Hx f. split; [reflexivity|]. by intros y [= <-]. Qed.
Lemma doing_bind {A B} (P : A → Prop) (P' : B → Prop) (m : factory A) k : doing P m → (∀ x, P x → doing P' (k x)) → doing P' (m ≫= k).
Proof.
  intros Hm Hk f. destruct (Hm f) as [H1 H2]. unfold mbind, factory_bind. destruct (m f) as [f1 [x|e]]; cbn [fst snd] in *; [|done].
  destruct (Hk x (H2 x eq_refl) f1) as [H3 H4]. split; [by etrans|done].
Qed.
Definition any {A} : A → Prop := λ _, True.
Lemma doing_any {A} (m : factory A) : (∀ f, R f (m f).1) → doing any m.
Proof. intros Hm f. split; [apply Hm|done]. Qed.
Lemma doing_keep {A} (m : factory A) : (∀ f, (m f).1 = f) → doing any m.
Proof. intros Hm. apply doing_any. intros f. rewrite Hm. reflexivity. Qed.
Lemma doing_select name key c : doing any (select_in name key c).
Proof.
  apply doing_any. intros f. pose proof (Rtable _ name (λ t, (run_op version (db name) (OpSelect key c) t, tt)) (OpSelect key c) tt f (Qselect key c) (λ _, eq_refl)) as H.
  unfold select_in, run_table in *. destruct (mf_tables f !! name) as [t|]; [|exact H]. cbn in H. rewrite app_nil_r in H. exact H.
Qed.
Lemma doing_body (tables access : factory bool) name flag : doing any tables → doing any access → doing any (openBody tables access name flag).
Proof.
  intros Ht Ha. eapply doing_bind; [by apply (doing_keep (is_open name))|]. intros [] _; [by apply doing_ret|].
  apply (doing_bind (λ o, ∀ info, o = Some info → ti_name info = name)).
  - case_bool_decide; [apply doing_ret; intros info [= <-]; apply sys_name|]. eapply doing_bind; [exact Ht|]. intros _ _.
    eapply doing_bind; [apply doing_select|]. intros [|e l] _; apply doing_ret; [done|]. by intros info [= <-].
  - intros [info|] Hinfo; [|by apply doing_ret]. apply (doing_bind any).
    + destruct flag; cbn [negb]; [|by apply doing_ret]. destruct (String.eqb name SYS_ACCESS_TABLE); cbn [negb]; [by apply doing_keep|].
      eapply doing_bind; [exact Ha|]. intros [] _; [|by apply doing_ret]. eapply doing_bind; [apply doing_select|]. intros l _. by apply doing_keep.
    + intros l _. eapply doing_bind; [apply doing_any; intros f; apply Radd; exact (Hinfo info eq_refl)|]. intros _ _. by apply doing_ret.
Qed.
Lemma doing_open name flag : doing any (openTable name flag).
Proof.
  assert (H : doing any openAccess) by (by apply doing_body; apply doing_ret). apply doing_body; [|exact H]. apply doing_body; [by apply doing_ret|exact H].
Qed.
Lemma doing_create name keyField valueField flag origin : doing any (createTable name keyField valueField flag origin).
Proof.
  eapply doing_bind; [apply doing_open|]. intros _ _. eapply doing_bind; [apply doing_select|]. intros l _. case_match; [by apply doing_ret|].
  eapply doing_bind.
  - apply doing_any. intros f. apply (Rtable _ _ _ (OpInsert name (table_entry name keyField valueField) (mkOptions origin flag))); [apply Qcreate|].
    intros t. unfold insert_entry. cbn [run_op]. by destruct (insert _ _ _ _) as [[[]]|].
  - intros [n|] _; [|by apply doing_keep]. case_match; [by apply doing_keep|]. apply doing_open.
Qed.
Lemma run_factory_op_rel op f : match op with OpTable _ op => Q op | _ => True end → R f (run_factory_op op f).
Proof.
  destruct op as [name flag|name kf vf flag origin|name op]; intros Hop.
  - exact (proj1 (doing_open name flag f)).
  - exact (proj1 (doing_create name kf vf flag origin f)).
  - by apply (Rtable _ name _ op).
Qed.
End operations.

(** ** Rolling back *)

Definition undo_all (chs : list Change) (f : MemoryTableFactory2) : MemoryTableFactory2 := foldl (λ f ch, undo_last ch f) f (reverse chs).
(** Every open table was opened with the key field its stored rows have. *)
Definition keys_ok (f : MemoryTableFactory2) : Prop := ∀ name t, mf_tables f !! name = Some t → db_ok (db name) (ti_key (mt_info t)).
Record factory_ok (f : MemoryTableFactory2) : Prop := {
  fo_table : ∀ name t, mf_tables f !! name = Some t → table_ok (db name) t ∧ ti_name (mt_info t) = name;
  fo_log : ∀ ch, ch ∈ mf_changeLog f → ∃ t, mf_tables f !! ch_table ch = Some t ∧ change_ok t ch }.
(** A table reads as before; one that was not open reads as one just opened. *)
Definition reads_as (name : string) (o o' : option MemoryTable2) : Prop :=
  match o, o' with
  | Some t, Some t' => extends (db name) t t'
  | None, Some t' => extends (db name) (newTable (mt_info t')) t'
  | None, None => True
  | Some _, None => False
  end.
Definition factory_extends (f f' : MemoryTableFactory2) : Prop := ∀ name, reads_as name (mf_tables f !! name) (mf_tables f' !! name).
Definition keeps_info (f f' : MemoryTableFactory2) : Prop :=
  ∀ name t, mf_tables f !! name = Some t → ∃ t', mf_tables f' !! name = Some t' ∧ mt_info t' = mt_info t.
(** What an operation does can be undone by the changes it adds to the log. *)
Definition does (f f' : MemoryTableFactory2) : Prop :=
  keeps_info f f'
  ∧ ∃ chs, mf_changeLog f' = mf_changeLog f ++ chs ∧ (keys_ok f' → factory_ok f → factory_ok f' ∧ factory_extends f (undo_all chs f')).

Lemma keeps_info_keys f f' : keeps_info f f' → keys_ok f' → keys_ok f.
Proof. intros Hk Hd name t Ht. destruct (Hk name t Ht) as (t' & Ht' & <-). by eapply Hd. Qed.
Lemma factory_extends_refl f : factory_extends f f.
Proof. intros name. destruct (mf_tables f !! name); cbn; [reflexivity|done]. Qed.
Lemma factory_extends_trans f f1 f2 : factory_extends f f1 → factory_extends f1 f2 → factory_extends f f2.
Proof.
  intros H1 H2 name. specialize (H1 name). specialize (H2 name). unfold reads_as in *.
  destruct (mf_tables f !! name), (mf_tables f1 !! name), (mf_tables f2 !! name); try done; [by etrans|].
  etrans; [|exact H2]. by rewrite (ex_info _ _ _ H2).
Qed.
Lemma undo_all_app l1 l2 f : undo_all (l1 ++ l2) f = undo_all l1 (undo_all l2 f).
Proof. unfold undo_all. by rewrite reverse_app, foldl_app. Qed.
Lemma undo_last_tables ch f : mf_tables (undo_last ch f) = alter (Table.rollback ch) (ch_table ch) (mf_tables f).
Proof. done. Qed.
(** Undoing changes that are in the log keeps what reads alike. *)
Definition log_ok (f : MemoryTableFactory2) (chs : list Change) : Prop := ∀ ch, ch ∈ chs → ∃ t, mf_tables f !! ch_table ch = Some t ∧ change_ok t ch.
Lemma undo_last_extends ch f f' : log_ok f [ch] → factory_extends f f' → factory_extends (undo_last ch f) (undo_last ch f').
Proof.
  intros Hl Hx name. destruct (Hl ch ltac:(set_solver)) as (t & Ht & Hc). rewrite !undo_last_tables. specialize (Hx name).
  destruct (decide (name = ch_table ch)) as [->|Hn]; [|by rewrite !lookup_alter_ne by done]. rewrite !lookup_alter_eq, Ht in *.
  destruct (mf_tables f' !! ch_table ch); [|done]. by apply rollback_extends.
Qed.
Lemma undo_last_log ch f chs : log_ok f [ch] → log_ok f chs → log_ok (undo_last ch f) chs.
Proof.
  intros Hc Hl ch' (t & Ht & Hc')%Hl. rewrite undo_last_tables. destruct (Hc ch ltac:(set_solver)) as (t0 & Ht0 & Hc0).
  destruct (decide (ch_table ch' = ch_table ch)) as [E|Hn]; [|rewrite lookup_alter_ne by done; eauto]. rewrite E, lookup_alter_eq, Ht0. cbn.
  eexists. split; [done|]. rewrite E in Ht. simplify_eq. eapply change_ok_mono; [|exact Hc']. by apply rollback_keeps_rows.
Qed.
Lemma undo_all_extends chs f f' : log_ok f chs → factory_extends f f' → factory_extends (undo_all chs f) (undo_all chs f').
Proof.
  revert f f'. induction chs as [|ch chs IH] using rev_ind; intros f f' Hl Hx; [done|]. rewrite !undo_all_app. apply IH.
  - apply undo_last_log; intros c Hc; apply Hl; set_solver.
  - apply undo_last_extends; [|done]. intros c Hc. apply Hl. set_solver.
Qed.
Lemma does_refl f : does f f.
Proof.
  split; [by intros name t Ht; eauto|]. exists []. split; [by rewrite app_nil_r|]. intros _ Hok. split; [done|]. apply factory_extends_refl.
Qed.
Lemma does_trans f f1 f2 : does f f1 → does f1 f2 → does f f2.
Proof.
  intros [K1 (l1 & E1 & H1)] [K2 (l2 & E2 & H2)]. split.
  - intros name t (t1 & Ht1 & Hi1)%K1. destruct (K2 name t1 Ht1) as (t2 & Ht2 & Hi2). exists t2. split; [done|congruence].
  - exists (l1 ++ l2). split; [by rewrite E2, E1, app_assoc|]. intros Hk Hok. destruct (H1 (keeps_info_keys _ _ K2 Hk) Hok) as [Hok1 X1].
    destruct (H2 Hk Hok1) as [Hok2 X2]. split; [done|]. rewrite undo_all_app. eapply factory_extends_trans; [exact X1|].
    apply undo_all_extends; [|done]. intros ch Hc. apply (fo_log _ Hok1). rewrite E1. set_solver.
Qed.

#[export] Instance does_preorder : PreOrder does.
Proof. split; [exact does_refl|exact does_trans]. Qed.

(** A change of one open table. *)
Lemma undo_table name chs f :
  (∀ ch, ch ∈ chs → ch_table ch = name) →
  mf_tables (undo_all chs f) = alter (λ t, foldl (λ t ch, Table.rollback ch t) t (reverse chs)) name (mf_tables f).
Proof.
  revert f. induction chs as [|ch chs IH] using rev_ind; intros f Hn; [symmetry; by apply alter_id|].
  rewrite undo_all_app, IH by (intros; apply Hn; set_solver). cbn. rewrite (Hn ch) by set_solver. apply map_eq. intros k.
  destruct (decide (k = name)) as [->|Hk]; [|by rewrite !lookup_alter_ne]. rewrite !lookup_alter_eq. destruct (mf_tables f !! name); [|done]. cbn.
  by rewrite reverse_snoc.
Qed.
Lemma does_table name t t' chs f :
  mf_tables f !! name = Some t → mt_info t' = mt_info t →
  (table_ok (db name) t → ti_name (mt_info t) = name → table_ok (db name) t' ∧ keeps_rows t t'
    ∧ (∀ ch, ch ∈ chs → change_ok t' ch ∧ ch_table ch = name) ∧ extends (db name) t (foldl (λ t ch, Table.rollback ch t) t' (reverse chs))) →
  does f (set_log (mf_changeLog f ++ chs) (set_tables (<[name := t']> (mf_tables f)) f)).
Proof.
  intros Ht Hi H. set (f' := set_log _ _). assert (Hf' : ∀ n, mf_tables f' !! n = if decide (n = name) then Some t' else mf_tables f !! n).
  { intros n. cbn. case_decide as E; [subst; by rewrite lookup_insert_eq|by rewrite lookup_insert_ne]. }
  split; [intros n x Hx; rewrite Hf'; case_decide; [simplify_eq|]; eauto|]. exists chs. split; [done|]. intros _ Hok. destruct (fo_table _ Hok name t Ht) as [Hto Hname].
  destruct (H Hto Hname) as (H1 & H2 & H3 & H4). split; [split|].
  - intros n x. rewrite Hf'. case_decide as E; [|apply (fo_table _ Hok)]. intros [= <-]. subst. split; [done|congruence].
  - intros ch [Hc|Hc]%elem_of_app; rewrite Hf'.
    + destruct (fo_log _ Hok ch Hc) as (x & Hx & Hco). case_decide as E; [|eauto]. exists t'. split; [done|]. rewrite E, Ht in Hx. simplify_eq. by eapply change_ok_mono.
    + destruct (H3 ch Hc) as [Hco ->]. rewrite decide_True by done. eauto.
  - intros n. rewrite (undo_table name) by (intros ch Hc; by apply H3). destruct (decide (n = name)) as [->|Hn].
    + rewrite lookup_alter_eq, Hf', decide_True, Ht by done. cbn. exact H4.
    + rewrite lookup_alter_ne, Hf', decide_False by done. destruct (mf_tables f !! n); cbn; [reflexivity|done].
Qed.
Context (recent : V2_5_0 <= version).
Lemma does_run_table {A} name (op : MemoryTable2 → MemoryTable2 * list Change * A) top absent f :
  op_ok top → (∀ t, (op t).1 = run_op version (db name) top t) → does f (run_table name op absent f).1.
Proof using recent.
  intros Hop Heq. unfold run_table. destruct (mf_tables f !! name) as [t|] eqn:E; [|apply does_refl]. specialize (Heq t).
  pose proof (run_op_info version (db name) top t) as Hi. pose proof (run_op_ok version recent (db name) top t Hop) as Ho.
  pose proof (run_op_undo version recent (db name) top t) as Hu. destruct (op t) as [[t' chs] x]. cbn [fst] in *. rewrite <- Heq in *. cbn [fst snd] in *.
  apply (does_table name t t' chs f E Hi). intros Hok Hn. destruct (Ho Hok) as (H1 & H2 & H3). split_and!; [done|done| |by apply Hu].
  intros ch Hc. destruct (H3 ch Hc) as [? ->]. done.
Qed.
Lemma newTable_ok info (rows : string → list Entry) : db_ok rows (ti_key info) → table_ok rows (newTable info).
Proof. intros Hdb. apply table_ok_intro; [done|intros [id|[k i]] e He; [|cbn in He; rewrite lookup_empty in He]; done|done]. Qed.
Lemma does_add_table name info f : ti_name info = name → does f (add_table name info f).1.
Proof.
  intros Hn. unfold add_table. destruct (mf_tables f !! name) as [t|] eqn:E; [apply does_refl|]. cbn [fst]. split.
  - intros n t Ht. exists t. cbn. rewrite lookup_insert_ne by congruence. done.
  - exists []. split; [cbn; by rewrite app_nil_r|]. intros Hk Hok. split; [split|].
    + intros n t. cbn. intros [[<- <-]|[_ Ht]]%lookup_insert_Some; [|by apply (fo_table _ Hok)]. split; [|done]. specialize (Hk name (newTable info)). cbn in Hk.
      rewrite lookup_insert_eq in Hk. by apply newTable_ok, Hk.
    + intros ch Hc. destruct (fo_log _ Hok ch Hc) as (t & Ht & Hco). exists t. cbn. rewrite lookup_insert_ne by congruence. done.
    + intros n. cbn. destruct (decide (n = name)) as [->|Hne].
      * rewrite E, lookup_insert_eq. cbn. reflexivity.
      * rewrite lookup_insert_ne by done. destruct (mf_tables f !! n); cbn; [reflexivity|done].
Qed.

Definition step_ok (sp : nat) (s : factory_step) : Prop :=
  match s with Do (OpTable _ op) => op_ok op | Do _ => True | Back sp' => (sp <= sp')%nat end.
Lemma run_factory_op_does sp op f : step_ok sp (Do op) → does f (run_factory_op op f).
Proof using recent.
  intros Hop. apply (run_factory_op_rel does op_ok); [intros; by eapply does_run_table|intros; by apply does_add_table|done..|]. by destruct op.
Qed.

Lemma does_open name flag f : does f (openTable name flag f).1.
Proof using recent. apply (doing_open does op_ok); [intros; by eapply does_run_table|intros; by apply does_add_table|done]. Qed.
Lemma does_create name keyField valueField flag origin f : does f (createTable name keyField valueField flag origin f).1.
Proof using recent. apply (doing_create does op_ok); [intros; by eapply does_run_table|intros; by apply does_add_table|done..]. Qed.
Lemma does_select_in name key c f : does f (select_in name key c f).1.
Proof using recent. apply (doing_select does op_ok); [intros; by eapply does_run_table|done]. Qed.

(** Rolling back keeps what the factory holds. *)
Lemma undo_all_log chs f : mf_changeLog (undo_all chs f) = mf_changeLog f.
Proof. unfold undo_all. generalize (reverse chs). intros l. revert f. induction l as [|ch l IH]; intros f; [done|]. cbn. by rewrite IH. Qed.
Lemma rollback_tables sp f : mf_tables (rollback sp f) = mf_tables (undo_all (drop sp (mf_changeLog f)) f).
Proof. done. Qed.
Lemma undo_all_congr chs f f' : mf_tables f = mf_tables f' → mf_tables (undo_all chs f) = mf_tables (undo_all chs f').
Proof.
  unfold undo_all. generalize (reverse chs). intros l. revert f f'. induction l as [|ch l IH]; intros f f' E; [done|]. cbn. apply IH. cbn. by rewrite E.
Qed.
(** A rollback after another reaches the state that it would have reached without it. *)
Lemma rollback_rollback sp sp' f : (sp <= sp')%nat → mf_tables (rollback sp (rollback sp' f)) = mf_tables (rollback sp f).
Proof.
  intros Hle. rewrite rollback_tables. cbn [rollback set_log mf_changeLog]. rewrite (rollback_tables sp f).
  replace (drop sp (mf_changeLog f)) with (drop sp (take sp' (mf_changeLog f)) ++ drop sp' (mf_changeLog f)).
  - rewrite undo_all_app. by apply undo_all_congr.
  - rewrite <- (take_drop sp' (mf_changeLog f)) at 3. destruct (decide (sp' <= length (mf_changeLog f))%nat).
    + rewrite drop_app_le; [done|]. rewrite length_take. lia.
    + rewrite (drop_ge (mf_changeLog f) sp') by lia. by rewrite !app_nil_r.
Qed.
Lemma undo_last_ok ch f : factory_ok f → ch ∈ mf_changeLog f → factory_ok (undo_last ch f).
Proof.
  intros Hok Hc. assert (Hl : log_ok f [ch]) by (intros c ->%list_elem_of_singleton; by apply Hok). split.
  - intros name t. rewrite undo_last_tables. intros Ht. apply lookup_alter_Some in Ht as [(<- & t0 & Ht0 & ->)|[_ Ht]]; [|by apply (fo_table _ Hok)].
    destruct (fo_table _ Hok _ _ Ht0) as [H1 H2]. destruct (fo_log _ Hok ch Hc) as (t1 & Ht1 & Hco). simplify_eq. split; [by apply rollback_ok|].
    by rewrite (proj1 (rollback_keeps_rows _ _ Hco)).
  - exact (undo_last_log ch f (mf_changeLog f) Hl (fo_log _ Hok)).
Qed.
Lemma rollback_factory_ok sp f : factory_ok f → factory_ok (rollback sp f).
Proof.
  intros Hok. assert (H : ∀ l f, factory_ok f → (∀ ch, ch ∈ l → ch ∈ mf_changeLog f) → factory_ok (foldl (λ f ch, undo_last ch f) f l)
    ∧ mf_changeLog (foldl (λ f ch, undo_last ch f) f l) = mf_changeLog f).
  { clear. induction l as [|ch l IH]; intros f Hok Hl; [done|]. cbn [foldl]. apply (IH (undo_last ch f)).
    - apply undo_last_ok; [done|]. apply Hl. set_solver.
    - intros c Hc. apply Hl. set_solver. }
  destruct (H (reverse (drop sp (mf_changeLog f))) f Hok) as [[H1 H2] H3].
  { intros ch Hc. rewrite reverse_Permutation in Hc. eapply elem_of_sublist; [exact Hc|apply sublist_drop]. }
  split; [exact H1|]. intros ch Hc. apply H2. rewrite H3. eapply elem_of_sublist; [exact Hc|apply sublist_take].
Qed.
Lemma rollback_keeps_info sp f : keeps_info f (rollback sp f).
Proof.
  unfold rollback. intros name. cbn [set_log mf_tables]. generalize (reverse (drop sp (mf_changeLog f))). intros l. revert f.
  induction l as [|ch l IH]; intros f t Ht; [eauto|]. cbn [foldl].
  assert (H : ∃ t', mf_tables (undo_last ch f) !! name = Some t' ∧ mt_info t' = mt_info t); [|destruct H as (t' & Ht' & <-); by apply IH].
  rewrite undo_last_tables. destruct (decide (name = ch_table ch)) as [->|Hn]; [|rewrite lookup_alter_ne by done; eauto].
  rewrite lookup_alter_eq, Ht. cbn. eexists. split; [done|]. apply rollback_info.
Qed.

(** What holds between a savepoint and the rollback to it. *)
Record since (f0 f : MemoryTableFactory2) : Prop := {
  si_ok : factory_ok f;
  si_log : take (savepoint f0) (mf_changeLog f) = mf_changeLog f0;
  si_undo : factory_extends f0 (rollback (savepoint f0) f) }.
Lemma since_refl f : factory_ok f → since f f.
Proof.
  intros Hok. split; [done|by apply take_ge|]. intros name. rewrite rollback_tables. unfold savepoint. rewrite drop_ge by done. apply factory_extends_refl.
Qed.
Lemma since_does f0 f f' : since f0 f → does f f' → keys_ok f' → since f0 f'.
Proof.
  intros [Hok Hlog Hu] [_ (chs & E & H)] Hk. destruct (H Hk Hok) as [Hok' Hx].
  assert (Hlen : (savepoint f0 <= length (mf_changeLog f))%nat).
  { apply (f_equal length) in Hlog. rewrite length_take in Hlog. unfold savepoint in *. lia. }
  split; [done|rewrite E, take_app_le; done|]. intros name. rewrite rollback_tables, E, drop_app_le, undo_all_app by done.
  revert name. change (factory_extends f0 (undo_all (drop (savepoint f0) (mf_changeLog f)) (undo_all chs f'))).
  eapply factory_extends_trans; [exact Hu|]. change (factory_extends (undo_all (drop (savepoint f0) (mf_changeLog f)) f) (undo_all (drop (savepoint f0) (mf_changeLog f)) (undo_all chs f'))).
  apply undo_all_extends; [|done]. intros ch Hc. apply (fo_log _ Hok). eapply elem_of_sublist; [exact Hc|apply sublist_drop].
Qed.
Lemma since_back f0 f sp : since f0 f → (savepoint f0 <= sp)%nat → since f0 (rollback sp f).
Proof.
  intros [Hok Hlog Hu] Hsp. split; [by apply rollback_factory_ok| |].
  - cbn [rollback set_log mf_changeLog]. rewrite take_take. by replace (savepoint f0 `min` sp)%nat with (savepoint f0) by lia.
  - intros name. rewrite rollback_rollback by done. apply Hu.
Qed.
Lemma run_step_keeps_info sp f s : step_ok sp s → keeps_info f (run_step f s).
Proof using recent.
  destruct s as [op|sp']; intros Hs; [apply (run_factory_op_does sp op f Hs)|apply rollback_keeps_info].
Qed.
Lemma since_run f0 steps f :
  since f0 f → Forall (step_ok (savepoint f0)) steps → keys_ok (foldl run_step f steps) → since f0 (foldl run_step f steps) ∧ keeps_info f (foldl run_step f steps).
Proof using recent.
  intros Hs Hst. revert f Hs. induction Hst as [|s steps Hstep Hst IH]; intros f Hs Hk; [split; [done|]; intros n t Ht; eauto|]. cbn [foldl] in *.
  assert (Hki : keeps_info (run_step f s) (foldl run_step (run_step f s) steps)).
  { clear - Hst recent. revert Hst. generalize (run_step f s). induction steps as [|s' steps IH]; intros f' Hst n t Ht; [eauto|]. apply Forall_cons in Hst as [H1 H2]. cbn [foldl].
    destruct (run_step_keeps_info _ f' s' H1 n t Ht) as (t1 & Ht1 & <-). by apply IH. }
  assert (Hs' : since f0 (run_step f s)).
  { destruct s as [op|sp]; [|by apply since_back]. eapply since_does; [exact Hs|by eapply run_factory_op_does|]. by eapply keeps_info_keys. }
  destruct (IH _ Hs' Hk) as [H1 H2]. split; [done|]. intros n t Ht. destruct (run_step_keeps_info _ f s Hstep n t Ht) as (t1 & Ht1 & <-). by apply H2.
Qed.
End factory.

(** The three levels are the recursion of the source. *)
Lemma openTableWithoutLock_rec version db name flag :
  openTableWithoutLock version db name flag
  = openBody version db (openTableWithoutLock version db SYS_TABLES true) (openTableWithoutLock version db SYS_ACCESS_TABLE true) name flag.
Proof.
  assert (Ea : openTableWithoutLock version db SYS_ACCESS_TABLE true = openAccess version db).
  { unfold openTableWithoutLock, openAccess, openBody. by rewrite (bool_decide_true (SYS_ACCESS_TABLE ∈ sysTables)) by (vm_compute; by repeat constructor). }
  assert (Et : openTableWithoutLock version db SYS_TABLES true = openSysTables version db).
  { unfold openTableWithoutLock, openSysTables, openBody. by rewrite (bool_decide_true (SYS_TABLES ∈ sysTables)) by (vm_compute; by repeat constructor). }
  by rewrite Ea, Et.
Qed.

(** ** A sample *)

Definition stored_entry : Entry := mkEntry 100001 0 0 false false 17 17 {["name" := "alice"; "balance" := "5"]}.
Definition sample_db (name key : string) : list Entry := if String.eqb name "t_asset" && String.eqb key "alice" then [stored_entry] else [].
Definition sample_table : MemoryTable2 := newTable (with_fields (mkTableInfo "t_asset" "name" ["balance"] [] true)).
Definition sample_factory : MemoryTableFactory2 := mkFactory {["t_asset" := sample_table]} [] 100001 7.
Definition sample_options : AccessOptions := mkOptions 0 true.
Definition sample_steps : list factory_step :=
  [Do (OpTable "t_asset" (OpUpdate "alice" (setField "balance" "9" newEntry) newCondition sample_options));
   Do (OpTable "t_asset" (OpInsert "bob" (setField "balance" "1" newEntry) sample_options));
   Do (OpTable "t_asset" (OpRemove "alice" newCondition sample_options));
   Back 2;
   Do (OpCreate "t_other" "key" "value" true 0);
   Do (OpTable "t_other" (OpInsert "x" (setField "value" "1" newEntry) sample_options))].
Lemma sample_db_ok name kf : (name = "t_asset" → kf = "name") → db_ok (sample_db name) kf.
Proof.
  intros Hn. unfold sample_db. destruct (String.eqb_spec name "t_asset") as [E|]; cbn [andb]; [specialize (Hn E) as ->|].
  - split.
    + intros key e. case_match; [intros ->%list_elem_of_singleton|intros Hnil%not_elem_of_nil]; done.
    + intros key. case_match; [apply NoDup_singleton|apply NoDup_nil; done].
    + intros key key' e e'. destruct (String.eqb_spec key "alice") as [->|]; [|by intros Hnil%not_elem_of_nil].
      destruct (String.eqb_spec key' "alice") as [->|]; [done|by intros _ Hnil%not_elem_of_nil].
    + intros key e. destruct (String.eqb_spec key "alice") as [->|]; [by intros ->%list_elem_of_singleton|by intros Hnil%not_elem_of_nil].
  - split; [intros ? ? H|intros; by apply NoDup_nil|intros ? ? ? ? H|intros ? ? H]; by apply not_elem_of_nil in H.
Qed.

Lemma sample_factory_ok : factory_ok sample_db sample_factory.
Proof.
  split; [|intros ch Hc; by apply not_elem_of_nil in Hc]. intros name t Ht. cbn [mf_tables sample_factory] in Ht. apply lookup_singleton_Some in Ht as [<- <-].
  split; [|done]. by apply newTable_ok, sample_db_ok.
Qed.
Lemma sample_keys_ok : keys_ok sample_db (foldl (run_step V2_5_0 sample_db) sample_factory sample_steps).
Proof.
  intros name t Ht. apply sample_db_ok. intros ->. apply (f_equal (fmap (λ t, ti_key (mt_info t)))) in Ht. cbn [fmap option_fmap option_map] in Ht.
  assert (E : (λ t, ti_key (mt_info t)) <$> mf_tables (foldl (run_step V2_5_0 sample_db) sample_factory sample_steps) !! "t_asset" = Some "name") by (vm_compute; reflexivity).
  rewrite E in Ht. by injection Ht.
Qed.

(** C18. A rollback to a savepoint restores the tables.  Between the savepoint and the
    rollback the thread opens and creates tables, selects, updates, inserts and removes in
    any order, and rolls back to later savepoints; the operations may be refused or throw.
    Afterwards the log is the one of the savepoint; every table that was open answers a
    select by any key with the rows it would have given at the savepoint, field for field
    and in the same order; and a table that was not open then answers as one just opened. *)
Theorem rollback_restores version db f steps :
  V2_5_0 <= version → factory_ok db f → Forall (step_ok (savepoint f)) steps → keys_ok db (foldl (run_step version db) f steps) →
  let f' := rollback (savepoint f) (foldl (run_step version db) f steps) in
  mf_changeLog f' = mf_changeLog f
  ∧ (∀ name t, mf_tables f !! name = Some t →
       ∃ t', mf_tables f' !! name = Some t' ∧ ∀ key, Forall2 same (select version (db name) key newCondition t) (select version (db name) key newCondition t'))
  ∧ (∀ name t', mf_tables f !! name = None → mf_tables f' !! name = Some t' →
       ∀ key, Forall2 same (select version (db name) key newCondition (newTable (mt_info t'))) (select version (db name) key newCondition t')).
Proof.
  intros Hv Hok Hs Hk f'. destruct (since_run version db Hv f steps f (since_refl db f Hok) Hs Hk) as [[Hok' Hlog Hx] _].
  assert (Hok'' : factory_ok db f') by (by apply rollback_factory_ok). split_and!; [exact Hlog| |].
  - intros name t Ht. specialize (Hx name). rewrite Ht in Hx. fold f' in Hx. destruct (mf_tables f' !! name) as [t'|] eqn:E; [|done]. exists t'. split; [done|].
    intros key. apply extends_select; [done|by apply (fo_table _ _ Hok)|by apply (fo_table _ _ Hok'')|exact Hx].
  - intros name t' Ht E key. specialize (Hx name). fold f' in Hx. rewrite Ht, E in Hx. destruct (fo_table _ _ Hok'' _ _ E) as [Hto _].
    apply extends_select; [done|by apply newTable_ok, Hto|done|exact Hx].
Qed.
Lemma rollback_restores_witness :
  let f' := rollback (savepoint sample_factory) (foldl (run_step V2_5_0 sample_db) sample_factory sample_steps) in
  mf_changeLog f' = []
  ∧ ∃ t', mf_tables f' !! "t_asset" = Some t'
    ∧ ∀ key, Forall2 same (select V2_5_0 (sample_db "t_asset") key newCondition sample_table) (select V2_5_0 (sample_db "t_asset") key newCondition t').
Proof.
  intros f'. destruct (rollback_restores V2_5_0 sample_db sample_factory sample_steps) as (H1 & H2 & _).
  - done.
  - exact sample_factory_ok.
  - by repeat constructor.
  - exact sample_keys_ok.
  - split; [exact H1|]. by apply H2.
Defined.
