(* ===== verification/TableHash.v ===== *)
(** * The digest of a table (MemoryTable2::dump, hash; Entry's sizes)

    From 2.2.0 on the bytes that a table's digest is taken of are written by many threads
    into one buffer, at offsets computed from the sizes that the entries keep.  The sizes
    are exact, so the writes fit and tile the buffer, and the order in which they are
    made does not matter; nor does the order in which the rows are collected, unless two
    inserted rows differ in nothing but their status. *)
From stdpp Require Import sorting.
From S2P Require Import Prelude CommonData Crypto ABI Table TableProps TableFactory.
Local Open Scope Z_scope.

(** ** Writing the data *)

(** [memcpy] into the buffer; [None] when it would leave it. *)
Definition memcpy (buf : bytes) (w : nat * bytes) : option bytes :=
  if bool_decide (w.1 + length w.2 ≤ length buf)%nat then Some (list_inserts w.1 w.2 buf) else None.
Definition statusByte (e : Entry) : byte := byte.of_Z (en_status e).
(** The writes of [parallelGenData] for one entry. *)
Fixpoint field_writes (offset : nat) (fields : list (string * string)) : list (nat * bytes) * nat :=
  match fields with
  | [] => ([], offset)
  | (k, v) :: fields =>
      if isHashField k then
        let offset' := (offset + String.length k)%nat in
        let '(ws, stop) := field_writes (offset' + String.length v) fields in
        ((offset, stringBytes k) :: (offset', stringBytes v) :: ws, stop)
      else field_writes offset fields
  end.
Definition entry_writes (offset : nat) (e : Entry) : list (nat * bytes) :=
  let '(ws, stop) := field_writes offset (fields_of e) in ws ++ [(stop, [statusByte e])].
Definition hash_size (e : Entry) : nat := Z.to_nat (en_capacityOfHashField e + 1).
(** [genDataOffset]: where each entry begins, and where the last ends. *)
Fixpoint genDataOffset (start : nat) (entries : list Entry) : list nat :=
  match entries with [] => [start] | e :: entries => start :: genDataOffset (start + hash_size e) entries end.
Definition parallelGenData (offsets : list nat) (entries : list Entry) : list (nat * bytes) := mjoin (zip_with entry_writes offsets entries).

(** The writes of [dump] after the sort, and the size of its buffer. *)
Definition insertDataStartOffset (dirty : list Entry) : nat := default 0%nat (last (genDataOffset 0 dirty)).
Definition dump_writes (dirty news : list Entry) : list (nat * bytes) :=
  parallelGenData (genDataOffset 0 dirty) dirty ++ parallelGenData (genDataOffset (insertDataStartOffset dirty) news) news.
Definition allSize (l : list Entry) : nat := sum_list (hash_size <$> l).
Definition run_writes (ws : list (nat * bytes)) (buf : bytes) : option bytes := foldl (λ ob w, b ← ob; memcpy b w) (Some buf) ws.

(** The rows that count, in the order of a walk of the maps. *)
Definition dirty_rows (t : MemoryTable2) : list Entry := filter (λ e, en_deleted e = false) (map_to_list (mt_dirty t)).*2.
Definition new_rows (t : MemoryTable2) : list Entry := filter (λ e, en_deleted e = false) (mjoin (map_to_list (mt_newEntries t)).*2).
(** A sorted arrangement, as [tbb::parallel_sort] leaves one: nothing comes before what is
    less than it. *)
Definition arranged (keyField : string) (l : list Entry) : Prop :=
  ∀ i j a b, (i < j)%nat → l !! i = Some a → l !! j = Some b → entry_less keyField b a = false.
(** One run of [dump] on a table that counts in consensus: the rows in some arrangement,
    the writes in some order. *)
Inductive dump_run (t : MemoryTable2) : bytes → Prop :=
| DumpRun dirty news schedule data :
    dirty ≡ₚ dirty_rows t → news ≡ₚ new_rows t → arranged (ti_key (mt_info t)) dirty → arranged (ti_key (mt_info t)) news →
    schedule ≡ₚ dump_writes dirty news →
    run_writes schedule (replicate (allSize (dirty ++ news)) (byte.of_Z 0)) = Some data → dump_run t data.

(** The digest of the data: up to 2.4.0 another function than the chain's ([dev::sha256] or
    [dev::sm3]), a parameter. *)
Definition V2_4_0 : Z := 0x02040000.
Section hash.
Context `{Crypto} (oldHash : bytes → Z) (version : Z).
Definition digest (data : bytes) : Z := if version <=? V2_4_0 then oldHash data else Hash data.
(** [MemoryTable2::hash], as what it may return. *)
Definition table_hash (t : MemoryTable2) (h : Z) : Prop :=
  if mt_hashDirty t then if ti_enableConsensus (mt_info t) then ∃ data, dump_run t data ∧ h = digest data else h = 0
  else h = mt_hash t.
(** [MemoryTableFactory2::hash]: the tables that count, by name, and their digests. *)
Definition counts (t : MemoryTable2) : bool := ti_enableConsensus (mt_info t) && negb ((V2_5_0 <=? version) && negb (mt_dataDirty t)).
Definition hashed_tables (f : MemoryTableFactory2) : list string :=
  merge_sort String.le (filter (λ x, counts x.2 = true) (map_to_list (mf_tables f))).*1.
Definition factory_hash (f : MemoryTableFactory2) (root : Z) : Prop :=
  ∃ hs, Forall2 (λ name h, ∃ t, mf_tables f !! name = Some t ∧ table_hash t h) (hashed_tables f) hs
    ∧ root = match hs with [] => 0 | _ => digest (mjoin (hashBytes 32 <$> hs)) end.
End hash.

(** ** What is written *)

Definition entry_bytes (e : Entry) : bytes :=
  mjoin ((λ x, stringBytes x.1 ++ stringBytes x.2) <$> filter (λ x, isHashField x.1 = true) (fields_of e)) ++ [statusByte e].
(** The size the entry keeps is the one of what is written. *)
Definition hash_exact (e : Entry) : Prop := length (entry_bytes e) = hash_size e.

(** Writes that follow each other without a gap. *)
Fixpoint tiles (start : nat) (ws : list (nat * bytes)) : Prop :=
  match ws with [] => True | w :: ws => w.1 = start ∧ tiles (start + length w.2) ws end.
Definition span (ws : list (nat * bytes)) : nat := sum_list (length ∘ snd <$> ws).
Lemma tiles_app start ws1 ws2 : tiles start (ws1 ++ ws2) ↔ tiles start ws1 ∧ tiles (start + span ws1) ws2.
Proof.
  revert start. induction ws1 as [|w ws1 IH]; intros start; cbn; [rewrite Nat.add_0_r; tauto|]. rewrite IH. unfold span. rewrite Nat.add_assoc. tauto.
Qed.
Lemma tiles_ge start ws w : tiles start ws → w ∈ ws → (start <= w.1)%nat.
Proof.
  revert start. induction ws as [|w' ws IH]; intros start Ht Hw; [by apply not_elem_of_nil in Hw|]. cbn in Ht. destruct Ht as [E Ht].
  apply elem_of_cons in Hw as [->|Hw]; [lia|]. specialize (IH _ Ht Hw). lia.
Qed.
Definition disjoint_writes (w1 w2 : nat * bytes) : Prop := (w1.1 + length w1.2 <= w2.1 ∨ w2.1 + length w2.2 <= w1.1)%nat.
Lemma memcpy_comm w1 w2 buf :
  disjoint_writes w1 w2 → (b ← memcpy buf w1; memcpy b w2) = (b ← memcpy buf w2; memcpy b w1).
Proof.
  intros Hd. unfold memcpy. destruct w1 as [o1 b1], w2 as [o2 b2]. unfold disjoint_writes in Hd. cbn in *.
  repeat (case_bool_decide; cbn; rewrite ?length_inserts); try done. f_equal. apply list_eq. intros j.
  destruct (decide (j < length buf)%nat); [|rewrite !lookup_ge_None_2; [done|rewrite !length_inserts; lia..]].
  destruct (decide (o1 <= j < o1 + length b1)%nat).
  - rewrite (list_lookup_inserts _ o1) by (rewrite ?length_inserts; lia). destruct Hd; [rewrite list_lookup_inserts_lt by lia|rewrite list_lookup_inserts_ge by lia];
      by rewrite list_lookup_inserts by lia.
  - assert (E : ∀ b, list_inserts o1 b1 b !! j = b !! j); [|rewrite E].
    { intros b. destruct (decide (j < o1)%nat); [by apply list_lookup_inserts_lt|apply list_lookup_inserts_ge; lia]. }
    destruct (decide (o2 <= j < o2 + length b2)%nat); [by rewrite !list_lookup_inserts by (rewrite ?length_inserts; lia)|].
    assert (E2 : ∀ b, list_inserts o2 b2 b !! j = b !! j); [|by rewrite !E2, E].
    intros b. destruct (decide (j < o2)%nat); [by apply list_lookup_inserts_lt|apply list_lookup_inserts_ge; lia].
Qed.
Definition written_bytes (ws : list (nat * bytes)) : bytes := mjoin ws.*2.
Lemma written_bytes_app ws1 ws2 : written_bytes (ws1 ++ ws2) = written_bytes ws1 ++ written_bytes ws2.
Proof. unfold written_bytes. by rewrite fmap_app, join_app. Qed.
Lemma span_written ws : span ws = length (written_bytes ws).
Proof. unfold span, written_bytes. induction ws as [|w ws IH]; [done|]. cbn. rewrite length_app. by f_equal. Qed.

(** Writes that do not overlap may be made in any order. *)
Lemma run_writes_perm ws ws' :
  ws ≡ₚ ws' → ForallOrdPairs disjoint_writes ws →
  ForallOrdPairs disjoint_writes ws' ∧ ∀ ob, foldl (λ ob w, b ← ob; memcpy b w) ob ws = foldl (λ ob w, b ← ob; memcpy b w) ob ws'.
Proof.
  intros Hp. induction Hp as [|w ws ws' Hp IH|w1 w2 ws|ws1 ws2 ws3 _ IH1 _ IH2]; intros Hd.
  - done.
  - inversion Hd as [|? ? Hw Hws]; subst. destruct (IH Hws) as [H1 H2]. split; [|intros ob; cbn; apply H2]. constructor; [|done]. by rewrite <- Hp.
  - inversion Hd as [|? ? Hw Hws]; subst. inversion Hws as [|? ? Hw' Hws']; subst. apply Forall_cons in Hw as [H21 Hw]. split.
    + constructor; [constructor; [|done]|by constructor]. destruct H21; [by right|by left].
    + intros [b|]; cbn; [|done]. f_equal. by apply memcpy_comm.
  - destruct (IH1 Hd) as [H1 E1]. destruct (IH2 H1) as [H2 E2]. split; [done|]. intros ob. by rewrite E1.
Qed.
Lemma tiles_disjoint start ws : tiles start ws → ForallOrdPairs disjoint_writes ws.
Proof.
  revert start. induction ws as [|w ws IH]; intros start Ht; [constructor|]. cbn in Ht. destruct Ht as [<- Ht]. constructor; [|by eapply IH].
  apply Forall_forall. intros w' Hw'. left. by eapply tiles_ge.
Qed.
Lemma run_tiles ws : ∀ pre mid post,
  tiles (length pre) ws → length mid = span ws → run_writes ws (pre ++ mid ++ post) = Some (pre ++ written_bytes ws ++ post).
Proof.
  induction ws as [|[o b] ws IH]; intros pre mid post Ht Hm; cbn in Ht, Hm; [by apply nil_length_inv in Hm as ->|]. destruct Ht as [-> Ht].
  unfold run_writes. cbn [foldl mbind option_bind]. unfold memcpy at 2. cbn [fst snd]. unfold span in *. rewrite bool_decide_true by (rewrite !length_app; lia).
  assert (E : list_inserts (length pre) b (pre ++ mid ++ post) = (pre ++ b) ++ drop (length b) mid ++ post).
  { rewrite <- (Nat.add_0_r (length pre)), list_inserts_app_r, <- app_assoc. f_equal. rewrite <- (take_drop (length b) mid) at 1. rewrite <- app_assoc.
    apply list_inserts_0_r. rewrite length_take. lia. }
  rewrite E. change (run_writes ws ((pre ++ b) ++ drop (length b) mid ++ post) = Some (pre ++ (b ++ written_bytes ws) ++ post)).
  rewrite IH; [by rewrite <- !app_assoc|by rewrite length_app|]. rewrite length_drop. unfold span. lia.
Qed.

(** The writes of an entry, and of all of them. *)
Lemma length_stringBytes s : length (stringBytes s) = String.length s.
Proof. unfold stringBytes. induction s as [|c s IH]; [done|]. cbn. by f_equal. Qed.
Lemma field_writes_tiles fields offset :
  let '(ws, stop) := field_writes offset fields in
  tiles offset ws ∧ stop = (offset + span ws)%nat
  ∧ written_bytes ws = mjoin ((λ x, stringBytes x.1 ++ stringBytes x.2) <$> filter (λ x, isHashField x.1 = true) fields).
Proof.
  revert offset. induction fields as [|[k v] fields IH]; intros offset; cbn [field_writes]; [cbn; auto with lia|]. rewrite filter_cons. cbn [fst].
  destruct (isHashField k); [|rewrite decide_False by done; apply IH]. rewrite decide_True by done.
  specialize (IH (offset + String.length k + String.length v)%nat). destruct (field_writes _ fields) as [ws stop]. destruct IH as (H1 & H2 & H3).
  rewrite <- !(length_stringBytes) in *. split_and!.
  - cbn. by split_and!.
  - cbn. unfold span in *. lia.
  - cbn [written_bytes fmap list_fmap mjoin list_join fst snd]. change (mjoin ws.*2) with (written_bytes ws). rewrite H3. by rewrite <- app_assoc.
Qed.
Lemma entry_writes_tiles e offset : tiles offset (entry_writes offset e) ∧ written_bytes (entry_writes offset e) = entry_bytes e.
Proof.
  unfold entry_writes, entry_bytes. pose proof (field_writes_tiles (fields_of e) offset) as H. destruct (field_writes offset (fields_of e)) as [ws stop].
  destruct H as (H1 & -> & <-). rewrite tiles_app, written_bytes_app. cbn. auto.
Qed.
Lemma parallelGenData_tiles es start :
  Forall hash_exact es → tiles start (parallelGenData (genDataOffset start es) es) ∧ written_bytes (parallelGenData (genDataOffset start es) es) = mjoin (entry_bytes <$> es).
Proof.
  intros He. revert start. induction He as [|e es He Hes IH]; intros start; [done|].
  change (parallelGenData (genDataOffset start (e :: es)) (e :: es)) with (entry_writes start e ++ parallelGenData (genDataOffset (start + hash_size e) es) es).
  change (mjoin (entry_bytes <$> e :: es)) with (entry_bytes e ++ mjoin (entry_bytes <$> es)).
  destruct (entry_writes_tiles e start) as [H1 H2]. destruct (IH (start + hash_size e)%nat) as [H3 H4]. rewrite tiles_app, written_bytes_app, H2, H4.
  rewrite span_written, H2, He. auto.
Qed.
Lemma last_offset es start : default 0%nat (last (genDataOffset start es)) = (start + allSize es)%nat.
Proof.
  revert start. induction es as [|e es IH]; intros start; [cbn; lia|]. cbn [genDataOffset]. unfold allSize in *. cbn [fmap list_fmap sum_list sum_list_with].
  specialize (IH (start + hash_size e)%nat). destruct (genDataOffset _ es) as [|o os] eqn:E; [by destruct es|]. cbn [last]. rewrite IH. cbn. unfold sum_list. lia.
Qed.
Lemma allSize_bytes es : Forall hash_exact es → allSize es = length (mjoin (entry_bytes <$> es)).
Proof. induction 1 as [|e es He Hes IH]; [done|]. unfold allSize in *. cbn. rewrite length_app, He. by f_equal. Qed.
(** Whatever the order of the writes, the buffer holds the entries one after another. *)
Lemma dump_data dirty news schedule :
  Forall hash_exact dirty → Forall hash_exact news → schedule ≡ₚ dump_writes dirty news →
  run_writes schedule (replicate (allSize (dirty ++ news)) (byte.of_Z 0)) = Some (mjoin (entry_bytes <$> dirty ++ news)).
Proof.
  intros Hd Hn Hp. destruct (parallelGenData_tiles dirty 0 Hd) as [T1 W1]. destruct (parallelGenData_tiles news (insertDataStartOffset dirty) Hn) as [T2 W2].
  assert (Ht : tiles 0 (dump_writes dirty news)).
  { apply tiles_app. split; [done|]. rewrite span_written, W1, <- allSize_bytes by done. unfold insertDataStartOffset in *. by rewrite last_offset in *. }
  assert (Hw : written_bytes (dump_writes dirty news) = mjoin (entry_bytes <$> dirty ++ news)).
  { unfold dump_writes. by rewrite written_bytes_app, W1, W2, fmap_app, join_app. }
  symmetry in Hp. destruct (run_writes_perm _ _ Hp (tiles_disjoint 0 _ Ht)) as [_ E]. unfold run_writes. rewrite <- E.
  pose proof (run_tiles (dump_writes dirty news) [] (replicate (allSize (dirty ++ news)) (byte.of_Z 0)) []) as H. cbn [app] in H. rewrite !app_nil_r in H.
  unfold run_writes in H. rewrite H; [by rewrite Hw|done|]. rewrite length_replicate, span_written, Hw. apply allSize_bytes. by apply Forall_app.
Qed.

(** ** A property of every row

    What holds of the stored rows and is kept by the changes of one entry holds of every
    row of every open table. *)
Section rows.
Context (version : Z) (db : string → string → list Entry) (P : Entry → Prop).
Context (Pfield : ∀ k v e, P e → P (setField k v e)) (Pstatus : ∀ s e, P e → P (setStatus s e))
  (Pdeleted : ∀ b e, P e → P (setDeleted b e)) (Pindex : ∀ i e, P e → P (setTempIndex i e)).
Context (Pnew : P newEntry) (Pdb : ∀ name key e, e ∈ db name key → P e).
Definition all_rows (t : MemoryTable2) : Prop := ∀ a e, row t a = Some e → P e.
Definition fresh_entry (op : table_op) : Prop := match op with OpInsert _ entry _ => P entry | _ => True end.

Lemma all_rows_selected name key c t x : all_rows t → x ∈ (selectNoLock version (db name) key c t).2 → P x.2.
Proof.
  intros Ht Hx. assert (Hall : x ∈ select_stored version (db name) key (EQ (ti_key (mt_info t)) key c) t ++ select_new version key (EQ (ti_key (mt_info t)) key c) t).
  { unfold selectNoLock in Hx. cbn [snd] in Hx. case_match; [|done]. eapply elem_of_sublist; [exact Hx|]. unfold proccessLimit. etrans; [apply sublist_take|apply sublist_drop]. }
  assert (Hd : ∀ id d, mt_dirty t !! id = Some d → P d) by (intros id d Hd; exact (Ht (inl id) d Hd)).
  apply elem_of_app in Hall as [[H|H]%elem_of_app|H].
  - apply list_elem_of_join in H as (l & Hl & (e & -> & [_ He]%list_elem_of_filter)%list_elem_of_fmap). destruct (mt_dirty t !! en_id e) as [d|] eqn:E.
    + case_match; [by apply not_elem_of_nil in Hl|]. apply list_elem_of_singleton in Hl as ->. by eapply Hd.
    + apply list_elem_of_singleton in Hl as ->. by eapply Pdb.
  - case_match; [|by apply not_elem_of_nil in H]. apply list_elem_of_join in H as (l & Hl & (id & -> & _)%list_elem_of_fmap).
    destruct (mt_dirty t !! id) as [d|] eqn:E; [|by apply not_elem_of_nil in Hl]. case_match; [|by apply not_elem_of_nil in Hl]. apply list_elem_of_singleton in Hl as ->. by eapply Hd.
  - destruct (select_new_rows _ _ _ _ _ H) as (i & e & -> & Hr & _). cbn. by eapply Pindex, Ht.
Qed.
Lemma all_rows_select name key c t : all_rows t → all_rows (selectNoLock version (db name) key c t).1.
Proof.
  intros Ht a e He. pose proof (selectNoLock_indexed version (db name) key c t a) as Hx. rewrite He in Hx. destruct (row t a) as [e0|] eqn:E; [|done].
  apply Ht in E. destruct Hx as [->|[i ->]]; [done|by apply Pindex].
Qed.
Lemma all_rows_put key x t : P x.2 → all_rows t → all_rows (put key x t).
Proof.
  intros Hx Ht. unfold put. destruct x as [[| |i] e]; cbn [fst snd] in *; [case_match; [done|]..|]; intros [id|[k j]] e'; try apply (Ht (inr (k, j))); try apply (Ht (inl id)).
  1,2: cbn; intros [[_ <-]|[_ He]]%lookup_insert_Some; [done|exact (Ht (inl id) e' He)].
  cbn. intros He. destruct (decide (k = key)) as [->|Hk]; [|rewrite lookup_alter_ne in He by done; exact (Ht (inr (k, j)) e' He)].
  rewrite lookup_alter_eq in He. destruct (mt_newEntries t !! key) as [l|] eqn:E; [|done]. cbn in He.
  apply list_lookup_insert_Some in He as [(_ & <- & _)|[_ He]]; [done|]. apply (Ht (inr (key, j))). cbn. by rewrite E.
Qed.
Lemma all_rows_puts key (f : Entry → Entry) (note : place * Entry → MemoryTable2 → MemoryTable2) l t :
  (∀ e, P e → P (f e)) → (∀ x t a, row (note x t) a = row t a) → (∀ x, x ∈ l → P x.2) → all_rows t →
  all_rows (foldl (λ t x, note x (put key (x.1, f x.2) t)) t l).
Proof.
  intros Hf Hn. revert t. induction l as [|x l IH]; intros t Hl Ht; [done|]. cbn [foldl]. apply IH; [intros; apply Hl; set_solver|].
  intros a e. rewrite Hn. revert a e. apply all_rows_put; [|done]. apply Hf, Hl. set_solver.
Qed.
Lemma update_entry_rows fs e : P e → P (update_entry fs e).1.
Proof.
  intros He. assert (H : ∀ s, P s.1 → P (foldl (λ (s : Entry * list ChangeRecord) x, (setField x.1 x.2 s.1,
    s.2 ++ [mkRecord (en_tempIndex s.1) x.1 (getField x.1 s.1) (en_id s.1)])) s fs).1); [|by apply H].
  induction fs as [|x fs IH]; intros s Hs; [done|]. cbn [foldl]. by apply IH, Pfield.
Qed.
Lemma run_op_rows name op t : fresh_entry op → all_rows t → all_rows (run_op version (db name) op t).1.
Proof.
  intros Hop Ht. destruct op as [key c|key entry c o|key entry o|key c o]; cbn [run_op]; [by apply all_rows_select|..].
  - unfold update. case_match eqn:E; [|done]. revert E. case_match; [by intros [= <-]|]. case_match; [done|].
    pose proof (all_rows_select name key c t Ht) as H1. pose proof (λ x, all_rows_selected name key c t x Ht) as H2.
    destruct (selectNoLock version (db name) key c t) as [t1 l]. intros [= <-]. cbn.
    apply (all_rows_puts key (λ e, (update_entry (written t1 entry) e).1) (note_updated key)); [apply update_entry_rows|apply row_note_updated|exact H2|exact H1].
  - unfold insert. case_match eqn:E; [|done]. revert E. case_match; [by intros [= <-]|]. case_match; [done|]. intros [= <-]. cbn [fst].
    intros a e. change (row (set_touched ?t) a) with (row t a). rewrite row_insert. case_decide; [intros [= <-]; by apply Pfield|apply Ht].
  - unfold remove. case_match; [done|]. pose proof (all_rows_select name key c t Ht) as H1. pose proof (λ x, all_rows_selected name key c t x Ht) as H2.
    destruct (selectNoLock version (db name) key c t) as [t1 l]. cbn.
    apply (all_rows_puts key (setStatus 1) (λ _ t, t)); [apply Pstatus|done|exact H2|exact H1].
Qed.
Lemma rollback_all_rows ch t : all_rows t → all_rows (Table.rollback ch t).
Proof.
  assert (Ha : ∀ key r f t, (∀ e, P e → P (f e)) → all_rows t → all_rows (alter_row key r f t)).
  { intros key r f t' Hf Ht a e. rewrite row_alter_row. case_decide; [|apply Ht]. intros (e0 & He & ->)%fmap_Some. by eapply Hf, Ht. }
  assert (Hl : ∀ key (f : ChangeRecord → Entry → Entry) rs t, (∀ r e, P e → P (f r e)) → all_rows t → all_rows (foldl (λ t r, alter_row key r (f r) t) t rs)).
  { intros key f rs. induction rs as [|r rs IH]; intros t' Hf Ht; [done|]. cbn. apply IH; [done|]. apply Ha; [apply Hf|done]. }
  unfold Table.rollback. intros Ht. destruct (ch_kind ch).
  - destruct (ch_value ch) as [|r _]; [done|]. exact (Ha (ch_key ch) (mkRecord (cr_index r) EmptyString EmptyString 0) (setDeleted true) t (Pdeleted true) Ht).
  - apply (Hl _ (λ r, setField (cr_key r) (cr_oldValue r))); [intros; by apply Pfield|done].
  - apply (Hl _ (λ _, setStatus 0)); [intros; by apply Pstatus|done].
Qed.

Definition all_tables (f : MemoryTableFactory2) : Prop := ∀ name t, mf_tables f !! name = Some t → all_rows t.
Definition tables_kept (f f' : MemoryTableFactory2) : Prop := all_tables f → all_tables f'.
#[local] Instance tables_kept_preorder : PreOrder tables_kept.
Proof. split; [intros f H; exact H|]. intros f f1 f2 H1 H2 H. by apply H2, H1. Qed.
Lemma run_step_rows s f : match s with Do (OpTable _ op) => fresh_entry op | _ => True end → all_tables f → all_tables (run_step version db f s).
Proof.
  destruct s as [op|sp]; intros Hop; cbn [run_step].
  - apply (run_factory_op_rel version db tables_kept fresh_entry); [| |done| |by destruct op].
    + intros A name top op' absent f' Hq Heq Hf. unfold run_table. destruct (mf_tables f' !! name) as [t|] eqn:E; [|done]. specialize (Heq t).
      pose proof (run_op_rows name op' t Hq (Hf name t E)) as Hr. destruct (top t) as [[t' chs] x]. cbn in Heq. rewrite <- Heq in Hr.
      intros n t0. cbn. intros [[_ <-]|[_ H]]%lookup_insert_Some; [exact Hr|by eapply Hf].
    + intros name info f' _ Hf. unfold add_table. destruct (mf_tables f' !! name); [exact Hf|]. intros n t. cbn. intros [[_ <-]|[_ H]]%lookup_insert_Some; [|by eapply Hf].
      intros [id|[k i]] e He; cbn in He; by rewrite lookup_empty in He.
    + intros name kf vf o. cbn. unfold table_entry. auto.
  - intros Hf. unfold rollback. intros name t. cbn [set_log mf_tables]. revert name t. change (all_tables (foldl (λ f ch, undo_last ch f) f (reverse (drop sp (mf_changeLog f))))).
    generalize (reverse (drop sp (mf_changeLog f))). intros l. revert f Hf. induction l as [|ch l IH]; intros f Hf; [done|]. cbn [foldl]. apply IH.
    intros name t. rewrite undo_last_tables. intros Ht. apply lookup_alter_Some in Ht as [(<- & t0 & Ht0 & ->)|[_ Ht]]; [by eapply rollback_all_rows, Hf|by eapply Hf].
Qed.
Lemma run_steps_rows steps f :
  Forall (λ s, match s with Do (OpTable _ op) => fresh_entry op | _ => True end) steps → all_tables f → all_tables (foldl (run_step version db) f steps).
Proof. intros Hs. revert f. induction Hs as [|s steps Hs Hss IH]; intros f Hf; [done|]. cbn. by apply IH, run_step_rows. Qed.
End rows.

(** ** The sizes an entry keeps *)

Definition field_size (P : string → bool) (k v : string) (acc : Z) : Z := (if P k then slen k + slen v else 0) + acc.
Definition fields_size (P : string → bool) (m : gmap string string) : Z := map_fold (field_size P) 0 m.
(** The type of an entry: both sizes are those of its fields. *)
Record entry_ok (e : Entry) : Prop := {
  eo_capacity : en_capacity e = fields_size (λ _, true) (en_fields e);
  eo_hash : en_capacityOfHashField e = fields_size isHashField (en_fields e) }.
Lemma fields_size_insert P k v m :
  fields_size P (<[k := v]> m) = fields_size P m + (if P k then match m !! k with Some old => slen v - slen old | None => slen k + slen v end else 0).
Proof.
  assert (Hf : ∀ k v m, m !! k = None → fields_size P (<[k := v]> m) = field_size P k v (fields_size P m)).
  { intros k' v' m' Hm. unfold fields_size. apply (map_fold_insert_L (field_size P)); [|done]. intros. unfold field_size. lia. }
  destruct (m !! k) as [old|] eqn:E; [|rewrite Hf by done; unfold field_size; lia].
  rewrite <- (insert_delete_id m k old E) at 2. rewrite <- insert_delete_eq. rewrite !Hf by apply lookup_delete_eq. unfold field_size. destruct (P k); lia.
Qed.
Lemma setField_ok k v e : entry_ok e → entry_ok (setField k v e).
Proof.
  intros [H1 H2]. split; cbn [setField en_capacity en_capacityOfHashField en_fields]; rewrite fields_size_insert.
  - rewrite H1. by destruct (en_fields e !! k).
  - destruct (isHashField k); rewrite H2; [by destruct (en_fields e !! k)|lia].
Qed.
Lemma newEntry_ok : entry_ok newEntry.
Proof. by split. Qed.
Lemma hash_bytes_size (l : list (string * string)) :
  Z.of_nat (length (mjoin ((λ x, stringBytes x.1 ++ stringBytes x.2) <$> filter (λ x, isHashField x.1 = true) l))) = foldr (uncurry (field_size isHashField)) 0 l.
Proof.
  induction l as [|[k v] l IH]; [done|]. rewrite filter_cons. cbn [fst foldr uncurry]. unfold field_size at 1. rewrite <- IH. case_decide as E.
  - rewrite E. set (g := λ x : string * string, stringBytes x.1 ++ stringBytes x.2) in *.
    match goal with |- context [g <$> _ :: ?r] => change (mjoin (g <$> (k, v) :: r)) with ((stringBytes k ++ stringBytes v) ++ mjoin (g <$> r)) end.
    rewrite !length_app, !length_stringBytes. unfold slen. lia.
  - by destruct (isHashField k).
Qed.
Lemma fields_size_foldr P m l : l ≡ₚ map_to_list m → foldr (uncurry (field_size P)) 0 l = fields_size P m.
Proof.
  intros Hl. unfold fields_size. rewrite map_fold_foldr. induction Hl as [|[] ? ? ? IH|[] [] ?|? ? ? _ IH1 _ IH2]; cbn; [done|by rewrite IH|unfold field_size; lia|congruence].
Qed.
Lemma entry_ok_exact e : entry_ok e → hash_exact e.
Proof.
  intros [_ H]. unfold hash_exact, entry_bytes, hash_size. rewrite length_app. cbn. pose proof (hash_bytes_size (fields_of e)) as E.
  rewrite (fields_size_foldr isHashField (en_fields e)) in E by apply merge_sort_Permutation. rewrite H. lia.
Qed.
(** The type is kept by whatever a thread does with the factory. *)
Lemma run_steps_entries version db steps f :
  (∀ name key e, e ∈ db name key → entry_ok e) → Forall (λ s, match s with Do (OpTable _ op) => fresh_entry entry_ok op | _ => True end) steps →
  all_tables entry_ok f → all_tables entry_ok (foldl (run_step version db) f steps).
Proof.
  intros Hdb. apply run_steps_rows; [apply setField_ok|by intros s e []|by intros b e []|by intros i e []|apply newEntry_ok|exact Hdb].
Qed.
Lemma all_rows_dumped P t e : all_rows P t → e ∈ dirty_rows t ++ new_rows t → P e.
Proof.
  intros Ht [[_ He]%list_elem_of_filter|[_ He]%list_elem_of_filter]%elem_of_app.
  - apply list_elem_of_fmap in He as ([id d] & -> & Hd%elem_of_map_to_list). exact (Ht (inl id) d Hd).
  - apply list_elem_of_join in He as (l & He & ([key l'] & -> & Hl%elem_of_map_to_list)%list_elem_of_fmap). apply list_elem_of_lookup in He as [i Hi].
    apply (Ht (inr (key, i)) e). cbn in *. by rewrite Hl.
Qed.

(** ** The order of the entries *)

Record good {A} (c : A → A → comparison) : Prop := {
  gd_eq : ∀ a b, c a b = Eq ↔ a = b; gd_sym : ∀ a b, c b a = CompOpp (c a b); gd_trans : ∀ a b d, c a b = Lt → c b d = Lt → c a d = Lt }.
Definition lex {A B} (c1 : A → A → comparison) (c2 : B → B → comparison) (x y : A * B) : comparison :=
  match c1 x.1 y.1 with Eq => c2 x.2 y.2 | r => r end.
Fixpoint lex_list {A} (c : A → A → comparison) (l r : list A) : comparison :=
  match l, r with
  | [], [] => Eq | [], _ => Lt | _, [] => Gt
  | x :: l, y :: r => match c x y with Eq => lex_list c l r | o => o end
  end.
Lemma good_refl {A} (c : A → A → comparison) a : good c → c a a = Eq.
Proof. intros Hc. by apply (gd_eq _ Hc). Qed.
Lemma lex_good {A B} (c1 : A → A → comparison) (c2 : B → B → comparison) : good c1 → good c2 → good (lex c1 c2).
Proof.
  intros [E1 S1 T1] [E2 S2 T2]. unfold lex. split.
  - intros [a b] [a' b']. cbn. specialize (E1 a a'). destruct (c1 a a').
    + rewrite E2. destruct E1 as [E1 _]. rewrite (E1 eq_refl). naive_solver.
    + naive_solver.
    + naive_solver.
  - intros [a b] [a' b']. cbn. rewrite (S1 a a'). destruct (c1 a a'); cbn; [apply S2|done..].
  - intros [a b] [a' b'] [a'' b'']. cbn. destruct (c1 a a') eqn:C1; [apply E1 in C1 as ->|..|done].
    + destruct (c1 a' a''); [apply T2|done..].
    + intros _. destruct (c1 a' a'') eqn:C2; [apply E1 in C2 as ->; by rewrite C1|by rewrite (T1 _ _ _ C1 C2)|done].
Qed.
Lemma lex_list_good {A} (c : A → A → comparison) : good c → good (lex_list c).
Proof.
  intros [E S T]. split.
  - induction a as [|x a IH]; intros [|y b]; cbn; [done..|]. specialize (E x y). destruct (c x y); [|naive_solver..]. rewrite IH. destruct E as [E _]. rewrite (E eq_refl). naive_solver.
  - induction a as [|x a IH]; intros [|y b]; cbn; [done..|]. rewrite (S x y). destruct (c x y); cbn; [apply IH|done..].
  - induction a as [|x a IH]; intros [|y b] [|z d]; cbn; [done..|]. destruct (c x y) eqn:C1; [apply E in C1 as ->|..|done].
    + destruct (c y z); [apply IH|done..].
    + intros _. destruct (c y z) eqn:C2; [apply E in C2 as ->; by rewrite C1|by rewrite (T _ _ _ C1 C2)|done].
Qed.
Lemma string_good : good String.compare.
Proof.
  split; [|intros a b; apply String.compare_antisym|].
  { intros a b. split; [apply String.compare_eq_iff|intros ->]. pose proof (String.compare_antisym b b) as E. by destruct (String.compare b b). }
  intros a b d H1 H2.
  assert (Hle : String.le a d).
  { transitivity b; unfold String.le, String.leb; [by rewrite H1|by rewrite H2]. }
  unfold String.le, String.leb in Hle. destruct (String.compare a d) eqn:E; [|done|done]. apply String.compare_eq_iff in E as ->.
  rewrite String.compare_antisym, H1 in H2. done.
Qed.
Lemma string_eqb_compare a b : String.eqb a b = match String.compare a b with Eq => true | _ => false end.
Proof.
  destruct (String.eqb_spec a b) as [->|Hn]; [by rewrite (good_refl _ b string_good)|]. pose proof (proj1 (gd_eq _ string_good a b)) as H.
  destruct (String.compare a b); [by destruct Hn; apply H|done..].
Qed.
Lemma Z_good : good Z.compare.
Proof. split; [intros a b; exact (Z.compare_eq_iff a b)|intros a b; apply Z.compare_antisym|]. intros a b d. rewrite !Z.compare_lt_iff. lia. Qed.
Lemma nat_good : good Nat.compare.
Proof. split; [intros a b; exact (Nat.compare_eq_iff a b)|intros a b; apply Nat.compare_antisym|]. intros a b d. rewrite !Nat.compare_lt_iff. lia. Qed.

Definition entry_key (keyField : string) (e : Entry) : Z * (string * (nat * list (string * string))) :=
  (en_id e, (getField keyField e, (size (en_fields e), fields_of e))).
Definition key_compare := lex Z.compare (lex String.compare (lex Nat.compare (lex_list (lex String.compare String.compare)))).
Lemma key_good : good key_compare.
Proof. repeat apply lex_good; [apply Z_good|apply string_good|apply nat_good|]. apply lex_list_good, lex_good; apply string_good. Qed.
Lemma fields_less_compare l r : length l = length r → fields_less l r = match lex_list (lex String.compare String.compare) l r with Lt => true | _ => false end.
Proof.
  revert r. induction l as [|[k v] l IH]; intros [|[k' v'] r] Hl; try done. cbn. unfold lex. cbn. rewrite !string_eqb_compare. unfold String.ltb.
  destruct (String.compare k k'); cbn; [|done..]. destruct (String.compare v v'); cbn; [|done..]. apply IH. by injection Hl.
Qed.
Lemma entry_less_compare keyField a b : entry_less keyField a b = match key_compare (entry_key keyField a) (entry_key keyField b) with Lt => true | _ => false end.
Proof.
  unfold entry_less, key_compare, entry_key, lex at 1 2 3. cbn. rewrite Z.eqb_compare, string_eqb_compare. unfold Z.ltb, String.ltb.
  destruct (en_id a ?= en_id b)%Z; cbn; [|done..]. destruct (String.compare _ _); cbn; [|done..].
  destruct (Nat.compare_spec (size (en_fields a)) (size (en_fields b))) as [E|E|E].
  - rewrite (proj2 (Nat.eqb_eq _ _) E). cbn. apply fields_less_compare. unfold fields_of. rewrite !merge_sort_Permutation. by rewrite !length_map_to_list.
  - rewrite (proj2 (Nat.eqb_neq _ _)) by lia. cbn. by apply Nat.ltb_lt.
  - rewrite (proj2 (Nat.eqb_neq _ _)) by lia. cbn. apply Nat.ltb_ge. lia.
Qed.

(** ** One digest *)

Definition key_le (x y : Z * (string * (nat * list (string * string)))) : Prop := key_compare x y ≠ Gt.
#[local] Instance key_le_antisym : AntiSymm (=) key_le.
Proof.
  intros x y H1 H2. unfold key_le in *. rewrite (gd_sym _ key_good x y) in H2. apply (gd_eq _ key_good). by destruct (key_compare x y).
Qed.
#[local] Instance key_le_trans : Transitive key_le.
Proof.
  intros x y z. unfold key_le. destruct (key_compare x y) eqn:E1; [apply (gd_eq _ key_good) in E1 as ->; done|intros _|done].
  destruct (key_compare y z) eqn:E2; [apply (gd_eq _ key_good) in E2 as ->; by rewrite E1|by rewrite (gd_trans _ key_good _ _ _ E1 E2)|done].
Qed.
#[local] Instance key_le_total : Total key_le.
Proof. intros x y. unfold key_le. rewrite (gd_sym _ key_good x y). destruct (key_compare x y); cbn; auto. Qed.
#[local] Instance key_le_dec : RelDecision key_le.
Proof. intros x y. unfold key_le. destruct (key_compare x y); (by left) || (right; tauto). Defined.
Lemma arranged_sorted keyField l : arranged keyField l → StronglySorted key_le (entry_key keyField <$> l).
Proof.
  induction l as [|e l IH]; intros Ha; [constructor|]. cbn. constructor.
  - apply IH. intros i j a b Hij H1 H2. apply (Ha (S i) (S j)); [lia|done..].
  - apply Forall_fmap, Forall_forall. intros e' (j & Hj)%list_elem_of_lookup. cbn. specialize (Ha 0%nat (S j) e e' ltac:(lia) eq_refl Hj).
    rewrite entry_less_compare, (gd_sym _ key_good (entry_key keyField e)) in Ha. unfold key_le. by destruct (key_compare _ _).
Qed.
(** Rows that the order does not tell apart have one status. *)
Definition no_ties (keyField : string) (l : list Entry) : Prop :=
  ∀ a b, a ∈ l → b ∈ l → entry_key keyField a = entry_key keyField b → en_status a = en_status b.
Lemma arranged_bytes keyField rows l l' :
  no_ties keyField rows → l ≡ₚ rows → l' ≡ₚ rows → arranged keyField l → arranged keyField l' → entry_bytes <$> l = entry_bytes <$> l'.
Proof.
  intros Hn H1 H2 A1 A2. assert (E : entry_key keyField <$> l = entry_key keyField <$> l').
  { apply (StronglySorted_unique key_le); [by apply arranged_sorted..|]. by rewrite H1, H2. }
  apply list_eq. intros i. rewrite !list_lookup_fmap. apply (f_equal (.!! i)) in E. rewrite !list_lookup_fmap in E.
  destruct (l !! i) as [a|] eqn:E1, (l' !! i) as [b|] eqn:E2; cbn in E; try done. cbn. f_equal. injection E as Eid Ekf Esz Efs.
  assert (Es : en_status a = en_status b).
  { apply Hn; [rewrite <- H1; by eapply list_elem_of_lookup_2|rewrite <- H2; by eapply list_elem_of_lookup_2|]. unfold entry_key. by rewrite Eid, Ekf, Esz, Efs. }
  unfold entry_bytes, statusByte. by rewrite Efs, Es.
Qed.
Lemma sorted_lookup {A} (R : relation A) l i j a b : StronglySorted R l → (i < j)%nat → l !! i = Some a → l !! j = Some b → R a b.
Proof.
  intros Hs. revert i j. induction Hs as [|x l Hs IH Hx]; intros i j Hij Ha Hb; [by destruct i|]. destruct j as [|j]; [lia|]. destruct i as [|i].
  - injection Ha as ->. eapply Forall_forall; [exact Hx|]. by eapply list_elem_of_lookup_2.
  - apply (IH i j); [lia|done..].
Qed.
Lemma arranged_exists keyField rows : ∃ l, l ≡ₚ rows ∧ arranged keyField l.
Proof.
  set (R := λ a b, key_le (entry_key keyField a) (entry_key keyField b)).
  assert (Hd : RelDecision R) by (intros a b; apply key_le_dec).
  assert (Ht : Total R) by (intros a b; apply key_le_total). assert (Htr : Transitive R) by (intros a b d; apply key_le_trans).
  exists (merge_sort R rows). split; [apply merge_sort_Permutation|]. pose proof (StronglySorted_merge_sort R rows) as Hs.
  intros i j a b Hij Ha Hb. pose proof (sorted_lookup R _ i j a b Hs Hij Ha Hb) as Hle. unfold R, key_le in Hle.
  rewrite entry_less_compare, (gd_sym _ key_good (entry_key keyField a)). by destruct (key_compare _ _).
Qed.

(** The dirty rows have distinct ids, so the order tells them apart. *)
Lemma dirty_no_ties keyField t : (∀ id d, mt_dirty t !! id = Some d → en_id d = id) → no_ties keyField (dirty_rows t).
Proof.
  intros Hid a b [_ Ha]%list_elem_of_filter [_ Hb]%list_elem_of_filter E.
  apply list_elem_of_fmap in Ha as ([ia a'] & -> & Ha%elem_of_map_to_list), Hb as ([ib b'] & -> & Hb%elem_of_map_to_list). cbn in *.
  pose proof (Hid _ _ Ha). pose proof (Hid _ _ Hb). assert (ia = ib) as -> by (injection E; congruence). by simplify_eq.
Qed.
Lemma dump_determined t :
  all_rows entry_ok t → (∀ id d, mt_dirty t !! id = Some d → en_id d = id) → no_ties (ti_key (mt_info t)) (new_rows t) →
  ∃ data, dump_run t data
    ∧ ∀ dirty news schedule, dirty ≡ₚ dirty_rows t → news ≡ₚ new_rows t → arranged (ti_key (mt_info t)) dirty → arranged (ti_key (mt_info t)) news →
      schedule ≡ₚ dump_writes dirty news → run_writes schedule (replicate (allSize (dirty ++ news)) (byte.of_Z 0)) = Some data.
Proof.
  intros Hrows Hid Hnew. destruct (arranged_exists (ti_key (mt_info t)) (dirty_rows t)) as (d & Hd & Ad).
  destruct (arranged_exists (ti_key (mt_info t)) (new_rows t)) as (n & Hn & An).
  assert (Hex : ∀ l rows, l ≡ₚ rows → (∀ e, e ∈ rows → e ∈ dirty_rows t ++ new_rows t) → Forall hash_exact l).
  { intros l rows Hl Hsub. apply Forall_forall. intros e He. apply entry_ok_exact, (all_rows_dumped entry_ok t); [done|]. apply Hsub. by rewrite <- Hl. }
  assert (Hdata : ∀ dirty news schedule, dirty ≡ₚ dirty_rows t → news ≡ₚ new_rows t → arranged (ti_key (mt_info t)) dirty → arranged (ti_key (mt_info t)) news →
    schedule ≡ₚ dump_writes dirty news → run_writes schedule (replicate (allSize (dirty ++ news)) (byte.of_Z 0)) = Some (mjoin (entry_bytes <$> d ++ n))).
  { intros dirty news schedule H1 H2 A1 A2 Hs. rewrite (dump_data dirty news schedule); [|eapply Hex; [done|set_solver]..|done].
    rewrite !fmap_app, (arranged_bytes _ _ dirty d (dirty_no_ties _ t Hid) H1 Hd A1 Ad), (arranged_bytes _ _ news n Hnew H2 Hn A2 An). done. }
  exists (mjoin (entry_bytes <$> d ++ n)). split; [|exact Hdata]. by eapply (DumpRun t d n (dump_writes d n)); try apply Hdata.
Qed.

Section root.
Context `{Crypto} (oldHash : bytes → Z) (version : Z).
(** A table whose digest does not depend on the run. *)
Record dumpable (t : MemoryTable2) : Prop := {
  du_rows : all_rows entry_ok t; du_ids : ∀ id d, mt_dirty t !! id = Some d → en_id d = id; du_ties : no_ties (ti_key (mt_info t)) (new_rows t) }.
Lemma table_hash_determined t : dumpable t → ∃ h, ∀ h', table_hash oldHash version t h' ↔ h' = h.
Proof.
  intros [H1 H2 H3]. destruct (dump_determined t H1 H2 H3) as (data & Hrun & Hall). unfold table_hash. destruct (mt_hashDirty t); [|by eexists].
  destruct (ti_enableConsensus (mt_info t)); [|by eexists]. exists (digest oldHash version data). intros h'. split; [|intros ->; eauto].
  intros (data' & Hrun' & ->). destruct Hrun' as [dirty news schedule data' D1 D2 D3 D4 D5 D6]. rewrite (Hall dirty news schedule) in D6 by done. by injection D6 as ->.
Qed.
Lemma hashed_tables_open f name : name ∈ hashed_tables version f → is_Some (mf_tables f !! name).
Proof.
  unfold hashed_tables. rewrite merge_sort_Permutation. intros ([n t] & -> & [_ Ht%elem_of_map_to_list]%list_elem_of_filter)%list_elem_of_fmap. by eexists.
Qed.
Lemma factory_hash_determined f :
  (∀ name t, mf_tables f !! name = Some t → dumpable t) → ∃ root, ∀ root', factory_hash oldHash version f root' ↔ root' = root.
Proof.
  intros Hf. assert (Hh : ∀ names, (∀ name, name ∈ names → is_Some (mf_tables f !! name)) →
    ∃ hs, ∀ hs', Forall2 (λ name h, ∃ t, mf_tables f !! name = Some t ∧ table_hash oldHash version t h) names hs' ↔ hs' = hs).
  { induction names as [|name names IH]; intros Hn; [exists []; intros hs'; split; [apply Forall2_nil_inv_l|intros ->; constructor]|].
    destruct IH as [hs IH]; [intros; apply Hn; set_solver|]. destruct (Hn name ltac:(set_solver)) as [t Ht].
    destruct (table_hash_determined t (Hf name t Ht)) as [h Hh]. exists (h :: hs). intros hs'. split.
    - intros (h' & l' & (t' & Ht' & Hh') & Hl' & ->)%Forall2_cons_inv_l. simplify_eq. apply Hh in Hh' as ->. f_equal. by apply IH.
    - intros ->. constructor; [exists t; split; [done|by apply Hh]|by apply IH]. }
  destruct (Hh (hashed_tables version f) (hashed_tables_open f)) as [hs Hhs].
  exists (match hs with [] => 0 | _ => digest oldHash version (mjoin (hashBytes 32 <$> hs)) end). intros root'. split.
  - intros (hs' & Hhs' & ->). apply Hhs in Hhs' as ->. done.
  - intros ->. exists hs. split; [by apply Hhs|done].
Qed.
End root.
(** After a run the tables are dumpable. *)
Lemma run_dumpable version db f steps name t :
  V2_5_0 <= version → factory_ok db f → all_tables entry_ok f → (∀ name key e, e ∈ db name key → entry_ok e) → Forall (step_ok (savepoint f)) steps →
  Forall (λ s, match s with Do (OpTable _ op) => fresh_entry entry_ok op | _ => True end) steps → keys_ok db (foldl (run_step version db) f steps) →
  mf_tables (foldl (run_step version db) f steps) !! name = Some t → no_ties (ti_key (mt_info t)) (new_rows t) → dumpable t.
Proof.
  intros Hv Hok Hsz Hdb Hs Hfresh Hk Ht Hties. split; [|intros id d Hd|done].
  - by apply (run_steps_entries version db steps f Hdb Hfresh Hsz name).
  - destruct (since_run version db Hv f steps f (since_refl db f Hok) Hs Hk) as [[Hok' _ _] _]. destruct (fo_table _ _ Hok' _ _ Ht) as [Hto _]. by apply (tk_dirty _ _ Hto).
Qed.

(** C20. The sizes an entry keeps are exact.  Whatever sequence of factory operations and
    rollbacks a thread makes, every row of every open table keeps as its capacity the
    length of its fields' names and values, and as the capacity of the hashed fields the
    length of those that are hashed: exactly the bytes that the digest's writers need. *)
Theorem entries_sized version db f steps :
  (∀ name key e, e ∈ db name key → entry_ok e) → all_tables entry_ok f →
  Forall (λ s, match s with Do (OpTable _ op) => fresh_entry entry_ok op | _ => True end) steps →
  ∀ name t a e, mf_tables (foldl (run_step version db) f steps) !! name = Some t → row t a = Some e →
    en_capacity e = fields_size (λ _, true) (en_fields e) ∧ en_capacityOfHashField e = fields_size isHashField (en_fields e)
    ∧ Z.of_nat (length (entry_bytes e)) = en_capacityOfHashField e + 1.
Proof.
  intros Hdb Hf Hs name t a e Ht He. pose proof (run_steps_entries version db steps f Hdb Hs Hf name t Ht a e He) as Hok.
  split; [apply Hok|]. split; [apply Hok|]. pose proof (entry_ok_exact e Hok) as Hx. unfold hash_exact, hash_size, entry_bytes in *. rewrite length_app in *. cbn in *. lia.
Qed.
Lemma stored_entry_ok name key e : e ∈ sample_db name key → entry_ok e.
Proof. unfold sample_db. case_match; [intros ->%list_elem_of_singleton; by vm_compute|intros Hnil; by apply not_elem_of_nil in Hnil]. Qed.
Lemma sample_tables_ok : all_tables entry_ok sample_factory.
Proof.
  intros name t Ht. cbn [mf_tables sample_factory] in Ht. apply lookup_singleton_Some in Ht as [_ <-]. intros [id|[k i]] e He; cbn in He; by rewrite lookup_empty in He.
Qed.
Lemma entries_sized_witness :
  ∃ t e, mf_tables (foldl (run_step V2_5_0 sample_db) sample_factory sample_steps) !! "t_asset" = Some t ∧ row t (inl 100001) = Some e
    ∧ en_capacity e = fields_size (λ _, true) (en_fields e).
Proof.
  destruct (mf_tables (foldl (run_step V2_5_0 sample_db) sample_factory sample_steps) !! "t_asset") as [t|] eqn:E; [|by vm_compute in E].
  assert (Hr : is_Some (row t (inl 100001))).
  { apply (f_equal (fmap (λ t, bool_decide (is_Some (row t (inl 100001)))))) in E. cbn [fmap option_fmap option_map] in E.
    assert (E' : (λ t, bool_decide (is_Some (row t (inl 100001)))) <$> mf_tables (foldl (run_step V2_5_0 sample_db) sample_factory sample_steps) !! "t_asset" = Some true) by (vm_compute; reflexivity).
    rewrite E' in E. injection E as E. by apply (bool_decide_eq_true_1 _ (eq_sym E)). }
  destruct Hr as [e He]. exists t, e. split; [done|]. split; [done|].
  refine (proj1 (entries_sized V2_5_0 sample_db sample_factory sample_steps stored_entry_ok sample_tables_ok _ "t_asset" t (inl 100001) e E He)).
  repeat constructor.
Defined.

(** C19. The root of the state does not depend on how the threads are scheduled.  After any
    sequence of factory operations and rollbacks, if inserted rows that have the same
    fields also have the same status, then whatever the order in which the rows of a table
    are collected, whatever arrangement the sort leaves and in whatever order the threads
    copy, no copy leaves the buffer, and [hash] of the factory has exactly one result. *)
Theorem state_root_determined `{Crypto} oldHash version db f steps :
  V2_5_0 <= version → factory_ok db f → all_tables entry_ok f → (∀ name key e, e ∈ db name key → entry_ok e) → Forall (step_ok (savepoint f)) steps →
  Forall (λ s, match s with Do (OpTable _ op) => fresh_entry entry_ok op | _ => True end) steps →
  let f' := foldl (run_step version db) f steps in
  keys_ok db f' → (∀ name t, mf_tables f' !! name = Some t → no_ties (ti_key (mt_info t)) (new_rows t)) →
  (∀ name t dirty news schedule, mf_tables f' !! name = Some t →
     dirty ≡ₚ dirty_rows t → news ≡ₚ new_rows t → arranged (ti_key (mt_info t)) dirty → arranged (ti_key (mt_info t)) news → schedule ≡ₚ dump_writes dirty news →
     is_Some (run_writes schedule (replicate (allSize (dirty ++ news)) (byte.of_Z 0))))
  ∧ ∃ root, ∀ root', factory_hash oldHash version f' root' ↔ root' = root.
Proof.
  intros Hv Hok Hsz Hdb Hs Hfresh f' Hk Hties.
  assert (Hd : ∀ name t, mf_tables f' !! name = Some t → dumpable t) by (intros name t Ht; by eapply run_dumpable; eauto).
  split; [|by apply factory_hash_determined]. intros name t dirty news schedule Ht H1 H2 A1 A2 Hsch. destruct (Hd name t Ht) as [D1 D2 D3].
  destruct (dump_determined t D1 D2 D3) as (data & _ & Hall). rewrite (Hall dirty news schedule) by done. done.
Qed.
Lemma few_no_ties kf l : (length l <= 1)%nat → no_ties kf l.
Proof.
  destruct l as [|x [|y l]]; cbn; [|intros _|lia]; intros; intros a b Ha Hb _; [by apply not_elem_of_nil in Ha|].
  apply list_elem_of_singleton in Ha as ->. by apply list_elem_of_singleton in Hb as ->.
Qed.
Definition few_rows (f : MemoryTableFactory2) : bool := forallb (λ x, (length (new_rows x.2) <=? 1)%nat) (map_to_list (mf_tables f)).
Lemma few_rows_no_ties f name t : few_rows f = true → mf_tables f !! name = Some t → no_ties (ti_key (mt_info t)) (new_rows t).
Proof.
  intros Hf Ht%elem_of_map_to_list. unfold few_rows in Hf. rewrite forallb_forall in Hf. specialize (Hf (name, t)). apply few_no_ties, Nat.leb_le, Hf. by apply list_elem_of_In.
Qed.
Lemma sample_few_rows : few_rows (foldl (run_step V2_5_0 sample_db) sample_factory sample_steps) = true.
Proof. vm_compute. reflexivity. Qed.
Lemma state_root_determined_witness :
  ∃ root, ∀ root', @factory_hash toyCrypto (λ _, 0) V2_5_0 (foldl (run_step V2_5_0 sample_db) sample_factory sample_steps) root' ↔ root' = root.
Proof.
  refine (proj2 (@state_root_determined toyCrypto (λ _, 0) V2_5_0 sample_db sample_factory sample_steps _ sample_factory_ok sample_tables_ok stored_entry_ok _ _ sample_keys_ok _)).
  - done.
  - by repeat constructor.
  - repeat constructor.
  - intros name t. exact (few_rows_no_ties _ name t sample_few_rows).
Defined.

(** ** Rows that tie *)

Definition tied_entry : Entry := setField "balance" "1" newEntry.
Definition tied_table : MemoryTable2 :=
  foldl (λ t op, (run_op V2_5_0 (sample_db "t_asset") op t).1) sample_table
    [OpInsert "bob" tied_entry sample_options; OpRemove "bob" newCondition sample_options; OpInsert "bob" tied_entry sample_options].
Definition tied_row (status : Z) : Entry := setStatus status (setField "name" "bob" tied_entry).
Lemma two_rows_tie t x y :
  dirty_rows t = [] → new_rows t = [x; y] → hash_exact x → hash_exact y → entry_key (ti_key (mt_info t)) x = entry_key (ti_key (mt_info t)) y →
  dump_run t (entry_bytes x ++ entry_bytes y ++ []) ∧ dump_run t (entry_bytes y ++ entry_bytes x ++ []).
Proof.
  intros Hd Hn Hx Hy Hk. assert (Hall : ∀ a b, a ∈ [x; y] → b ∈ [x; y] → entry_less (ti_key (mt_info t)) a b = false).
  { intros a b Ha Hb. rewrite entry_less_compare. replace (entry_key _ b) with (entry_key (ti_key (mt_info t)) a); [by rewrite good_refl by apply key_good|].
    apply elem_of_cons in Ha as [-> | ->%list_elem_of_singleton]; apply elem_of_cons in Hb as [-> | ->%list_elem_of_singleton]; congruence. }
  assert (Hrun : ∀ l, l ≡ₚ [x; y] → dump_run t (mjoin (entry_bytes <$> l))).
  { intros l Hl. apply (DumpRun _ [] l (dump_writes [] l)); [by rewrite Hd|by rewrite Hn| | |done|].
    - intros i j a b _ Ha. by rewrite lookup_nil in Ha.
    - intros i j a b _ Ha%list_elem_of_lookup_2 Hb%list_elem_of_lookup_2. rewrite Hl in Ha, Hb. by apply Hall.
    - apply (dump_data [] l); [constructor|rewrite Hl; by repeat constructor|done]. }
  split; [exact (Hrun [x; y] (reflexivity _))|exact (Hrun [y; x] (perm_swap _ _ _))].
Qed.
Lemma tied_row_exact status : hash_exact (tied_row status).
Proof. apply entry_ok_exact. by split. Qed.
