(* ===== verification/TableSpec.v ===== *)
(** * A table as a map (specification of MemoryTable2)

    What a client of a table may rely on: by key, a list of rows in a fixed order, to which
    [insert] appends, whose fields [update] sets, which [remove] empties, and which a
    rollback resets to what it was at the savepoint.  The table refines this map, whatever
    the storage holds. *)
From stdpp Require Import sorting.
From S2P Require Import Prelude CommonData Crypto ABI Table TableProps TableFactory.
Local Open Scope Z_scope.

(** ** The specification *)

Definition rows := string → list Entry.
Definition set_rows (key : string) (l : list Entry) (s : rows) : rows := λ k, if String.eqb k key then l else s k.
(** The operations by key, as the contracts' state uses them. *)
Inductive key_op :=
| KSelect (key : string)
| KUpdate (key : string) (entry : Entry) (o : AccessOptions)
| KInsert (key : string) (entry : Entry) (o : AccessOptions)
| KRemove (key : string) (o : AccessOptions)
| KBack (sp : nat).
(** What an operation returns: rows, a count or code, an exception, nothing. *)
Inductive reply := Rows (l : list Entry) | Count (n : Z) | Thrown | Done.
Inductive same_reply : reply → reply → Prop :=
| SameRows l l' : Forall2 same l l' → same_reply (Rows l) (Rows l')
| SameCount n : same_reply (Count n) (Count n) | SameThrown : same_reply Thrown Thrown | SameDone : same_reply Done Done.

(** The specification keeps what the map was at every length of the log, newest first. *)
Abbreviation history := (list rows).
Section spec.
Context (info : TableInfo).
Definition allowed (o : AccessOptions) : bool :=
  negb (ao_check o) || match ti_authorizedAddress info with [] => true | l => bool_decide (ao_origin o ∈ l) end.
Definition fields_known (e : Entry) : bool := forallb (λ x, bool_decide (x.1 ∈ ti_fields info)) (fields_of e).
Definition set_row (e : Entry) : Entry → Entry := set_fields (filter (λ x, x.1 ≠ ID_FIELD ∧ x.1 ≠ ti_key info) (fields_of e)).
Definition now (h : history) : rows := default (λ _, []) (head h).
Definition spec_step (op : key_op) (h : history) : history * reply :=
  match op with
  | KSelect key => (h, Rows (now h key))
  | KUpdate key entry o =>
      if negb (allowed o) then (h, Count CODE_NO_AUTHORIZED) else if negb (fields_known entry) then (h, Thrown)
      else (set_rows key (set_row entry <$> now h key) (now h) :: h, Count (zlen (now h key)))
  | KInsert key entry o =>
      if negb (allowed o) then (h, Count CODE_NO_AUTHORIZED) else if negb (fields_known entry) then (h, Thrown)
      else (set_rows key (now h key ++ [setField (ti_key info) key entry]) (now h) :: h, Count 1)
  | KRemove key o =>
      if negb (allowed o) then (h, Count CODE_NO_AUTHORIZED) else (set_rows key [] (now h) :: h, Count (zlen (now h key)))
  | KBack sp => (drop (length h - 1 - sp) h, Done)
  end.
End spec.

(** ** The table with its log *)

Section table.
Context (version : Z) (db : string → list Entry).
Definition logged : Type := MemoryTable2 * list Change.
Definition back (sp : nat) (s : logged) : logged := (foldl (λ t ch, Table.rollback ch t) s.1 (reverse (drop sp s.2)), take sp s.2).
Definition table_step (op : key_op) (s : logged) : logged * reply :=
  let '(t, log) := s in
  match op with
  | KSelect key => let '(t', l) := selectNoLock version db key newCondition t in (t', log, Rows l.*2)
  | KUpdate key entry o =>
      match update version db key entry newCondition o t with Ok (t', chs, n) => (t', log ++ chs, Count n) | Throw _ => (s, Thrown) end
  | KInsert key entry o =>
      match insert key entry o t with Ok (t', chs, n) => (t', log ++ chs, Count n) | Throw _ => (s, Thrown) end
  | KRemove key o => let '(t', chs, n) := remove version db key newCondition o t in (t', log ++ chs, Count n)
  | KBack sp => (back sp s, Done)
  end.
Definition contents (t : MemoryTable2) : rows := λ key, select version db key newCondition t.
End table.

(** The replies to a sequence of operations. *)
Fixpoint replies {S} (step : key_op → S → S * reply) (ops : list key_op) (s : S) : list reply :=
  match ops with [] => [] | op :: ops => let '(s, r) := step op s in r :: replies step ops s end.
(** An entry to insert was made by [newEntry]. *)
Definition key_op_ok (op : key_op) : Prop :=
  match op with KInsert _ entry _ => en_id entry = 0 ∧ en_status entry = 0 ∧ en_deleted entry = false | _ => True end.

Section loops.
Context (version : Z) (recent : V2_5_0 <= version) (db : string → list Entry).
Abbreviation selection key t := (selectNoLock version db key newCondition t).2.

Lemma selection_eq key t :
  selection key t = select_stored version db key (EQ (ti_key (mt_info t)) key newCondition) t ++ select_new version key (EQ (ti_key (mt_info t)) key newCondition) t.
Proof. done. Qed.
Lemma find_address key l x : NoDup (place_address key <$> l) → x ∈ l → ∃ i, list_find (λ y, place_address key y = place_address key x) l = Some (i, x).
Proof.
  intros Hnd Hx. destruct (list_find _ l) as [[i y]|] eqn:E.
  - exists i. apply list_find_Some in E as (Hy & Ey & _). apply list_elem_of_lookup in Hx as [j Hj].
    assert (i = j) as ->; [|by simplify_eq]. eapply NoDup_lookup; [exact Hnd|by rewrite list_lookup_fmap, Hy|rewrite list_lookup_fmap, Hj; cbn; by rewrite Ey].
  - apply list_find_None in E. eapply Forall_forall in E; [|exact Hx]. done.
Qed.
(** Which stored rows a select by key finds. *)
Lemma selected_dirty key t e d :
  table_ok db t → e ∈ db key → mt_dirty t !! en_id e = Some d → live d = true → (InDirty, d) ∈ selection key t.
Proof using recent.
  intros Hok He Hd Hl. rewrite selection_eq. apply elem_of_app. left. unfold select_stored. apply elem_of_app. left. apply list_elem_of_join.
  eexists. split; [|apply list_elem_of_fmap; exists e; split; [reflexivity|by rewrite db_select_key by apply Hok]]. rewrite Hd.
  destruct (tk_dirty _ _ Hok _ _ Hd) as (_ & k & e0 & He0 & Hid & Hk). pose proof (dk_disjoint _ _ (tk_db _ _ Hok) _ _ _ _ He0 He Hid) as ->.
  rewrite process_key, Hl by done. rewrite andb_false_r. by apply list_elem_of_singleton.
Qed.
Lemma selected_db key t e : table_ok db t → e ∈ db key → mt_dirty t !! en_id e = None → (InDb, e) ∈ selection key t.
Proof.
  intros Hok He Hd. rewrite selection_eq. apply elem_of_app. left. unfold select_stored. apply elem_of_app. left. apply list_elem_of_join.
  eexists. split; [|apply list_elem_of_fmap; exists e; split; [reflexivity|by rewrite db_select_key by apply Hok]]. rewrite Hd. by apply list_elem_of_singleton.
Qed.
Lemma selected_new key t i e :
  table_ok db t → mt_newEntries t !! key ≫= (.!! i) = Some e → live e = true → (InNew i, setTempIndex i e) ∈ selection key t.
Proof.
  intros Hok He Hl. rewrite selection_eq. apply elem_of_app. right. unfold select_new. destruct (mt_newEntries t !! key) as [l|] eqn:E; [|done]. cbn in *.
  apply elem_of_mjoin_imap. exists i, e. split; [done|]. rewrite process_key, Hl; [by apply list_elem_of_singleton|]. eapply tk_new; [done..|]. by eapply list_elem_of_lookup_2.
Qed.
Lemma selected_live key t x : table_ok db t → x ∈ selection key t → live x.2 = true.
Proof using recent.
  intros Hok [Hx|Hx]%elem_of_app.
  - apply select_stored_process in Hx; [|done]. apply andb_true_iff in Hx as [Hx _]. exact Hx.
  - destruct (select_new_rows _ _ _ _ _ Hx) as (i & e & -> & _ & Hp). apply andb_true_iff in Hp as [Hp _]. exact Hp.
Qed.
Lemma selected_of_key key t x :
  table_ok db t → x ∈ selection key t → match x.1 with InNew _ => True | _ => ∃ e, e ∈ db key ∧ en_id e = en_id x.2 end.
Proof.
  intros Hok [[Hx|Hx]%elem_of_app|Hx]%elem_of_app.
  - apply list_elem_of_join in Hx as (l & Hx & (e & -> & [_ He]%list_elem_of_filter)%list_elem_of_fmap). destruct (mt_dirty t !! en_id e) as [d|] eqn:E.
    + case_match; [by apply not_elem_of_nil in Hx|]. apply list_elem_of_singleton in Hx as ->. exists e. split; [done|]. cbn. by rewrite (proj1 (tk_dirty _ _ Hok _ _ E)).
    + apply list_elem_of_singleton in Hx as ->. by exists e.
  - case_match; [|by apply not_elem_of_nil in Hx]. apply list_elem_of_join in Hx as (l & Hx & (id & -> & Hid)%list_elem_of_fmap).
    destruct (mt_dirty t !! id) as [d|] eqn:E; [|by apply not_elem_of_nil in Hx]. case_match; [|by apply not_elem_of_nil in Hx]. apply list_elem_of_singleton in Hx as ->.
    rewrite merge_sort_Permutation in Hid. apply elem_of_elements, elem_of_difference in Hid as [Hid _].
    destruct (mt_dirtyUpdated t !! key) as [ids|] eqn:Eu; [|by apply elem_of_empty in Hid]. destruct (tk_updated _ _ Hok _ _ _ Eu Hid) as [_ (e & He & Hide)].
    exists e. split; [done|]. cbn. by rewrite (proj1 (tk_dirty _ _ Hok _ _ E)).
  - by destruct (select_new_rows _ _ _ _ _ Hx) as (i & e & -> & _ & _).
Qed.

(** The rows of a key in the order of a select, without the indices. *)
Definition abs_rows (t : MemoryTable2) (key : string) : list Entry :=
  (db key ≫= stored_row t) ++ filter (λ e, live e = true) (default [] (mt_newEntries t !! key)).
Lemma contents_rows t key : table_ok db t → Forall2 same (abs_rows t key) (contents version db t key).
Proof using recent.
  intros Hok. unfold contents, select. rewrite selection_eq, fmap_app. apply Forall2_app; [|by eapply select_new_key].
  rewrite (select_stored_key version recent db key t Hok). apply Forall_Forall2_diag, Forall_forall. done.
Qed.
Lemma filter_live_same l l' : Forall2 same l l' → Forall2 same (filter (λ e, live e = true) l) (filter (λ e, live e = true) l').
Proof.
  induction 1 as [|e e' l l' He Hl IH]; [constructor|]. rewrite !filter_cons, (live_same _ _ He). case_decide; [|done]. by constructor.
Qed.

Lemma stored_row_eq t e o : row t (inl (en_id e)) = o → stored_row t e = match o with Some d => if live d then [d] else [] | None => [e] end.
Proof. by intros <-. Qed.

(** A loop over the rows of a key that changes each by [f]. *)
Section loop.
Context (key : string) (f : Entry → Entry) (note : place * Entry → MemoryTable2 → MemoryTable2) (t : MemoryTable2).
Context (Hok : table_ok db t) (Hnote : ∀ x t a, row (note x t) a = row t a) (Hid : ∀ e, en_id (f e) = en_id e).
Context (Hsame : ∀ e e', same e e' → same (f e) (f e')).
Let t1 := (selectNoLock version db key newCondition t).1.
Let t' := set_touched (foldl (λ t x, note x (put key (x.1, f x.2) t)) t1 (selection key t)).
Lemma loop_row a : row t' a = match list_find (λ x, place_address key x = a) (selection key t) with Some (_, x) => Some (f x.2) | None => row t1 a end.
Proof using Hid Hnote Hok recent.
  pose proof (selectNoLock_selected version recent db key newCondition t Hok) as Hs.
  exact (row_puts key f note _ t1 Hnote Hid (se_nodup _ _ _ _ Hs) (λ x, selected_present db key t1 _ x Hs) a).
Qed.
Lemma loop_found x : x ∈ selection key t → row t' (place_address key x) = Some (f x.2).
Proof using Hid Hnote Hok recent.
  intros Hx. rewrite loop_row. pose proof (selectNoLock_selected version recent db key newCondition t Hok) as Hs.
  destruct (find_address key _ x (se_nodup _ _ _ _ Hs) Hx) as [i ->]. done.
Qed.
Lemma loop_missed a : (∀ x, x ∈ selection key t → place_address key x ≠ a) → row t' a = row t1 a.
Proof using Hid Hnote Hok recent.
  intros Ha. rewrite loop_row. destruct (list_find _ _) as [[i x]|] eqn:E; [|done]. apply list_find_elem in E as [Hx Hax]. by destruct (Ha x Hx).
Qed.
Lemma loop_stored e : e ∈ db key → stored_row t' e = filter (λ e, live e = true) (f <$> stored_row t e).
Proof using Hid Hnote Hok recent.
  intros He. pose proof (selectNoLock_selected version recent db key newCondition t Hok) as Hs. destruct (mt_dirty t !! en_id e) as [d|] eqn:E.
  - pose proof (tk_dirty _ _ Hok _ _ E) as [Hd _]. rewrite (stored_row_eq t e (Some d) E). destruct (live d) eqn:El.
    + pose proof (loop_found _ (selected_dirty key t e d Hok He E El)) as Hr. change (place_address key (InDirty, d)) with (@inl Z (string * nat) (en_id d)) in Hr. rewrite Hd in Hr.
      rewrite (stored_row_eq t' e _ Hr). cbn [snd fmap list_fmap]. rewrite filter_cons. by destruct (live (f d)).
    + assert (Hr : row t' (inl (en_id e)) = Some d); [|by rewrite (stored_row_eq t' e _ Hr), El]. rewrite loop_missed; [exact E|].
      intros x Hx Ha. pose proof (se_rows _ _ _ _ Hs x Hx) as Hn. pose proof (selected_live key t x Hok Hx) as Hl. fold t1 in Hn. assert (E1 : row t1 (inl (en_id e)) = Some d) by exact E.
      destruct x as [[| |i] y]; [injection Ha as Ha; cbn [fst snd] in *; rewrite Ha in Hn; destruct Hn as [Hn _]; congruence..|done].
  - pose proof (loop_found _ (selected_db key t e Hok He E)) as Hr. change (place_address key (InDb, e)) with (@inl Z (string * nat) (en_id e)) in Hr.
    rewrite (stored_row_eq t' e _ Hr), (stored_row_eq t e None E). cbn [snd fmap list_fmap]. rewrite filter_cons. by destruct (live (f e)).
Qed.
Lemma loop_other_stored key' e : key' ≠ key → e ∈ db key' → stored_row t' e = stored_row t e.
Proof using Hid Hnote Hok recent.
  intros Hk He. assert (Hr : row t' (inl (en_id e)) = row t (inl (en_id e))); [|by rewrite (stored_row_eq t' e _ Hr)].
  rewrite loop_missed; [done|]. intros x Hx Ha. pose proof (selected_of_key key t x Hok Hx) as Hdb. destruct x as [[| |i] y]; [injection Ha as Ha..|done].
  1,2: destruct Hdb as (e0 & He0 & Hid0); cbn in *; apply Hk; eapply (dk_disjoint _ _ (tk_db _ _ Hok) _ _ e e0); [done|done|congruence].
Qed.
Lemma loop_new i : row t' (inr (key, i)) = (λ e, if live e then f (setTempIndex i e) else e) <$> row t (inr (key, i)).
Proof using Hid Hnote Hok recent.
  assert (Ht1 : row t1 (inr (key, i)) = (λ e, if live e then setTempIndex i e else e) <$> row t (inr (key, i))).
  { unfold t1. rewrite row_selectNoLock. destruct (row t (inr (key, i))) as [e|] eqn:E; [|done]. cbn [fmap option_fmap option_map]. rewrite decide_True by done.
    cbn in E. destruct (mt_newEntries t !! key) as [l|] eqn:El; [|done]. rewrite process_key; [done|]. eapply tk_new; [done..|]. by eapply list_elem_of_lookup_2. }
  destruct (row t (inr (key, i))) as [e|] eqn:E; cbn [fmap option_fmap option_map] in *.
  - destruct (live e) eqn:El; [exact (loop_found _ (selected_new key t i e Hok E El))|]. rewrite loop_missed; [done|]. intros x Hx Ha.
    pose proof (se_rows _ _ _ _ (selectNoLock_selected version recent db key newCondition t Hok) x Hx) as Hr. destruct x as [[| |j] y]; [done..|]. injection Ha as ->.
    destruct Hr as [Hr _]. fold t1 in Hr. rewrite Ht1 in Hr. injection Hr as Hy. pose proof (selected_live key t _ Hok Hx) as Hl. cbn in Hl, Hy. congruence.
  - rewrite loop_missed; [done|]. intros x Hx Ha. pose proof (se_rows _ _ _ _ (selectNoLock_selected version recent db key newCondition t Hok) x Hx) as Hr.
    destruct x as [[| |j] y]; [done..|]. injection Ha as ->. destruct Hr as [Hr _]. fold t1 in Hr. by rewrite Ht1 in Hr.
Qed.
Lemma loop_other_new key' i : key' ≠ key → row t' (inr (key', i)) = row t (inr (key', i)).
Proof using Hid Hnote Hok recent.
  intros Hk. rewrite loop_missed; [|intros [[| |j] y] _; [done..|intros [= <-]; done]]. unfold t1. rewrite row_selectNoLock.
  destruct (row t (inr (key', i))); [cbn [fmap option_fmap option_map]; by rewrite decide_False by done|done].
Qed.
Lemma default_lookup {A} (o : option (list A)) i : default [] o !! i = o ≫= (.!! i).
Proof. by destruct o. Qed.
Lemma new_filtered l l' :
  (∀ i, l' !! i = (λ e, if live e then f (setTempIndex i e) else e) <$> l !! i) →
  Forall2 same (filter (λ e, live e = true) (f <$> filter (λ e, live e = true) l)) (filter (λ e, live e = true) l').
Proof using Hsame.
  assert (G : ∀ l l' (n : nat), (∀ i, l' !! i = (λ e, if live e then f (setTempIndex (n + i) e) else e) <$> l !! i) →
    Forall2 same (filter (λ e, live e = true) (f <$> filter (λ e, live e = true) l)) (filter (λ e, live e = true) l')); [|by apply (G l l' 0%nat)].
  clear l l'. induction l as [|e l IH]; intros l' n Hl.
  - destruct l' as [|e' l']; [constructor|by specialize (Hl 0%nat)].
  - destruct l' as [|e' l']; [by specialize (Hl 0%nat)|]. pose proof (Hl 0%nat) as H0. injection H0 as ->. specialize (IH l' (S n)).
    rewrite !filter_cons. assert (Hs : same (f e) (f (setTempIndex (n + 0) e))) by apply Hsame, setTempIndex_same. destruct (live e) eqn:El.
    + rewrite decide_True by done. cbn [fmap list_fmap]. rewrite filter_cons, (live_same _ _ Hs). 
      case_decide; [constructor; [done|]|]; apply IH; intros i; specialize (Hl (S i)); by rewrite Nat.add_succ_r in Hl.
    + rewrite El, !decide_False by done. apply IH. intros i. specialize (Hl (S i)). by rewrite Nat.add_succ_r in Hl.
Qed.
Lemma stored_filtered l : (∀ e, e ∈ l → e ∈ db key) → l ≫= stored_row t' = filter (λ e, live e = true) (f <$> (l ≫= stored_row t)).
Proof using Hid Hnote Hok Hsame recent.
  induction l as [|e l IH]; intros Hl; [done|]. cbn [mbind list_bind]. rewrite fmap_app, filter_app, <- loop_stored by (apply Hl; set_solver). f_equal. apply IH. intros; apply Hl; set_solver.
Qed.
Lemma loop_contents :
  table_ok db t' → Forall2 same (filter (λ e, live e = true) (f <$> contents version db t key)) (contents version db t' key)
  ∧ ∀ key', key' ≠ key → Forall2 same (contents version db t key') (contents version db t' key').
Proof using Hid Hnote Hok Hsame recent.
  intros Hok'. split.
  - etrans; [|apply (contents_rows t' key Hok')]. etrans; [apply filter_live_same|].
    { apply Forall2_fmap_2. eapply (Forall2_impl same); [symmetry; apply (contents_rows t key Hok)|]. exact Hsame. }
    unfold abs_rows. rewrite fmap_app, filter_app, <- stored_filtered by done. apply Forall2_app; [apply Forall_Forall2_diag, Forall_forall; done|].
    apply new_filtered. intros i. rewrite !default_lookup. exact (loop_new i).
  - intros key' Hk. etrans; [symmetry; apply (contents_rows t key' Hok)|]. etrans; [|apply (contents_rows t' key' Hok')]. unfold abs_rows.
    assert (E1 : db key' ≫= stored_row t' = db key' ≫= stored_row t).
    { assert (G : ∀ l, (∀ e, e ∈ l → e ∈ db key') → l ≫= stored_row t' = l ≫= stored_row t); [|by apply G].
      induction l as [|e l IH]; intros Hl; [done|]. cbn [mbind list_bind]. rewrite (loop_other_stored key' e Hk) by (apply Hl; set_solver). f_equal. apply IH. intros; apply Hl; set_solver. }
    assert (E2 : default [] (mt_newEntries t' !! key') = default [] (mt_newEntries t !! key')).
    { apply list_eq. intros i. rewrite !default_lookup. exact (loop_other_new key' i Hk). }
    rewrite E1, E2. apply Forall_Forall2_diag, Forall_forall. done.
Qed.
End loop.

(** ** The operations *)

Lemma contents_live t key e : table_ok db t → e ∈ contents version db t key → live e = true.
Proof using recent. intros Hok (x & -> & Hx)%list_elem_of_fmap. by eapply selected_live. Qed.
Lemma filter_all (P : Entry → Prop) `{∀ e, Decision (P e)} (l : list Entry) : (∀ e, e ∈ l → P e) → filter P l = l.
Proof.
  induction l as [|e l IH]; intros Hl; [done|]. rewrite filter_cons, decide_True by (apply Hl; set_solver). f_equal. apply IH. intros; apply Hl; set_solver.
Qed.
Lemma filter_none (P : Entry → Prop) `{∀ e, Decision (P e)} (l : list Entry) : (∀ e, e ∈ l → ¬ P e) → filter P l = [].
Proof.
  induction l as [|e l IH]; intros Hl; [done|]. rewrite filter_cons, decide_False by (apply Hl; set_solver). apply IH. intros; apply Hl; set_solver.
Qed.
Lemma set_fields_same fs e e' : same e e' → same (set_fields fs e) (set_fields fs e').
Proof. revert e e'. induction fs as [|x fs IH]; intros e e' He; [done|]. cbn. by apply IH, setField_same. Qed.
Lemma set_fields_live fs e : live (set_fields fs e) = live e.
Proof. destruct (set_fields_kept fs e) as (_ & H1 & H2 & _). unfold live. by rewrite H1, H2. Qed.
(** The rows of every key but one stay, and those of that key become [l]. *)
Definition becomes (t : MemoryTable2) (key : string) (l : list Entry) (t' : MemoryTable2) : Prop :=
  ∀ k, Forall2 same (set_rows key l (contents version db t) k) (contents version db t' k).
Lemma becomes_intro t key l t' :
  Forall2 same l (contents version db t' key) → (∀ k, k ≠ key → Forall2 same (contents version db t k) (contents version db t' k)) → becomes t key l t'.
Proof. intros H1 H2 k. unfold set_rows. destruct (String.eqb_spec k key) as [->|Hk]; [done|by apply H2]. Qed.
Lemma update_becomes key entry o t t' chs n :
  table_ok db t → update version db key entry newCondition o t = Ok (t', chs, n) → ao_check o && negb (checkAuthority (ao_origin o) t) = false →
  negb (checkField entry t) = false →
  becomes t key (set_row (mt_info t) entry <$> contents version db t key) t' ∧ n = zlen (contents version db t key) ∧ length chs = 1%nat.
Proof using recent.
  intros Hok Hu Ha Hf. pose proof (run_update_ok version recent db key entry newCondition o t t' chs n Hok Hu) as (Hok' & _ & _). unfold update in Hu. rewrite Ha, Hf in Hu.
  pose proof (loop_contents key (set_fields (written t entry)) (note_updated key) t Hok (row_note_updated key) (λ e, proj1 (set_fields_kept _ e)) (set_fields_same _)) as Hc.
  unfold contents, select in *. destruct (selectNoLock version db key newCondition t) as [t1 l] eqn:E. cbn [fst snd] in *. assert (Hi : mt_info t1 = mt_info t) by (by injection E as <-).
  assert (Hw : written t1 entry = written t entry) by (unfold written; by rewrite Hi). rewrite Hw in Hu.
  destruct (update_loops key (written t entry) l t1 (written_nodup t entry)) as [L1 L2]. rewrite L1, L2 in Hu. injection Hu as <- <- <-.
  destruct (Hc Hok') as [H1 H2]. split; [|split; [unfold zlen; by rewrite length_fmap|done]]. apply becomes_intro; [|exact H2].
  rewrite filter_all in H1; [exact H1|]. intros e (e0 & -> & He0)%list_elem_of_fmap. rewrite set_fields_live.
  apply list_elem_of_fmap in He0 as (x & -> & Hx). apply (selected_live key t x Hok). by rewrite E.
Qed.
Lemma remove_becomes key o t t' chs n :
  table_ok db t → remove version db key newCondition o t = (t', chs, n) → ao_check o && negb (checkAuthority (ao_origin o) t) = false →
  becomes t key [] t' ∧ n = zlen (contents version db t key) ∧ length chs = 1%nat.
Proof using recent.
  intros Hok Hu Ha. pose proof (run_remove_ok version recent db key newCondition o t t' chs n Hok Hu) as (Hok' & _ & _). unfold remove in Hu. rewrite Ha in Hu.
  pose proof (loop_contents key (setStatus 1) (λ _ t, t) t Hok (λ _ _ _, eq_refl) (λ _, eq_refl) (setStatus_same 1)) as Hc.
  unfold contents, select in *. destruct (selectNoLock version db key newCondition t) as [t1 l] eqn:E. cbn [fst snd] in *. injection Hu as <- <- <-.
  destruct (Hc Hok') as [H1 H2]. split; [|split; [unfold zlen; by rewrite length_fmap|done]]. apply becomes_intro; [|exact H2].
  rewrite filter_none in H1; [exact H1|]. by intros e (e0 & -> & He0)%list_elem_of_fmap.
Qed.
Lemma insert_becomes key entry o t t' chs n :
  en_id entry = 0 → en_status entry = 0 → en_deleted entry = false → table_ok db t → insert key entry o t = Ok (t', chs, n) →
  ao_check o && negb (checkAuthority (ao_origin o) t) = false → negb (checkField entry t) = false →
  becomes t key (contents version db t key ++ [setField (ti_key (mt_info t)) key entry]) t' ∧ n = 1 ∧ length chs = 1%nat.
Proof using recent.
  intros Hid Hst Hdel Hok Hu Ha Hf. pose proof (run_insert_ok db key entry o t t' chs n Hid Hst Hok Hu) as (Hok' & _ & _). unfold insert in Hu. rewrite Ha, Hf in Hu.
  injection Hu as <- <- <-. split; [|done]. apply becomes_intro.
  - etrans; [|apply (contents_rows _ key Hok')]. etrans; [apply Forall2_app; [symmetry; apply (contents_rows t key Hok)|reflexivity]|]. unfold abs_rows.
    cbn [set_touched set_overlay mt_newEntries]. rewrite lookup_insert_eq, <- app_assoc. apply Forall2_app; [apply Forall_Forall2_diag, Forall_forall; done|].
    cbn [default from_option id]. rewrite filter_app, (filter_cons _ (setField _ _ _)), decide_True; [|unfold live; cbn; by rewrite Hst, Hdel].
    apply Forall_Forall2_diag, Forall_forall. done.
  - intros k Hk. etrans; [symmetry; apply (contents_rows t k Hok)|]. etrans; [|apply (contents_rows _ k Hok')]. unfold abs_rows.
    cbn [set_touched set_overlay mt_newEntries]. rewrite lookup_insert_ne by done. apply Forall_Forall2_diag, Forall_forall. done.
Qed.

(** ** Undoing a log *)

Definition undo_log (log : list Change) (t : MemoryTable2) : MemoryTable2 := foldl (λ t ch, Table.rollback ch t) t (reverse log).
Lemma undo_log_app l1 l2 t : undo_log (l1 ++ l2) t = undo_log l1 (undo_log l2 t).
Proof. unfold undo_log. by rewrite reverse_app, foldl_app. Qed.
Lemma undo_log_ok log t : table_ok db t → (∀ ch, ch ∈ log → change_ok t ch) → table_ok db (undo_log log t) ∧ keeps_rows t (undo_log log t).
Proof.
  clear recent. revert t. induction log as [|ch log IH] using rev_ind; intros t Hok Hl; [done|]. rewrite undo_log_app. cbn.
  assert (Hc : change_ok t ch) by (apply Hl; set_solver). pose proof (rollback_keeps_rows t ch Hc) as Hk.
  destruct (IH (Table.rollback ch t)) as [H1 H2]; [by apply rollback_ok|intros c Hin; eapply change_ok_mono; [exact Hk|apply Hl; set_solver]|]. split; [exact H1|by etrans].
Qed.
Lemma undo_log_extends log t t' : (∀ ch, ch ∈ log → change_ok t ch) → extends db t t' → extends db (undo_log log t) (undo_log log t').
Proof.
  clear recent. revert t t'. induction log as [|ch log IH] using rev_ind; intros t t' Hl He; [done|]. rewrite !undo_log_app. cbn.
  assert (Hc : change_ok t ch) by (apply Hl; set_solver). apply IH; [|by apply rollback_extends].
  intros c Hin. eapply change_ok_mono; [by apply rollback_keeps_rows|apply Hl; set_solver].
Qed.

(** ** The refinement *)

Record sim (info : TableInfo) (s : logged) (h : history) : Prop := {
  sm_ok : table_ok db s.1; sm_info : mt_info s.1 = info; sm_log : ∀ ch, ch ∈ s.2 → change_ok s.1 ch; sm_length : length h = S (length s.2);
  sm_rows : ∀ n, (n <= length s.2)%nat → ∃ r, h !! (length s.2 - n)%nat = Some r ∧ ∀ key, Forall2 same (r key) (contents version db (undo_log (drop n s.2) s.1) key) }.
Lemma sim_now info s h key : sim info s h → Forall2 same (now h key) (contents version db s.1 key).
Proof.
  intros Hs. destruct (sm_rows _ _ _ Hs (length s.2) ltac:(lia)) as (r & Hr & Hk). rewrite Nat.sub_diag in Hr. rewrite drop_ge in Hk by done.
  unfold now. destruct h; [done|]. injection Hr as ->. apply Hk.
Qed.
Lemma sim_extend info t log h t' chs h' :
  sim info (t, log) h → table_ok db t' → keeps_rows t t' → (∀ ch, ch ∈ chs → change_ok t' ch) → extends db t (undo_log chs t') →
  (chs = [] ∧ h' = h ∨ ∃ r, length chs = 1%nat ∧ h' = r :: h ∧ ∀ key, Forall2 same (r key) (contents version db t' key)) →
  sim info (t', log ++ chs) h'.
Proof using recent.
  intros Hs Hok' Hk Hch Hx Hcase. assert (Hlog : ∀ ch, ch ∈ log ++ chs → change_ok t' ch).
  { intros ch [Hc|Hc]%elem_of_app; [eapply change_ok_mono; [exact Hk|by apply (sm_log _ _ _ Hs)]|by apply Hch]. }
  assert (Hold : ∀ n key, (n <= length log)%nat → Forall2 same (contents version db (undo_log (drop n log) t) key) (contents version db (undo_log (drop n (log ++ chs)) t') key)).
  { intros n key Hn. rewrite drop_app_le, undo_log_app by done. assert (Hd : ∀ ch, ch ∈ drop n log → change_ok t ch).
    { intros ch Hc. apply (sm_log _ _ _ Hs). eapply elem_of_sublist; [exact Hc|apply sublist_drop]. }
    apply extends_select; [done|apply undo_log_ok; [apply (sm_ok _ _ _ Hs)|done]| |by apply undo_log_extends].
    rewrite <- undo_log_app. apply undo_log_ok; [done|]. intros ch Hc. apply Hlog. apply elem_of_app in Hc as [Hc|Hc]; [apply elem_of_app; left; eapply elem_of_sublist; [exact Hc|apply sublist_drop]|apply elem_of_app; by right]. }
  assert (Hprev : ∀ n, (n <= length log)%nat → ∃ r, h !! (length log - n)%nat = Some r ∧ ∀ key, Forall2 same (r key) (contents version db (undo_log (drop n (log ++ chs)) t') key)).
  { intros n Hn. destruct (sm_rows _ _ _ Hs n Hn) as (r & Hr & Hrk). exists r. split; [exact Hr|]. intros key. etrans; [apply Hrk|by apply Hold]. }
  pose proof (sm_length _ _ _ Hs) as Hlen. cbn in Hlen. destruct Hcase as [[-> ->]|(r & Hl1 & -> & Hr)]; cbn [fst snd] in *.
  - rewrite app_nil_r in *. split; [done|rewrite <- (sm_info _ _ _ Hs); apply Hk|done|done|exact Hprev].
  - split; cbn [fst snd]; [done|rewrite <- (sm_info _ _ _ Hs); apply Hk|done|cbn; rewrite length_app; lia|]. intros n Hn. rewrite length_app, Hl1 in *.
    destruct (decide (n <= length log)%nat) as [Hle|Hgt].
    + destruct (Hprev n Hle) as (r' & Hr' & Hrk). exists r'. replace (length log + 1 - n)%nat with (S (length log - n)) by lia. done.
    + exists r. replace (length log + 1 - n)%nat with 0%nat by lia. split; [done|]. rewrite drop_ge by (rewrite length_app; lia). exact Hr.
Qed.
Lemma sim_back info s h sp : sim info s h → sim info (back sp s) (drop (length h - 1 - sp) h).
Proof.
  clear recent. intros Hs. destruct s as [t log]. pose proof (sm_length _ _ _ Hs) as Hlen. cbn in Hlen. unfold back. cbn [fst snd]. fold (undo_log (drop sp log) t).
  assert (Hd : ∀ ch, ch ∈ drop sp log → change_ok t ch).
  { intros ch Hc. apply (sm_log _ _ _ Hs). eapply elem_of_sublist; [exact Hc|apply sublist_drop]. }
  destruct (undo_log_ok (drop sp log) t (sm_ok _ _ _ Hs) Hd) as [Hok Hk]. split; cbn [fst snd].
  - exact Hok.
  - rewrite <- (sm_info _ _ _ Hs). apply Hk.
  - intros ch Hc. eapply change_ok_mono; [exact Hk|]. apply (sm_log _ _ _ Hs). eapply elem_of_sublist; [exact Hc|apply sublist_take].
  - rewrite length_drop, length_take. lia.
  - intros n Hn. rewrite length_take in Hn. destruct (sm_rows _ _ _ Hs n ltac:(cbn; lia)) as (r & Hr & Hrk). cbn [fst snd] in *. exists r.
    rewrite lookup_drop, length_take. replace (length h - 1 - sp + (sp `min` length log - n))%nat with (length log - n)%nat by lia. split; [done|].
    intros key. rewrite <- undo_log_app. replace (drop n (take sp log) ++ drop sp log) with (drop n log); [apply Hrk|].
    rewrite <- (take_drop sp log) at 1. rewrite drop_app_le; [done|]. rewrite length_take. lia.
Qed.
Lemma zlen_same (l l' : list Entry) : Forall2 same l l' → zlen l = zlen l'.
Proof. intros Hl. unfold zlen. by rewrite (Forall2_length _ _ _ Hl). Qed.
Lemma fmap_set_row_same info entry l l' : Forall2 same l l' → Forall2 same (set_row info entry <$> l) (set_row info entry <$> l').
Proof. intros Hl. apply Forall2_fmap_2. eapply (Forall2_impl same); [exact Hl|]. intros e e'. apply set_fields_same. Qed.
(** What an operation makes of the rows of a key, in the specification and in the table. *)
Lemma becomes_sim info s h t' key l l' :
  sim info s h → Forall2 same l l' → becomes s.1 key l' t' → ∀ k, Forall2 same (set_rows key l (now h) k) (contents version db t' k).
Proof.
  intros Hs Hl Hb k. specialize (Hb k). unfold set_rows in *. destruct (String.eqb k key); etrans; [exact Hl|exact Hb|by apply (sim_now info s)|exact Hb].
Qed.
Lemma allowed_spec o t : ao_check o && negb (checkAuthority (ao_origin o) t) = negb (allowed (mt_info t) o).
Proof. unfold allowed, checkAuthority. by destruct (ao_check o). Qed.
Lemma step_refines info op s h :
  sim info s h → key_op_ok op →
  sim info (table_step version db op s).1 (spec_step info op h).1 ∧ same_reply (spec_step info op h).2 (table_step version db op s).2.
Proof using recent.
  intros Hs Hop. destruct s as [t log]. pose proof (sm_ok _ _ _ Hs) as Hok. pose proof (sm_info _ _ _ Hs) as Hi. cbn [fst snd] in *.
  pose proof (λ key, sim_now info (t, log) h key Hs) as Hnow. cbn [fst] in Hnow.
  destruct op as [key|key entry o|key entry o|key o|sp]; cbn [table_step spec_step].
  - pose proof (run_op_ok version recent db (OpSelect key newCondition) t I Hok) as (Hok' & Hk & _).
    pose proof (run_op_undo version recent db (OpSelect key newCondition) t Hok) as Hx. cbn [run_op fst snd] in *. specialize (Hnow key). unfold contents, select in Hnow.
    destruct (selectNoLock version db key newCondition t) as [t' l]. cbn [fst snd] in *. split; [|by constructor].
    rewrite <- (app_nil_r log). apply (sim_extend info t log h t' [] h Hs); [done|done|intros ch Hc; by apply not_elem_of_nil in Hc|exact Hx|by left].
  - destruct (update version db key entry newCondition o t) as [[[t' chs] n]|] eqn:Hu.
    + destruct (run_update_ok version recent db _ _ _ _ _ _ _ _ Hok Hu) as (Hok' & Hk & Hch). pose proof (update_undo version recent db _ _ _ _ _ _ _ _ Hok Hu) as Hx.
      rewrite <- Hi, <- allowed_spec. pose proof Hu as Hu'. unfold update in Hu'. destruct (ao_check o && _) eqn:Ea.
      { injection Hu' as <- <- <-. cbn [negb]. rewrite Hi. split; [rewrite app_nil_r; exact Hs|constructor]. }
      change (fields_known (mt_info t) entry) with (checkField entry t). destruct (negb (checkField entry t)) eqn:Ef; [done|].
      destruct (update_becomes key entry o t t' chs n Hok Hu Ea Ef) as (Hb & -> & Hl). cbn [fst snd]. split.
      * rewrite Hi. apply (sim_extend info t log h); [done|done|done|intros ch Hc; by apply Hch|exact Hx|]. right. eexists. split; [done|]. split; [done|].
        apply (becomes_sim info (t, log) h t' key _ _ Hs (fmap_set_row_same _ _ _ _ (Hnow key))). by rewrite <- Hi.
      * rewrite (zlen_same _ _ (Hnow key)). constructor.
    + rewrite <- Hi, <- allowed_spec. unfold update in Hu. destruct (ao_check o && _); [done|]. change (fields_known (mt_info t) entry) with (checkField entry t).
      destruct (negb (checkField entry t)); [rewrite Hi; split; [done|constructor]|]. by destruct (selectNoLock _ _ _ _ _).
  - destruct Hop as (Hid & Hst & Hdel). destruct (insert key entry o t) as [[[t' chs] n]|] eqn:Hu.
    + destruct (run_insert_ok db _ _ _ _ _ _ _ Hid Hst Hok Hu) as (Hok' & Hk & Hch). pose proof (insert_undo db _ _ _ _ _ _ _ Hu) as Hx.
      rewrite <- Hi, <- allowed_spec. pose proof Hu as Hu'. unfold insert in Hu'. destruct (ao_check o && _) eqn:Ea.
      { injection Hu' as <- <- <-. cbn [negb]. rewrite Hi. split; [rewrite app_nil_r; exact Hs|constructor]. }
      change (fields_known (mt_info t) entry) with (checkField entry t). destruct (negb (checkField entry t)) eqn:Ef; [done|].
      destruct (insert_becomes key entry o t t' chs n Hid Hst Hdel Hok Hu Ea Ef) as (Hb & -> & Hl). cbn [fst snd]. split; [|constructor].
      rewrite Hi. apply (sim_extend info t log h); [done|done|done|intros ch Hc; by apply Hch|exact Hx|]. right. eexists. split; [done|]. split; [done|].
      eapply (becomes_sim info (t, log) h t' key); [exact Hs| |rewrite <- Hi; exact Hb]. rewrite Hi. apply Forall2_app; [apply Hnow|reflexivity].
    + rewrite <- Hi, <- allowed_spec. unfold insert in Hu. destruct (ao_check o && _); [done|]. change (fields_known (mt_info t) entry) with (checkField entry t).
      destruct (negb (checkField entry t)); [rewrite Hi; split; [done|constructor]|done].
  - destruct (remove version db key newCondition o t) as [[t' chs] n] eqn:Hu.
    destruct (run_remove_ok version recent db _ _ _ _ _ _ _ Hok Hu) as (Hok' & Hk & Hch). pose proof (remove_undo version recent db _ _ _ _ _ _ _ Hok Hu) as Hx.
    rewrite <- Hi, <- allowed_spec. pose proof Hu as Hu'. unfold remove in Hu'. destruct (ao_check o && _) eqn:Ea.
    { injection Hu' as <- <- <-. cbn [negb]. rewrite Hi. split; [rewrite app_nil_r; exact Hs|constructor]. }
    destruct (remove_becomes key o t t' chs n Hok Hu Ea) as (Hb & -> & Hl). cbn [fst snd]. split; [|rewrite (zlen_same _ _ (Hnow key)); constructor].
    rewrite Hi. apply (sim_extend info t log h); [done|done|done|intros ch Hc; by apply Hch|exact Hx|]. right. eexists. split; [done|]. split; [done|].
    apply (becomes_sim info (t, log) h t' key [] []); [exact Hs|constructor|exact Hb].
  - split; [by apply sim_back|constructor].
Qed.
End loops.
Lemma bind_singleton {A} (l : list A) : (l ≫= λ x, [x]) = l.
Proof. induction l as [|x l IH]; [done|]. cbn. by f_equal. Qed.
Lemma sim_new version db info : V2_5_0 <= version → db_ok db (ti_key info) → sim version db info (newTable info, []) [db].
Proof.
  intros Hv Hdb. pose proof (newTable_ok info db Hdb) as Hok. split; cbn [fst snd]; [done|done|intros ch Hc; by apply not_elem_of_nil in Hc|done|].
  intros n Hn. exists db. cbn in Hn. replace n with 0%nat by lia. split; [done|]. intros key. cbn. etrans; [|apply (contents_rows version Hv db (newTable info) key Hok)].
  unfold abs_rows. assert (E : db key ≫= stored_row (newTable info) = db key).
  { etrans; [|apply bind_singleton]. apply list_bind_ext; [|done]. intros e. unfold stored_row. cbn. by rewrite lookup_empty. }
  rewrite E. cbn. rewrite lookup_empty. cbn. rewrite app_nil_r. apply Forall_Forall2_diag, Forall_forall. done.
Qed.
(** C17. A table is a map from keys to lists of rows, with savepoints.  Take a table just
    opened on rows that the storage holds, and any sequence of selects, updates, inserts
    and removes by key and of rollbacks.  Each reply, the rows of a select with their order
    and all their fields, the count of an update or remove, the refusal for want of
    authority, the exception for an unknown field, is the one of a map that begins as the
    stored rows, in which an insert appends, an update sets fields, a remove empties the
    key, and a rollback brings back what the map was when the log had that length. *)
Theorem table_refines_map version db info ops :
  V2_5_0 <= version → db_ok db (ti_key info) → Forall key_op_ok ops →
  Forall2 same_reply (replies (spec_step info) ops [db]) (replies (table_step version db) ops (newTable info, [])).
Proof.
  intros Hv Hdb Hops. assert (G : ∀ h s, sim version db info s h → Forall2 same_reply (replies (spec_step info) ops h) (replies (table_step version db) ops s));
    [|by apply G, sim_new]. induction Hops as [|op ops Hop Hops IH]; intros h s Hs; [constructor|].
  destruct (step_refines version Hv db info op s h Hs Hop) as [Hs' Hr]. cbn [replies].
  destruct (spec_step info op h) as [h' r], (table_step version db op s) as [s' r']. constructor; [exact Hr|by apply IH].
Qed.
Definition sample_ops : list key_op :=
  [KSelect "alice"; KUpdate "alice" (setField "balance" "9" newEntry) sample_options; KInsert "alice" (setField "balance" "1" newEntry) sample_options;
   KSelect "alice"; KRemove "alice" sample_options; KSelect "alice"; KBack 1; KSelect "alice"; KBack 0; KSelect "alice"].
Definition balances (r : reply) : option (list string) := match r with Rows l => Some (getField "balance" <$> l) | _ => None end.
Lemma table_refines_map_witness :
  Forall2 same_reply (replies (spec_step (mt_info sample_table)) sample_ops [sample_db "t_asset"])
    (replies (table_step V2_5_0 (sample_db "t_asset")) sample_ops (newTable (mt_info sample_table), []))
  ∧ balances <$> replies (table_step V2_5_0 (sample_db "t_asset")) sample_ops (newTable (mt_info sample_table), [])
    = [Some ["5"]; None; None; Some ["9"; "1"]; None; Some []; None; Some ["9"]; None; Some ["5"]].
Proof.
  split; [|vm_compute; reflexivity]. apply (table_refines_map V2_5_0 (sample_db "t_asset") (mt_info sample_table) sample_ops); [done|by apply sample_db_ok|by repeat constructor].
Defined.
