(* ===== verification/StorageState.v ===== *)
(** * Accounts (libstoragestate/StorageState)

    An account is a table with a row for each of its attributes and one for each location
    of its storage.  The operations are those of the class on the factory of the tables;
    converting 256-bit numbers to text and back is done by a library and is a parameter. *)
From stdpp Require Import sorting.
From Stdlib Require Import Ascii.
From Stdlib Require String.
From Stdlib Require DecimalString DecimalN.
From S2P Require Import Prelude CommonData Crypto ABI Table TableProps TableFactory TableSpec.
Local Open Scope Z_scope.

Definition STORAGE_KEY : string := "key".
Definition STORAGE_VALUE : string := "value".
Definition ACCOUNT_BALANCE : string := "balance".
Definition ACCOUNT_CODE_HASH : string := "codeHash".
Definition ACCOUNT_CODE : string := "code".
Definition ACCOUNT_NONCE : string := "nonce".
Definition ACCOUNT_ALIVE : string := "alive".
Definition ACCOUNT_FROZEN : string := "frozen".
Definition account_keys : list string := [ACCOUNT_BALANCE; ACCOUNT_CODE_HASH; ACCOUNT_CODE; ACCOUNT_NONCE; ACCOUNT_ALIVE; ACCOUNT_FROZEN].

(** [u256::str()] and [u256(std::string)]; [None] is an exception. *)
Class U256Text := { u256_str : Z → string; u256_of : string → option Z }.
(** A number is read back as it was written, and is not the name of an attribute. *)
Class U256TextLaws `{U256Text} : Prop := {
  u256_read_back : ∀ z, 0 <= z < 2 ^ 256 → u256_of (u256_str z) = Some z;
  u256_no_name : ∀ z, 0 <= z < 2 ^ 256 → u256_str z ∉ account_keys }.

Inductive state_exn := NotEnoughCash | InvalidAccountStartNonceInState | BadNumber | FieldInvalid | TableThrew (e : factory_exn).
(** What an operation does to the factory, and its result. *)
Definition state (A : Type) : Type := MemoryTableFactory2 → MemoryTableFactory2 * result state_exn A.
#[export] Instance state_ret : MRet state := λ A x f, (f, Ok x).
#[export] Instance state_bind : MBind state :=
  λ A B k m f, match m f with (f', Ok x) => k x f' | (f', Throw e) => (f', Throw e) end.
Definition fails {A} (e : state_exn) : state A := λ f, (f, Throw e).
Definition ask {A} (q : MemoryTableFactory2 → A) : state A := λ f, (f, Ok (q f)).
Definition lift {A} (m : factory A) : state A := λ f, match m f with (f', Ok x) => (f', Ok x) | (f', Throw e) => (f', Throw (TableThrew e)) end.

Section state.
Context `{Crypto} `{U256Text} (version : Z) (db : string → string → list Entry) (accountStartNonce : Z).
Definition Invalid256 : Z := 2 ^ 256 - 1.
Definition EmptyHash : Z := Hash [].
Definition tableName (a : Z) : string :=
  if V2_2_0 <=? version then String.append "c_" (toHex (hashBytes 20 a)) else String.append "_contract_data_" (String.append (toHex (hashBytes 20 a)) "_").

(** [getTable]; [false] is the null pointer. *)
Definition getTable (a : Z) : state bool := lift (openTable version db (tableName a) true).
(** The first row that [select(key, newCondition())] returns. *)
Definition first_row (a : Z) (key : string) : state (option Entry) := l ← lift (select_in version db (tableName a) key newCondition); mret (head l).
Definition parse (s : string) : state Z := match u256_of s with Some z => mret z | None => fails BadNumber end.
Definition value_entry (v : string) : Entry := setField STORAGE_VALUE v newEntry.
Definition row_entry (key v : string) : Entry := setField STORAGE_VALUE v (setField STORAGE_KEY key newEntry).
(** [update(key, entry, newCondition(), option)], without a check of the authority. *)
Definition update_op (name key : string) (entry : Entry) (t : MemoryTable2) : MemoryTable2 * list Change * option Z :=
  match Table.update version (db name) key entry newCondition (mkOptions 0 false) t with Ok (t, chs, n) => (t, chs, Some n) | Throw _ => (t, [], None) end.
Definition done_or_throw (r : option Z) : state unit := match r with Some _ => mret tt | None => fails FieldInvalid end.
Definition update_row (a : Z) (key : string) (entry : Entry) : state unit :=
  r ← lift (run_table (tableName a) (update_op (tableName a) key entry) None); done_or_throw r.
Definition insert_row (a : Z) (key : string) (entry : Entry) (o : AccessOptions) : state unit :=
  r ← lift (run_table (tableName a) (insert_entry key entry o) None); done_or_throw r.

Definition bytes_string (b : bytes) : string := String.string_of_list_byte b.
(** [h256(bytes)]: zero unless there are 32 bytes. *)
Definition h256_of (b : bytes) : Z := if zlen b =? 32 then be_val b else 0.
Definition lenient_hex (s : string) : bytes := match fromHex s false with Ok b => b | Throw _ => [] end.

Definition requireAccountStartNonce : state Z := if accountStartNonce =? Invalid256 then fails InvalidAccountStartNonceInState else mret accountStartNonce.
Definition createAccount (a nonce amount : Z) : state unit :=
  created ← lift (createTable version db (tableName a) STORAGE_KEY STORAGE_VALUE false 0);
  if negb (created : bool) then mret tt
  else
    let o := mkOptions 0 true in
    _ ← insert_row a ACCOUNT_BALANCE (row_entry ACCOUNT_BALANCE (u256_str amount)) o;
    _ ← insert_row a ACCOUNT_CODE_HASH
          (row_entry ACCOUNT_CODE_HASH (if V2_5_0 <=? version then bytes_string (hashBytes 32 EmptyHash) else toHex (hashBytes 32 EmptyHash))) o;
    _ ← insert_row a ACCOUNT_CODE (row_entry ACCOUNT_CODE EmptyString) o;
    _ ← insert_row a ACCOUNT_NONCE (row_entry ACCOUNT_NONCE (u256_str nonce)) o;
    insert_row a ACCOUNT_ALIVE (row_entry ACCOUNT_ALIVE "true") o.

Definition addressInUse (a : Z) : state bool := getTable a.
(** A number kept in a row, or a default. *)
Definition read_number (a : Z) (key : string) (absent : Z) : state Z :=
  open ← getTable a;
  if (open : bool) then
    e ← first_row a key;
    match (e : option Entry) with Some e => parse (getField STORAGE_VALUE e) | None => mret absent end
  else mret absent.
Definition balance (a : Z) : state Z := read_number a ACCOUNT_BALANCE 0.
Definition getNonce (a : Z) : state Z := read_number a ACCOUNT_NONCE accountStartNonce.
Definition storage (a key : Z) : state Z := read_number a (u256_str key) 0.
Definition addBalance (a amount : Z) : state unit :=
  if amount =? 0 then mret tt
  else
    open ← getTable a;
    if (open : bool) then
      e ← first_row a ACCOUNT_BALANCE;
      match (e : option Entry) with
      | Some e => b ← parse (getField STORAGE_VALUE e); update_row a ACCOUNT_BALANCE (value_entry (u256_str (wrapU 256 (b + amount))))
      | None => mret tt
      end
    else n ← requireAccountStartNonce; createAccount a n amount.
Definition subBalance (a amount : Z) : state unit :=
  open ← getTable a;
  if (open : bool) then
    e ← first_row a ACCOUNT_BALANCE;
    match (e : option Entry) with
    | Some e =>
        b ← parse (getField STORAGE_VALUE e);
        if b <? amount then fails NotEnoughCash else update_row a ACCOUNT_BALANCE (value_entry (u256_str (wrapU 256 (b - amount))))
    | None => mret tt
    end
  else fails NotEnoughCash.
Definition setBalance (a amount : Z) : state unit :=
  open ← getTable a;
  if (open : bool) then
    e ← first_row a ACCOUNT_BALANCE;
    match (e : option Entry) with
    | Some e => _ ← parse (getField STORAGE_VALUE e); update_row a ACCOUNT_BALANCE (value_entry (u256_str amount))
    | None => mret tt
    end
  else n ← requireAccountStartNonce; createAccount a n amount.
Definition transferBalance (sender receiver value : Z) : state unit := _ ← subBalance sender value; addBalance receiver value.
Definition setStorage (a location value : Z) : state unit :=
  open ← getTable a;
  if negb (open : bool) then mret tt
  else
    let key := u256_str location in
    let entry := setForce true (row_entry key (u256_str value)) in
    e ← first_row a key;
    match (e : option Entry) with
    | None => insert_row a key entry (mkOptions 0 false)
    | Some _ => update_row a key entry
    end.
Definition setCode (a : Z) (code : bytes) : state unit :=
  open ← getTable a;
  if negb (open : bool) then mret tt
  else
    _ ← update_row a ACCOUNT_CODE (value_entry (if V2_5_0 <=? version then bytes_string code else toHex code));
    update_row a ACCOUNT_CODE_HASH
      (value_entry (if V2_5_0 <=? version then bytes_string (hashBytes 32 (Hash code)) else toHex (hashBytes 32 (Hash code)))).
Definition kill (a : Z) : state unit :=
  open ← getTable a;
  if negb (open : bool) then mret tt
  else
    _ ← update_row a ACCOUNT_NONCE (value_entry (u256_str accountStartNonce));
    _ ← update_row a ACCOUNT_BALANCE (value_entry (u256_str 0));
    _ ← update_row a ACCOUNT_CODE (value_entry EmptyString);
    _ ← update_row a ACCOUNT_CODE_HASH (value_entry (if V2_5_0 <=? version then bytes_string (hashBytes 32 EmptyHash) else toHex (hashBytes 32 EmptyHash)));
    update_row a ACCOUNT_ALIVE (value_entry "false").
(** [codeHash] reads hexadecimal whatever the version; [addressHasCode] does not. *)
Definition codeHash (a : Z) : state Z :=
  open ← getTable a;
  if (open : bool) then
    e ← first_row a ACCOUNT_CODE_HASH;
    mret (match (e : option Entry) with Some e => h256_of (lenient_hex (getField STORAGE_VALUE e)) | None => EmptyHash end)
  else mret EmptyHash.
Definition addressHasCode (a : Z) : state bool :=
  open ← getTable a;
  if (open : bool) then
    e ← first_row a ACCOUNT_CODE_HASH;
    mret (match (e : option Entry) with
          | Some e => negb ((if V2_5_0 <=? version then h256_of (stringBytes (getField STORAGE_VALUE e)) else h256_of (lenient_hex (getField STORAGE_VALUE e))) =? EmptyHash)
          | None => false
          end)
  else mret false.
Definition accountNonemptyAndExisting (a : Z) : state bool :=
  open ← getTable a;
  if (open : bool) then
    b ← balance a;
    if 0 <? b then mret true
    else h ← codeHash a;
         if negb (h =? EmptyHash) then mret true else n ← getNonce a; mret (negb (n =? accountStartNonce))
  else mret false.
Definition code (a : Z) : state bytes :=
  h ← codeHash a;
  if h =? EmptyHash then mret []
  else
    open ← getTable a;
    if (open : bool) then
      e ← first_row a ACCOUNT_CODE;
      mret (match (e : option Entry) with
            | Some e => if V2_5_0 <=? version then stringBytes (getField STORAGE_VALUE e) else lenient_hex (getField STORAGE_VALUE e)
            | None => []
            end)
    else mret [].
Definition codeSize (a : Z) : state Z := c ← code a; mret (zlen c).
Definition frozen (a : Z) : state bool :=
  open ← getTable a;
  if (open : bool) then
    e ← first_row a ACCOUNT_FROZEN;
    mret (match (e : option Entry) with Some e => String.eqb (getField STORAGE_VALUE e) "true" | None => false end)
  else mret false.
Definition createContract (a : Z) : state unit := n ← requireAccountStartNonce; createAccount a n 0.
Definition incNonce (a : Z) : state unit :=
  open ← getTable a;
  if (open : bool) then
    e ← first_row a ACCOUNT_NONCE;
    match (e : option Entry) with
    | Some e => n ← parse (getField STORAGE_VALUE e); update_row a ACCOUNT_NONCE (value_entry (u256_str (wrapU 256 (n + 1))))
    | None => mret tt
    end
  else n ← requireAccountStartNonce; createAccount a (wrapU 256 (n + 1)) 0.
Definition setNonce (a nonce : Z) : state unit :=
  open ← getTable a;
  if (open : bool) then update_row a ACCOUNT_NONCE (value_entry (u256_str nonce)) else createAccount a nonce 0.
(** [checkAuthority(origin, contract)]. *)
Definition contractAuthority (origin contract : Z) : state bool :=
  open ← getTable contract;
  if (open : bool) then ask (λ f, match mf_tables f !! tableName contract with Some t => Table.checkAuthority origin t | None => true end) else mret true.

(** What a transaction does with accounts; an exception ends the operation. *)
Inductive state_op :=
| SAddBalance (a amount : Z) | SSubBalance (a amount : Z) | SSetBalance (a amount : Z) | STransfer (sender receiver amount : Z)
| SSetStorage (a location v : Z) | SSetCode (a : Z) (c : bytes) | SKill (a : Z) | SCreateContract (a : Z) | SIncNonce (a : Z) | SSetNonce (a nonce : Z)
| SRead (a location : Z) | SCode (a : Z) | SExists (a : Z) | SBack (sp : nat).
Definition run_state_op (f : MemoryTableFactory2) (op : state_op) : MemoryTableFactory2 :=
  match op with
  | SAddBalance a x => (addBalance a x f).1 | SSubBalance a x => (subBalance a x f).1 | SSetBalance a x => (setBalance a x f).1
  | STransfer a b x => (transferBalance a b x f).1 | SSetStorage a l v => (setStorage a l v f).1 | SSetCode a c => (setCode a c f).1 | SKill a => (kill a f).1
  | SCreateContract a => (createContract a f).1 | SIncNonce a => (incNonce a f).1 | SSetNonce a n => (setNonce a n f).1
  | SRead a l => (storage a l f).1 | SCode a => (code a f).1 | SExists a => (accountNonemptyAndExisting a f).1 | SBack sp => rollback sp f
  end.

(** ** What the tables hold *)

(** The value of the first row of a key in an open table. *)
Definition values (f : MemoryTableFactory2) (name key : string) : option string :=
  t ← mf_tables f !! name; e ← head (contents version (db name) t key); Some (getField STORAGE_VALUE e).
(** The tables of accounts have the fields that accounts need. *)
Record state_ok (f : MemoryTableFactory2) : Prop := {
  so_factory : factory_ok db f;
  so_info : ∀ a t, mf_tables f !! tableName a = Some t → ti_key (mt_info t) = STORAGE_KEY ∧ STORAGE_KEY ∈ ti_fields (mt_info t) ∧ STORAGE_VALUE ∈ ti_fields (mt_info t) }.
Definition opened (f : MemoryTableFactory2) (a : Z) : Prop := is_Some (mf_tables f !! tableName a).
(** The factory after an operation: well formed, the same tables open, with values [V]. *)
Record holds (f : MemoryTableFactory2) (V : string → string → option string) (f' : MemoryTableFactory2) : Prop := {
  ho_ok : state_ok f'; ho_open : ∀ a, opened f a → opened f' a; ho_values : ∀ name key, values f' name key = V name key }.
Definition write (name key : string) (v : option string) (V : string → string → option string) : string → string → option string :=
  λ n k, if String.eqb n name && String.eqb k key then v else V n k.

Context (recent : V2_5_0 <= version).
Lemma head_same l l' : Forall2 same l l' → getField STORAGE_VALUE <$> head l' = getField STORAGE_VALUE <$> head l.
Proof. intros [|e e' ? ? He _]; [done|]. cbn. f_equal. apply (sm_field _ _ He). Qed.
Lemma values_open f name t key : mf_tables f !! name = Some t → values f name key = getField STORAGE_VALUE <$> head (contents version (db name) t key).
Proof. intros Ht. unfold values. rewrite Ht. cbn. by destruct (head _). Qed.
Lemma state_ok_does f f' : state_ok f → does db f f' → keys_ok db f' → (∀ name t', mf_tables f' !! name = Some t' → mf_tables f !! name ≠ None) → state_ok f'.
Proof.
  intros [H1 H2] [Hk (chs & _ & Hd)] Hkeys Hnew. destruct (Hd Hkeys H1) as [Hf _]. split; [done|]. intros a t' Ht'. destruct (mf_tables f !! tableName a) as [t|] eqn:E; [|by destruct (Hnew _ _ Ht')].
  destruct (Hk _ _ E) as (t0 & Ht0 & Hi). simplify_eq. rewrite Hi. by eapply H2.
Qed.
(** One operation on an open table. *)
Lemma run_table_spec {A} (op : MemoryTable2 → MemoryTable2 * list Change * A) top absent name f t :
  state_ok f → mf_tables f !! name = Some t → op_ok top → (∀ t, (op t).1 = run_op version (db name) top t) →
  let f' := (run_table name op absent f).1 in
  (run_table name op absent f).2 = Ok (op t).2 ∧ state_ok f' ∧ (∀ a, opened f a → opened f' a)
  ∧ ∀ n k, values f' n k = if String.eqb n name then getField STORAGE_VALUE <$> head (contents version (db name) (op t).1.1 k) else values f n k.
Proof using recent.
  intros Hok Ht Hop Heq f'. pose proof (does_run_table version db recent name op top absent f Hop Heq) as Hdoes. fold f' in Hdoes.
  assert (Hf' : mf_tables f' = <[name := (op t).1.1]> (mf_tables f)) by (unfold f', run_table; rewrite Ht; by destruct (op t) as [[]]).
  assert (Hi : mt_info (op t).1.1 = mt_info t) by (rewrite Heq; apply run_op_info). split; [|split; [|split]].
  - unfold run_table. rewrite Ht. by destruct (op t) as [[]].
  - apply (state_ok_does f f' Hok Hdoes).
    + intros n t'. rewrite Hf'. intros [[<- <-]|[_ Hn]]%lookup_insert_Some; [rewrite Hi|]; by eapply tk_db, (fo_table _ _ (so_factory _ Hok)).
    + intros n t'. rewrite Hf'. intros [[<- _]|[_ Hn]]%lookup_insert_Some; [by rewrite Ht|by rewrite Hn].
  - intros a [ta Ha]. unfold opened. rewrite Hf'. destruct (decide (name = tableName a)) as [->|Hn]; [by rewrite lookup_insert_eq|by rewrite lookup_insert_ne, Ha].
  - intros n k. destruct (String.eqb_spec n name) as [->|Hn].
    + apply values_open. rewrite Hf'. apply lookup_insert_eq.
    + unfold values. by rewrite Hf', lookup_insert_ne by done.
Qed.
Lemma getTable_opened f a : opened f a → getTable a f = (f, Ok true).
Proof. intros Ho. unfold getTable, lift, openTable, openTableWithoutLock, openBody, mbind, factory_bind, is_open. rewrite bool_decide_true by done. done. Qed.
Lemma contents_select name t key k : table_ok (db name) t → Forall2 same (contents version (db name) t k) (contents version (db name) (selectNoLock version (db name) key newCondition t).1 k).
Proof using recent.
  intros Hok. apply extends_select; [done|done|by apply select_ok|]. split; [done|]. intros a. apply indexed_reads, selectNoLock_indexed.
Qed.
Lemma first_row_spec f a key :
  state_ok f → opened f a → ∃ f' e, first_row a key f = (f', Ok e) ∧ getField STORAGE_VALUE <$> e = values f (tableName a) key ∧ holds f (values f) f'.
Proof using recent.
  intros Hok [t Ht]. destruct (run_table_spec (λ t, (run_op version (db (tableName a)) (OpSelect key newCondition) t, tt)) (OpSelect key newCondition) tt _ f t Hok Ht I (λ _, eq_refl)) as (_ & H1 & H2 & H3).
  unfold first_row, lift, select_in, mbind, state_bind, run_table in *. rewrite Ht in *. cbn [run_op] in *.
  destruct (selectNoLock version (db (tableName a)) key newCondition t) as [t' l] eqn:E. cbn [fst snd] in *. rewrite app_nil_r in *.
  eexists _, _. split; [done|]. split.
  - rewrite (values_open f _ t key Ht). unfold contents, select. by rewrite E.
  - split; [exact H1|exact H2|]. intros n k. rewrite H3. destruct (String.eqb_spec n (tableName a)) as [->|]; [|done]. rewrite (values_open f _ t k Ht).
    apply head_same. pose proof (contents_select (tableName a) t key k) as Hc. rewrite E in Hc. apply Hc. by apply (fo_table _ _ (so_factory _ Hok)).
Qed.

(** An entry that accounts write: a value, and no other field but the key. *)
Record entry_for (v : string) (e : Entry) : Prop := {
  ef_value : en_fields e !! STORAGE_VALUE = Some v; ef_fields : ∀ k w, en_fields e !! k = Some w → k = STORAGE_KEY ∨ k = STORAGE_VALUE;
  ef_fresh : en_id e = 0 ∧ en_status e = 0 ∧ en_deleted e = false }.
Lemma value_entry_for v : entry_for v (value_entry v).
Proof. split; [done| |done]. intros k w. cbn. intros [[<- _]|[_ Hk]]%lookup_insert_Some; [by right|]. by rewrite lookup_empty in Hk. Qed.
Lemma row_entry_for key v : entry_for v (setForce true (row_entry key v)).
Proof.
  split; [done| |done]. intros k w. cbn. intros [[<- _]|[_ [[<- _]|[_ Hk]]%lookup_insert_Some]]%lookup_insert_Some; [by right|by left|]. by rewrite lookup_empty in Hk.
Qed.
Lemma fields_of_elem e x : x ∈ fields_of e ↔ en_fields e !! x.1 = Some x.2.
Proof. unfold fields_of. rewrite merge_sort_Permutation. destruct x. apply elem_of_map_to_list. Qed.
Lemma entry_for_checked v e t : entry_for v e → STORAGE_KEY ∈ ti_fields (mt_info t) → STORAGE_VALUE ∈ ti_fields (mt_info t) → checkField e t = true.
Proof.
  intros [_ Hf _] H1 H2. unfold checkField. apply forallb_forall. intros x Hx%list_elem_of_In%fields_of_elem. apply bool_decide_eq_true. by destruct (Hf _ _ Hx) as [-> | ->].
Qed.
Lemma set_fields_value fs e k v : NoDup fs.*1 → (k, v) ∈ fs → getField k (set_fields fs e) = v.
Proof.
  revert e. induction fs as [|[k' v'] fs IH]; intros e Hnd Hin; [by apply not_elem_of_nil in Hin|]. cbn in Hnd. apply NoDup_cons in Hnd as [Hk Hnd].
  change (set_fields ((k', v') :: fs) e) with (set_fields fs (setField k' v' e)). apply elem_of_cons in Hin as [[= <- <-]|Hin]; [|by apply IH].
  destruct (set_fields_kept fs (setField k v e)) as (_ & _ & _ & _ & Hkeep). unfold getField. rewrite (Hkeep k Hk). cbn. by rewrite lookup_insert_eq.
Qed.
Lemma set_row_value v e e0 t : entry_for v e → ti_key (mt_info t) = STORAGE_KEY → getField STORAGE_VALUE (set_row (mt_info t) e e0) = v.
Proof.
  intros [Hv _ _] Hk. apply set_fields_value; [apply (written_nodup t e)|]. apply list_elem_of_filter. rewrite Hk. split; [done|]. by apply fields_of_elem.
Qed.
Lemma update_row_spec f a key v entry :
  state_ok f → opened f a → entry_for v entry →
  ∃ f', update_row a key entry f = (f', Ok tt) ∧ holds f (write (tableName a) key ((λ _, v) <$> values f (tableName a) key) (values f)) f'.
Proof using recent.
  intros Hok [t Ht] He. destruct (so_info _ Hok a t Ht) as (Hk & Hf1 & Hf2). set (n := tableName a) in *.
  destruct (run_table_spec (update_op n key entry) (OpUpdate key entry newCondition (mkOptions 0 false)) None n f t Hok Ht I) as (H1 & H2 & H3 & H4).
  { intros t0. unfold update_op. cbn [run_op]. by destruct (Table.update _ _ _ _ _ _ _) as [[[]]|]. }
  unfold update_row, lift, mbind, state_bind. fold n. destruct (run_table n (update_op n key entry) None f) as [f' r]. cbn [fst snd] in *. rewrite H1.
  destruct (fo_table _ _ (so_factory _ Hok) n t Ht) as [Hto _]. pose proof (entry_for_checked v entry t He Hf1 Hf2) as Hc. unfold update_op in *.
  destruct (Table.update version (db n) key entry newCondition (mkOptions 0 false) t) as [[[t' chs] c]|] eqn:E.
  2:{ exfalso. unfold Table.update in E. cbn in E. by rewrite Hc in E. }
  destruct (update_becomes version recent (db n) key entry (mkOptions 0 false) t t' chs c Hto E eq_refl) as (Hb & _ & _); [by rewrite Hc|]. cbn [fst snd done_or_throw] in *.
  eexists. split; [done|]. split; [exact H2|exact H3|]. intros n' k. rewrite H4. unfold write. destruct (String.eqb_spec n' n) as [->|]; cbn [andb]; [|done].
  specialize (Hb k). apply head_same in Hb. rewrite Hb. unfold set_rows. destruct (String.eqb k key) eqn:Ek; [|by rewrite (values_open f n t k Ht)].
  rewrite (values_open f n t key Ht). destruct (contents version (db n) t key) as [|e0 l]; [done|]. cbn. by rewrite (set_row_value v entry e0 t He Hk).
Qed.
Lemma insert_row_spec f a key v entry :
  state_ok f → opened f a → entry_for v entry → values f (tableName a) key = None →
  ∃ f', insert_row a key entry (mkOptions 0 false) f = (f', Ok tt) ∧ holds f (write (tableName a) key (Some v) (values f)) f'.
Proof using recent.
  intros Hok [t Ht] He Hnone. destruct (so_info _ Hok a t Ht) as (Hk & Hf1 & Hf2). set (n := tableName a) in *. destruct (ef_fresh _ _ He) as (Hid & Hst & Hdel).
  destruct (run_table_spec (insert_entry key entry (mkOptions 0 false)) (OpInsert key entry (mkOptions 0 false)) None n f t Hok Ht (conj Hid Hst)) as (H1 & H2 & H3 & H4).
  { intros t0. unfold insert_entry. cbn [run_op]. by destruct (Table.insert _ _ _ _) as [[[]]|]. }
  unfold insert_row, lift, mbind, state_bind. fold n. destruct (run_table n (insert_entry key entry (mkOptions 0 false)) None f) as [f' r]. cbn [fst snd] in *. rewrite H1.
  destruct (fo_table _ _ (so_factory _ Hok) n t Ht) as [Hto _]. pose proof (entry_for_checked v entry t He Hf1 Hf2) as Hc. unfold insert_entry in *.
  destruct (Table.insert key entry (mkOptions 0 false) t) as [[[t' chs] c]|] eqn:E; [|exfalso; unfold Table.insert in E; cbn in E; by rewrite Hc in E].
  destruct (insert_becomes version recent (db n) key entry (mkOptions 0 false) t t' chs c Hid Hst Hdel Hto E eq_refl) as (Hb & _ & _); [by rewrite Hc|]. cbn [fst snd done_or_throw] in *.
  eexists. split; [done|]. split; [exact H2|exact H3|]. intros n' k. rewrite H4. unfold write. destruct (String.eqb_spec n' n) as [->|]; cbn [andb]; [|done].
  specialize (Hb k). apply head_same in Hb. rewrite Hb. unfold set_rows. destruct (String.eqb k key) eqn:Ek; [|by rewrite (values_open f n t k Ht)].
  rewrite (values_open f n t key Ht) in Hnone. destruct (contents version (db n) t key) as [|e0 l]; [|done]. cbn. unfold getField. cbn. rewrite Hk, lookup_insert_ne by done.
  by rewrite (ef_value _ _ He).
Qed.

(** ** The operations on open accounts *)

Definition number (o : option string) (absent : Z) : result state_exn Z :=
  match o with Some s => match u256_of s with Some z => Ok z | None => Throw BadNumber end | None => Ok absent end.
Lemma bind_ok {A B} (m : state A) (k : A → state B) f f' x : m f = (f', Ok x) → (m ≫= k) f = k x f'.
Proof. intros E. unfold mbind, state_bind. by rewrite E. Qed.
Lemma bind_throw {A B} (m : state A) (k : A → state B) f f' e : m f = (f', Throw e) → (m ≫= k) f = (f', Throw e).
Proof. intros E. unfold mbind, state_bind. by rewrite E. Qed.
Lemma holds_trans f V f1 V' f2 : holds f V f1 → holds f1 V' f2 → holds f V' f2.
Proof. intros [H1 H2 H3] [H4 H5 H6]. split; [done|auto|done]. Qed.
Lemma holds_refl f : state_ok f → holds f (values f) f.
Proof. by intros Hok. Qed.
(** What is written over values that are only known pointwise. *)
Lemma holds_write f f1 f2 name key v : holds f (values f) f1 → holds f1 (write name key v (values f1)) f2 → holds f (write name key v (values f)) f2.
Proof.
  intros H1 H2. eapply holds_trans; [exact H1|]. destruct H2 as [A B D]. split; [done|done|]. intros n k. rewrite D. unfold write. destruct (_ && _); [done|]. apply (ho_values _ _ _ H1).
Qed.
Lemma parse_spec s f : parse s f = (f, number (Some s) 0).
Proof. unfold parse, number. by destruct (u256_of s). Qed.
Lemma read_number_spec f a key absent :
  state_ok f → opened f a → ∃ f', read_number a key absent f = (f', number (values f (tableName a) key) absent) ∧ holds f (values f) f'.
Proof using recent.
  intros Hok Ho. unfold read_number. rewrite (bind_ok _ _ _ _ _ (getTable_opened f a Ho)). destruct (first_row_spec f a key Hok Ho) as (f1 & e & E & Hv & Hh).
  rewrite (bind_ok _ _ _ _ _ E), <- Hv. exists f1. split; [|done]. destruct e as [e|]; [|done]. cbn [fmap option_fmap option_map]. apply parse_spec.
Qed.
Lemma setStorage_spec f a location v :
  state_ok f → opened f a →
  ∃ f', setStorage a location v f = (f', Ok tt) ∧ holds f (write (tableName a) (u256_str location) (Some (u256_str v)) (values f)) f'.
Proof using recent.
  intros Hok Ho. unfold setStorage. rewrite (bind_ok _ _ _ _ _ (getTable_opened f a Ho)). cbn [negb]. destruct (first_row_spec f a (u256_str location) Hok Ho) as (f1 & e & E & Hv & Hh).
  rewrite (bind_ok _ _ _ _ _ E). pose proof (row_entry_for (u256_str location) (u256_str v)) as Hentry. pose proof (ho_open _ _ _ Hh a Ho) as Ho1. destruct e as [e|].
  - destruct (update_row_spec f1 a (u256_str location) _ _ (ho_ok _ _ _ Hh) Ho1 Hentry) as (f2 & E2 & Hh2). exists f2. split; [exact E2|].
    rewrite (ho_values _ _ _ Hh), <- Hv in Hh2. exact (holds_write f f1 f2 _ _ _ Hh Hh2).
  - destruct (insert_row_spec f1 a (u256_str location) _ _ (ho_ok _ _ _ Hh) Ho1 Hentry) as (f2 & E2 & Hh2); [by rewrite (ho_values _ _ _ Hh), <- Hv|].
    exists f2. split; [exact E2|]. exact (holds_write f f1 f2 _ _ _ Hh Hh2).
Qed.
(** Writing a value into the row of an attribute. *)
Lemma write_value f a key v :
  state_ok f → opened f a →
  ∃ f', update_row a key (value_entry v) f = (f', Ok tt) ∧ holds f (write (tableName a) key ((λ _, v) <$> values f (tableName a) key) (values f)) f'.
Proof using recent. intros Hok Ho. by apply update_row_spec, value_entry_for. Qed.
(** Reading a number and writing another in its place. *)
Lemma modify_number f a key (k : Z → state unit) s :
  state_ok f → opened f a → values f (tableName a) key = Some s →
  ∃ f1, holds f (values f) f1 ∧
    (open ← getTable a; if (open : bool) then e ← first_row a key; match (e : option Entry) with Some e => b ← parse (getField STORAGE_VALUE e); k b | None => mret tt end else fails NotEnoughCash) f
    = match u256_of s with Some b => k b f1 | None => (f1, Throw BadNumber) end.
Proof using recent.
  intros Hok Ho Hs. rewrite (bind_ok _ _ _ _ _ (getTable_opened f a Ho)). destruct (first_row_spec f a key Hok Ho) as (f1 & e & E & Hv & Hh).
  rewrite (bind_ok _ _ _ _ _ E). rewrite Hs in Hv. destruct e as [e|]; [|done]. injection Hv as Hv. exists f1. split; [done|].
  unfold parse. rewrite Hv. destruct (u256_of s); [exact eq_refl|exact eq_refl].
Qed.
Lemma subBalance_spec f a amount s b :
  state_ok f → opened f a → values f (tableName a) ACCOUNT_BALANCE = Some s → u256_of s = Some b →
  ∃ f', subBalance a amount f = (f', if b <? amount then Throw NotEnoughCash else Ok tt)
    ∧ holds f (if b <? amount then values f else write (tableName a) ACCOUNT_BALANCE (Some (u256_str (wrapU 256 (b - amount)))) (values f)) f'.
Proof using recent.
  intros Hok Ho Hs Hb. unfold subBalance. destruct (modify_number f a ACCOUNT_BALANCE
    (λ b, if b <? amount then fails NotEnoughCash else update_row a ACCOUNT_BALANCE (value_entry (u256_str (wrapU 256 (b - amount))))) s Hok Ho Hs) as (f1 & Hh & ->).
  rewrite Hb. destruct (b <? amount); [exists f1; split; [done|exact Hh]|].
  destruct (write_value f1 a ACCOUNT_BALANCE (u256_str (wrapU 256 (b - amount))) (ho_ok _ _ _ Hh) (ho_open _ _ _ Hh a Ho)) as (f2 & E2 & Hh2).
  exists f2. split; [exact E2|]. rewrite (ho_values _ _ _ Hh), Hs in Hh2. exact (holds_write f f1 f2 _ _ _ Hh Hh2).
Qed.
Lemma addBalance_spec f a amount s b :
  state_ok f → opened f a → values f (tableName a) ACCOUNT_BALANCE = Some s → u256_of s = Some b → amount ≠ 0 →
  ∃ f', addBalance a amount f = (f', Ok tt) ∧ holds f (write (tableName a) ACCOUNT_BALANCE (Some (u256_str (wrapU 256 (b + amount)))) (values f)) f'.
Proof using recent.
  intros Hok Ho Hs Hb Hnz. unfold addBalance. rewrite (proj2 (Z.eqb_neq _ _) Hnz). rewrite (bind_ok _ _ _ _ _ (getTable_opened f a Ho)).
  destruct (first_row_spec f a ACCOUNT_BALANCE Hok Ho) as (f1 & e & E & Hv & Hh). rewrite (bind_ok _ _ _ _ _ E). rewrite Hs in Hv. destruct e as [e|]; [|done]. injection Hv as Hv.
  rewrite (bind_ok _ _ f1 f1 b) by (rewrite parse_spec, Hv; unfold number; by rewrite Hb).
  destruct (write_value f1 a ACCOUNT_BALANCE (u256_str (wrapU 256 (b + amount))) (ho_ok _ _ _ Hh) (ho_open _ _ _ Hh a Ho)) as (f2 & E2 & Hh2).
  exists f2. split; [exact E2|]. rewrite (ho_values _ _ _ Hh), Hs in Hh2. exact (holds_write f f1 f2 _ _ _ Hh Hh2).
Qed.

(** The code, from the rows of its hash and of itself. *)
Definition code_of (h c : option string) : bytes :=
  if (match h with Some s => h256_of (lenient_hex s) | None => EmptyHash end) =? EmptyHash then [] else match c with Some s => stringBytes s | None => [] end.
Lemma setCode_spec f a c s1 s2 :
  state_ok f → opened f a → values f (tableName a) ACCOUNT_CODE = Some s1 → values f (tableName a) ACCOUNT_CODE_HASH = Some s2 →
  ∃ f', setCode a c f = (f', Ok tt)
    ∧ holds f (write (tableName a) ACCOUNT_CODE_HASH (Some (bytes_string (hashBytes 32 (Hash c)))) (write (tableName a) ACCOUNT_CODE (Some (bytes_string c)) (values f))) f'.
Proof using recent.
  intros Hok Ho H1 H2. unfold setCode. rewrite (bind_ok _ _ _ _ _ (getTable_opened f a Ho)), (proj2 (Z.leb_le _ _) recent). cbn [negb].
  destruct (write_value f a ACCOUNT_CODE (bytes_string c) Hok Ho) as (f1 & E1 & Hh1). rewrite (bind_ok _ _ _ _ _ E1). rewrite H1 in Hh1. pose proof (ho_open _ _ _ Hh1 a Ho) as Ho1.
  destruct (write_value f1 a ACCOUNT_CODE_HASH (bytes_string (hashBytes 32 (Hash c))) (ho_ok _ _ _ Hh1) Ho1) as (f2 & E2 & Hh2). exists f2. split; [exact E2|].
  eapply holds_trans; [exact Hh1|]. destruct Hh2 as [A B D]. split; [done|done|]. intros n k. rewrite D. unfold write at 1 2. destruct (_ && _) eqn:En; [|apply (ho_values _ _ _ Hh1)].
  rewrite (ho_values _ _ _ Hh1). unfold write. rewrite String.eqb_refl. cbn. by rewrite H2.
Qed.

Lemma toHex_inj x y : toHex x = toHex y → x = y.
Proof. intros E%(f_equal (λ s, fromHex s false)). rewrite !fromHex_toHex_Ok in E. by injection E. Qed.
(** Different accounts have different tables. *)
Lemma tableName_inj a b : 0 <= a < 2 ^ 160 → 0 <= b < 2 ^ 160 → tableName a = tableName b → a = b.
Proof using recent.
  intros Ha Hb. unfold tableName. assert (Hv : (V2_2_0 <=? version) = true) by (apply Z.leb_le; unfold V2_2_0, V2_5_0 in *; lia). rewrite Hv.
  assert (Hc : ∀ x y, String.append "c_" x = String.append "c_" y → x = y) by (intros x y Hxy; cbn in Hxy; by injection Hxy). intros E%Hc.
  apply toHex_inj, (f_equal be_val) in E. unfold hashBytes in E. rewrite !be_val_toBigEndian in E. by rewrite !Z.mod_small in E by (cbn; lia).
Qed.
Lemma tableName_eqb a b : 0 <= a < 2 ^ 160 → 0 <= b < 2 ^ 160 → String.eqb (tableName b) (tableName a) = (a =? b).
Proof using recent.
  intros Ha Hb. destruct (String.eqb_spec (tableName b) (tableName a)) as [E|E]; destruct (Z.eqb_spec a b) as [->|Hn]; try done. destruct Hn. symmetry. by apply tableName_inj.
Qed.
Lemma u256_str_eqb `{!U256TextLaws} l l' : 0 <= l < 2 ^ 256 → 0 <= l' < 2 ^ 256 → String.eqb (u256_str l') (u256_str l) = (l =? l').
Proof.
  intros Hl Hl'. destruct (String.eqb_spec (u256_str l') (u256_str l)) as [E|E]; destruct (Z.eqb_spec l l') as [->|Hn]; try done. destruct Hn.
  apply (f_equal u256_of) in E. rewrite !u256_read_back in E by done. by injection E.
Qed.
Lemma u256_str_key `{!U256TextLaws} l k : 0 <= l < 2 ^ 256 → k ∈ account_keys → String.eqb k (u256_str l) = false.
Proof. intros Hl Hk. apply String.eqb_neq. intros ->. by apply (u256_no_name l Hl). Qed.

(** What a reader of an open account sees, from the values. *)
Lemma first_row_table f a key t :
  mf_tables f !! tableName a = Some t →
  ∃ f' e, first_row a key f = (f', Ok e) ∧ getField STORAGE_VALUE <$> e = values f (tableName a) key
    ∧ mf_tables f' !! tableName a = Some (selectNoLock version (db (tableName a)) key newCondition t).1.
Proof.
  intros Ht. unfold first_row, lift, select_in, mbind, state_bind, run_table. rewrite Ht. rewrite (values_open f _ t key Ht). unfold contents, select.
  destruct (selectNoLock version (db (tableName a)) key newCondition t) as [t' l]. eexists _, _. split; [done|]. split; [done|]. apply lookup_insert_eq.
Qed.
Lemma read_number_table f a key absent : opened f a → (read_number a key absent f).2 = number (values f (tableName a) key) absent.
Proof.
  intros Ho. unfold read_number. rewrite (bind_ok _ _ _ _ _ (getTable_opened f a Ho)). destruct Ho as [t Ht]. destruct (first_row_table f a key t Ht) as (f1 & e & E & Hv & _).
  rewrite (bind_ok _ _ _ _ _ E), <- Hv. destruct e as [e|]; [|done]. cbn [fmap option_fmap option_map]. by rewrite parse_spec.
Qed.
Lemma codeHash_table f a t :
  mf_tables f !! tableName a = Some t →
  ∃ f', codeHash a f = (f', Ok (match values f (tableName a) ACCOUNT_CODE_HASH with Some s => h256_of (lenient_hex s) | None => EmptyHash end))
    ∧ mf_tables f' !! tableName a = Some (selectNoLock version (db (tableName a)) ACCOUNT_CODE_HASH newCondition t).1.
Proof.
  intros Ht. unfold codeHash. rewrite (bind_ok _ _ _ _ _ (getTable_opened f a (mk_is_Some _ _ Ht))). destruct (first_row_table f a ACCOUNT_CODE_HASH t Ht) as (f1 & e & E & Hv & Ht1).
  rewrite (bind_ok _ _ _ _ _ E), <- Hv. exists f1. split; [by destruct e|done].
Qed.
Lemma code_table f a t :
  mf_tables f !! tableName a = Some t → table_ok (db (tableName a)) t →
  (code a f).2 = Ok (code_of (values f (tableName a) ACCOUNT_CODE_HASH) (values f (tableName a) ACCOUNT_CODE)).
Proof using recent.
  intros Ht Hto. unfold code, code_of. destruct (codeHash_table f a t Ht) as (f1 & E1 & Ht1). rewrite (bind_ok _ _ _ _ _ E1). destruct (_ =? EmptyHash); [done|].
  rewrite (bind_ok _ _ _ _ _ (getTable_opened f1 a (mk_is_Some _ _ Ht1))). destruct (first_row_table f1 a ACCOUNT_CODE _ Ht1) as (f2 & e & E2 & Hv & _).
  rewrite (bind_ok _ _ _ _ _ E2), (proj2 (Z.leb_le _ _) recent). rewrite (values_open _ _ _ _ Ht1), (head_same _ _ (contents_select _ t _ ACCOUNT_CODE Hto)), <- (values_open _ _ _ _ Ht) in Hv.
  rewrite <- Hv. by destruct e.
Qed.
Lemma reads_spec f b l :
  factory_ok db f → opened f b →
  (storage b l f).2 = number (values f (tableName b) (u256_str l)) 0 ∧ (balance b f).2 = number (values f (tableName b) ACCOUNT_BALANCE) 0
  ∧ (getNonce b f).2 = number (values f (tableName b) ACCOUNT_NONCE) accountStartNonce
  ∧ (code b f).2 = Ok (code_of (values f (tableName b) ACCOUNT_CODE_HASH) (values f (tableName b) ACCOUNT_CODE)).
Proof using recent.
  unfold storage, balance, getNonce. intros Hok Ho. rewrite !(read_number_table f b _ _ Ho). destruct Ho as [t Ht]. rewrite (code_table f b t Ht); [done|]. by apply (fo_table _ _ Hok).
Qed.
Lemma number_written `{!U256TextLaws} z absent : 0 <= z < 2 ^ 256 → number (Some (u256_str z)) absent = Ok z.
Proof. intros Hz. unfold number. by rewrite u256_read_back. Qed.

(** C24. What is written to the storage of a contract is read back, and nothing else is
    touched.  For open accounts [a] and [b], after [setStorage] of a location of [a] the
    same location of [a] reads the new value, and every other location, balance, nonce and
    code of any open account reads as before, errors included. *)
Theorem storage_read_back `{!U256TextLaws} f a b l l' v :
  state_ok f → opened f a → opened f b → 0 <= a < 2 ^ 160 → 0 <= b < 2 ^ 160 → 0 <= l < 2 ^ 256 → 0 <= l' < 2 ^ 256 → 0 <= v < 2 ^ 256 →
  let f' := (setStorage a l v f).1 in
  (setStorage a l v f).2 = Ok tt ∧ (storage b l' f').2 = (if (a =? b) && (l =? l') then Ok v else (storage b l' f).2)
  ∧ (balance b f').2 = (balance b f).2 ∧ (getNonce b f').2 = (getNonce b f).2 ∧ (code b f').2 = (code b f).2.
Proof using recent.
  intros Hok Ha Hb Ra Rb Rl Rl' Rv f'. destruct (setStorage_spec f a l v Hok Ha) as (f1 & E & Hh). unfold f'. rewrite E. cbn [fst snd]. split; [done|].
  destruct (reads_spec f1 b l' (so_factory _ (ho_ok _ _ _ Hh)) (ho_open _ _ _ Hh b Hb)) as (S1 & B1 & N1 & C1). destruct (reads_spec f b l' (so_factory _ Hok) Hb) as (S0 & B0 & N0 & C0).
  assert (Hkey : ∀ k, bool_decide (k ∈ account_keys) = true → values f1 (tableName b) k = values f (tableName b) k).
  { intros k Hk%bool_decide_eq_true. rewrite (ho_values _ _ _ Hh). unfold write. by rewrite (u256_str_key l k Rl Hk), andb_false_r. }
  rewrite S1, B1, N1, C1, S0, B0, N0, C0, (Hkey ACCOUNT_BALANCE), (Hkey ACCOUNT_NONCE), (Hkey ACCOUNT_CODE_HASH), (Hkey ACCOUNT_CODE) by done. split; [|done].
  rewrite (ho_values _ _ _ Hh). unfold write. rewrite (tableName_eqb a b Ra Rb), (u256_str_eqb l l' Rl Rl'). destruct (_ && _); [by apply number_written|done].
Qed.
(** C23. A transfer moves money and makes none.  Between different open accounts whose
    balances are numbers, a transfer of more than the sender has throws [NotEnoughCash] and
    changes no balance; otherwise the sender's balance falls and the receiver's grows by
    the amount, modulo 2^256, and all other balances stay. *)
Theorem transfer_moves_money `{!U256TextLaws} f a b c v x y sx sy :
  state_ok f → opened f a → opened f b → opened f c → a ≠ b → 0 <= a < 2 ^ 160 → 0 <= b < 2 ^ 160 → 0 <= c < 2 ^ 160 → 0 <= v < 2 ^ 256 →
  values f (tableName a) ACCOUNT_BALANCE = Some sx → u256_of sx = Some x → 0 <= x < 2 ^ 256 →
  values f (tableName b) ACCOUNT_BALANCE = Some sy → u256_of sy = Some y → 0 <= y < 2 ^ 256 →
  let f' := (transferBalance a b v f).1 in
  if x <? v then (transferBalance a b v f).2 = Throw NotEnoughCash ∧ (balance c f').2 = (balance c f).2
  else (transferBalance a b v f).2 = Ok tt
       ∧ (balance c f').2 = (if c =? a then Ok (x - v) else if c =? b then Ok (wrapU 256 (y + v)) else (balance c f).2).
Proof using recent.
  intros Hok Ha Hb Hc Hab Ra Rb Rc Rv Hsx Hx Rx Hsy Hy Ry f'. destruct (subBalance_spec f a v sx x Hok Ha Hsx Hx) as (f1 & E1 & Hh1).
  destruct (reads_spec f c 0 (so_factory _ Hok) Hc) as (_ & B0 & _). unfold f', transferBalance. destruct (x <? v) eqn:Ev.
  { rewrite (bind_throw _ _ _ _ _ E1). cbn [fst snd]. split; [done|]. destruct (reads_spec f1 c 0 (so_factory _ (ho_ok _ _ _ Hh1)) (ho_open _ _ _ Hh1 c Hc)) as (_ & B1 & _).
    by rewrite B1, B0, (ho_values _ _ _ Hh1). }
  apply Z.ltb_ge in Ev. rewrite (bind_ok _ _ _ _ _ E1). rewrite (wrapU_id 256 (x - v)) in Hh1 by lia.
  assert (Hy1 : values f1 (tableName b) ACCOUNT_BALANCE = Some sy).
  { rewrite (ho_values _ _ _ Hh1). unfold write. rewrite (tableName_eqb a b Ra Rb), (proj2 (Z.eqb_neq _ _) Hab). exact Hsy. }
  assert (Hfinal : ∃ f2, addBalance b v f1 = (f2, Ok tt) ∧ holds f1 (write (tableName b) ACCOUNT_BALANCE (if v =? 0 then Some sy else Some (u256_str (wrapU 256 (y + v)))) (values f1)) f2).
  { destruct (Z.eqb_spec v 0) as [->|Hv].
    - exists f1. split; [done|]. split; [apply Hh1|done|]. intros n k. unfold write. destruct (String.eqb_spec n (tableName b)) as [->|]; [|done].
      destruct (String.eqb_spec k ACCOUNT_BALANCE) as [->|]; [|done]. exact Hy1.
    - exact (addBalance_spec f1 b v sy y (ho_ok _ _ _ Hh1) (ho_open _ _ _ Hh1 b Hb) Hy1 Hy Hv). }
  destruct Hfinal as (f2 & E2 & Hh2). rewrite E2. cbn [fst snd]. split; [done|].
  destruct (reads_spec f2 c 0 (so_factory _ (ho_ok _ _ _ Hh2)) (ho_open _ _ _ Hh2 c (ho_open _ _ _ Hh1 c Hc))) as (_ & B2 & _). rewrite B2, B0, (ho_values _ _ _ Hh2). unfold write at 1.
  rewrite (tableName_eqb b c Rb Rc), String.eqb_refl, andb_true_r, (Z.eqb_sym c b). destruct (Z.eqb_spec b c) as [<-|Hbc].
  - rewrite (Z.eqb_sym b a), (proj2 (Z.eqb_neq _ _) Hab). destruct (Z.eqb_spec v 0) as [->|]; [|apply number_written, wrapU_range; lia].
    rewrite Z.add_0_r, wrapU_id by done. unfold number. by rewrite Hy.
  - rewrite (ho_values _ _ _ Hh1). unfold write. rewrite (tableName_eqb a c Ra Rc), String.eqb_refl, andb_true_r, (Z.eqb_sym c a). destruct (Z.eqb_spec a c) as [<-|]; [apply number_written; lia|done].
Qed.

(** ** Reading code back *)

Lemma fromHex_pairs_length ret s b : fromHex_pairs (Ok []) ret s = Ok b → (length b <= length ret + length s / 2)%nat.
Proof.
  revert ret. induction s as [s IH] using (induction_ltof1 _ (@length ascii)). unfold ltof in IH. intros ret E. destruct s as [|h [|l s]]; [by injection E as <-; cbn; lia..|].
  cbn [fromHex_pairs] in E. destruct (_ && _); [|injection E as <-; cbn; lia]. apply IH in E; [|cbn; lia]. rewrite length_app in E. cbn [length] in *.
  change (S (S (length s))) with (2 + length s)%nat. pose proof (Nat.div_add_l 1 2 (length s) ltac:(done)). cbn in *. lia.
Qed.
(** Raw bytes read as digits are too few for a hash. *)
Lemma lenient_hex_short s : zlen (String.list_ascii_of_string s) = 32 → h256_of (lenient_hex s) = 0.
Proof.
  intros Hlen. unfold h256_of. destruct (Z.eqb_spec (zlen (lenient_hex s)) 32) as [E|]; [exfalso|done]. unfold lenient_hex, fromHex in E. rewrite Hlen in E. cbn [Z.odd] in E.
  assert (Hb : (length (if has_0x (String.list_ascii_of_string s) then drop 2 (String.list_ascii_of_string s) else String.list_ascii_of_string s) <= 32)%nat).
  { clear E. unfold zlen in Hlen. destruct (has_0x _); [rewrite length_drop|]; lia. }
  destruct (fromHex_pairs _ _ _) as [b|] eqn:Eb; [|done]. apply fromHex_pairs_length in Eb. unfold zlen in E. cbn [length] in Eb.
  pose proof (Nat.Div0.div_le_mono _ _ 2 Hb) as Hd. change (32 / 2)%nat with 16%nat in Hd. lia.
Qed.
Lemma h256_of_hashBytes h : 0 <= h < 2 ^ 256 → h256_of (hashBytes 32 h) = h.
Proof. intros Hh. unfold h256_of, hashBytes. rewrite zlen_toBigEndian. change (Z.of_nat 32 =? 32) with true. cbn match. by rewrite be_val_toBigEndian, Z.mod_small. Qed.
Lemma stringBytes_string b : stringBytes (bytes_string b) = b.
Proof. apply String.list_byte_of_string_of_list_byte. Qed.
Lemma length_bytes_string b : zlen (String.list_ascii_of_string (bytes_string b)) = zlen b.
Proof. unfold bytes_string, String.string_of_list_byte. rewrite String.list_ascii_of_string_of_list_ascii. unfold zlen. by rewrite length_map. Qed.
(** The code of a contract is read back as it was set, and its hash is not.  After
    [setCode] of an open account with its rows, [code] answers the new code and
    [addressHasCode] whether its hash is that of no code; but [codeHash] answers zero
    whatever the code, because the hash is now kept as bytes and still read as digits, so
    that the account counts as nonempty even with no code, no balance and no nonce. *)
Theorem code_read_back f a c s1 s2 :
  state_ok f → opened f a → values f (tableName a) ACCOUNT_CODE = Some s1 → values f (tableName a) ACCOUNT_CODE_HASH = Some s2 → EmptyHash ≠ 0 → 0 <= Hash c < 2 ^ 256 →
  let f' := (setCode a c f).1 in
  (setCode a c f).2 = Ok tt ∧ (code a f').2 = Ok c ∧ (addressHasCode a f').2 = Ok (negb (Hash c =? EmptyHash)) ∧ (codeHash a f').2 = Ok 0.
Proof using recent.
  intros Hok Ho H1 H2 Hempty Hr f'. destruct (setCode_spec f a c s1 s2 Hok Ho H1 H2) as (f1 & E & Hh). unfold f'. rewrite E. cbn [fst snd]. split; [done|].
  pose proof (ho_open _ _ _ Hh a Ho) as Ho1.
  assert (V1 : values f1 (tableName a) ACCOUNT_CODE = Some (bytes_string c)) by (rewrite (ho_values _ _ _ Hh); unfold write; by rewrite String.eqb_refl).
  assert (V2 : values f1 (tableName a) ACCOUNT_CODE_HASH = Some (bytes_string (hashBytes 32 (Hash c)))) by (rewrite (ho_values _ _ _ Hh); unfold write; by rewrite String.eqb_refl).
  assert (Hz : h256_of (lenient_hex (bytes_string (hashBytes 32 (Hash c)))) = 0) by (apply lenient_hex_short; rewrite length_bytes_string; exact (zlen_toBigEndian 32 _)).
  destruct Ho1 as [t Ht]. split_and!.
  - rewrite (code_table f1 a t Ht), V1, V2 by (by apply (fo_table _ _ (so_factory _ (ho_ok _ _ _ Hh)))). unfold code_of. rewrite Hz, (proj2 (Z.eqb_neq 0 EmptyHash)) by done. by rewrite stringBytes_string.
  - unfold addressHasCode. rewrite (bind_ok _ _ _ _ _ (getTable_opened f1 a (mk_is_Some _ _ Ht))). destruct (first_row_table f1 a ACCOUNT_CODE_HASH t Ht) as (f2 & e & E2 & Hv & _).
    rewrite (bind_ok _ _ _ _ _ E2). rewrite V2 in Hv. destruct e as [e|]; [|done]. apply (Some_inj (getField STORAGE_VALUE e)) in Hv. rewrite Hv, (proj2 (Z.leb_le _ _) recent), stringBytes_string.
    by rewrite (h256_of_hashBytes _ Hr).
  - destruct (codeHash_table f1 a t Ht) as (f2 & -> & _). by rewrite V2, Hz.
Qed.

(** ** Undoing *)

Definition kept {A} (m : state A) : Prop := ∀ f, does db f (m f).1.
Lemma kept_ret {A} (x : A) : kept (mret x).
Proof. intros f. apply does_refl. Qed.
Lemma kept_fails {A} e : kept (@fails A e).
Proof. intros f. apply does_refl. Qed.
Lemma kept_bind {A B} (m : state A) (k : A → state B) : kept m → (∀ x, kept (k x)) → kept (m ≫= k).
Proof.
  intros Hm Hk f. specialize (Hm f). unfold mbind, state_bind. destruct (m f) as [f1 [x|e]]; [|exact Hm]. eapply does_trans; [exact Hm|apply Hk].
Qed.
Lemma kept_lift {A} (m : factory A) : (∀ f, does db f (m f).1) → kept (lift m).
Proof. intros Hm f. specialize (Hm f). unfold lift. by destruct (m f) as [f1 [x|e]]. Qed.
Lemma kept_getTable a : kept (getTable a).
Proof using recent. apply kept_lift. by apply does_open. Qed.
Lemma kept_first_row a key : kept (first_row a key).
Proof using recent. apply kept_bind; [apply kept_lift; by apply does_select_in|intros x; apply kept_ret]. Qed.
Lemma kept_parse s : kept (parse s).
Proof. unfold parse. case_match; [apply kept_ret|apply kept_fails]. Qed.
Lemma kept_done r : kept (done_or_throw r).
Proof. destruct r; [apply kept_ret|apply kept_fails]. Qed.
Lemma kept_update_row a key entry : kept (update_row a key entry).
Proof using recent.
  apply kept_bind; [|intros x; apply kept_done]. apply kept_lift. intros f. apply (does_run_table version db recent _ _ (OpUpdate key entry newCondition (mkOptions 0 false))); [done|].
  intros t. unfold update_op. cbn [run_op]. by destruct (Table.update _ _ _ _ _ _ _) as [[[]]|].
Qed.
Lemma kept_insert_row a key entry o : en_id entry = 0 → en_status entry = 0 → kept (insert_row a key entry o).
Proof using recent.
  intros Hid Hst. apply kept_bind; [|intros x; apply kept_done]. apply kept_lift. intros f. apply (does_run_table version db recent _ _ (OpInsert key entry o)); [done|].
  intros t. unfold insert_entry. cbn [run_op]. by destruct (Table.insert _ _ _ _) as [[[]]|].
Qed.
Lemma kept_createTable name kf vf flag origin : kept (lift (createTable version db name kf vf flag origin)).
Proof using recent. apply kept_lift. by apply does_create. Qed.
Create HintDb state.
Ltac kept_step :=
  lazymatch goal with
  | |- kept (mret _) => apply kept_ret
  | |- kept (fails _) => apply kept_fails
  | |- kept (getTable _) => apply kept_getTable
  | |- kept (first_row _ _) => apply kept_first_row
  | |- kept (parse _) => apply kept_parse
  | |- kept (update_row _ _ _) => apply kept_update_row
  | |- kept (insert_row _ _ _ _) => apply kept_insert_row; reflexivity
  | |- kept (lift (createTable _ _ _ _ _ _ _)) => apply kept_createTable
  | |- kept (_ ≫= _) => apply kept_bind; [|intros ?]
  | |- kept (match _ with _ => _ end) => case_match
  | |- kept _ => assumption || solve [auto with state]
  end.
Lemma kept_createAccount a n x : kept (createAccount a n x).
Proof using recent. unfold createAccount. repeat kept_step. Qed.
Lemma kept_startNonce : kept requireAccountStartNonce.
Proof. unfold requireAccountStartNonce. repeat kept_step. Qed.
Lemma kept_read_number a key d : kept (read_number a key d).
Proof using recent. unfold read_number. repeat kept_step. Qed.
#[local] Hint Resolve kept_createAccount kept_startNonce kept_read_number : state.
Lemma kept_addBalance a x : kept (addBalance a x).
Proof using recent. unfold addBalance. repeat kept_step. Qed.
Lemma kept_subBalance a x : kept (subBalance a x).
Proof using recent. unfold subBalance. repeat kept_step. Qed.
Lemma kept_codeHash a : kept (codeHash a).
Proof using recent. unfold codeHash. repeat kept_step. Qed.
#[local] Hint Resolve kept_codeHash : state.
Lemma run_state_op_does f op : (match op with SBack _ => False | _ => True end) → does db f (run_state_op f op).
Proof using recent.
  intros Hop. destruct op as [a x|a x|a x|a b x|a l v|a c|a|a|a|a n|a l|a|a|sp]; cbn [run_state_op]; [..|done].
  - exact (kept_addBalance a x f).
  - exact (kept_subBalance a x f).
  - revert f. fold (kept (setBalance a x)). unfold setBalance. repeat kept_step.
  - revert f. fold (kept (transferBalance a b x)). unfold transferBalance. apply kept_bind; [apply kept_subBalance|intros ?; apply kept_addBalance].
  - revert f. fold (kept (setStorage a l v)). unfold setStorage. repeat kept_step.
  - revert f. fold (kept (setCode a c)). unfold setCode. repeat kept_step.
  - revert f. fold (kept (kill a)). unfold kill. repeat kept_step.
  - revert f. fold (kept (createContract a)). unfold createContract. repeat kept_step.
  - revert f. fold (kept (incNonce a)). unfold incNonce. repeat kept_step.
  - revert f. fold (kept (setNonce a n)). unfold setNonce. repeat kept_step.
  - exact (kept_read_number a (u256_str l) 0 f).
  - revert f. fold (kept (code a)). unfold code. repeat kept_step.
  - revert f. fold (kept (accountNonemptyAndExisting a)). unfold accountNonemptyAndExisting, balance, getNonce. repeat kept_step.
Qed.
Lemma run_state_op_keeps f op : keeps_info f (run_state_op f op).
Proof using recent. destruct op; [apply run_state_op_does; done..|apply rollback_keeps_info]. Qed.
Lemma run_state_ops_keep ops f : keeps_info f (foldl run_state_op f ops).
Proof using recent.
  revert f. induction ops as [|op ops IH]; intros f n t Ht; [by exists t|]. destruct (run_state_op_keeps f op n t Ht) as (t1 & Ht1 & <-). by apply IH.
Qed.
Definition not_before (sp0 : nat) (op : state_op) : Prop := match op with SBack sp => (sp0 <= sp)%nat | _ => True end.
Lemma state_since f0 ops f :
  since db f0 f → Forall (not_before (savepoint f0)) ops → keys_ok db (foldl run_state_op f ops) → since db f0 (foldl run_state_op f ops).
Proof using recent.
  revert f. induction ops as [|op ops IH]; intros f Hs Hops Hk; [done|]. apply Forall_cons in Hops as [Hop Hops]. cbn [foldl] in *. apply IH; [|done|done].
  pose proof (keeps_info_keys db _ _ (run_state_ops_keep ops _) Hk) as Hk1. destruct op; try (eapply since_does; [exact Hs|by apply run_state_op_does|exact Hk1]). by apply since_back.
Qed.
(** C22. A transaction that is undone leaves no trace in the accounts that were open.
    Whatever the operations between a savepoint and the rollback to it did, transfers,
    storage, code, nonces, new and killed accounts, and rollbacks to later savepoints, and
    whether they succeeded or threw, each account that was open at the savepoint then
    answers for its storage, balance, nonce and code what it answered at the savepoint. *)
Theorem state_rollback f ops a l :
  factory_ok db f → opened f a → Forall (not_before (savepoint f)) ops → keys_ok db (foldl run_state_op f ops) →
  let f' := rollback (savepoint f) (foldl run_state_op f ops) in
  opened f' a ∧ (storage a l f').2 = (storage a l f).2 ∧ (balance a f').2 = (balance a f).2 ∧ (getNonce a f').2 = (getNonce a f).2 ∧ (code a f').2 = (code a f).2.
Proof using recent.
  intros Hok Ho Hops Hk f'. destruct (state_since f ops f (since_refl db f Hok) Hops Hk) as [Hok1 _ Hx]. fold f' in Hx.
  assert (Hok' : factory_ok db f') by (by apply rollback_factory_ok). destruct Ho as [t Ht]. specialize (Hx (tableName a)). rewrite Ht in Hx. destruct (mf_tables f' !! tableName a) as [t'|] eqn:E; [|done].
  assert (Hv : ∀ key, values f' (tableName a) key = values f (tableName a) key).
  { intros key. rewrite (values_open f' _ t' key E), (values_open f _ t key Ht). apply head_same. apply extends_select; [done|by apply (fo_table _ _ Hok)|by apply (fo_table _ _ Hok')|exact Hx]. }
  destruct (reads_spec f a l Hok (mk_is_Some _ _ Ht)) as (-> & -> & -> & ->). destruct (reads_spec f' a l Hok' (mk_is_Some _ _ E)) as (-> & -> & -> & ->). rewrite !Hv. by split; [exists t'|].
Qed.

(** An open account without the row of its balance takes and gives any amount. *)
Lemma no_balance_row f a x :
  factory_ok db f → opened f a → values f (tableName a) ACCOUNT_BALANCE = None →
  (addBalance a x f).2 = Ok tt ∧ (balance a (addBalance a x f).1).2 = Ok 0 ∧ (subBalance a x f).2 = Ok tt.
Proof using recent.
  intros Hok Ho Hv. pose proof (read_number_table f a ACCOUNT_BALANCE 0 Ho) as Hb. rewrite Hv in Hb. unfold addBalance, subBalance, balance.
  rewrite !(bind_ok _ _ _ _ _ (getTable_opened f a Ho)). destruct Ho as [t Ht]. destruct (first_row_table f a ACCOUNT_BALANCE t Ht) as (f1 & e & E & He & Ht1).
  rewrite !(bind_ok _ _ _ _ _ E). rewrite Hv in He. destruct e as [e|]; [done|]. destruct (x =? 0); [by split_and!|].
  rewrite (bind_ok _ _ _ _ _ (getTable_opened f a (mk_is_Some _ _ Ht))), (bind_ok _ _ _ _ _ E). split_and!; [done| |done]. cbn [mret state_ret fst].
  rewrite (read_number_table f1 a _ _ (mk_is_Some _ _ Ht1)), (values_open _ _ _ _ Ht1), (head_same _ _ (contents_select _ t _ _ (proj1 (fo_table _ _ Hok _ _ Ht)))).
  rewrite <- (values_open _ _ _ _ Ht), Hv. done.
Qed.
End state.


(** ** A sample *)

Definition decimal_str (z : Z) : string := DecimalString.NilZero.string_of_uint (N.to_uint (Z.to_N z)).
Definition decimal_of (s : string) : option Z := (λ d, Z.of_N (N.of_uint d)) <$> DecimalString.NilZero.uint_of_string s.
#[local] Instance decimal_text : U256Text := { u256_str := decimal_str; u256_of := decimal_of }.
Lemma decimal_read_back z : 0 <= z → decimal_of (decimal_str z) = Some z.
Proof.
  intros Hz. unfold decimal_of, decimal_str. rewrite DecimalString.NilZero.usu.
  - cbn [fmap option_fmap option_map]. by rewrite DecimalN.Unsigned.of_to, Z2N.id.
  - intros E. apply (f_equal N.of_uint) in E as E'. rewrite DecimalN.Unsigned.of_to in E'. cbn in E'. rewrite E' in E. discriminate E.
Qed.
Lemma decimal_laws : U256TextLaws.
Proof.
  split; [intros z Hz; apply decimal_read_back; lia|]. intros z Hz Hin. assert (Hnone : Forall (λ k, decimal_of k = None) account_keys) by (by repeat constructor).
  rewrite Forall_forall in Hnone. specialize (Hnone _ Hin). cbn in Hnone. rewrite decimal_read_back in Hnone by lia. done.
Qed.
#[local] Existing Instance toyCrypto.
#[local] Existing Instance decimal_laws.
Definition no_rows (name key : string) : list Entry := [].
Definition empty_factory : MemoryTableFactory2 := mkFactory ∅ [] 0 1.
Definition run_sample : MemoryTableFactory2 → list state_op → MemoryTableFactory2 := foldl (run_state_op V2_5_0 no_rows 0).
Definition two_accounts : MemoryTableFactory2 := run_sample empty_factory [SAddBalance 1 10; SAddBalance 2 5; SSetStorage 1 7 8].
Lemma no_rows_ok name kf : db_ok (no_rows name) kf.
Proof. split; [intros ? ? Hn|intros; by apply NoDup_nil|intros ? ? ? ? Hn|intros ? ? Hn]; by apply not_elem_of_nil in Hn. Qed.
Lemma empty_factory_ok : factory_ok no_rows empty_factory.
Proof. split; [intros name t Ht; cbn in Ht; by rewrite lookup_empty in Ht|intros ch Hc; by apply not_elem_of_nil in Hc]. Qed.
Lemma run_sample_ok ops : Forall (not_before 0) ops → factory_ok no_rows (run_sample empty_factory ops).
Proof.
  intros Hops. eapply si_ok, (state_since V2_5_0 no_rows 0 ltac:(done) empty_factory); [apply since_refl, empty_factory_ok|done|]. intros name t _. apply no_rows_ok.
Qed.
Lemma tableName_prefix a : String.prefix "c_" (tableName V2_5_0 a) = true.
Proof. unfold tableName. change (V2_2_0 <=? V2_5_0) with true. generalize (toHex (hashBytes 20 a)). by intros []. Qed.
Lemma two_accounts_ok : state_ok V2_5_0 no_rows two_accounts.
Proof.
  split; [apply run_sample_ok; by repeat constructor|]. intros a t Ht.
  assert (Hall : bool_decide (map_Forall (λ name t, String.prefix "c_" name = true → ti_key (mt_info t) = STORAGE_KEY ∧ STORAGE_KEY ∈ ti_fields (mt_info t) ∧ STORAGE_VALUE ∈ ti_fields (mt_info t)) (mf_tables two_accounts)) = true)
    by (vm_compute; reflexivity).
  apply bool_decide_eq_true in Hall. exact (Hall _ _ Ht (tableName_prefix a)).
Qed.
Lemma two_accounts_opened a : bool_decide (a ∈ [1; 2]) = true → opened V2_5_0 two_accounts a.
Proof.
  intros Ha%bool_decide_eq_true. apply (bool_decide_eq_true_1 (is_Some _)). repeat (apply elem_of_cons in Ha as [-> |Ha]; [vm_compute; reflexivity|]). by apply not_elem_of_nil in Ha.
Qed.
Lemma storage_read_back_witness :
  (storage V2_5_0 no_rows 1 7 (setStorage V2_5_0 no_rows 1 7 9 two_accounts).1).2 = Ok 9 ∧ (storage V2_5_0 no_rows 1 7 two_accounts).2 = Ok 8.
Proof.
  split; [|vm_compute; reflexivity].
  destruct (storage_read_back V2_5_0 no_rows 0 ltac:(done) two_accounts 1 1 7 7 9) as (_ & H1 & _); try (by apply two_accounts_opened); [exact two_accounts_ok|lia..|exact H1].
Defined.
Lemma transfer_moves_money_witness :
  (balance V2_5_0 no_rows 2 (transferBalance V2_5_0 no_rows 0 1 2 4 two_accounts).1).2 = Ok 9 ∧ (transferBalance V2_5_0 no_rows 0 1 2 11 two_accounts).2 = Throw NotEnoughCash.
Proof.
  split.
  - destruct (transfer_moves_money V2_5_0 no_rows 0 ltac:(done) two_accounts 1 2 2 4 10 5 "10" "5") as (_ & H1); try (by apply two_accounts_opened);
      [exact two_accounts_ok|lia|lia|lia|lia|lia|vm_compute; reflexivity|done|lia|vm_compute; reflexivity|done|lia|exact H1].
  - destruct (transfer_moves_money V2_5_0 no_rows 0 ltac:(done) two_accounts 1 2 2 11 10 5 "10" "5") as (H1 & _); try (by apply two_accounts_opened);
      [exact two_accounts_ok|lia|lia|lia|lia|lia|vm_compute; reflexivity|done|lia|vm_compute; reflexivity|done|lia|exact H1].
Defined.
Lemma code_read_back_witness : (code V2_5_0 no_rows 2 (setCode V2_5_0 no_rows 2 (stringBytes "code") two_accounts).1).2 = Ok (stringBytes "code").
Proof.
  destruct (code_read_back V2_5_0 no_rows ltac:(done) two_accounts 2 (stringBytes "code") EmptyString (bytes_string (hashBytes 32 7))) as (_ & H1 & _);
    [exact two_accounts_ok|by apply two_accounts_opened|vm_compute; reflexivity|vm_compute; reflexivity|done|apply toy_hash_range|exact H1].
Defined.
Definition undone_ops : list state_op := [SSetStorage 1 7 9; STransfer 1 2 4; STransfer 2 1 100; SBack 13; SSetCode 1 (stringBytes "code"); SKill 2; SCreateContract 3; SIncNonce 1].
Lemma state_rollback_witness :
  let f' := rollback (savepoint two_accounts) (run_sample two_accounts undone_ops) in
  (storage V2_5_0 no_rows 1 7 f').2 = (storage V2_5_0 no_rows 1 7 two_accounts).2 ∧ (balance V2_5_0 no_rows 1 f').2 = (balance V2_5_0 no_rows 1 two_accounts).2.
Proof.
  intros f'. destruct (state_rollback V2_5_0 no_rows 0 ltac:(done) two_accounts undone_ops 1 7) as (_ & H1 & H2 & _); [| | | |exact (conj H1 H2)].
  - exact (so_factory _ _ _ two_accounts_ok).
  - by apply two_accounts_opened.
  - by repeat constructor.
  - intros name t _. apply no_rows_ok.
Defined.

